(* ===== verification/_CoqProject ===== *)
-Q . S2P
Prelude.v
Text.v
Paths.v
Unicode.v
Calendar.v
Timestamp.v
CoreText.v
UnicodePlain.v
Uri.v
Json.v
JsonObject.v
JsonUtf8.v
JsonParser.v
Closure.v
AuthorProfile.v
AuthorLaws.v
MetadataCodec.v
Sha256.v
Authorship.v
AuthorshipLaws.v
AuthorshipProperties.v
AuthorshipExamples.v
Table.v
ObjectData.v
ObjectPackage.v
ObjectStore.v
ObjectInvariant.v
ObjectSteps.v
ObjectPublish.v
ObjectReach.v
ObjectValidate.v
ObjectSpec.v
ObjectPaths.v
ObjectProperties.v
ObjectKeys.v
ObjectQueries.v
WorkerPool.v
ObjectSource.v
ObjectBatchRead.v
ObjectInventory.v
TemporaryLease.v
LeaseProperties.v
Proc.v
ObjectPackager.v
PackagerLaws.v
ObjectAudit.v
AuditLaws.v
PackagerProperties.v
CatalogData.v
CatalogLaws.v
CatalogTables.v
CatalogStore.v
CatalogOpen.v
CatalogInvariant.v
CatalogSteps.v
CatalogReach.v
CatalogHistory.v
CatalogReading.v
CatalogCompanion.v
CatalogProperties.v
CatalogExamples.v
NativeFiles.v
NativeSave.v
NativeLaws.v
NativeSaveLaws.v
NativeProperties.v
OntologyData.v
OntologyCodec.v
OntologyStore.v
OntologyLaws.v
OntologySteps.v
OntologyJournal.v
OntologyReach.v
OntologyQueries.v
OntologyReading.v
OntologyTraversal.v
OntologyProperties.v
OntologyExamples.v
ObjectExamples.v
PackagerExamples.v
