(* ===== verification/Prelude.v ===== *)
(** * A verification of iiFileProvider

    iiFileProvider keeps files and what people say about them.  This library models the
    part of it that decides what is kept, who is named as its author, what can be found
    again and what a reader may rely on, and proves the theorems that make that part
    correct.  File names below are under src/; Rocq files are named with their stem.

    ** The program and its model

    - _The object store_ (src/Objects/ObjectStore.cpp, ObjectStore.h, ObjectSqlite_p.h) is
      a package: an SQLite database of objects with immutable revisions, content chunks
      named by their hash, work sessions, RAW originals with annotation documents, a compact
      index and a journal.  ObjectData has its records and the checks of what enters it;
      ObjectPackage the tables of objects.sqlite3, each SQL statement as a function with
      its constraints and triggers, and the private reads of [ObjectStore::Impl];
      ObjectStore every public operation ([beginSession] ... [extract]).  A [Store] is an
      opened package; an operation takes the outside's answers ([Env]: random bytes, the
      clock, the result of COMMIT; [SourceFile], [Destination]: a file as the file system
      shows it; the answers of stop tokens) and returns a result and the store after it.
      ObjectInvariant defines when a package is consistent ([wf]) and when one only adds
      to another ([extends]); ObjectSteps, ObjectPublish and ObjectReach prove it of each
      statement, of publication and of each operation; ObjectPaths says what happens to
      live paths; ObjectValidate relates the invariant to the package's own validation;
      ObjectSpec is the abstract specification (a map from keys to lists of versions) and
      the refinement; ObjectProperties, ObjectKeys and ObjectQueries have the theorems and
      ObjectExamples a concrete run.
    - _Documents_: MetadataCodec (src/Objects/ObjectMetadataCodec.cpp) encodes RAW
      envelopes and session contexts over Json, JsonObject and JsonUtf8, which model the
      value type, the object operations and the serializer of the bundled nlohmann::json
      as far as they are used; JsonParser is a parser that meets the laws asked of the
      library's one.
    - _Hashes_: Sha256 has the native streaming SHA-256 (Native/src/Crypto/Sha256.cpp) and
      the portable hash of the store (src/Objects/ObjectHash.cpp), at 32 and 64 bits, the
      standard itself (module [Fips]), and the interface [StreamHash] with its laws against which the store is proved.
    - _The semantic filesystem_ (src/Objects/OntologyFileSystem.cpp): classes, properties,
      entities, statements and saved queries in the same package.  OntologyData and
      OntologyCodec have its values and documents, OntologyStore the batches
      ([OntologyFileSystem::apply] with its incremental validation), OntologyQueries the
      reads; OntologyLaws, OntologySteps, OntologyJournal, OntologyReach, OntologyReading,
      OntologyTraversal and Closure (recursive SQL queries) carry the proofs,
      OntologyProperties the theorems, OntologyExamples a run.
    - _The package pipeline_: ObjectSource captures a file (src/Objects/ObjectSource.cpp),
      WorkerPool is the step relation of the threads, ObjectBatchRead reads and captures
      batches (src/Objects/ObjectBatchRead.cpp, ObjectSnapshotBatch.cpp), ObjectInventory
      walks the mapped trees and ObjectPackager packages them
      (src/Objects/ObjectPackager.cpp), ObjectAudit compares a package with its tree
      (src/Objects/ObjectAudit.cpp).  Proc is the monad of procedures that throw after
      effects; PackagerLaws and AuditLaws have its invariants, PackagerProperties the
      theorems, PackagerExamples a run.
    - _Authorship_ (Native/src/Core/Authorship.cpp): Timestamp over Calendar, CoreText over
      Unicode (the utf8proc primitives), Uri with its laws, AuthorProfile and Authorship
      (rosters); AuthorLaws and AuthorshipLaws have the laws, AuthorshipProperties the
      theorems, AuthorshipExamples concrete authors; UnicodePlain is an instance of the
      Unicode interface.
    - _The catalog_ (src/Catalog/FileCatalog.cpp): files of a directory with annotations
      people give them, collections and saved filters.  CatalogData has its records, the
      canonical forms and the documents; CatalogTables the tables of catalog.sqlite3 and
      their statements; CatalogStore every operation of [FileCatalog] in a world where
      other processes change files and commit to the database in between; CatalogOpen the
      constructor and the reading of companions without a catalog.  CatalogLaws
      proves the canonical forms, CatalogInvariant and CatalogSteps what the
      statements keep, CatalogReach what each operation keeps, CatalogHistory the
      histories of a catalog, CatalogReading what a search answers, CatalogCompanion what
      is published and read back.  CatalogExamples has
      a Unicode that meets the laws and a catalog that the theorems are applied to.
    - _Native files_ (Native/src/Core/File.cpp, Filesystem/AtomicSave.cpp,
      AtomicPublication.cpp, Device.cpp): NativeFiles has a disk on which every system call
      is a step that others can precede and that can be refused, and the operations that
      read, write, create, update and publish files; NativeSave has [AtomicSave] over the
      device it writes to.  NativeLaws and NativeSaveLaws follow a staged file to its
      destination, NativeProperties has the theorems and a small disk.
    - _Leases_ (src/Temporary/TemporaryLease.cpp): TemporaryLease is the constructor as
      steps of one lease between which others act, LeaseProperties the histories and the
      theorem, with writers and a cleaner on a small tree.
    - _Shared_: this file (bytes, machine integers, results, comparison of byte strings),
      Text (positions, decimal text), Paths ([std::filesystem::path]), Table (tables in key order, pages after a cursor).

    ** How code becomes definitions

    A [std::string] is a list of bytes; a machine integer is a [Z] whose wrap-around is
    written with [u8], [u32], [u64] or [i64]; a [std::map] or a table without an order
    that is read is a [gmap], a table read in key order a sorted list ([table]).
    Exceptions are the left side of [result]; [check] is the early exit.  A transaction
    returns the store before it when its body or its COMMIT fails: SQLite's rollback is
    taken, not proved.  Threads are a step
    relation; everything else is a function that evaluates.

    ** What the theorems show

    - The store refines its specification in every reachable state, keeps its invariant,
      never changes a recorded version, gives back the bytes it stored, refuses a stale
      head, finds a path exactly, chains revisions by keys that are evidence up to a
      hash collision, and pages through scans, histories, the index and the journal
      without loss or repetition.
    - Both hashes are FIPS 180-4 on every split of the input, and stop at its length
      limit.  The standard is stated apart from the code: constants from the roots of the
      primes, rotations as arithmetic, the schedule as a growing list.
    - The semantic filesystem keeps the ontology's rules in every reachable state, checks
      a batch incrementally as strictly as completely, commits by compare-and-swap, reads
      back its documents, answers queries, traversals and journal reads exactly, and accepts
      a page cursor only for the state and the query it was made for.
    - Packaging accounts for every entry or says which it does not; an audit without issues
      proves that the package mirrors the tree; worker threads change neither the result
      nor the end.
    - Timestamps, addresses, profiles and rosters are canonical within stated bounds.  A
      roster that was empty, read or changed in any way keeps the invariant of rosters; it
      is read back from its text exactly if its stored profiles and dates are, for which
      readable profiles and the years 0 to 9999 are enough; examples show that accepted
      authors and times outside these bounds can be lost.  The roster's own serializer
      agrees with the library's.
    - _Catalog_ (CatalogProperties).  In every history of opening, operations and
      failures, with consistent commits by other processes in between, the catalog is
      well formed: rows, index tables, the search table, memberships and pending writes
      agree with the classifications, which are canonical; every row decodes to an entry.
      An edit is a compare-and-swap on the revision of an entry; a registration stands
      for the file that is there and keeps the key of a known path, whose revision it
      counts up exactly if something differs; following the cursors of a
      search gives every file that meets the filter once, in order, where what the
      statement selects from the index tables is what the filter says of the
      classification; a publication writes the document of the entry beside the
      content it was registered for and over nothing it may not replace (said of names
      that no other process changes), and the document is read back as the same entry; canonical forms are
      fixed points and survive their documents; managed paths stay below the root.
    - _Native files_ (NativeProperties).  Whatever others do meanwhile and whichever call
      fails, a write, an exclusive creation, an update and a session of [AtomicSave] change
      their destination in one step, to the complete content, exactly if they report
      success.  Others are assumed to leave files with the names of staged files alone.
    - _Leases_ (LeaseProperties).  A locked lease holds the sentinel of its directory, and
      a cleaner's lease excludes every other one.

    ** Bounds and fuel

    A loop that is not structural takes fuel.  In each case a lemma shows the fuel given by
    the caller to be enough: reading loops consume at least one byte of a finite input per
    turn ([read_loop], [fill], [hash_stream]: length plus one), page loops at least one row
    ([read_pages_complete], [count_index_ends]), the packaging and audit loops at least one
    entry ([package_loop_spec], [audit_loop_ends]), [scalars] at least one byte, and the
    recursive queries add a row of a finite table per round (Closure).  The worker pool
    has no fuel: it is proved to stop within 4n + 2k steps for n files on k threads.

    ** What is not modelled

    - Parameters with laws instead of definitions: the tables of Unicode, the JSON parser
      and SQLite's JSON functions, time zones, the clock, random bytes, the file system and
      the answers of callbacks and stop tokens.  Real numbers in JSON documents keep their
      text; comparisons that mix stored reals and integers are outside the model.
    - SQLite itself beyond the statements used: locking, WAL recovery, query plans.  A
      progress handler's interrupt is seen at the next poll.  Key columns are limited to
      1024 bytes by the checks before them, so SQLite's own limit is only checked for
      documents.
    - The Windows and macOS branches of ObjectSource, and the removal of private copies in
      destructors.
    - The optional presentation component inside the catalog, and its Windows branches;
      the Qt search index beside it (Catalog/FileSearchIndex.cpp).
    - Of the native files: [File::remove] and [renameFileExclusive], which hand companions
      to the presentation component, temporary directories, the rest of [Device] (attached
      streams, reading, seeking, mapping) and the locks of [SourceAccess], which can only
      fail here.  A file is known under one spelling of its path, and a rename is a step of
      the disk: what a crash leaves of it is the file system's.
    - The Qt layer (Files, Identity), the native database wrapper and presentation code,
      the C and language bindings, tools and examples. *)
From Stdlib Require Export ZArith Lia.
From Stdlib Require Export Ascii.
From stdpp Require Export base tactics list gmap strings pretty fin_maps sorting.

(** ** Notations *)

Declare Scope provider_scope.
Delimit Scope provider_scope with prov.

(** A byte is an [ascii] (eight bits); [std::string], [std::string_view],
    [std::span<const std::byte>] and [std::vector<std::uint8_t>] are byte
    sequences. *)
Abbreviation byte := ascii (only parsing).
Abbreviation bytes := (list ascii).

(** A C++ string literal as a byte sequence. *)
Definition lit (s : string) : bytes := String.list_ascii_of_string s.

Local Open Scope Z_scope.

(** ** Machine integers *)

Definition UINT32_MAX : Z := 4294967295.
Definition INT32_MAX : Z := 2147483647.
Definition UINT64_MAX : Z := 18446744073709551615.
Definition INT64_MAX : Z := 9223372036854775807.

(** Wrap-around of unsigned arithmetic at 8, 32 and 64 bits. *)
Definition u8 (x : Z) : Z := Z.land x 255.
Definition u32 (x : Z) : Z := Z.land x UINT32_MAX.
Definition u64 (x : Z) : Z := Z.land x UINT64_MAX.

(** The number of bytes of a buffer, as a [std::size_t]. *)
Abbreviation len l := (Z.of_nat (length l)).

Lemma u8_mod x : u8 x = x mod 2 ^ 8.
Proof. unfold u8. change 255%Z with (Z.ones 8). by rewrite Z.land_ones by lia. Qed.

Lemma u32_mod x : u32 x = x mod 2 ^ 32.
Proof.
  unfold u32. change UINT32_MAX with (Z.ones 32). by rewrite Z.land_ones by lia.
Qed.

Lemma u64_mod x : u64 x = x mod 2 ^ 64.
Proof.
  unfold u64. change UINT64_MAX with (Z.ones 64). by rewrite Z.land_ones by lia.
Qed.

Lemma u8_range x : (0 <= u8 x < 256)%Z.
Proof. rewrite u8_mod. by apply Z.mod_pos_bound. Qed.

Lemma u32_range x : (0 <= u32 x < 2 ^ 32)%Z.
Proof. rewrite u32_mod. by apply Z.mod_pos_bound. Qed.

Lemma u32_small x : (0 <= x < 2 ^ 32)%Z → u32 x = x.
Proof. intros ?. rewrite u32_mod. by apply Z.mod_small. Qed.

Lemma u64_small x : (0 <= x <= UINT64_MAX)%Z → u64 x = x.
Proof.
  unfold UINT64_MAX. intros ?. rewrite u64_mod. apply Z.mod_small. lia.
Qed.

(** ** Bytes and integers *)

Definition byteZ (b : ascii) : Z := Z.of_N (N_of_ascii b).
Definition Zbyte (z : Z) : ascii := ascii_of_N (Z.to_N (u8 z)).

Lemma byteZ_range b : (0 <= byteZ b < 256)%Z.
Proof. unfold byteZ. pose proof (N_ascii_bounded b). lia. Qed.

Lemma byteZ_Zbyte z : byteZ (Zbyte z) = u8 z.
Proof.
  unfold byteZ, Zbyte. pose proof (u8_range z).
  rewrite N_ascii_embedding; lia.
Qed.

Lemma Zbyte_byteZ b : Zbyte (byteZ b) = b.
Proof.
  unfold Zbyte, byteZ. pose proof (N_ascii_bounded b).
  rewrite u8_mod, Z.mod_small by lia.
  rewrite N2Z.id. apply ascii_N_embedding.
Qed.

#[global] Instance byteZ_inj : Inj (=) (=) byteZ.
Proof.
  intros a b E. rewrite <-(Zbyte_byteZ a), <-(Zbyte_byteZ b). by f_equal.
Qed.

(** ** Results

    A C++ function that may throw, or that returns [std::expected], returns a
    [result]; [E] is the type of what is thrown. *)
Inductive result (E A : Type) : Type :=
  | Ok (a : A)
  | Err (e : E).
Arguments Ok {E A} _.
Arguments Err {E A} _.

#[export] Instance result_ret E : MRet (result E) := λ A a, Ok a.
#[export] Instance result_bind E : MBind (result E) := λ A B f m,
  match m with Ok a => f a | Err e => Err e end.

#[export] Instance result_eq_dec `{EqDecision E, EqDecision A} :
  EqDecision (result E A).
Proof. solve_decision. Defined.

(** [check b e] continues when [b] holds and throws [e] otherwise. *)
Definition check {E} (b : bool) (e : E) : result E unit :=
  if b then Ok tt else Err e.

Definition is_ok {E A} (r : result E A) : bool :=
  match r with Ok _ => true | Err _ => false end.

Definition of_option {E A} (e : E) (o : option A) : result E A :=
  match o with Some a => Ok a | None => Err e end.

(** A left-to-right loop whose body may throw. *)
Fixpoint fold_res {E A B} (f : B → A → result E B) (b : B) (l : list A) : result E B :=
  match l with
  | [] => Ok b
  | x :: l => b' ← f b x; fold_res f b' l
  end.

Lemma bind_ok {E A B} (m : result E A) (f : A → result E B) b :
  m ≫= f = Ok b ↔ ∃ a, m = Ok a ∧ f a = Ok b.
Proof.
  destruct m; simpl; split.
  - eauto.
  - by intros (? & [= <-] & ?).
  - done.
  - by intros (? & ? & ?).
Qed.

Lemma ok_inj {E A} (a b : A) : @Ok E A a = Ok b → a = b.
Proof. by intros [= ->]. Qed.

Lemma check_ok {E} b (e : E) u : check b e = Ok u ↔ b = true.
Proof. destruct b, u; simpl; split; congruence. Qed.

Lemma of_option_ok {E A} (e : E) (o : option A) a : of_option e o = Ok a ↔ o = Some a.
Proof. destruct o; simpl; split; congruence. Qed.

Lemma fold_res_app {E A B} (f : B → A → result E B) b l1 l2 :
  fold_res f b (l1 ++ l2) = (b' ← fold_res f b l1; fold_res f b' l2).
Proof.
  revert b. induction l1 as [|x l1 IH]; intros b; simpl; [done|].
  by destruct (f b x); simpl.
Qed.

(** A property kept by every successful iteration holds at the end. *)
Lemma fold_res_ind {E A B} (P : B → Prop) (f : B → A → result E B) b l b' :
  P b → (∀ c x c', x ∈ l → P c → f c x = Ok c' → P c') →
  fold_res f b l = Ok b' → P b'.
Proof.
  revert b. induction l as [|x l IH]; simpl; intros b Hb Hstep Hf.
  - by injection Hf as <-.
  - apply bind_ok in Hf as (c & Hc & Hf).
    apply (IH c); [|intros; eapply Hstep; [|done..]; by right|done].
    eapply Hstep; [by left|done..].
Qed.

(** Takes a successful computation apart into its successful steps. *)
Ltac inv_ok :=
  repeat match goal with
  | H : Ok _ = Ok _ |- _ => apply ok_inj in H;
      try match type of H with
      | _ = ?x => is_var x; subst x
      | ?x = _ => is_var x; subst x
      end
  | H : Err _ = Ok _ |- _ => discriminate H
  | H : (_ ≫= _) = Ok _ |- _ =>
      let a := fresh "a" in let H1 := fresh "H" in
      apply bind_ok in H as (a & H1 & H)
  | H : context [match ?a with (_, _) => _ end] |- _ => is_var a; destruct a; simpl in H
  | H : check _ _ = Ok _ |- _ => apply check_ok in H
  | H : negb _ = true |- _ => apply negb_true_iff in H
  | H : orb _ _ = false |- _ => apply orb_false_iff in H as [? ?]
  | H : bool_decide _ = true |- _ => apply bool_decide_eq_true in H
  | H : bool_decide _ = false |- _ => apply bool_decide_eq_false in H
  | H : of_option _ _ = Ok _ |- _ => apply of_option_ok in H
  | H : andb _ _ = true |- _ => apply andb_true_iff in H as [? ?]
  end.

(** Runs a computation forward along steps that are known to succeed. *)
Ltac replay_ok :=
  repeat (simpl; match goal with
  | E : ?m = Ok _ |- context [?m] => rewrite E
  | E : ?b = true |- context [check ?b _] => rewrite E
  | E : ?b = false |- context [check (negb ?b) _] => rewrite E
  | E : ?o = Some _ |- context [of_option _ ?o] => rewrite E
  end); simpl.

(** ** Decimal and hexadecimal text *)

(** [std::to_string] of an integer. *)
Definition to_string (n : Z) : bytes := lit (pretty n).

Lemma lit_inj s1 s2 : lit s1 = lit s2 → s1 = s2.
Proof.
  unfold lit. intros E.
  by rewrite <-(String.string_of_list_ascii_of_string s1), E,
    String.string_of_list_ascii_of_string.
Qed.

Lemma lit_app s1 s2 : lit (s1 +:+ s2) = lit s1 ++ lit s2.
Proof.
  unfold lit. induction s1 as [|c s1 IH]; [done|].
  change (String.list_ascii_of_string (String c (s1 +:+ s2)) =
    c :: String.list_ascii_of_string s1 ++ String.list_ascii_of_string s2).
  rewrite <-IH. done.
Qed.

#[global] Instance to_string_inj : Inj (=) (=) to_string.
Proof. intros a b E. apply lit_inj in E. by apply (inj pretty). Qed.

Definition is_digit (c : ascii) : bool := (48 <=? byteZ c) && (byteZ c <=? 57).

Lemma pretty_N_go_digits x s :
  Forall is_digit (lit s) → Forall is_digit (lit (pretty_N_go x s)).
Proof.
  revert s. induction (N.lt_wf_0 x) as [x _ IH]; intros s Hs.
  destruct (decide (x = 0)%N) as [->|]; [by rewrite pretty_N_go_0|].
  rewrite pretty_N_go_step by lia. apply IH; [apply N.div_lt; lia|].
  unfold lit. simpl. constructor; [|done].
  unfold pretty_N_char. by repeat case_match.
Qed.

Lemma to_string_digits n : 0 <= n → Forall is_digit (to_string n).
Proof.
  intros Hn. unfold to_string, pretty, pretty_Z. destruct n as [|p|p]; [|..|lia].
  - by constructor.
  - unfold pretty, pretty_positive, pretty, pretty_N. case_decide; [by constructor|].
    by apply pretty_N_go_digits.
Qed.

(** [constexpr char digits[] = "0123456789abcdef"]. *)
Definition hex_digit (n : Z) : ascii :=
  default "0"%char (lit "0123456789abcdef" !! Z.to_nat n).

Definition is_hex (c : ascii) : bool := bool_decide (c ∈ lit "0123456789abcdef").

Lemma hex_digit_is_hex n : is_hex (hex_digit n).
Proof.
  unfold is_hex, hex_digit. apply bool_decide_pack.
  destruct (lit "0123456789abcdef" !! Z.to_nat n) eqn:E; simpl.
  - by eapply list_elem_of_lookup_2.
  - vm_compute. by constructor.
Qed.

(** ** Fixed arrays

    [std::copy]/[std::fill] into an array: the bytes from [pos] on are replaced
    by [data]. *)
Definition splice {A} (arr : list A) (pos : nat) (data : list A) : list A :=
  take pos arr ++ data ++ drop (pos + length data) arr.

Lemma length_splice {A} (arr : list A) pos data :
  (pos + length data ≤ length arr)%nat → length (splice arr pos data) = length arr.
Proof. intros ?. unfold splice. rewrite !length_app, length_take, length_drop. lia. Qed.

Lemma take_splice {A} (arr : list A) pos data :
  (pos + length data ≤ length arr)%nat →
  take (pos + length data) (splice arr pos data) = take pos arr ++ data.
Proof.
  intros ?. unfold splice. rewrite app_assoc, take_app_le.
  - apply take_ge. rewrite length_app, length_take. lia.
  - rewrite length_app, length_take. lia.
Qed.

Lemma splice_all {A} (arr : list A) pos data :
  (pos + length data = length arr)%nat → splice arr pos data = take pos arr ++ data.
Proof. intros ?. unfold splice. rewrite (drop_ge arr) by lia. by rewrite app_nil_r. Qed.

Lemma take_splice_lt {A} (arr : list A) n pos data :
  (n ≤ pos)%nat → (pos ≤ length arr)%nat → take n (splice arr pos data) = take n arr.
Proof.
  intros ??. unfold splice. rewrite take_app_le by (rewrite length_take; lia).
  rewrite take_take. f_equal. lia.
Qed.

(** ** Ordering of byte strings

    [std::string::compare]: bytes are compared as unsigned characters. *)
Fixpoint bytes_compare (a b : bytes) : comparison :=
  match a, b with
  | [], [] => Eq
  | [], _ => Lt
  | _, [] => Gt
  | x :: a, y :: b =>
      match byteZ x ?= byteZ y with Eq => bytes_compare a b | c => c end
  end.

Definition bytes_ltb (a b : bytes) : bool :=
  match bytes_compare a b with Lt => true | _ => false end.
Definition bytes_leb (a b : bytes) : bool := negb (bytes_ltb b a).

Lemma bytes_compare_eq a b : bytes_compare a b = Eq ↔ a = b.
Proof.
  revert b. induction a as [|x a IH]; intros [|y b]; simpl; try done.
  destruct (Z.compare_spec (byteZ x) (byteZ y)) as [E|E|E].
  - apply (inj byteZ) in E as ->. rewrite IH. split; congruence.
  - split; [done|]. intros [= -> _]. lia.
  - split; [done|]. intros [= -> _]. lia.
Qed.

Lemma bytes_compare_antisym a b : bytes_compare b a = CompOpp (bytes_compare a b).
Proof.
  revert b. induction a as [|x a IH]; intros [|y b]; simpl; try done.
  rewrite (Z.compare_antisym (byteZ x)).
  by destruct (byteZ x ?= byteZ y); simpl.
Qed.

Lemma bytes_ltb_irrefl a : bytes_ltb a a = false.
Proof. unfold bytes_ltb. by rewrite (proj2 (bytes_compare_eq a a) eq_refl). Qed.

Lemma bytes_ltb_trans a b c : bytes_ltb a b → bytes_ltb b c → bytes_ltb a c.
Proof.
  unfold bytes_ltb. revert b c. induction a as [|x a IH]; intros [|y b] [|z c]; simpl; try done.
  destruct (Z.compare_spec (byteZ x) (byteZ y)) as [E1|E1|E1];
    destruct (Z.compare_spec (byteZ y) (byteZ z)) as [E2|E2|E2]; intros H1 H2; try done;
    destruct (Z.compare_spec (byteZ x) (byteZ z)) as [E3|E3|E3]; try done; try lia.
  by apply (IH b).
Qed.

Lemma bytes_ltb_total a b : a ≠ b → bytes_ltb a b = false → bytes_ltb b a = true.
Proof.
  unfold bytes_ltb. intros Hne. rewrite (bytes_compare_antisym a b).
  destruct (bytes_compare a b) eqn:E; simpl; try done.
  by apply bytes_compare_eq in E.
Qed.

Lemma bytes_leb_cases a b : bytes_leb a b = true ↔ a = b ∨ bytes_ltb a b = true.
Proof.
  unfold bytes_leb. rewrite negb_true_iff. split.
  - intros E. destruct (decide (b = a)) as [->|Hne]; [by left|right]. by apply bytes_ltb_total.
  - intros [->|E]; [apply bytes_ltb_irrefl|]. destruct (bytes_ltb b a) eqn:E2; [|done].
    rewrite <-(bytes_ltb_irrefl a). symmetry. apply Is_true_true, (bytes_ltb_trans _ b); by apply Is_true_true.
Qed.

Lemma bytes_leb_refl a : bytes_leb a a = true.
Proof. apply bytes_leb_cases. by left. Qed.

Lemma bytes_leb_trans a b c : bytes_leb a b = true → bytes_leb b c = true → bytes_leb a c = true.
Proof.
  rewrite !bytes_leb_cases. intros [->|H1] [->|H2]; auto. right.
  apply Is_true_true, (bytes_ltb_trans _ b); by apply Is_true_true.
Qed.

#[export] Instance bytes_leb_total : Total (λ a b, bytes_leb a b = true).
Proof.
  intros a b. rewrite !bytes_leb_cases. destruct (decide (a = b)) as [->|Hne]; [left; by left|].
  destruct (bytes_ltb a b) eqn:E; [left; by right|right; right; by apply bytes_ltb_total].
Qed.

(** The facts that close the common side conditions. *)
Create HintDb provider.
#[export] Hint Resolve bytes_leb_refl bytes_ltb_irrefl : provider.

(** ** Containment of text *)

(** [s.find(c) != npos]. *)
Definition has_byte (c : ascii) (s : bytes) : bool := bool_decide (c ∈ s).

(** [s.starts_with(p)]. *)
Definition starts_with (p s : bytes) : bool := bool_decide (take (length p) s = p).

(** Joins with a separator. *)
Fixpoint join (sep : bytes) (l : list bytes) : bytes :=
  match l with
  | [] => []
  | [x] => x
  | x :: l => x ++ sep ++ join sep l
  end.
