(* ===== verification/Text.v ===== *)
(** Operations of the C++ standard library on byte strings that several
    components use: positions and substrings, [std::from_chars], zero-padded
    decimal printing, and the laws of decimal text. *)
From S2P Require Import Prelude.
Local Open Scope Z_scope.

(** ** Positions *)

(** [s[i]]; a NUL outside the string, where the callers never look. *)
Definition byte_at (s : bytes) (i : nat) : ascii := nth i s (Zbyte 0).

(** [s.substr(pos, n)] with [pos <= s.size()]. *)
Definition substr (s : bytes) (pos n : nat) : bytes := take n (drop pos s).

(** The position of the first byte that satisfies [p]: [find], [find_first_of]. *)
Fixpoint find_byte (p : ascii → bool) (s : bytes) : option nat :=
  match s with
  | [] => None
  | c :: s => if p c then Some O else S <$> find_byte p s
  end.

Definition is_char (c : ascii) : ascii → bool := λ x, bool_decide (x = c).
Definition one_of (set : string) : ascii → bool := λ x, bool_decide (x ∈ lit set).

(** [s.ends_with(p)]. *)
Definition ends_with (p s : bytes) : bool :=
  (length p <=? length s)%nat && bool_decide (drop (length s - length p) s = p).

Lemma find_byte_Some p s n : find_byte p s = Some n →
  (n < length s)%nat ∧ p (byte_at s n) = true ∧ ∀ i, (i < n)%nat → p (byte_at s i) = false.
Proof.
  revert n. induction s as [|c s IH]; intros n E; simpl in E; [done|].
  destruct (p c) eqn:Hc.
  - injection E as <-. unfold byte_at. simpl. split_and!; [lia|done|lia].
  - destruct (find_byte p s) as [m|]; [|done]. injection E as <-.
    destruct (IH m eq_refl) as (Hm & Hp & Hlt). unfold byte_at in *. simpl.
    split_and!; [lia|done|]. intros [|i] Hi; [done|]. apply Hlt. lia.
Qed.

Lemma find_byte_None p s : find_byte p s = None ↔ Forall (λ c, p c = false) s.
Proof.
  induction s as [|c s IH]; simpl; [by split|].
  rewrite Forall_cons. destruct (p c) eqn:Hc.
  - split; [done|]. by intros [[=] _].
  - rewrite <-IH. destruct (find_byte p s); simpl; split; [done|by intros []|done|done].
Qed.

(** ** Decimal text *)

Definition digit_value (c : ascii) : Z := byteZ c - 48.

Definition decimal_value (s : bytes) : Z := foldl (λ n c, 10 * n + digit_value c) 0 s.

(** The digits a text starts with. *)
Fixpoint span_digits (s : bytes) : nat :=
  match s with
  | c :: s => if is_digit c then S (span_digits s) else O
  | [] => O
  end.

(** [std::from_chars] to an integer of the range [lo..hi]: the value and what is
    left of the text, nothing when no number is there or it is out of range.  A
    minus sign is taken only for a signed type. *)
Definition from_chars (lo hi : Z) (s : bytes) : option (Z * bytes) :=
  let '(sign, s) :=
    match s with
    | c :: s' => if (lo <? 0) && bool_decide (c = "-"%char) then (-1, s') else (1, s)
    | [] => (1, [])
    end in
  let n := span_digits s in
  if bool_decide (n = O) then None else
  let z := sign * decimal_value (take n s) in
  if (lo <=? z) && (z <=? hi) then Some (z, drop n s) else None.

(** [printf("%0wd")] of an integer. *)
Definition pad (w : nat) (z : Z) : bytes :=
  let zeros n s := replicate (n - length s) "0"%char ++ s in
  if z <? 0 then "-"%char :: zeros (w - 1)%nat (to_string (- z)) else zeros w (to_string z).

Lemma decimal_value_app s t :
  decimal_value (s ++ t) = decimal_value s * 10 ^ len t + decimal_value t.
Proof.
  unfold decimal_value. rewrite foldl_app. generalize (foldl (λ n c, 10 * n + digit_value c) 0 s).
  induction t as [|c t IH] using rev_ind; intros a.
  - simpl. rewrite Z.pow_0_r. lia.
  - rewrite !foldl_app, IH, length_app. simpl. rewrite Nat2Z.inj_add, Z.pow_add_r by lia.
    change (10 ^ Z.of_nat 1) with 10. lia.
Qed.

Lemma digit_value_range c : is_digit c → 0 <= digit_value c <= 9.
Proof.
  unfold is_digit, digit_value. intros Hd. apply Is_true_true, andb_true_iff in Hd as [H1 H2].
  apply Z.leb_le in H1, H2. lia.
Qed.

Lemma decimal_value_cons c s :
  decimal_value (c :: s) = digit_value c * 10 ^ len s + decimal_value s.
Proof.
  change (c :: s) with ([c] ++ s). rewrite decimal_value_app. f_equal.
Qed.

Lemma decimal_value_range s : Forall is_digit s → 0 <= decimal_value s < 10 ^ len s.
Proof.
  induction 1 as [|c s Hc _ IH]; [by vm_compute|].
  rewrite decimal_value_cons, length_cons, Nat2Z.inj_succ, Z.pow_succ_r by lia.
  apply digit_value_range in Hc. nia.
Qed.

Lemma span_digits_all s : Forall is_digit s → span_digits s = length s.
Proof.
  induction 1 as [|c s Hc _ IH]; [done|]. simpl.
  rewrite (Is_true_eq_true _ Hc). by rewrite IH.
Qed.

Lemma minus_not_digit : ¬ is_digit "-"%char.
Proof. by vm_compute. Qed.

Lemma from_chars_digits lo hi s : s ≠ [] → Forall is_digit s → lo <= 0 → decimal_value s <= hi →
  from_chars lo hi s = Some (decimal_value s, []).
Proof.
  intros Hne Hs Hlo Hhi. pose proof (decimal_value_range _ Hs) as Hr. unfold from_chars.
  destruct s as [|c s]; [done|]. pose proof (Forall_cons_1 _ _ _ Hs) as [Hc _].
  rewrite (bool_decide_false (c = "-"%char)) by (intros ->; by apply minus_not_digit).
  rewrite andb_false_r. rewrite span_digits_all by done.
  rewrite bool_decide_false by done. rewrite take_ge, drop_ge by done.
  rewrite (Z.mul_1_l (decimal_value _)).
  rewrite (proj2 (Z.leb_le _ _)) by lia. by rewrite (proj2 (Z.leb_le _ _)) by lia.
Qed.

(** Equal-length decimal texts compare as their values. *)
Lemma bytes_compare_digits a b : length a = length b → Forall is_digit a → Forall is_digit b →
  bytes_compare a b = (decimal_value a ?= decimal_value b).
Proof.
  intros Hlen Ha. revert b Hlen. induction Ha as [|x a Hx Ha IH]; intros [|y b] Hlen Hb; try done.
  apply Forall_cons in Hb as [Hy Hb]. injection Hlen as Hlen. simpl.
  rewrite !decimal_value_cons, IH, <-Hlen by done.
  pose proof (decimal_value_range _ Ha). pose proof (decimal_value_range _ Hb).
  rewrite <-Hlen in *. set (P := 10 ^ len a) in *.
  replace (byteZ x) with (digit_value x + 48) by (unfold digit_value; lia).
  replace (byteZ y) with (digit_value y + 48) by (unfold digit_value; lia).
  symmetry. destruct (Z.compare_spec (digit_value x + 48) (digit_value y + 48)) as [E|E|E].
  - assert (digit_value x = digit_value y) as -> by lia. apply Z.add_compare_mono_l.
  - apply Z.compare_lt_iff. nia.
  - apply Z.compare_gt_iff. nia.
Qed.

(** Shared fronts and equal-length parts compare part by part. *)
Lemma bytes_compare_app a b x y : length a = length b →
  bytes_compare (a ++ x) (b ++ y) =
    match bytes_compare a b with Eq => bytes_compare x y | c => c end.
Proof.
  revert b. induction a as [|c a IH]; intros [|d b] Hlen; try done.
  injection Hlen as Hlen. simpl. rewrite IH by done. by destruct (_ ?= _).
Qed.

(** ** Printing *)

Lemma pretty_value x s :
  decimal_value (lit (pretty_N_go x s)) = Z.of_N x * 10 ^ len (lit s) + decimal_value (lit s).
Proof.
  revert s. induction (N.lt_wf_0 x) as [x _ IH]; intros s.
  destruct (decide (x = 0)%N) as [->|]; [by rewrite pretty_N_go_0|].
  rewrite pretty_N_go_step by lia. rewrite IH by (apply N.div_lt; lia).
  change (lit (String (pretty_N_char (x `mod` 10)) s)) with (pretty_N_char (x `mod` 10) :: lit s).
  rewrite decimal_value_cons, length_cons, Nat2Z.inj_succ, Z.pow_succ_r by lia.
  assert (digit_value (pretty_N_char (x `mod` 10)) = Z.of_N (x `mod` 10)) as ->.
  { assert (x `mod` 10 < 10)%N as Hlt by (apply N.mod_lt; lia).
    generalize dependent (x `mod` 10)%N. intros d Hd. clear -Hd.
    destruct d as [|p]; [done|]. do 4 (destruct p as [p|p|]; try done; try lia). }
  assert (Z.of_N x = 10 * Z.of_N (x / 10) + Z.of_N (x `mod` 10)) as Hx
    by (pose proof (N.div_mod x 10 ltac:(lia)); lia).
  rewrite Hx. ring.
Qed.

Lemma to_string_value z : 0 <= z → decimal_value (to_string z) = z.
Proof.
  intros Hz. unfold to_string, pretty, pretty_Z. destruct z as [|p|p]; [done| |lia].
  unfold pretty, pretty_positive, pretty, pretty_N. case_decide; [done|].
  rewrite pretty_value. change (lit "") with (@nil ascii).
  change (10 ^ len (@nil ascii)) with 1. change (decimal_value []) with 0. lia.
Qed.

Lemma decimal_value_zeros n s : decimal_value (replicate n "0"%char ++ s) = decimal_value s.
Proof.
  induction n as [|n IH]; [done|]. simpl. rewrite decimal_value_cons, IH. by change (digit_value "0") with 0.
Qed.

Lemma pad_value w z : 0 <= z → decimal_value (pad w z) = z.
Proof.
  intros Hz. unfold pad. destruct (Z.ltb_spec z 0); [lia|]. cbv zeta beta.
  by rewrite decimal_value_zeros, to_string_value.
Qed.

Lemma pad_digits w z : 0 <= z → Forall is_digit (pad w z).
Proof.
  intros Hz. unfold pad. destruct (Z.ltb_spec z 0); [lia|]. cbv zeta beta.
  apply Forall_app. split; [|by apply to_string_digits]. apply Forall_replicate. by vm_compute.
Qed.

Lemma pretty_length x s : x ≠ 0%N → ∃ k,
  length (lit (pretty_N_go x s)) = (length (lit s) + S k)%nat ∧ 10 ^ Z.of_nat k <= Z.of_N x.
Proof.
  revert s. induction (N.lt_wf_0 x) as [x _ IH]; intros s Hx.
  rewrite pretty_N_go_step by lia. set (c := pretty_N_char _).
  pose proof (N.div_mod x 10 ltac:(lia)) as Hdiv.
  destruct (decide (x / 10 = 0)%N) as [E|E].
  - rewrite E, pretty_N_go_0. exists O.
    change (length (lit (String c s))) with (S (length (lit s))). split; [lia|]. simpl. lia.
  - destruct (IH (x / 10)%N ltac:(apply N.div_lt; lia) (String c s) E) as (k & Hk & Hle).
    change (length (lit (String c s))) with (S (length (lit s))) in Hk.
    exists (S k). split; [lia|]. rewrite Nat2Z.inj_succ, Z.pow_succ_r by lia.
    generalize dependent (10 ^ Z.of_nat k). intros P HP.
    trans (10 * Z.of_N (x / 10)); [apply Z.mul_le_mono_nonneg_l; [done|exact HP]|].
    pose proof (N2Z.is_nonneg (x `mod` 10)). clear -Hdiv H. lia.
Qed.

Lemma to_string_length w z : 0 <= z < 10 ^ Z.of_nat w → (0 < w)%nat → (length (to_string z) <= w)%nat.
Proof.
  intros Hz Hw. unfold to_string, pretty, pretty_Z.
  destruct z as [|p|p]; [change (1 <= w)%nat; lia| |lia].
  unfold pretty, pretty_positive, pretty, pretty_N. case_decide as E; [done|].
  destruct (pretty_length _ "" E) as (k & Hk & Hle). rewrite Hk. change (length (lit "")) with O.
  assert (10 ^ Z.of_nat k < 10 ^ Z.of_nat w) as Hlt by lia.
  apply Z.pow_lt_mono_r_iff in Hlt; lia.
Qed.

(** Decimal numbers have no leading zero. *)
Lemma to_string_lead z : 0 < z → ∃ c l, to_string z = c :: l ∧ c ≠ "0"%char.
Proof.
  intros Hz. pose proof (to_string_digits z ltac:(lia)) as Hd.
  pose proof (to_string_value z ltac:(lia)) as Hv. revert Hd Hv.
  unfold to_string, pretty, pretty_Z. destruct z as [|p|p]; [lia| |lia].
  unfold pretty, pretty_positive, pretty, pretty_N. case_decide as E; [done|].
  destruct (pretty_length (N.pos p) "" E) as (k & Hk & Hle). change (length (lit "")) with O in Hk.
  intros Hd Hv. destruct (lit (pretty_N_go (N.pos p) "")) as [|c l]; [done|].
  exists c, l. split; [done|]. intros ->. simpl in Hk. injection Hk as Hk.
  apply Forall_cons in Hd as [_ Hd]. rewrite decimal_value_cons in Hv.
  change (digit_value "0") with 0 in Hv. pose proof (decimal_value_range _ Hd) as Hr.
  rewrite Hk in Hr. lia.
Qed.

Lemma pad_length w z : 0 <= z < 10 ^ Z.of_nat w → (0 < w)%nat → length (pad w z) = w.
Proof.
  intros Hz Hw. pose proof (to_string_length w z Hz Hw). unfold pad.
  destruct (Z.ltb_spec z 0); [lia|]. cbv zeta beta. rewrite length_app, length_replicate. lia.
Qed.
