(* ===== verification/Paths.v ===== *)
(** What the program uses of [std::filesystem::path]: the names of a path, its lexical
    normal form, its parent, its last name and extension, and how paths are joined, with the laws
    of these.  Paths are byte strings; separators are slashes. *)
From S2P Require Import Prelude Text.
Local Open Scope Z_scope.

(** ** Names and normal forms *)

(** The file names of a path without a root: separators in a row count once, and a
    last separator is followed by an empty name. *)
Fixpoint split_slashes (s : bytes) : list bytes :=
  match s with
  | [] => [[]]
  | c :: s =>
      if bool_decide (c = "/"%char) then [] :: split_slashes s else
      match split_slashes s with part :: parts => (c :: part) :: parts | [] => [[c]] end
  end.

Definition path_names (s : bytes) : list bytes :=
  let parts := split_slashes s in
  filter (λ p, p ≠ []) (removelast parts) ++ match last parts with Some p => [p] | None => [] end.

(** [fs::path::lexically_normal] of a path without a root; [above] holds the names
    kept, the last first. *)
Fixpoint normal_names (above : list bytes) (separator : bool) (names : list bytes) : list bytes * bool :=
  match names with
  | [] => (above, separator)
  | name :: names =>
      if bool_decide (name = []) || bool_decide (name = lit ".") then normal_names above true names else
      if bool_decide (name = lit "..") then
        match above with
        | top :: above' =>
            if bool_decide (top = lit "..") then normal_names (name :: above) false names
            else normal_names above' true names
        | [] => normal_names [name] false names
        end
      else normal_names (name :: above) false names
  end.

Definition lexically_normal (s : bytes) : bytes :=
  match normal_names [] false (path_names s) with
  | ([], _) => lit "."
  | (top :: above, separator) =>
      join (lit "/") (reverse (top :: above)) ++
      (if separator && negb (bool_decide (top = lit "..")) then lit "/" else [])
  end.

(** [lexically_normal] of an absolute path: there is nothing above the root. *)
Definition root_normal (asset : bytes) : bytes :=
  let '(above, separator) := normal_names [] false (path_names (drop 1 asset)) in
  let names := filter (λ n, n ≠ lit "..") above in
  lit "/" ++ join (lit "/") (reverse names) ++
  (if separator && negb (bool_decide (names = [])) then lit "/" else []).

(** ** Parts *)

(** [at / name] and [path + suffix]. *)
Definition slash (at_ name : bytes) : bytes :=
  if ends_with (lit "/") at_ then at_ ++ name else at_ ++ lit "/" ++ name.

(** [path.parent_path()] of a path below the root. *)
Definition parent_of (path : bytes) : bytes :=
  match find_byte (is_char "/"%char) (reverse path) with
  | Some n => reverse (drop (S n) (reverse path))
  | None => []
  end.

(** [path.parent_path()], the root's own parent being the root: the separators before
    the last name do not belong to it. *)
Fixpoint drop_slashes (s : bytes) : bytes :=
  match s with "/"%char :: s => drop_slashes s | _ => s end.

Definition parent_path (path : bytes) : bytes :=
  match find_byte (is_char "/"%char) (reverse path) with
  | Some n =>
      let parent := reverse (drop_slashes (drop n (reverse path))) in
      if bool_decide (parent = []) then lit "/" else parent
  | None => []
  end.

(** [path.filename()]. *)
Definition filename (path : bytes) : bytes :=
  match find_byte (is_char "/"%char) (reverse path) with
  | Some n => reverse (take n (reverse path))
  | None => path
  end.

(** [path.extension()]: from the last dot of the last name, if it is not its first
    character. *)
Definition extension (path : bytes) : bytes :=
  let name := filename path in
  if bool_decide (name = lit "..") then [] else
  match find_byte (is_char "."%char) (reverse name) with
  | Some n => if (S n =? length name)%nat then [] else drop (length name - S n) name
  | None => []
  end.

Example parent_of_file : parent_path (lit "/a//b.jpg") = lit "/a".
Proof. reflexivity. Qed.
Example parent_of_first : parent_path (lit "/a") = lit "/".
Proof. reflexivity. Qed.
Example extension_of_file : extension (lit "/a.b/c.tar.gz") = lit ".gz" ∧ extension (lit "/.rc") = [].
Proof. by split. Qed.

(** * Laws *)

(** ** Names and normal forms *)

Lemma split_slashes_last s : ∃ parts part, split_slashes s = parts ++ [part].
Proof.
  destruct (split_slashes s) as [|p ps] eqn:E using rev_ind; [|by eexists _, _].
  exfalso. destruct s as [|c s]; cbn in E; [done|]. case_bool_decide; [done|]. by destruct (split_slashes s).
Qed.

Lemma split_slashes_join s : join (lit "/") (split_slashes s) = s.
Proof.
  induction s as [|c s IH]; [done|]. cbn [split_slashes].
  destruct (split_slashes_last s) as (parts & part & E). case_bool_decide as Hc.
  - subst c. rewrite <-IH at 2. rewrite E. by destruct parts.
  - rewrite E in *. destruct parts as [|p ps]; cbn [app join] in *.
    + by rewrite IH.
    + destruct (ps ++ [part]) eqn:Ep; [by destruct ps|]. rewrite <-IH. done.
Qed.

Lemma split_slashes_clean s : Forall (λ p, "/"%char ∉ p) (split_slashes s).
Proof.
  induction s as [|c s IH]; cbn [split_slashes]; [repeat constructor; set_solver|].
  case_bool_decide as Hc; [constructor; [set_solver|done]|].
  destruct IH as [|p ps Hp Hps]; [repeat constructor; set_solver|]. constructor; [set_solver|done].
Qed.

(** A name that is neither empty nor a step up or in place. *)
Definition plain_name (p : bytes) : Prop := p ≠ [] ∧ p ≠ lit "." ∧ p ≠ lit "..".

Lemma normal_plain above separator names : Forall plain_name names →
  (normal_names above separator names).1 = reverse names ++ above ∧
  (names ≠ [] → (normal_names above separator names).2 = false).
Proof.
  intros Hn. revert above separator. induction Hn as [|p names (H1 & H2 & H3) Hn IH]; intros above separator; [done|].
  cbn [normal_names]. rewrite !bool_decide_false by done. cbn [orb]. destruct (IH (p :: above) false) as [E1 E2].
  rewrite E1, reverse_cons, <-app_assoc. split; [done|]. intros _. destruct names; [done|by apply E2].
Qed.

Lemma lexically_plain s : Forall plain_name (path_names s) → path_names s ≠ [] →
  lexically_normal s = join (lit "/") (path_names s).
Proof.
  intros Hn Hne. unfold lexically_normal. destruct (normal_plain [] false _ Hn) as [E1 E2]. specialize (E2 Hne).
  destruct (normal_names [] false (path_names s)) as [above sep]. cbn [fst snd] in *. subst sep.
  rewrite app_nil_r in E1. destruct above as [|top above].
  - apply (f_equal reverse) in E1. by rewrite reverse_involutive in E1.
  - rewrite E1, reverse_involutive. cbn [andb]. by rewrite app_nil_r.
Qed.

Lemma split_slashes_name p s : "/"%char ∉ p → split_slashes (p ++ "/"%char :: s) = p :: split_slashes s.
Proof.
  induction p as [|c p IH]; intros Hp; cbn [app split_slashes].
  - by rewrite bool_decide_true by done.
  - rewrite bool_decide_false by set_solver. by rewrite IH by set_solver.
Qed.

Lemma split_slashes_single p : "/"%char ∉ p → split_slashes p = [p].
Proof.
  induction p as [|c p IH]; intros Hp; [done|]. cbn [split_slashes].
  rewrite bool_decide_false by set_solver. by rewrite IH by set_solver.
Qed.

Lemma split_slashes_of_join l : l ≠ [] → Forall (λ p, "/"%char ∉ p) l → split_slashes (join (lit "/") l) = l.
Proof.
  intros Hne Hl. induction Hl as [|p l Hp Hl IH]; [done|]. destruct l as [|q l].
  - by apply split_slashes_single.
  - change (join (lit "/") (p :: q :: l)) with (p ++ "/"%char :: join (lit "/") (q :: l)).
    rewrite split_slashes_name by done. by rewrite IH.
Qed.

Lemma path_names_part s p : p ∈ path_names s → p ∈ split_slashes s.
Proof.
  unfold path_names. destruct (split_slashes_last s) as (parts & part & ->).
  rewrite removelast_last, last_snoc. rewrite !elem_of_app, list_elem_of_filter. naive_solver.
Qed.

Lemma path_names_nonempty s : path_names s ≠ [].
Proof.
  unfold path_names. destruct (split_slashes_last s) as (parts & part & ->). rewrite last_snoc.
  by destruct (filter _ _).
Qed.

(** In canonical form no separator is doubled, so the names are all the parts. *)
Lemma canonical_parts s : Forall plain_name (path_names s) → lexically_normal s = s →
  path_names s = split_slashes s.
Proof.
  intros Hn Hc. rewrite <-Hc at 2. rewrite (lexically_plain s Hn) by apply path_names_nonempty.
  rewrite split_slashes_of_join; [done|apply path_names_nonempty|].
  apply Forall_forall. intros p Hp%path_names_part.
  pose proof (split_slashes_clean s) as Hs. rewrite Forall_forall in Hs. by apply Hs.
Qed.

(** ** Last names and parents *)

Lemma find_byte_app_l p s t n : find_byte p s = Some n → find_byte p (s ++ t) = Some n.
Proof.
  revert n. induction s as [|c s IH]; intros n; [done|]. cbn. destruct (p c); [done|].
  destruct (find_byte p s) as [m|]; [|done]. intros [= <-]. by rewrite (IH m).
Qed.

Lemma find_byte_app_r p s t : Forall (λ c, p c = false) s → find_byte p (s ++ t) = Nat.add (length s) <$> find_byte p t.
Proof.
  induction 1 as [|c s Hc _ IH]; cbn; [by destruct (find_byte p t)|]. rewrite Hc, IH. by destruct (find_byte p t).
Qed.

Definition no_slash (s : bytes) : Prop := "/"%char ∉ s.

Lemma no_slash_find s : no_slash s → Forall (λ c, is_char "/"%char c = false) s.
Proof. intros Hs. apply Forall_forall. intros c Hc. apply bool_decide_eq_false. by intros ->. Qed.

Lemma filename_slash at_ name : no_slash name → filename (slash at_ name) = name.
Proof.
  intros Hn. assert (∀ pre, filename (pre ++ lit "/" ++ name) = name) as Hf.
  { intros pre. unfold filename. rewrite reverse_app, reverse_app, <-app_assoc.
    rewrite find_byte_app_r by (apply no_slash_find; unfold no_slash; by rewrite elem_of_reverse).
    change (reverse (lit "/") ++ reverse pre) with ("/"%char :: reverse pre). cbn [find_byte].
    change (is_char "/"%char "/"%char) with true. cbn [fmap option_fmap option_map].
    rewrite Nat.add_0_r, take_app_length, reverse_involutive. done. }
  unfold slash. destruct (ends_with (lit "/") at_) eqn:E; [|apply Hf].
  unfold ends_with in E. apply andb_true_iff in E as [_ E]. apply bool_decide_eq_true in E.
  rewrite <-(take_drop (length at_ - length (lit "/")) at_), E, <-app_assoc. apply Hf.
Qed.

Lemma filename_app s t : no_slash t → filename (s ++ t) = filename s ++ t.
Proof.
  intros Ht. unfold filename. rewrite reverse_app.
  rewrite find_byte_app_r by (apply no_slash_find; unfold no_slash; by rewrite elem_of_reverse).
  destruct (find_byte _ (reverse s)) as [n|]; cbn [fmap option_fmap option_map]; [|done].
  by rewrite take_app_add, reverse_app, reverse_involutive.
Qed.

Lemma filename_no_slash path : no_slash (filename path).
Proof.
  unfold filename, no_slash. destruct (find_byte _ _) as [n|] eqn:E.
  - rewrite elem_of_reverse. apply find_byte_Some in E as (Hn & _ & Hlt). intros Hin.
    apply elem_of_take in Hin as (i & Hi & Hlt'). specialize (Hlt i Hlt'). unfold byte_at in Hlt.
    apply nth_lookup_Some with (d := Zbyte 0) in Hi. rewrite Hi in Hlt. done.
  - apply find_byte_None in E. intros Hin. rewrite Forall_forall in E. by specialize (E "/"%char ltac:(by rewrite elem_of_reverse)).
Qed.

Lemma extension_no_slash path : no_slash (extension path).
Proof.
  unfold extension, no_slash. pose proof (filename_no_slash path) as Hf. destruct (bool_decide _); [set_solver|].
  destruct (find_byte _ _) as [n|]; [|set_solver]. destruct (_ =? _)%nat; [set_solver|].
  intros Hin. apply Hf. eapply elem_of_sublist; [exact Hin|apply sublist_drop].
Qed.

Lemma drop_slashes_length s : (length (drop_slashes s) <= length s)%nat.
Proof. induction s as [|c s IH]; [done|]. destruct c as [[] [] [] [] [] [] [] []]; cbn in *; lia. Qed.

Lemma parent_shorter path : filename path ≠ [] → (length (parent_path path) < length path)%nat.
Proof.
  unfold filename, parent_path. destruct (find_byte _ _) as [n|] eqn:E.
  - intros Hf. apply find_byte_Some in E as (Hn & Hs & _). rewrite length_reverse in Hn.
    assert (n ≠ 0%nat) as Hn0 by (intros ->; by rewrite take_0 in Hf).
    assert (∃ t, drop n (reverse path) = "/"%char :: t) as [t Et].
    { destruct (lookup_lt_is_Some_2 (reverse path) n) as [c Hc]; [by rewrite length_reverse|].
      exists (drop (S n) (reverse path)). rewrite (drop_S _ c) by done. f_equal.
      unfold is_char, byte_at in Hs. apply bool_decide_eq_true in Hs. by rewrite (nth_lookup_Some _ _ _ _ Hc) in Hs. }
    assert (length (drop n (reverse path)) = length path - n)%nat as Hl by by rewrite length_drop, length_reverse.
    rewrite Et in *. cbn [drop_slashes length] in *. pose proof (drop_slashes_length t).
    destruct (bool_decide _); [cbn; lia|]. rewrite length_reverse. lia.
  - intros Hf. by destruct path; cbn; [|lia].
Qed.

(** ** Absolute paths in normal form *)

Lemma filter_all {A} (P : A → Prop) `{∀ x, Decision (P x)} l : Forall P l → filter P l = l.
Proof. induction 1 as [|x l Hx _ IH]; [done|]. by rewrite filter_cons_True, IH. Qed.

(** A name that a path in normal form has. *)
Definition clean_name (p : bytes) : Prop := plain_name p ∧ no_slash p.

(** The path of the names from the root. *)
Definition from_root (names : list bytes) : bytes := lit "/" ++ join (lit "/") names.

Lemma path_names_join names : names ≠ [] → Forall clean_name names → path_names (join (lit "/") names) = names.
Proof.
  intros Hne Hn. unfold path_names. rewrite split_slashes_of_join; [|done|by eapply Forall_impl; [exact Hn|intros p [_ ?]]].
  destruct names as [|x names _] using rev_ind; [done|]. rewrite removelast_last, last_snoc. f_equal.
  apply Forall_app in Hn as [Hn _]. apply filter_all. eapply Forall_impl; [exact Hn|]. by intros p [[? _] _].
Qed.

Lemma root_normal_fixed names : names ≠ [] → Forall clean_name names → root_normal (from_root names) = from_root names.
Proof.
  intros Hne Hn. unfold root_normal, from_root.
  change (drop 1 (lit "/" ++ join (lit "/") names)) with (join (lit "/") names). rewrite path_names_join by done.
  destruct (normal_plain [] false names) as [E1 E2]; [by eapply Forall_impl; [exact Hn|intros p [? _]]|]. specialize (E2 Hne).
  destruct (normal_names [] false names) as [above sep]. cbn [fst snd] in *. subst. cbn [andb]. rewrite !app_nil_r.
  assert (filter (λ n, n ≠ lit "..") (reverse names) = reverse names) as ->; [|by rewrite reverse_involutive].
  apply filter_all, Forall_reverse. eapply Forall_impl; [exact Hn|]. by intros p [(_ & _ & ?) _].
Qed.

Lemma normal_names_clean above sep names : Forall (λ p, p ≠ [] ∧ p ≠ lit "." ∧ no_slash p) above → Forall no_slash names →
  Forall (λ p, p ≠ [] ∧ p ≠ lit "." ∧ no_slash p) (normal_names above sep names).1.
Proof.
  intros Ha Hn. revert above sep Ha. induction Hn as [|p names Hp _ IH]; intros above sep Ha; [done|]. cbn [normal_names].
  case_bool_decide as H1; [by apply IH|]. case_bool_decide as H2; [by apply IH|]. cbn [orb].
  assert (Forall (λ p, p ≠ [] ∧ p ≠ lit "." ∧ no_slash p) (p :: above)) as Hc by by constructor.
  case_bool_decide as H3; [|by apply IH]. destruct Ha as [|top above Ht Ha]; [by apply IH|]. case_bool_decide; [by apply IH|by apply IH].
Qed.

Lemma last_slash_filename s : filename (s ++ lit "/") = [].
Proof. unfold filename. rewrite reverse_app. reflexivity. Qed.

(** A normal form that has a last name is the path of its names. *)
Lemma root_normal_names s : filename (root_normal s) ≠ [] → ∃ names, names ≠ [] ∧ Forall clean_name names ∧ root_normal s = from_root names.
Proof.
  unfold root_normal. pose proof (normal_names_clean [] false (path_names (drop 1 s)) (Forall_nil_2 _)) as Hc.
  destruct (normal_names [] false _) as [above sep]. cbn [fst] in Hc. intros Hf.
  set (names := filter (λ n, n ≠ lit "..") above) in *. exists (reverse names).
  assert (Forall clean_name names) as Hn.
  { apply Forall_forall. intros p [Hp Hin]%list_elem_of_filter. assert (Forall no_slash (path_names (drop 1 s))) as Hs.
    { apply Forall_forall. intros q Hq%path_names_part. pose proof (split_slashes_clean (drop 1 s)) as Hs. rewrite Forall_forall in Hs. by apply Hs. }
    specialize (Hc Hs). rewrite Forall_forall in Hc. apply Hc in Hin. split; [split_and!; naive_solver|naive_solver]. }
  destruct (bool_decide (names = [])) eqn:E.
  - apply bool_decide_eq_true in E. rewrite E in Hf. rewrite andb_false_r in Hf. by destruct Hf.
  - apply bool_decide_eq_false in E. destruct sep; cbn [negb andb] in *.
    + destruct Hf. rewrite app_assoc. apply last_slash_filename.
    + rewrite app_nil_r. split_and!; [|by apply Forall_reverse|done]. intros Er%(f_equal reverse). by rewrite reverse_involutive in Er.
Qed.

Lemma join_snoc names name : names ≠ [] → join (lit "/") (names ++ [name]) = join (lit "/") names ++ lit "/" ++ name.
Proof.
  intros Hne. induction names as [|p names IH]; [done|]. destruct names as [|q names]; [done|].
  cbn [app join] in *. rewrite IH by done. by rewrite <-!app_assoc.
Qed.

Lemma ends_slash s name : name ≠ [] → no_slash name → ends_with (lit "/") (s ++ name) = false.
Proof.
  intros Hne Hn. unfold ends_with. apply andb_false_iff. right. apply bool_decide_eq_false.
  destruct name as [|c name _] using rev_ind; [done|]. rewrite app_assoc, length_app. cbn [length lit].
  replace (_ - _)%nat with (length (s ++ name)) by (cbn; lia). rewrite drop_app_length. intros [= ->].
  apply Hn. apply elem_of_app. right. by left.
Qed.

Lemma slash_from_root names name : Forall clean_name names → slash (from_root names) name = from_root (names ++ [name]).
Proof.
  intros Hn. unfold slash, from_root. destruct names as [|x names _] using rev_ind; [done|].
  apply Forall_app in Hn as [_ [[(Hx & _) Hs] _]%Forall_cons].
  assert (ends_with (lit "/") (lit "/" ++ join (lit "/") (names ++ [x])) = false) as ->.
  { destruct names as [|p names]; [by apply ends_slash|]. rewrite join_snoc by done. rewrite !app_assoc. by apply ends_slash. }
  rewrite (join_snoc (names ++ [x])) by (by destruct names). by rewrite <-app_assoc.
Qed.

Lemma parent_from_root names name : Forall clean_name names → no_slash name → parent_path (from_root (names ++ [name])) = from_root names.
Proof.
  intros Hn Hs. unfold parent_path.
  assert (∃ pre, from_root (names ++ [name]) = pre ++ lit "/" ++ name ∧ (names = [] → pre = []) ∧ (names ≠ [] → pre = from_root names)) as (pre & -> & H1 & H2).
  { destruct (decide (names = [])) as [->|Hne]; [by exists []|]. exists (from_root names). unfold from_root. rewrite join_snoc by done.
    by rewrite <-app_assoc. }
  rewrite reverse_app, reverse_app, <-app_assoc.
  rewrite find_byte_app_r by (apply no_slash_find; unfold no_slash; by rewrite elem_of_reverse).
  change (reverse (lit "/") ++ reverse pre) with ("/"%char :: reverse pre). cbn [find_byte].
  change (is_char "/"%char "/"%char) with true. cbn [fmap option_fmap option_map].
  rewrite Nat.add_0_r, drop_app_length. cbn [drop_slashes].
  destruct names as [|x names _] using rev_ind; [by rewrite H1|]. rewrite H2 by (by destruct names).
  apply Forall_app in Hn as [_ [[(Hx & _) Hsx] _]%Forall_cons].
  assert (∃ pre', from_root (names ++ [x]) = pre' ++ x) as [pre' ->].
  { destruct names as [|p names]; [by exists (lit "/")|]. unfold from_root. rewrite join_snoc by done. rewrite !app_assoc. by eexists. }
  assert (drop_slashes (reverse (pre' ++ x)) = reverse (pre' ++ x)) as ->.
  { rewrite reverse_app. destruct (reverse x) as [|c l] eqn:E; [by apply (f_equal reverse) in E; rewrite reverse_involutive in E|].
    cbn [app]. assert (c ≠ "/"%char) as Hc.
    { intros ->. apply Hsx. rewrite <-elem_of_reverse, E. by left. }
    destruct c as [[] [] [] [] [] [] [] []]; try done. }
  rewrite reverse_involutive, bool_decide_false; [done|]. intros E. by apply app_eq_nil in E as [_ ->].
Qed.

(** ** Bytes of a part *)

Lemma filename_sub c path : c ∈ filename path → c ∈ path.
Proof.
  unfold filename. destruct (find_byte _ _); [|done]. rewrite elem_of_reverse. intros Hc.
  eapply elem_of_sublist in Hc; [|apply sublist_take]. by rewrite elem_of_reverse in Hc.
Qed.

Lemma extension_sub c path : c ∈ extension path → c ∈ path.
Proof.
  unfold extension. destruct (bool_decide _); [set_solver|]. destruct (find_byte _ _); [|set_solver].
  destruct (_ =? _)%nat; [set_solver|]. intros Hc. eapply elem_of_sublist in Hc; [|apply sublist_drop]. by apply filename_sub.
Qed.
