(* ===== verification/Unicode.v ===== *)
(** Unicode text as the native core handles it: the UTF-8 decoder and encoder of
    the bundled utf8proc (Native/third_party/utf8proc/utf8proc.c,
    [utf8proc_iterate], [utf8proc_encode_char]) as definitions, its
    table-driven functions (normalisation, case, categories) as a class of
    operations, and the Unicode facts about them that the code relies on as a
    class of laws. *)
From S2P Require Import Prelude Text.
Local Open Scope Z_scope.

(** ** Decoding and encoding *)

Definition utf_cont (ch : Z) : bool := Z.land ch 0xc0 =? 0x80.

(** The next code point and the bytes it takes, at most four; nothing where the
    library returns zero or an error. *)
Definition utf8proc_iterate (s : bytes) : option (Z * nat) :=
  match byteZ <$> take 4 s with
  | [] => None
  | uc :: str =>
      if uc <? 0x80 then Some (uc, 1%nat) else
      if (uc <? 0xc2) || (0xf4 <? uc) then None else
      if uc <? 0xe0 then
        match str with
        | a :: _ =>
            if negb (utf_cont a) then None else
            Some (Z.lor (Z.shiftl (Z.land uc 0x1f) 6) (Z.land a 0x3f), 2%nat)
        | [] => None
        end
      else if uc <? 0xf0 then
        match str with
        | a :: b :: _ =>
            if negb (utf_cont a) || negb (utf_cont b) then None else
            if (uc =? 0xed) && (0x9f <? a) then None else
            let uc := Z.lor (Z.lor (Z.shiftl (Z.land uc 0xf) 12) (Z.shiftl (Z.land a 0x3f) 6))
                            (Z.land b 0x3f) in
            if uc <? 0x800 then None else Some (uc, 3%nat)
        | _ => None
        end
      else
        match str with
        | a :: b :: c :: _ =>
            if negb (utf_cont a) || negb (utf_cont b) || negb (utf_cont c) then None else
            if ((uc =? 0xf0) && (a <? 0x90)) || ((uc =? 0xf4) && (0x8f <? a)) then None else
            Some (Z.lor (Z.lor (Z.lor (Z.shiftl (Z.land uc 7) 18) (Z.shiftl (Z.land a 0x3f) 12))
                               (Z.shiftl (Z.land b 0x3f) 6)) (Z.land c 0x3f), 4%nat)
        | _ => None
        end
  end.

Definition utf8proc_encode_char (uc : Z) : bytes :=
  Zbyte <$>
    (if uc <? 0 then [] else
     if uc <? 0x80 then [uc] else
     if uc <? 0x800 then [0xC0 + Z.shiftr uc 6; 0x80 + Z.land uc 0x3F] else
     if uc <? 0x10000 then
       [0xE0 + Z.shiftr uc 12; 0x80 + Z.land (Z.shiftr uc 6) 0x3F; 0x80 + Z.land uc 0x3F] else
     if uc <? 0x110000 then
       [0xF0 + Z.shiftr uc 18; 0x80 + Z.land (Z.shiftr uc 12) 0x3F;
        0x80 + Z.land (Z.shiftr uc 6) 0x3F; 0x80 + Z.land uc 0x3F]
     else []).

(** A Unicode scalar value. *)
Definition scalar (c : Z) : bool :=
  (0 <=? c) && (c <? 0x110000) && negb ((0xd800 <=? c) && (c <=? 0xdfff)).

#[local] Ltac Zify.zify_post_hook ::= Z.to_euclidean_division_equations.

Lemma lor_add a b n : 0 <= n → 0 <= b < 2 ^ n → Z.lor (a * 2 ^ n) b = a * 2 ^ n + b.
Proof.
  intros Hn Hb. rewrite <-Z.add_lor_land.
  assert (Z.land (a * 2 ^ n) b = 0) as ->; [|lia].
  apply Z.bits_inj'. intros k Hk. rewrite Z.land_spec, Z.bits_0. destruct (decide (k < n)).
  - by rewrite Z.mul_pow2_bits_low.
  - rewrite <-(Z.mod_small b (2 ^ n)) by done. rewrite Z.mod_pow2_bits_high by lia.
    apply andb_false_r.
Qed.

Lemma land_low c n : 0 <= n → Z.land c (Z.ones n) = c mod 2 ^ n.
Proof. apply Z.land_ones. Qed.

(** A test of a byte holds when it holds of the 256 bytes. *)
Lemma byte_cases (P : Z → bool) :
  forallb (λ n, P (Z.of_nat n)) (seq 0 256) = true → ∀ b, 0 <= b < 256 → P b = true.
Proof.
  intros H b Hb. rewrite forallb_forall in H.
  rewrite <-(Z2Nat.id b) by lia. apply H. apply in_seq. lia.
Qed.

Lemma utf_cont_range b : 0 <= b < 256 → utf_cont b = (0x80 <=? b) && (b <? 0xc0).
Proof.
  intros Hb. apply eqb_true_iff.
  exact (byte_cases (λ b, eqb (utf_cont b) ((0x80 <=? b) && (b <? 0xc0)))
    ltac:(vm_compute; reflexivity) b Hb).
Qed.

(** The decoder and the encoder in arithmetic. *)
Definition point2 (a b : Z) : Z := a mod 32 * 64 + b mod 64.
Definition point3 (a b c : Z) : Z := (a mod 16 * 64 + b mod 64) * 64 + c mod 64.
Definition point4 (a b c d : Z) : Z :=
  ((a mod 8 * 64 + b mod 64) * 64 + c mod 64) * 64 + d mod 64.

Lemma point2_eq a b : Z.lor (Z.shiftl (Z.land a 0x1f) 6) (Z.land b 0x3f) = point2 a b.
Proof.
  change 0x1f with (Z.ones 5). change 0x3f with (Z.ones 6).
  rewrite !land_low, Z.shiftl_mul_pow2, lor_add by lia. reflexivity.
Qed.

Lemma point3_eq a b c :
  Z.lor (Z.lor (Z.shiftl (Z.land a 0xf) 12) (Z.shiftl (Z.land b 0x3f) 6)) (Z.land c 0x3f)
  = point3 a b c.
Proof.
  change 0xf with (Z.ones 4). change 0x3f with (Z.ones 6). change 12 with (6 + 6).
  rewrite <-Z.shiftl_shiftl, <-Z.shiftl_lor, !land_low, !Z.shiftl_mul_pow2, !lor_add by lia.
  reflexivity.
Qed.

Lemma point4_eq a b c d :
  Z.lor (Z.lor (Z.lor (Z.shiftl (Z.land a 7) 18) (Z.shiftl (Z.land b 0x3f) 12))
               (Z.shiftl (Z.land c 0x3f) 6)) (Z.land d 0x3f)
  = point4 a b c d.
Proof.
  change 7 with (Z.ones 3). change 0x3f with (Z.ones 6). change 18 with (6 + 6 + 6).
  change 12 with (6 + 6).
  rewrite <-!Z.shiftl_shiftl, <-!Z.shiftl_lor, !land_low, !Z.shiftl_mul_pow2, !lor_add by lia.
  reflexivity.
Qed.

Lemma encode_eq c : 0 <= c < 0x110000 →
  utf8proc_encode_char c = Zbyte <$>
    (if c <? 0x80 then [c] else
     if c <? 0x800 then [0xC0 + c / 64; 0x80 + c mod 64] else
     if c <? 0x10000 then [0xE0 + c / 4096; 0x80 + c / 64 mod 64; 0x80 + c mod 64] else
     [0xF0 + c / 262144; 0x80 + c / 4096 mod 64; 0x80 + c / 64 mod 64; 0x80 + c mod 64]).
Proof.
  intros Hc. unfold utf8proc_encode_char. rewrite (proj2 (Z.ltb_ge c 0)) by lia.
  rewrite (proj2 (Z.ltb_lt c 0x110000)) by lia. change 0x3F with (Z.ones 6).
  by rewrite !land_low, !Z.shiftr_div_pow2 by lia.
Qed.

Lemma byteZ_fmap l : Forall (λ z, 0 <= z < 256) l → byteZ <$> (Zbyte <$> l) = l.
Proof.
  induction 1 as [|z l Hz _ IH]; [done|]. rewrite !fmap_cons, IH, byteZ_Zbyte, u8_mod.
  by rewrite Z.mod_small by done.
Qed.

Ltac solve_if :=
  repeat match goal with
  | |- context [?a <? ?b] =>
      first [rewrite (proj2 (Z.ltb_lt a b)) by lia | rewrite (proj2 (Z.ltb_ge a b)) by lia]
  | |- context [?a =? ?b] =>
      first [rewrite (proj2 (Z.eqb_eq a b)) by lia | rewrite (proj2 (Z.eqb_neq a b)) by lia]
  | |- context [?a <=? ?b] =>
      first [rewrite (proj2 (Z.leb_le a b)) by lia | rewrite (proj2 (Z.leb_gt a b)) by lia]
  end.

(** What the encoder writes, the decoder reads. *)
Lemma iterate_encode c s : scalar c = true →
  utf8proc_iterate (utf8proc_encode_char c ++ s) = Some (c, length (utf8proc_encode_char c)).
Proof.
  unfold scalar. intros Hc. inv_ok. rewrite Z.leb_le, Z.ltb_lt in *.
  rewrite encode_eq by lia. unfold utf8proc_iterate.
  destruct (Z.ltb_spec c 0x80); [|destruct (Z.ltb_spec c 0x800);
    [|destruct (Z.ltb_spec c 0x10000)]];
    cbn [app length fmap list_fmap take]; rewrite !byteZ_Zbyte, !u8_mod, !Z.mod_small by lia;
    rewrite ?point2_eq, ?point3_eq, ?point4_eq;
    rewrite ?utf_cont_range by lia; cbv zeta; unfold point2, point3, point4.
  - by solve_if.
  - solve_if. cbn [negb orb andb]. do 2 f_equal. lia.
  - apply andb_false_iff in H0. rewrite !Z.leb_gt in H0. solve_if. cbn [negb orb andb].
    destruct (Z.eqb_spec (0xE0 + c / 4096) 0xed), (Z.ltb_spec 0x9f (0x80 + c / 64 mod 64));
      cbn [andb]; try lia; do 2 f_equal; lia.
  - solve_if. cbn [negb orb andb].
    destruct (Z.eqb_spec (0xF0 + c / 262144) 0xf0), (Z.eqb_spec (0xF0 + c / 262144) 0xf4),
      (Z.ltb_spec (0x80 + c / 4096 mod 64) 0x90), (Z.ltb_spec 0x8f (0x80 + c / 4096 mod 64));
      cbn [andb orb]; try lia; do 2 f_equal; lia.
Qed.

(** The encodings of decoded bytes. *)
Lemma encode_point1 a : 0 <= a < 0x80 → scalar a = true ∧ utf8proc_encode_char a = Zbyte <$> [a].
Proof.
  intros Ha. rewrite encode_eq by lia. unfold scalar. solve_if. split; [|done].
  destruct (Z.leb_spec 0xd800 a); [lia|done].
Qed.

Lemma encode_point2 a b : 0xc2 <= a < 0xe0 → 0x80 <= b < 0xc0 →
  scalar (point2 a b) = true ∧ utf8proc_encode_char (point2 a b) = Zbyte <$> [a; b].
Proof.
  intros Ha Hb. unfold point2. rewrite encode_eq by lia. unfold scalar. solve_if. split.
  - destruct (Z.leb_spec 0xd800 (a mod 32 * 64 + b mod 64)); [lia|done].
  - f_equal. f_equal; [lia|f_equal; lia].
Qed.

Lemma encode_point3 a b c : 0xe0 <= a < 0xf0 → 0x80 <= b < 0xc0 → 0x80 <= c < 0xc0 →
  0x800 <= point3 a b c → ¬ (a = 0xed ∧ 0x9f < b) →
  scalar (point3 a b c) = true ∧ utf8proc_encode_char (point3 a b c) = Zbyte <$> [a; b; c].
Proof.
  intros Ha Hb Hc Hlow Hs. unfold point3 in *. rewrite encode_eq by lia. unfold scalar. split.
  - apply andb_true_iff. split; [by solve_if|]. apply negb_true_iff, andb_false_iff.
    rewrite !Z.leb_gt. lia.
  - solve_if. f_equal. f_equal; [lia|f_equal; [lia|f_equal; lia]].
Qed.

Lemma encode_point4 a b c d : 0xf0 <= a <= 0xf4 → 0x80 <= b < 0xc0 → 0x80 <= c < 0xc0 →
  0x80 <= d < 0xc0 → ¬ (a = 0xf0 ∧ b < 0x90) → ¬ (a = 0xf4 ∧ 0x8f < b) →
  scalar (point4 a b c d) = true ∧ utf8proc_encode_char (point4 a b c d) = Zbyte <$> [a; b; c; d].
Proof.
  intros Ha Hb Hc Hd H0 H4. unfold point4 in *. rewrite encode_eq by lia. unfold scalar. split.
  - apply andb_true_iff. split; [by solve_if|]. apply negb_true_iff, andb_false_iff.
    rewrite !Z.leb_gt. lia.
  - solve_if. f_equal. f_equal; [lia|f_equal; [lia|f_equal; [lia|f_equal; lia]]].
Qed.

(** What the decoder reads is the encoding of a scalar value. *)
Lemma iterate_inv s c n : utf8proc_iterate s = Some (c, n) →
  scalar c = true ∧ ∃ rest, s = utf8proc_encode_char c ++ rest ∧ n = length (utf8proc_encode_char c).
Proof.
  intros E. cut (∃ l rest, s = (Zbyte <$> l) ++ rest ∧ n = length l ∧
    (scalar c = true ∧ utf8proc_encode_char c = Zbyte <$> l)).
  { intros (l & rest & -> & -> & Hc & ->). split; [done|]. exists rest. by rewrite length_fmap. }
  unfold utf8proc_iterate in E. destruct s as [|x s]; [done|].
  cbn [take fmap list_fmap] in E. pose proof (byteZ_range x) as Hx.
  destruct (Z.ltb_spec (byteZ x) 0x80); [|destruct (Z.ltb_spec (byteZ x) 0xc2); [done|];
    destruct (Z.ltb_spec 0xf4 (byteZ x)); [done|]; destruct (Z.ltb_spec (byteZ x) 0xe0);
    [|destruct (Z.ltb_spec (byteZ x) 0xf0)]]; cbn [orb] in E.
  - injection E as <- <-. exists [byteZ x], s. split; [cbn; by rewrite Zbyte_byteZ|split; [done|]]. apply encode_point1. lia.
  - destruct s as [|a s]; [done|]. cbn [take fmap list_fmap] in E. pose proof (byteZ_range a).
    rewrite utf_cont_range, point2_eq in E by done.
    destruct (Z.leb_spec 0x80 (byteZ a)), (Z.ltb_spec (byteZ a) 0xc0); try done.
    injection E as <- <-. exists [byteZ x; byteZ a], s.
    split; [cbn; by rewrite !Zbyte_byteZ|split; [done|]]. apply encode_point2; lia.
  - destruct s as [|a [|b s]]; [done..|]. cbn [take fmap list_fmap] in E.
    pose proof (byteZ_range a). pose proof (byteZ_range b).
    rewrite !utf_cont_range, point3_eq in E by done. cbv zeta in E.
    destruct (Z.leb_spec 0x80 (byteZ a)), (Z.ltb_spec (byteZ a) 0xc0); try done.
    destruct (Z.leb_spec 0x80 (byteZ b)), (Z.ltb_spec (byteZ b) 0xc0); try done.
    cbn [andb negb orb] in E.
    destruct ((byteZ x =? 0xed) && (0x9f <? byteZ a)) eqn:Hs; [done|].
    destruct (Z.ltb_spec (point3 (byteZ x) (byteZ a) (byteZ b)) 0x800); [done|].
    injection E as <- <-. exists [byteZ x; byteZ a; byteZ b], s.
    split; [cbn; by rewrite !Zbyte_byteZ|split; [done|]].
    apply encode_point3; lia.
  - destruct s as [|a [|b [|d s]]]; [done..|]. cbn [take fmap list_fmap] in E.
    pose proof (byteZ_range a). pose proof (byteZ_range b). pose proof (byteZ_range d).
    rewrite !utf_cont_range, point4_eq in E by done.
    destruct (Z.leb_spec 0x80 (byteZ a)), (Z.ltb_spec (byteZ a) 0xc0); try done.
    destruct (Z.leb_spec 0x80 (byteZ b)), (Z.ltb_spec (byteZ b) 0xc0); try done.
    destruct (Z.leb_spec 0x80 (byteZ d)), (Z.ltb_spec (byteZ d) 0xc0); try done.
    cbn [andb negb orb] in E.
    destruct ((byteZ x =? 0xf0) && (byteZ a <? 0x90)) eqn:Hs1; [done|].
    destruct ((byteZ x =? 0xf4) && (0x8f <? byteZ a)) eqn:Hs2; [done|]. cbn [orb] in E.
    injection E as <- <-. exists [byteZ x; byteZ a; byteZ b; byteZ d], s.
    split; [cbn; by rewrite !Zbyte_byteZ|split; [done|]].
    apply encode_point4; lia.
Qed.

Lemma encode_nonempty c : scalar c = true → utf8proc_encode_char c ≠ [].
Proof.
  intros Hc E. pose proof (iterate_encode c [] Hc) as H. by rewrite E in H.
Qed.

(** The text of a sequence of code points. *)
Definition utf8 (points : list Z) : bytes := concat (utf8proc_encode_char <$> points).

Lemma utf8_app a b : utf8 (a ++ b) = utf8 a ++ utf8 b.
Proof. unfold utf8. by rewrite fmap_app, concat_app. Qed.

Lemma utf8_cons c l : utf8 (c :: l) = utf8proc_encode_char c ++ utf8 l.
Proof. done. Qed.

(** ASCII text: one byte per code point. *)
Definition is_ascii (c : ascii) : bool := byteZ c <? 128.

Lemma encode_ascii c : is_ascii c = true → utf8proc_encode_char (byteZ c) = [c].
Proof.
  unfold is_ascii. rewrite Z.ltb_lt. intros Hc. pose proof (byteZ_range c).
  rewrite (proj2 (encode_point1 (byteZ c) ltac:(lia))). cbn. by rewrite Zbyte_byteZ.
Qed.

(** Only ASCII code points are written in ASCII bytes. *)
Lemma encode_ascii_point q : Forall is_ascii (utf8proc_encode_char q) →
  utf8proc_encode_char q = [] ∨ (0 <= q < 128).
Proof.
  intros Ha. destruct (Z.ltb_spec q 0) as [Hq|Hq].
  { left. unfold utf8proc_encode_char. by rewrite (proj2 (Z.ltb_lt _ _) Hq). }
  destruct (Z.ltb_spec q 128); [by right|]. destruct (Z.ltb_spec q 0x110000) as [Hb|Hb].
  - exfalso. rewrite encode_eq in Ha by lia. rewrite (proj2 (Z.ltb_ge q 0x80)) in Ha by lia.
    destruct (Z.ltb_spec q 0x800), (Z.ltb_spec q 0x10000); csimpl in Ha;
      apply Forall_cons in Ha as [Ha _]; apply Is_true_true in Ha; unfold is_ascii in Ha;
      rewrite byteZ_Zbyte, u8_mod in Ha; apply Z.ltb_lt in Ha; revert Ha; lia.
  - left. unfold utf8proc_encode_char. rewrite (proj2 (Z.ltb_ge _ _) Hq).
    by rewrite !(proj2 (Z.ltb_ge _ _)) by lia.
Qed.
Lemma utf8_ascii s : Forall is_ascii s → utf8 (byteZ <$> s) = s.
Proof.
  induction 1 as [|c s Hc _ IH]; [done|]. rewrite fmap_cons, utf8_cons, IH.
  by rewrite encode_ascii by by apply Is_true_true.
Qed.

Lemma scalar_ascii c : is_ascii c = true → scalar (byteZ c) = true.
Proof.
  unfold is_ascii. rewrite Z.ltb_lt. intros Hc. pose proof (byteZ_range c).
  apply encode_point1. lia.
Qed.

(** ** The functions that read the Unicode tables *)

Inductive category := CC | ZS | ZL | ZP | OtherCategory.

#[export] Instance category_eq_dec : EqDecision category.
Proof. solve_decision. Defined.

(** [utf8proc_map] with [STABLE | COMPOSE], and [COMPAT] when the flag is set;
    nothing where it returns an error. *)
Class Utf8proc := {
  utf8proc_map : bool → bytes → option bytes;
  utf8proc_tolower : Z → Z;
  utf8proc_category : Z → category
}.

(** What Unicode promises of them (UAX 15: normalisation gives text, is
    idempotent, and a part of composed text is composed; ASCII is composed). *)
Class Utf8procLaws `{Utf8proc} : Prop := {
  map_text k s t : utf8proc_map k s = Some t → ∃ points, Forall scalar points ∧ t = utf8 points;
  map_idempotent s t : utf8proc_map false s = Some t → utf8proc_map false t = Some t;
  map_part a b c : Forall scalar (a ++ b ++ c) →
    utf8proc_map false (utf8 (a ++ b ++ c)) = Some (utf8 (a ++ b ++ c)) →
    utf8proc_map false (utf8 b) = Some (utf8 b);
  map_ascii k s : Forall is_ascii s → utf8proc_map k s = Some s;
  tolower_idempotent c : utf8proc_tolower (utf8proc_tolower c) = utf8proc_tolower c;
  category_ascii c : 33 <= c <= 126 → utf8proc_category c = OtherCategory
}.
