(* ===== verification/Calendar.v ===== *)
(** The proleptic Gregorian calendar of [std::chrono]: [sys_days] of a
    [year_month_day] and back, as the native core uses them, with the proof that
    the two are inverse and keep the order.  Years are counted from March in eras
    of 400 years; what happens inside an era is checked for each of its days. *)
From S2P Require Import Prelude.
Local Open Scope Z_scope.

(** [lia] knows division and remainder by constants in this file. *)
#[local] Ltac Zify.zify_post_hook ::= Z.to_euclidean_division_equations.

Definition leap (y : Z) : bool := (y mod 4 =? 0) && (negb (y mod 100 =? 0) || (y mod 400 =? 0)).

Definition last_day (y m : Z) : Z :=
  if m =? 2 then (if leap y then 29 else 28)
  else if (m =? 4) || (m =? 6) || (m =? 9) || (m =? 11) then 30 else 31.

(** [year_month_day::ok()] for a year in range. *)
Definition date_ok (y m d : Z) : bool :=
  (1 <=? m) && (m <=? 12) && (1 <=? d) && (d <=? last_day y m).

(** ** Days and dates *)

Definition days_per_era : Z := 146097.
Definition epoch_shift : Z := 719468.

(** January and February belong to the year before. *)
Definition early (m : Z) : Z := if m <=? 2 then 1 else 0.

(** The day of a year that starts in March. *)
Definition day_of_year (m d : Z) : Z := (153 * (m + (if 2 <? m then -3 else 9)) + 2) / 5 + d - 1.

(** The day of an era, from a year of the era that starts in March. *)
Definition day_of_era (yoe m d : Z) : Z := yoe * 365 + yoe / 4 - yoe / 100 + day_of_year m d.

(** [sys_days(year_month_day)], in days since 1970-01-01. *)
Definition days_from_civil (y m d : Z) : Z :=
  let y := y - early m in
  let era := y / 400 in
  era * days_per_era + day_of_era (y - era * 400) m d - epoch_shift.

Definition year_of_era (doe : Z) : Z := (doe - doe / 1460 + doe / 36524 - doe / 146096) / 365.

(** Month and day of a day of the year that starts in March. *)
Definition month_day (doy : Z) : Z * Z :=
  let mp := (5 * doy + 2) / 153 in
  let d := doy - (153 * mp + 2) / 5 + 1 in
  (if mp <? 10 then mp + 3 else mp - 9, d).

Definition date_of_era (doe : Z) : Z * Z * Z :=
  let yoe := year_of_era doe in
  let '(m, d) := month_day (doe - (365 * yoe + yoe / 4 - yoe / 100)) in
  (yoe, m, d).

(** [year_month_day(sys_days)]. *)
Definition civil_from_days (z : Z) : Z * Z * Z :=
  let z := z + epoch_shift in
  let era := z / days_per_era in
  let '(yoe, m, d) := date_of_era (z - era * days_per_era) in
  (yoe + era * 400 + early m, m, d).

(** ** Inside an era *)

(** Dates in order, as numbers. *)
Definition date_key (y m d : Z) : Z := (y * 100 + m) * 100 + d.

Definition era_key (doe : Z) : Z :=
  let '(yoe, m, d) := date_of_era doe in date_key (yoe + early m) m d.

(** [p] holds of the [n] integers from [z] on. *)
Fixpoint all_from (p : Z → bool) (n : nat) (z : Z) : bool :=
  match n with
  | O => true
  | S n => p z && all_from p n (z + 1)
  end.

Lemma all_from_spec p n z : all_from p n z = true → ∀ x, z <= x < z + Z.of_nat n → p x = true.
Proof.
  revert z. induction n as [|n IH]; intros z E x Hx; [lia|]. simpl in E.
  apply andb_true_iff in E as [E1 E2]. destruct (decide (x = z)) as [->|]; [done|].
  apply (IH _ E2). lia.
Qed.

(** *** Years *)

Definition year_start (yoe : Z) : Z := 365 * yoe + yoe / 4 - yoe / 100.
Definition year_end (yoe : Z) : Z := if yoe =? 399 then days_per_era else year_start (yoe + 1).

Definition year_checks (yoe : Z) : bool :=
  (year_of_era (year_start yoe) =? yoe) && (year_of_era (year_end yoe - 1) =? yoe)
  && (year_end yoe =? year_start yoe + if leap (yoe + 1) then 366 else 365).

Lemma years_checked : all_from year_checks 400 0 = true.
Proof. vm_compute. reflexivity. Qed.

(** Correcting a day number for leap days keeps the order. *)
Lemma year_of_era_mono a b : 0 <= a <= b → b < days_per_era → year_of_era a <= year_of_era b.
Proof.
  intros Hab Hb. assert (0 <= a) as Ha by lia. replace b with (a + (b - a)) in * by lia.
  assert (0 <= b - a) as Hn by lia. generalize dependent (b - a). intros n _ Hb Hn.
  revert Hb. pattern n. apply natlike_ind; [|intros x Hx IH|done]; intros Hb.
  - by rewrite Z.add_0_r.
  - etrans; [apply IH; lia|]. unfold year_of_era. apply Z.div_le_mono; [lia|].
    unfold days_per_era in *. replace (a + Z.succ x) with (a + x + 1) by lia.
    assert (0 <= a + x < 146096) as Hz by lia. clear -Hz. revert Hz. generalize (a + x). intros z Hz.
    destruct (decide (z = 146095)) as [->|]; [by vm_compute|].
    assert (z / 146096 = 0 ∧ (z + 1) / 146096 = 0) as [-> ->] by lia.
    assert (z / 36524 <= (z + 1) / 36524) by lia. assert ((z + 1) / 1460 <= z / 1460 + 1) by lia. lia.
Qed.

Lemma year_check yoe : 0 <= yoe < 400 → year_checks yoe = true.
Proof. intros Hy. by apply (all_from_spec _ _ _ years_checked). Qed.

Lemma year_length yoe : 0 <= yoe < 400 →
  year_end yoe = year_start yoe + if leap (yoe + 1) then 366 else 365.
Proof. intros Hy. pose proof (year_check _ Hy) as Hc. unfold year_checks in Hc. inv_ok. by apply Z.eqb_eq. Qed.

Lemma year_start_pos yoe : 0 <= yoe → 0 <= year_start yoe.
Proof. unfold year_start. lia. Qed.

Lemma year_end_max yoe : 0 <= yoe < 400 → year_end yoe <= days_per_era.
Proof.
  intros Hy. unfold year_end, year_start, days_per_era. destruct (Z.eqb_spec yoe 399); lia.
Qed.

Lemma year_of_day yoe doe : 0 <= yoe < 400 → year_start yoe <= doe < year_end yoe →
  year_of_era doe = yoe.
Proof.
  intros Hy Hd. pose proof (year_check _ Hy) as Hc. unfold year_checks in Hc. inv_ok.
  rewrite ?Z.eqb_eq in *. pose proof (year_start_pos yoe ltac:(lia)).
  pose proof (year_end_max _ Hy).
  pose proof (year_of_era_mono (year_start yoe) doe). pose proof (year_of_era_mono doe (year_end yoe - 1)).
  lia.
Qed.

Lemma day_has_year doe : 0 <= doe < days_per_era →
  ∃ yoe, 0 <= yoe < 400 ∧ year_start yoe <= doe < year_end yoe.
Proof.
  intros Hd.
  assert (∀ n : nat, (n <= 400)%nat → doe < (if (n =? 400)%nat then days_per_era else year_start (Z.of_nat n)) →
    ∃ yoe, 0 <= yoe < 400 ∧ year_start yoe <= doe < year_end yoe) as Hn.
  - induction n as [|n IH]; intros Hle Hlt; [unfold year_start in Hlt; simpl in Hlt; lia|].
    destruct (Z.ltb_spec doe (year_start (Z.of_nat n))) as [Hbelow|Habove].
    + apply IH; [lia|]. destruct (Nat.eqb_spec n 400); [lia|done].
    + exists (Z.of_nat n). split; [lia|]. split; [done|]. unfold year_end.
      destruct (Z.eqb_spec (Z.of_nat n) 399), (Nat.eqb_spec (S n) 400); try lia.
      by replace (Z.of_nat n + 1) with (Z.of_nat (S n)) by lia.
  - apply (Hn 400%nat); [lia|]. apply Hd.
Qed.

(** *** Months *)

(** The longest a month can be. *)
Definition month_length (m : Z) : Z := last_day 4 m.

(** Dates of one year that starts in March, in order. *)
Definition month_key (doy : Z) : Z := let '(m, d) := month_day doy in date_key (early m) m d.

Definition doy_checks (doy : Z) : bool :=
  let '(m, d) := month_day doy in
  (1 <=? m) && (m <=? 12) && (1 <=? d) && (d <=? month_length m)
  && (day_of_year m d =? doy)
  && Bool.eqb ((m =? 2) && (d =? 29)) (doy =? 365)
  && (month_key doy <? if doy =? 365 then month_key 0 + date_key 1 0 0 else month_key (doy + 1))
  && (month_key doy <? month_key 0 + date_key 1 0 0).

Lemma doys_checked : all_from doy_checks 366 0 = true.
Proof. vm_compute. reflexivity. Qed.

Lemma doy_check doy : 0 <= doy < 366 → doy_checks doy = true.
Proof. intros Hd. by apply (all_from_spec _ _ _ doys_checked). Qed.

Definition date_checks (m d : Z) : bool :=
  (month_length m <? d) ||
  bool_decide (month_day (day_of_year m d) = (m, d) ∧ 0 <= day_of_year m d < 366).

Lemma dates_checked : all_from (λ m, all_from (date_checks m) 31 1) 12 1 = true.
Proof. vm_compute. reflexivity. Qed.

Lemma date_check m d : 1 <= m <= 12 → 1 <= d <= month_length m →
  month_day (day_of_year m d) = (m, d) ∧ 0 <= day_of_year m d < 366.
Proof.
  intros Hm Hd. assert (d <= 31) by (unfold month_length, last_day in Hd; repeat case_match; lia).
  pose proof (all_from_spec _ _ _ dates_checked m ltac:(lia)) as Hall. cbv beta in Hall.
  pose proof (all_from_spec _ _ _ Hall d ltac:(lia)) as Hc. unfold date_checks in Hc.
  apply orb_true_iff in Hc as [Hc|Hc]; [apply Z.ltb_lt in Hc; lia|]. by apply bool_decide_eq_true in Hc.
Qed.

Lemma last_day_length y m : last_day y m = if (m =? 2) && negb (leap y) then 28 else month_length m.
Proof. unfold month_length, last_day. destruct (m =? 2); [|done]. by destruct (leap y). Qed.

Lemma leap_era y e : leap (y + e * 400) = leap y.
Proof.
  unfold leap. rewrite Z.mod_add by lia.
  replace (y + e * 400) with (y + (e * 100) * 4) at 1 by lia. rewrite Z.mod_add by lia.
  replace (y + e * 400) with (y + (e * 4) * 100) by lia. by rewrite Z.mod_add by lia.
Qed.

Lemma last_day_era y e m : last_day (y + e * 400) m = last_day y m.
Proof. unfold last_day. by rewrite leap_era. Qed.

Lemma date_ok_era y e m d : date_ok (y + e * 400) m d = date_ok y m d.
Proof. unfold date_ok. by rewrite last_day_era. Qed.

Lemma leap_early m yoe : leap (yoe + early m) = if m <=? 2 then leap (yoe + 1) else leap yoe.
Proof. unfold early. destruct (m <=? 2); [done|]. by rewrite Z.add_0_r. Qed.

(** A day of an era: its year, its place in the year and its date. *)
Lemma era_day yoe doy : 0 <= yoe < 400 → 0 <= doy < year_end yoe - year_start yoe →
  date_of_era (year_start yoe + doy) = (yoe, (month_day doy).1, (month_day doy).2) ∧
  date_ok (yoe + early (month_day doy).1) (month_day doy).1 (month_day doy).2 = true ∧
  day_of_era yoe (month_day doy).1 (month_day doy).2 = year_start yoe + doy ∧
  era_key (year_start yoe + doy) = month_key doy + date_key yoe 0 0 ∧ doy < 366.
Proof.
  intros Hy Hd. pose proof (year_length _ Hy) as Hlen.
  assert (doy < 366) as Hmax by (destruct (leap (yoe + 1)); lia).
  pose proof (doy_check doy ltac:(lia)) as Hc. unfold doy_checks in Hc.
  assert (date_of_era (year_start yoe + doy) = (yoe, (month_day doy).1, (month_day doy).2)) as Hdate.
  { unfold date_of_era. rewrite (year_of_day yoe) by lia. fold (year_start yoe).
    replace (year_start yoe + doy - year_start yoe) with doy by lia. by destruct (month_day doy). }
  split; [done|]. unfold era_key, month_key in *. rewrite Hdate.
  destruct (month_day doy) as [m d]. simpl in *. inv_ok. rewrite ?Z.leb_le, ?Z.eqb_eq in *.
  split_and!; [|unfold day_of_era, year_start; lia|unfold date_key; lia|done].
  unfold date_ok. rewrite last_day_length, leap_early.
  rewrite !(proj2 (Z.leb_le _ _)) by lia. simpl. apply Z.leb_le.
  destruct (Z.eqb_spec m 2) as [->|]; simpl in *; [|done].
  destruct (leap (yoe + 1)); simpl; [done|].
  match goal with E : Bool.eqb _ _ = true |- _ => apply eqb_prop in E; rename E into E29 end.
  destruct (Z.eqb_spec doy 365); [lia|]. destruct (Z.eqb_spec d 29); simpl in E29; [done|].
  change (month_length 2) with 29 in *. lia.
Qed.

(** ** The whole calendar *)

Lemma civil_days z : let '(y, m, d) := civil_from_days z in
  date_ok y m d = true ∧ days_from_civil y m d = z.
Proof.
  unfold civil_from_days. set (era := (z + epoch_shift) / days_per_era).
  assert (0 <= z + epoch_shift - era * days_per_era < days_per_era) as Hdoe
    by (unfold era, days_per_era; lia).
  destruct (day_has_year _ Hdoe) as (yoe & Hy & Hd).
  destruct (era_day yoe (z + epoch_shift - era * days_per_era - year_start yoe) Hy ltac:(lia))
    as (Hdate & Hok & Hday & _).
  rewrite Z.add_sub_assoc, Z.add_simpl_l in Hdate, Hday.
  rewrite Hdate. destruct (month_day _) as [m d]. simpl in *. split.
  - replace (yoe + era * 400 + early m) with (yoe + early m + era * 400) by lia.
    by rewrite date_ok_era.
  - unfold days_from_civil. replace (yoe + era * 400 + early m - early m) with (yoe + era * 400) by lia.
    rewrite Z.div_add, (Z.div_small yoe) by lia. rewrite Z.add_0_l.
    replace (yoe + era * 400 - era * 400) with yoe by lia. lia.
Qed.

Lemma days_civil y m d : date_ok y m d = true → civil_from_days (days_from_civil y m d) = (y, m, d).
Proof.
  intros Hok. unfold days_from_civil. set (era := (y - early m) / 400).
  set (yoe := y - early m - era * 400).
  assert (0 <= yoe < 400) as Hyoe by (unfold yoe, era; lia).
  assert (date_ok (yoe + early m) m d = true) as Hok'.
  { rewrite <-Hok. rewrite <-(date_ok_era (yoe + early m) era). f_equal. unfold yoe. lia. }
  clearbody era. unfold date_ok in Hok'. inv_ok. rewrite ?Z.leb_le in *.
  match goal with E : d <= last_day _ _ |- _ => rewrite last_day_length, leap_early in E; rename E into Hlast end.
  destruct (date_check m d ltac:(lia)) as [Hdate Hrange].
  { destruct (Z.eqb_spec m 2) as [->|]; simpl in Hlast; [|lia]. change (month_length 2) with 29 in *.
    destruct (leap (yoe + 1)); simpl in Hlast; lia. }
  assert (day_of_year m d < year_end yoe - year_start yoe) as Hin.
  { rewrite year_length by done. destruct (leap (yoe + 1)) eqn:Hleap; [lia|].
    pose proof (doy_check _ Hrange) as Hc. unfold doy_checks in Hc. rewrite Hdate in Hc. inv_ok.
    match goal with E : Bool.eqb _ _ = true |- _ => apply eqb_prop in E; rename E into E29 end.
    destruct (Z.eqb_spec (day_of_year m d) 365); [|lia].
    apply andb_true_iff in E29 as [->%Z.eqb_eq ->%Z.eqb_eq].
    simpl in Hlast. lia. }
  destruct (era_day yoe (day_of_year m d) Hyoe ltac:(lia)) as (Hera & _ & _ & _).
  rewrite Hdate in Hera. simpl in Hera. change (year_start yoe + day_of_year m d) with
    (365 * yoe + yoe / 4 - yoe / 100 + day_of_year m d) in Hera.
  unfold civil_from_days, day_of_era.
  pose proof (year_end_max _ Hyoe). pose proof (year_start_pos yoe ltac:(lia)).
  rewrite (Z.mul_comm yoe 365). set (doe := 365 * yoe + yoe / 4 - yoe / 100 + day_of_year m d) in *.
  assert (0 <= doe < days_per_era) as Hdoe by (unfold doe, year_start in *; lia).
  replace (era * days_per_era + doe - epoch_shift + epoch_shift) with (doe + era * days_per_era) by lia.
  rewrite Z.div_add, Z.div_small by (done || lia). rewrite Z.add_0_l.
  replace (doe + era * days_per_era - era * days_per_era) with doe by lia.
  rewrite Hera. do 2 f_equal. unfold yoe. lia.
Qed.

(** The number of the date of a day. *)
Definition civil_key (z : Z) : Z := let '(y, m, d) := civil_from_days z in date_key y m d.

Lemma civil_key_era z : civil_key z =
  era_key ((z + epoch_shift) mod days_per_era) + (z + epoch_shift) / days_per_era * date_key 400 0 0.
Proof.
  unfold civil_key, civil_from_days, era_key. rewrite Z.mod_eq by done.
  rewrite (Z.mul_comm days_per_era). destruct (date_of_era _) as [[yoe m] d]. unfold date_key. lia.
Qed.

(** The next day of an era has a later date. *)
Lemma era_key_next doe : 0 <= doe < days_per_era →
  era_key doe < if doe =? days_per_era - 1 then era_key 0 + date_key 400 0 0 else era_key (doe + 1).
Proof.
  intros Hdoe. destruct (day_has_year _ Hdoe) as (yoe & Hy & Hd).
  destruct (era_day yoe (doe - year_start yoe) Hy ltac:(lia)) as (_ & _ & _ & Hkey & Hmax).
  rewrite Z.add_sub_assoc, Z.add_simpl_l in Hkey. rewrite Hkey.
  pose proof (doy_check (doe - year_start yoe) ltac:(lia)) as Hc. unfold doy_checks in Hc.
  destruct (month_day _) as [m d]. inv_ok. rewrite ?Z.ltb_lt in *.
  destruct (decide (doe + 1 < year_end yoe)) as [Hsame|Hlast].
  - pose proof (year_end_max _ Hy). destruct (Z.eqb_spec doe (days_per_era - 1)); [lia|].
    destruct (era_day yoe (doe - year_start yoe + 1) Hy ltac:(lia)) as (_ & _ & _ & Hnext & Hmax').
    replace (year_start yoe + (doe - year_start yoe + 1)) with (doe + 1) in Hnext by lia.
    rewrite Hnext. destruct (Z.eqb_spec (doe - year_start yoe) 365); lia.
  - assert (doe + 1 = year_end yoe) as Eend by lia. unfold year_end in Eend.
    destruct (Z.eqb_spec yoe 399) as [->|].
    + destruct (Z.eqb_spec doe (days_per_era - 1)); [|lia].
      destruct (era_day 0 0 ltac:(lia) ltac:(by vm_compute)) as (_ & _ & _ & Hzero & _).
      change (era_key 0 = month_key 0 + date_key 0 0 0) in Hzero. rewrite Hzero. unfold date_key in *. lia.
    + pose proof (year_end_max (yoe + 1) ltac:(lia)). pose proof (year_length (yoe + 1) ltac:(lia)) as Hlen.
      assert (0 < year_end (yoe + 1) - year_start (yoe + 1)) by (destruct (leap _); lia).
      destruct (Z.eqb_spec doe (days_per_era - 1)); [lia|].
      destruct (era_day (yoe + 1) 0 ltac:(lia) ltac:(lia)) as (_ & _ & _ & Hnext & _).
      rewrite Z.add_0_r, <-Eend in Hnext. rewrite Hnext. unfold date_key in *. lia.
Qed.

Lemma civil_key_next z : civil_key z < civil_key (z + 1).
Proof.
  rewrite !civil_key_era. set (x := z + epoch_shift). replace (z + 1 + epoch_shift) with (x + 1) by (unfold x; lia).
  pose proof (Z.mod_pos_bound x days_per_era ltac:(done)) as Hx.
  pose proof (era_key_next _ Hx) as Hlt.
  destruct (Z.eqb_spec (x mod days_per_era) (days_per_era - 1)) as [E|E].
  - assert ((x + 1) mod days_per_era = 0 ∧ (x + 1) / days_per_era = x / days_per_era + 1) as [-> ->]
      by (unfold days_per_era in *; lia).
    lia.
  - assert ((x + 1) mod days_per_era = x mod days_per_era + 1 ∧
      (x + 1) / days_per_era = x / days_per_era) as [-> ->] by (unfold days_per_era in *; lia).
    lia.
Qed.

(** Later days have later dates. *)
Lemma civil_key_mono a b : a < b → civil_key a < civil_key b.
Proof.
  intros Hab. replace b with (a + 1 + (b - a - 1)) by lia.
  assert (∀ n, 0 <= n → civil_key a < civil_key (a + 1 + n)) as Hn; [|apply Hn; lia].
  apply natlike_ind.
  - rewrite Z.add_0_r. apply civil_key_next.
  - intros n Hn IH. etrans; [exact IH|]. replace (a + 1 + Z.succ n) with (a + 1 + n + 1) by lia.
    apply civil_key_next.
Qed.
