(* ===== verification/Timestamp.v ===== *)
(** Timestamps of the native core (Native/src/Core/Authorship.cpp, [digits],
    [timestampShape], [timestamp], [utcNow]): ISO-8601 text with an offset is
    read as an instant and printed as canonical UTC text with milliseconds. *)
From S2P Require Import Prelude Text Calendar.
Local Open Scope Z_scope.

(** The exception of every failed [require]. *)
Definition invalid : string := "Invalid persisted author metadata".

Definition require (b : bool) : result string unit := check b invalid.

Definition digits (value : bytes) : result string Z :=
  match from_chars (-2147483648) INT32_MAX value with
  | Some (z, []) => Ok z
  | _ => Err invalid
  end.

(** ** The grammar *)

Definition separator (i : nat) : option ascii :=
  match i with
  | 4 | 7 => Some "-"%char
  | 10 => Some "T"%char
  | 13 | 16 => Some ":"%char
  | _ => None
  end%nat.

(** The offset after a fraction of one to three digits. *)
Definition fraction (raw : bytes) : option nat :=
  if bool_decide (byte_at raw 19 = "."%char) then
    let n := span_digits (drop 20 raw) in
    if (n =? 0)%nat || (3 <? n)%nat then None else Some (20 + n)%nat
  else Some 19%nat.

Definition zone_shape (raw : bytes) (offset : nat) : bool :=
  if (offset =? length raw)%nat then false else
  if bool_decide (byte_at raw offset = "Z"%char) then (offset + 1 =? length raw)%nat else
  (bool_decide (byte_at raw offset = "+"%char) || bool_decide (byte_at raw offset = "-"%char))
  && (offset + 6 =? length raw)%nat
  && bool_decide (byte_at raw (offset + 3) = ":"%char)
  && is_digit (byte_at raw (offset + 1)) && is_digit (byte_at raw (offset + 2))
  && is_digit (byte_at raw (offset + 4)) && is_digit (byte_at raw (offset + 5)).

Definition timestampShape (raw : bytes) : bool :=
  negb ((length raw <? 20)%nat || (29 <? length raw)%nat)
  && forallb (λ i, match separator i with
       | Some c => bool_decide (byte_at raw i = c)
       | None => is_digit (byte_at raw i)
       end) (seq 0 19)
  && match fraction raw with
     | Some offset => zone_shape raw offset
     | None => false
     end.

(** ** Reading *)

(** Milliseconds, and the offset of the zone. *)
Definition read_fraction (raw : bytes) : result string (Z * nat) :=
  if bool_decide (byte_at raw 19 = "."%char) then
    let count := default (length raw - 20)%nat (find_byte (one_of "Z+-") (drop 20 raw)) in
    ms ← digits (substr raw 20 count);
    Ok (if (count =? 1)%nat then ms * 100 else if (count =? 2)%nat then ms * 10 else ms,
        (20 + count)%nat)
  else Ok (0, 19%nat).

(** The minutes east of Greenwich. *)
Definition read_zone (raw : bytes) (offset : nat) : result string Z :=
  if bool_decide (byte_at raw offset = "Z"%char) then Ok 0 else
  hours ← digits (substr raw (offset + 1) 2);
  minutes ← digits (substr raw (offset + 4) 2);
  _ ← require ((hours <=? 23) && (minutes <? 60));
  Ok ((hours * 60 + minutes) *
      (if bool_decide (byte_at raw offset = "+"%char) then 1 else -1)).

(** An instant, in milliseconds since the epoch. *)
Definition instant (raw : bytes) : result string Z :=
  _ ← require (timestampShape raw);
  y ← digits (substr raw 0 4);
  mo ← digits (substr raw 5 2);
  d ← digits (substr raw 8 2);
  h ← digits (substr raw 11 2);
  mi ← digits (substr raw 14 2);
  s ← digits (substr raw 17 2);
  _ ← require (date_ok y mo d && (h <? 24) && (mi <? 60) && (s <? 60));
  '(ms, offset) ← read_fraction raw;
  timezone ← read_zone raw offset;
  Ok (days_from_civil y mo d * 86400000 + h * 3600000 + (mi - timezone) * 60000 + s * 1000 + ms).

(** ** Printing *)

(** [snprintf("%04d-%02u-%02uT%02lld:%02lld:%02lld.%03lldZ")] of the UTC fields. *)
Definition print_instant (t : Z) : bytes :=
  let '(y, mo, d) := civil_from_days (t / 86400000) in
  let rest := t mod 86400000 in
  pad 4 y ++ "-"%char :: pad 2 mo ++ "-"%char :: pad 2 d ++ "T"%char ::
  pad 2 (rest / 3600000) ++ ":"%char :: pad 2 (rest / 60000 mod 60) ++ ":"%char ::
  pad 2 (rest / 1000 mod 60) ++ "."%char :: pad 3 (rest mod 1000) ++ ["Z"%char].

Definition timestamp (raw : bytes) : result string bytes :=
  t ← instant raw; Ok (print_instant t).

Lemma print_instant_fields t y mo d : civil_from_days (t / 86400000) = (y, mo, d) →
  let rest := t mod 86400000 in
  print_instant t = pad 4 y ++ "-"%char :: pad 2 mo ++ "-"%char :: pad 2 d ++ "T"%char ::
    pad 2 (rest / 3600000) ++ ":"%char :: pad 2 (rest / 60000 mod 60) ++ ":"%char ::
    pad 2 (rest / 1000 mod 60) ++ "."%char :: pad 3 (rest mod 1000) ++ ["Z"%char].
Proof. unfold print_instant. by intros ->. Qed.

(** [utcNow] when the system clock shows [now] nanoseconds since the epoch. *)
Definition utcNow (now : Z) : bytes := print_instant (now / 1000000).

(** ** Lemmas *)

#[local] Ltac Zify.zify_post_hook ::= Z.to_euclidean_division_equations.

(** The instants of the years 0 to 9999. *)
Definition representable (t : Z) : Prop :=
  days_from_civil 0 1 1 * 86400000 <= t < days_from_civil 10000 1 1 * 86400000.

#[export] Instance representable_dec t : Decision (representable t).
Proof. unfold representable. apply _. Defined.

Lemma digits_value s : s ≠ [] → Forall is_digit s → (length s <= 9)%nat →
  digits s = Ok (decimal_value s).
Proof.
  intros Hne Hs Hlen. unfold digits. rewrite from_chars_digits; [done..|].
  pose proof (decimal_value_range _ Hs) as Hr.
  assert (10 ^ len s <= 10 ^ 9) by (apply Z.pow_le_mono_r; lia).
  unfold INT32_MAX. change (10 ^ 9) with 1000000000 in *. lia.
Qed.

Lemma pad_digits_value w z : 0 <= z < 10 ^ Z.of_nat w → (0 < w <= 9)%nat → digits (pad w z) = Ok z.
Proof.
  intros Hz Hw. pose proof (pad_length w z Hz ltac:(lia)) as Hlen.
  rewrite digits_value, pad_value; [done|lia| |apply pad_digits; lia|lia].
  intros E. rewrite E in Hlen. simpl in Hlen. lia.
Qed.

(** The characters of a padded number. *)
Lemma pad2 z : 0 <= z < 100 → ∃ a b, pad 2 z = [a; b] ∧ is_digit a = true ∧ is_digit b = true ∧
  digits [a; b] = Ok z.
Proof.
  intros Hz. pose proof (pad_length 2 z Hz ltac:(lia)) as Hlen.
  pose proof (pad_digits 2 z ltac:(lia)) as Hd. pose proof (pad_digits_value 2 z Hz ltac:(lia)) as Hv.
  destruct (pad 2 z) as [|a [|b [|]]]; try done. rewrite !Forall_cons in Hd. exists a, b.
  rewrite <-!Is_true_true. tauto.
Qed.

Lemma pad3 z : 0 <= z < 1000 → ∃ a b c, pad 3 z = [a; b; c] ∧ is_digit a = true ∧
  is_digit b = true ∧ is_digit c = true ∧ digits [a; b; c] = Ok z.
Proof.
  intros Hz. pose proof (pad_length 3 z Hz ltac:(lia)) as Hlen.
  pose proof (pad_digits 3 z ltac:(lia)) as Hd. pose proof (pad_digits_value 3 z Hz ltac:(lia)) as Hv.
  destruct (pad 3 z) as [|a [|b [|c [|]]]]; try done. rewrite !Forall_cons in Hd. exists a, b, c.
  rewrite <-!Is_true_true. tauto.
Qed.

Lemma pad4 z : 0 <= z < 10000 → ∃ a b c d, pad 4 z = [a; b; c; d] ∧ is_digit a = true ∧
  is_digit b = true ∧ is_digit c = true ∧ is_digit d = true ∧ digits [a; b; c; d] = Ok z.
Proof.
  intros Hz. pose proof (pad_length 4 z Hz ltac:(lia)) as Hlen.
  pose proof (pad_digits 4 z ltac:(lia)) as Hd. pose proof (pad_digits_value 4 z Hz ltac:(lia)) as Hv.
  destruct (pad 4 z) as [|a [|b [|c [|d [|]]]]]; try done. rewrite !Forall_cons in Hd.
  exists a, b, c, d. rewrite <-!Is_true_true. tauto.
Qed.

Lemma digit_not_zone c : is_digit c = true → one_of "Z+-" c = false.
Proof.
  intros Hc. unfold one_of. apply bool_decide_eq_false. intros Hin.
  change (lit "Z+-") with ["Z"%char; "+"%char; "-"%char] in Hin. set_unfold in Hin.
  by destruct Hin as [->|[->|[->|[]]]]; vm_compute in Hc.
Qed.

(** The fields of an instant. *)
Lemma instant_fields t : ∃ y mo d, civil_from_days (t / 86400000) = (y, mo, d) ∧
  date_ok y mo d = true ∧ days_from_civil y mo d = t / 86400000 ∧ 1 <= mo <= 12 ∧ 1 <= d <= 31 ∧
  (representable t → 0 <= y <= 9999).
Proof.
  pose proof (civil_days (t / 86400000)) as Hc.
  destruct (civil_from_days (t / 86400000)) as [[y mo] d] eqn:E. destruct Hc as [Hok Hdays].
  assert (1 <= mo <= 12 ∧ 1 <= d <= 31) as [Hm Hd].
  { unfold date_ok, last_day in Hok. inv_ok. rewrite ?Z.leb_le in *. repeat case_match; lia. }
  exists y, mo, d. split_and!; try done; try lia. intros [H1 H2].
  assert (civil_key (t / 86400000) = date_key y mo d) as Hkey by (unfold civil_key; by rewrite E).
  assert (∀ z, days_from_civil 0 1 1 <= z → civil_key (days_from_civil 0 1 1) <= civil_key z) as Hlow.
  { intros z Hz. destruct (decide (z = days_from_civil 0 1 1)) as [->|]; [done|].
    apply Z.lt_le_incl, civil_key_mono. lia. }
  specialize (Hlow (t / 86400000) ltac:(lia)).
  pose proof (civil_key_mono (t / 86400000) (days_from_civil 10000 1 1) ltac:(lia)) as Hhigh.
  rewrite Hkey in *. change (civil_key (days_from_civil 0 1 1)) with 101 in Hlow.
  change (civil_key (days_from_civil 10000 1 1)) with 100000101 in Hhigh.
  unfold date_key in *. lia.
Qed.

(** The clock fields of a day make up its milliseconds. *)
Lemma clock_fields r :
  r = r / 3600000 * 3600000 + r / 60000 mod 60 * 60000 + r / 1000 mod 60 * 1000 + r mod 1000.
Proof.
  replace (r / 3600000) with (r / 1000 / 60 / 60) by (rewrite !Z.div_div; done || lia).
  replace (r / 60000) with (r / 1000 / 60) by (rewrite !Z.div_div; done || lia).
  lia.
Qed.

(** Canonical text has the shape of a timestamp and denotes its instant. *)
Lemma instant_print t : representable t → instant (print_instant t) = Ok t.
Proof.
  intros Ht. destruct (instant_fields t) as (y & mo & d & E & Hok & Hdays & Hm & Hd & Hy).
  specialize (Hy Ht). rewrite (print_instant_fields _ _ _ _ E). set (rest := t mod 86400000).
  assert (0 <= rest < 86400000) as Hrest by (unfold rest; lia).
  destruct (pad4 y ltac:(lia)) as (a1 & a2 & a3 & a4 & -> & A1 & A2 & A3 & A4 & Ey).
  destruct (pad2 mo ltac:(lia)) as (b1 & b2 & -> & B1 & B2 & Emo).
  destruct (pad2 d ltac:(lia)) as (c1 & c2 & -> & C1 & C2 & Ed).
  destruct (pad2 (rest / 3600000) ltac:(lia)) as (d1 & d2 & -> & D1 & D2 & Eh).
  destruct (pad2 (rest / 60000 mod 60) ltac:(lia)) as (e1 & e2 & -> & E1 & E2 & Emi).
  destruct (pad2 (rest / 1000 mod 60) ltac:(lia)) as (f1 & f2 & -> & F1 & F2 & Es).
  destruct (pad3 (rest mod 1000) ltac:(lia)) as (g1 & g2 & g3 & -> & G1 & G2 & G3 & Ems).
  cbn [app]. set (raw := [a1; a2; a3; a4; _; _; _; _; _; _; _; _; _; _; _; _; _; _; _; _; _; _; _; _]).
  assert (timestampShape raw = true) as Hshape.
  { unfold timestampShape, raw. cbn [length seq forallb separator byte_at nth Nat.ltb Nat.leb].
    rewrite A1, A2, A3, A4, B1, B2, C1, C2, D1, D2, E1, E2, F1, F2.
    unfold fraction. cbn [byte_at nth span_digits drop]. rewrite G1, G2, G3. reflexivity. }
  assert (read_fraction raw = Ok (rest mod 1000, 23%nat)) as Hfrac.
  { unfold read_fraction. change (byte_at raw 19) with "."%char.
    change (drop 20 raw) with [g1; g2; g3; "Z"%char].
    assert (find_byte (one_of "Z+-") [g1; g2; g3; "Z"%char] = Some 3%nat) as ->
      by (cbn [find_byte]; by rewrite !digit_not_zone by done).
    rewrite bool_decide_true by done. cbv zeta. simpl (default _ _).
    match goal with |- context [substr raw 20 ?n] => change (substr raw 20 n) with [g1; g2; g3] end.
    rewrite Ems. reflexivity. }
  unfold instant, require. rewrite Hshape. 
  change (substr raw 0 4) with [a1; a2; a3; a4]. change (substr raw 5 2) with [b1; b2].
  change (substr raw 8 2) with [c1; c2]. change (substr raw 11 2) with [d1; d2].
  change (substr raw 14 2) with [e1; e2]. change (substr raw 17 2) with [f1; f2].
  cbn [check mbind result_bind]. rewrite Ey, Emo, Ed, Eh, Emi, Es. cbn [mbind result_bind].
  rewrite Hok, !(proj2 (Z.ltb_lt _ _)) by lia. cbn [andb check mbind result_bind].
  rewrite Hfrac. cbn [mbind result_bind]. change (read_zone raw 23) with (@Ok string Z 0).
  cbn [mbind result_bind]. rewrite Hdays. f_equal. pose proof (clock_fields rest) as Hclock. fold rest in Hclock.
  assert (t = t / 86400000 * 86400000 + rest) by (unfold rest; lia). lia.
Qed.

(** Comparing printed numbers field by field. *)
Lemma compare_pad w x y c a b : 0 <= x < 10 ^ Z.of_nat w → 0 <= y < 10 ^ Z.of_nat w → (0 < w)%nat →
  bytes_compare (pad w x ++ c :: a) (pad w y ++ c :: b) =
    match x ?= y with Eq => bytes_compare a b | o => o end.
Proof.
  intros Hx Hy Hw. rewrite bytes_compare_app by by rewrite !pad_length.
  rewrite bytes_compare_digits, !pad_value by
    (by rewrite ?pad_length || (apply pad_digits; lia) || lia).
  destruct (x ?= y); [|done..]. simpl. by rewrite Z.compare_refl.
Qed.

Lemma compare_pad2 x y c a b : 0 <= x < 100 → 0 <= y < 100 →
  bytes_compare (pad 2 x ++ c :: a) (pad 2 y ++ c :: b) =
    match x ?= y with Eq => bytes_compare a b | o => o end.
Proof. intros Hx Hy. by apply compare_pad; [..|lia]. Qed.

Lemma compare_pad3 x y c a b : 0 <= x < 1000 → 0 <= y < 1000 →
  bytes_compare (pad 3 x ++ c :: a) (pad 3 y ++ c :: b) =
    match x ?= y with Eq => bytes_compare a b | o => o end.
Proof. intros Hx Hy. by apply compare_pad; [..|lia]. Qed.

Lemma compare_pad4 x y c a b : 0 <= x < 10000 → 0 <= y < 10000 →
  bytes_compare (pad 4 x ++ c :: a) (pad 4 y ++ c :: b) =
    match x ?= y with Eq => bytes_compare a b | o => o end.
Proof. intros Hx Hy. by apply compare_pad; [..|lia]. Qed.

(** The clock fields are in range. *)
Lemma clock_range r : 0 <= r < 86400000 →
  0 <= r / 3600000 < 100 ∧ 0 <= r / 60000 mod 60 < 60 ∧ 0 <= r / 1000 mod 60 < 60 ∧
  0 <= r mod 1000 < 1000.
Proof. intros Hr. lia. Qed.

Lemma date_lt y mo d y' mo' d' rest :
  1 <= mo <= 12 → 1 <= d <= 31 → 1 <= mo' <= 12 → 1 <= d' <= 31 →
  date_key y mo d < date_key y' mo' d' →
  match y ?= y' with
  | Eq => match mo ?= mo' with Eq => match d ?= d' with Eq => rest | o => o end | o => o end
  | o => o
  end = Lt.
Proof.
  unfold date_key. intros Hm Hd Hm' Hd' Hk.
  destruct (Z.compare_spec y y'); [|done|lia].
  destruct (Z.compare_spec mo mo'); [|done|lia]. destruct (Z.compare_spec d d'); [lia|done|lia].
Qed.

Lemma clock_lt h mi s ms h' mi' s' ms' rest :
  0 <= mi < 60 → 0 <= s < 60 → 0 <= ms < 1000 → 0 <= mi' < 60 → 0 <= s' < 60 → 0 <= ms' < 1000 →
  h * 3600000 + mi * 60000 + s * 1000 + ms < h' * 3600000 + mi' * 60000 + s' * 1000 + ms' →
  match h ?= h' with
  | Eq => match mi ?= mi' with
          | Eq => match s ?= s' with Eq => match ms ?= ms' with Eq => rest | o => o end | o => o end
          | o => o
          end
  | o => o
  end = Lt.
Proof.
  intros. destruct (Z.compare_spec h h'); [|done|lia]. destruct (Z.compare_spec mi mi'); [|done|lia].
  destruct (Z.compare_spec s s'); [|done|lia]. destruct (Z.compare_spec ms ms'); [lia|done|lia].
Qed.

Lemma print_instant_lt t u : representable t → representable u → t < u →
  bytes_compare (print_instant t) (print_instant u) = Lt.
Proof.
  intros Ht Hu Hlt. pose proof (instant_fields t) as (y & mo & d & E & _ & _ & Hm & Hd & Hy).
  pose proof (instant_fields u) as (y' & mo' & d' & E' & _ & _ & Hm' & Hd' & Hy').
  specialize (Hy Ht). specialize (Hy' Hu).
  rewrite (print_instant_fields _ _ _ _ E), (print_instant_fields _ _ _ _ E').
  destruct (clock_range (t mod 86400000) (Z.mod_pos_bound _ 86400000 eq_refl)) as (R1 & R2 & R3 & R4).
  destruct (clock_range (u mod 86400000) (Z.mod_pos_bound _ 86400000 eq_refl)) as (R1' & R2' & R3' & R4').
  rewrite compare_pad4, !compare_pad2, compare_pad3 by lia.
  destruct (decide (t / 86400000 = u / 86400000)) as [Eq|Hne].
  - rewrite Eq, E' in E. injection E as <- <- <-. rewrite !Z.compare_refl.
    apply clock_lt; [done..|]. rewrite <-!clock_fields. clear -Eq Hlt. lia.
  - pose proof (civil_key_mono (t / 86400000) (u / 86400000) ltac:(clear -Hne Hlt; lia)) as Hk.
    unfold civil_key in Hk. rewrite E, E' in Hk. by apply date_lt.
Qed.

Lemma print_instant_compare t u : representable t → representable u →
  bytes_compare (print_instant t) (print_instant u) = (t ?= u).
Proof.
  intros Ht Hu. destruct (Z.compare_spec t u) as [->|Hlt|Hlt].
  - by apply bytes_compare_eq.
  - by apply print_instant_lt.
  - rewrite bytes_compare_antisym. by rewrite print_instant_lt.
Qed.

Lemma instant_shape raw t : instant raw = Ok t → timestampShape raw = true.
Proof. unfold instant, require. destruct (timestampShape raw); done. Qed.

Lemma print_shape t : representable t → timestampShape (print_instant t) = true.
Proof. intros Ht. exact (instant_shape _ _ (instant_print t Ht)). Qed.

Lemma timestamp_instant raw t : instant raw = Ok t → timestamp raw = Ok (print_instant t).
Proof. unfold timestamp. by intros ->. Qed.

Lemma timestamp_print t : representable t → timestamp (print_instant t) = Ok (print_instant t).
Proof. intros Ht. by apply timestamp_instant, instant_print. Qed.

Lemma year_representable t y mo d : civil_from_days (t / 86400000) = (y, mo, d) → 0 <= y <= 9999 →
  representable t.
Proof.
  intros E Hy. destruct (instant_fields t) as (y' & mo' & d' & E' & _ & _ & Hm & Hd & _).
  rewrite E in E'. injection E' as <- <- <-. unfold representable.
  assert (civil_key (t / 86400000) = date_key y mo d) as Hk by (unfold civil_key; by rewrite E).
  unfold date_key in Hk. split.
  - destruct (Z.lt_ge_cases (t / 86400000) (days_from_civil 0 1 1)) as [Hlt|]; [|lia].
    apply civil_key_mono in Hlt. change (civil_key (days_from_civil 0 1 1)) with 101 in Hlt. lia.
  - destruct (Z.lt_ge_cases (t / 86400000) (days_from_civil 10000 1 1)) as [|Hge]; [lia|].
    destruct (decide (t / 86400000 = days_from_civil 10000 1 1)) as [Eq|Hne].
    + rewrite Eq in Hk. change (civil_key (days_from_civil 10000 1 1)) with 100000101 in Hk. lia.
    + pose proof (civil_key_mono (days_from_civil 10000 1 1) (t / 86400000) ltac:(lia)) as Hlt.
      change (civil_key (days_from_civil 10000 1 1)) with 100000101 in Hlt. lia.
Qed.

(** A text of the shape of a timestamp starts with four digits and a dash. *)
Lemma shape_year raw : timestampShape raw = true →
  is_digit (byte_at raw 0) = true ∧ byte_at raw 4 = "-"%char.
Proof.
  unfold timestampShape. intros E. inv_ok. cbn [forallb seq separator] in H1. inv_ok. done.
Qed.

Lemma shape_representable t : timestampShape (print_instant t) = true → representable t.
Proof.
  intros [H0 H4]%shape_year. destruct (instant_fields t) as (y & mo & d & E & _).
  apply (year_representable _ _ _ _ E). rewrite (print_instant_fields _ _ _ _ E) in H0, H4.
  unfold pad in H0, H4 at 1. destruct (Z.ltb_spec y 0) as [|Hy]; [by vm_compute in H0|].
  split; [done|]. destruct (Z.le_gt_cases y 9999) as [|Hbig]; [done|exfalso].
  pose proof (to_string_digits y Hy) as Hdig. pose proof (to_string_value y Hy) as Hval.
  pose proof (decimal_value_range _ Hdig) as Hr. rewrite Hval in Hr.
  assert (5 <= length (to_string y))%nat as Hlen.
  { destruct (le_lt_dec 5 (length (to_string y))) as [|Hlt]; [done|].
    assert (10 ^ len (to_string y) <= 10 ^ 4) by (apply Z.pow_le_mono_r; lia).
    change (10 ^ 4) with 10000 in *. lia. }
  destruct (to_string y) as [|a1 [|a2 [|a3 [|a4 [|a5 l]]]]]; try (simpl in Hlen; lia).
  cbv zeta beta in H4. replace (4 - length (a1 :: a2 :: a3 :: a4 :: a5 :: l))%nat with 0%nat in H4 by (simpl; lia).
  cbn [replicate app] in H4. unfold byte_at in H4. cbn [nth] in H4. subst a5.
  rewrite !Forall_cons in Hdig. destruct Hdig as (_ & _ & _ & _ & Hd & _). by apply minus_not_digit in Hd.
Qed.

(** A canonical timestamp of the grammar is its own canonical form. *)
Lemma timestamp_again raw s : timestamp raw = Ok s → timestampShape s = true → timestamp s = Ok s.
Proof.
  unfold timestamp at 1. intros E Hs. apply bind_ok in E as (t & Ht & E). apply ok_inj in E. subst s.
  by apply timestamp_print, shape_representable.
Qed.

(** ** Properties *)

(** Reading a timestamp gives canonical text, once and for all.  When the
    instant a timestamp denotes lies in the years 0 to 9999, its canonical form has
    the shape of a timestamp, denotes the same instant, and is its own canonical
    form. *)
Theorem timestamp_is_canonical raw t :
  instant raw = Ok t → representable t → ∃ s, timestamp raw = Ok s ∧
    timestampShape s = true ∧ instant s = Ok t ∧ timestamp s = Ok s.
Proof.
  intros E Ht. exists (print_instant t).
  split_and!; [by apply timestamp_instant|by apply print_shape|by apply instant_print|by apply timestamp_print].
Qed.

Lemma timestamp_is_canonical_witness : ∃ s,
  timestamp (lit "2024-02-29T23:59:59.5+01:30") = Ok s ∧ timestamp s = Ok s.
Proof.
  destruct (timestamp_is_canonical (lit "2024-02-29T23:59:59.5+01:30") 1709245799500)
    as (s & E & _ & _ & E').
  - vm_compute. reflexivity.
  - vm_compute. split; [discriminate|reflexivity].
  - exists s. exact (conj E E').
Defined.

(** Canonical timestamps sort as text in the order of time.  For any two
    timestamps in the years 0 to 9999, whatever their offsets and fractions,
    comparing the canonical texts byte by byte compares the instants. *)
Theorem timestamps_sort_by_time raw1 raw2 t1 t2 s1 s2 :
  instant raw1 = Ok t1 → instant raw2 = Ok t2 → representable t1 → representable t2 →
  timestamp raw1 = Ok s1 → timestamp raw2 = Ok s2 → bytes_compare s1 s2 = (t1 ?= t2).
Proof.
  intros E1 E2 H1 H2 S1 S2. rewrite (timestamp_instant _ _ E1) in S1.
  rewrite (timestamp_instant _ _ E2) in S2. apply ok_inj in S1, S2. subst s1 s2.
  by apply print_instant_compare.
Qed.

Lemma timestamps_sort_by_time_witness :
  bytes_compare (lit "2024-02-29T22:29:59.500Z") (lit "2024-02-29T22:30:00.000Z") = Lt.
Proof.
  exact (timestamps_sort_by_time (lit "2024-02-29T23:59:59.5+01:30") (lit "2024-02-29T22:30:00Z")
    1709245799500 1709245800000 (lit "2024-02-29T22:29:59.500Z") (lit "2024-02-29T22:30:00.000Z")
    ltac:(vm_compute; reflexivity) ltac:(vm_compute; reflexivity)
    ltac:(vm_compute; split; [discriminate|reflexivity])
    ltac:(vm_compute; split; [discriminate|reflexivity])
    ltac:(vm_compute; reflexivity) ltac:(vm_compute; reflexivity)).
Defined.

(** An accepted timestamp can leave the years the grammar can write: its
    canonical form is then refused when it is read back. *)
Theorem timestamp_leaves_the_grammar :
  timestamp (lit "9999-12-31T23:59:59-00:01") = Ok (lit "10000-01-01T00:00:59.000Z") ∧
  timestamp (lit "10000-01-01T00:00:59.000Z") = Err invalid ∧
  timestamp (lit "0000-01-01T00:00:00+00:01") = Ok (lit "-001-12-31T23:59:00.000Z") ∧
  timestamp (lit "-001-12-31T23:59:00.000Z") = Err invalid.
Proof. by vm_compute. Qed.
