(* ===== verification/CoreText.v ===== *)
(** Text of the native core (Native/src/Core/Authorship.cpp, [scalars],
    [normalize], [whitespace], [clean]): UTF-8 text is normalised, trimmed and
    checked, and what comes out is its own clean form. *)
From S2P Require Import Prelude Text Unicode Timestamp.
Local Open Scope Z_scope.

(** ** Code points *)

(** The error of a decoder that ran out of fuel; it is never returned. *)
Definition out_of_fuel : string := "out of fuel".

Fixpoint scalars_from (fuel : nat) (value : bytes) : result string (list Z) :=
  match value with
  | [] => Ok []
  | _ =>
      match fuel with
      | O => Err out_of_fuel
      | S fuel =>
          '(code, length) ← of_option invalid (utf8proc_iterate value);
          rest ← scalars_from fuel (drop length value);
          Ok (code :: rest)
      end
  end.

(** Every step takes a byte at least. *)
Definition scalars (value : bytes) : result string (list Z) :=
  scalars_from (length value) value.

Section core_text.
  Context `{Utf8proc}.

Definition lower (point : Z) : bytes :=
  if point =? 0x130 then [ascii_of_N 0x69; ascii_of_N 0xcc; ascii_of_N 0x87]
  else utf8proc_encode_char (utf8proc_tolower point).

Definition normalize (input : bytes) (compatibility fold : bool) : result string bytes :=
  output ← of_option invalid (utf8proc_map compatibility input);
  if fold then points ← scalars output; Ok (concat (lower <$> points)) else Ok output.

Definition whitespace (c : Z) : bool :=
  ((9 <=? c) && (c <=? 13)) || (c =? 0x85) || bool_decide (utf8proc_category c = ZS)
  || (c =? 0x2028) || (c =? 0x2029).

Fixpoint trim_front (points : list Z) : list Z :=
  match points with
  | [] => []
  | c :: l => if whitespace c then trim_front l else points
  end.

Definition trim (points : list Z) : list Z := reverse (trim_front (reverse (trim_front points))).

(** What a character of clean text is. *)
Definition allowed (multiline : bool) (point : Z) : bool :=
  (multiline && (point =? 10)) ||
  (negb (bool_decide (utf8proc_category point = CC)) &&
   negb (bool_decide (utf8proc_category point = ZL)) &&
   negb (bool_decide (utf8proc_category point = ZP))).

(** The loop that writes the text out, character by character. *)
Fixpoint write_points (multiline : bool) (points : list Z) : result string bytes :=
  match points with
  | [] => Ok []
  | point :: points =>
      _ ← require (allowed multiline point);
      rest ← write_points multiline points;
      Ok (utf8proc_encode_char point ++ rest)
  end.

Definition clean (value : bytes) (maximum : Z) (required multiline : bool) : result string bytes :=
  value ← normalize value false false;
  points ← scalars value;
  let points := trim points in
  _ ← require ((len points <=? maximum) && (negb required || negb (bool_decide (points = []))));
  write_points multiline points.

(** ** Decoding terminates and inverts encoding *)

Lemma scalars_from_step fuel value code n : utf8proc_iterate value = Some (code, n) →
  scalars_from (S fuel) value = (rest ← scalars_from fuel (drop n value); Ok (code :: rest)).
Proof. intros E. destruct value as [|x l]; [done|]. cbn [scalars_from]. by rewrite E. Qed.

Lemma scalars_from_utf8 points fuel : Forall scalar points → (length (utf8 points) <= fuel)%nat →
  scalars_from fuel (utf8 points) = Ok points.
Proof.
  intros Hp. revert fuel. induction Hp as [|c points Hc Hp IH]; intros fuel Hf; [by destruct fuel|].
  apply Is_true_true in Hc. rewrite utf8_cons in *. rewrite length_app in Hf.
  assert (0 < length (utf8proc_encode_char c))%nat as Hpos.
  { destruct (utf8proc_encode_char c) eqn:E; [by apply encode_nonempty in E|simpl; lia]. }
  destruct fuel as [|fuel]; [lia|].
  rewrite (scalars_from_step _ _ _ _ (iterate_encode c _ Hc)), drop_app_length, IH by lia. done.
Qed.

(** The code points of UTF-8 text. *)
Lemma scalars_utf8 points : Forall scalar points → scalars (utf8 points) = Ok points.
Proof. intros Hp. by apply scalars_from_utf8. Qed.

Lemma scalars_from_inv fuel value points : scalars_from fuel value = Ok points →
  Forall scalar points ∧ value = utf8 points.
Proof.
  revert value points. induction fuel as [|fuel IH]; intros [|x value] points E;
    try (injection E as <-); try done; cbn [scalars_from] in E; inv_ok.
  apply IH in H1 as [Hp Hv]. apply iterate_inv in H0 as (Hc & rest & E & ->).
  rewrite E, drop_app_length in Hv. subst rest. split; [|by rewrite E, utf8_cons].
  by constructor; [apply Is_true_true|].
Qed.

Lemma scalars_inv value points : scalars value = Ok points →
  Forall scalar points ∧ value = utf8 points.
Proof. apply scalars_from_inv. Qed.

(** The loop of [scalars] terminates: any fuel from the size of the text on gives
    the same result, which is not the exhaustion of the fuel. *)
Lemma scalars_from_enough fuel1 fuel2 value : (length value <= fuel1)%nat →
  (length value <= fuel2)%nat → scalars_from fuel1 value = scalars_from fuel2 value ∧
  scalars_from fuel1 value ≠ Err out_of_fuel.
Proof.
  revert fuel2 value. induction fuel1 as [|f1 IH]; intros [|f2] [|x value] H1 H2;
    try done; try (simpl in *; lia).
  destruct (utf8proc_iterate (x :: value)) as [[c n]|] eqn:E.
  - rewrite !(scalars_from_step _ _ _ _ E).
    apply iterate_inv in E as (Hc & rest & E & ->). rewrite E in *. rewrite drop_app_length.
    assert (0 < length (utf8proc_encode_char c))%nat as Hpos.
    { destruct (utf8proc_encode_char c) eqn:E'; [by apply encode_nonempty in E'|simpl; lia]. }
    rewrite length_app in H1, H2. destruct (IH f2 rest ltac:(lia) ltac:(lia)) as [-> Hn].
    split; [done|]. destruct (scalars_from f2 rest); simpl; [done|]. congruence.
  - cbn [scalars_from]. by rewrite E.
Qed.

Lemma scalars_ascii s : Forall is_ascii s → scalars s = Ok (byteZ <$> s).
Proof.
  intros Hs. rewrite <-(utf8_ascii s) at 1 by done. apply scalars_utf8, Forall_fmap.
  eapply Forall_impl; [done|]. intros c Hc. apply Is_true_true. by apply scalar_ascii, Is_true_true.
Qed.

(** ** Trimming *)

Lemma trim_front_suffix l : ∃ front, l = front ++ trim_front l.
Proof.
  induction l as [|c l [front IH]]; [by exists []|]. simpl. case_match.
  - exists (c :: front). simpl. by rewrite <-IH.
  - by exists [].
Qed.

(** The text does not start with white space. *)
Definition trimmed (l : list Z) : Prop := match l with [] => True | c :: _ => whitespace c = false end.

Lemma trim_front_trimmed l : trimmed (trim_front l).
Proof. induction l as [|c l IH]; [done|]. simpl. destruct (whitespace c) eqn:E; done. Qed.

Lemma trim_front_id l : trimmed l → trim_front l = l.
Proof. destruct l as [|c l]; [done|]. simpl. by intros ->. Qed.

Lemma trimmed_prefix l suffix : trimmed (l ++ suffix) → trimmed l.
Proof. by destruct l. Qed.

Lemma trim_part l : ∃ front back, l = front ++ trim l ++ back.
Proof.
  destruct (trim_front_suffix l) as [front E1].
  destruct (trim_front_suffix (reverse (trim_front l))) as [back E2].
  exists front, (reverse back). unfold trim. rewrite <-reverse_app, <-E2, reverse_involutive. done.
Qed.

Lemma trim_ends l : trimmed (trim l) ∧ trimmed (reverse (trim l)).
Proof.
  unfold trim. split; [|rewrite reverse_involutive; apply trim_front_trimmed].
  destruct (trim_front_suffix (reverse (trim_front l))) as [back E].
  apply (trimmed_prefix _ (reverse back)). rewrite <-reverse_app, <-E, reverse_involutive.
  apply trim_front_trimmed.
Qed.

Lemma trim_id l : trimmed l → trimmed (reverse l) → trim l = l.
Proof. intros H1 H2. unfold trim. by rewrite (trim_front_id l), trim_front_id, reverse_involutive. Qed.

Lemma trim_trim l : trim (trim l) = trim l.
Proof. destruct (trim_ends l). by apply trim_id. Qed.

(** ** Clean text *)

Lemma clean_loop multiline points : write_points multiline points =
  (_ ← require (forallb (allowed multiline) points); Ok (utf8 points)).
Proof.
  induction points as [|c l IH]; [done|]. cbn [write_points forallb].
  destruct (allowed multiline c); [|done]. cbn [require check mbind result_bind andb].
  rewrite IH. by destruct (forallb (allowed multiline) l).
Qed.

(** [clean] in one step. *)
Lemma clean_spec value maximum required multiline r : clean value maximum required multiline = Ok r ↔
  ∃ t points, utf8proc_map false value = Some t ∧ scalars t = Ok points ∧ r = utf8 (trim points) ∧
    len (trim points) <= maximum ∧ (required = true → trim points ≠ []) ∧
    forallb (allowed multiline) (trim points) = true.
Proof.
  unfold clean, normalize. split.
  - intros E. inv_ok. rewrite clean_loop in E. unfold require in *. inv_ok.
    rewrite Z.leb_le in *. eexists _, _. split_and!; try done.
    intros ->. simpl in *. inv_ok. done.
  - intros (t & points & -> & Hs & -> & Hlen & Hreq & Hall). cbn [of_option mbind result_bind].
    rewrite Hs. cbn [mbind result_bind]. rewrite clean_loop, Hall. unfold require.
    rewrite (proj2 (Z.leb_le _ _) Hlen). destruct required; [|done].
    by rewrite bool_decide_false by by apply Hreq.
Qed.
End core_text.

Section laws.
  Context `{Utf8procLaws}.

(** Clean text is its own clean form, and ASCII text without control characters
    or outer blanks is clean. *)
Lemma clean_clean value maximum required multiline r :
  clean value maximum required multiline = Ok r → clean r maximum required multiline = Ok r.
Proof.
  rewrite !clean_spec. intros (t & points & Hm & Hs & -> & Hlen & Hreq & Hall).
  destruct (scalars_inv _ _ Hs) as [Hp ->]. pose proof (map_idempotent _ _ Hm) as Hid.
  destruct (trim_part points) as (front & back & E).
  rewrite E in Hid, Hp. pose proof (map_part _ _ _ Hp Hid) as Hpart.
  apply Forall_app in Hp as [_ [Hp _]%Forall_app].
  exists (utf8 (trim points)), (trim points). rewrite trim_trim. split_and!; try done.
  by apply scalars_utf8.
Qed.

Definition printable (c : ascii) : bool := (33 <=? byteZ c) && (byteZ c <=? 126).

Lemma printable_ascii s : Forall printable s → Forall is_ascii s.
Proof.
  intros Hs. eapply Forall_impl; [exact Hs|]. unfold printable, is_ascii. intros c Hc%Is_true_true. inv_ok.
  rewrite Z.leb_le in *. apply Is_true_true, Z.ltb_lt. lia.
Qed.

Lemma printable_point c : printable c = true →
  whitespace (byteZ c) = false ∧ ∀ multiline, allowed multiline (byteZ c) = true.
Proof.
  unfold printable. intros Hc. inv_ok. rewrite Z.leb_le in *.
  assert (utf8proc_category (byteZ c) = OtherCategory) as Hcat by (apply category_ascii; lia).
  unfold whitespace, allowed. rewrite Hcat. split.
  - rewrite bool_decide_false by done. lia.
  - intros m. by destruct (m && (byteZ c =? 10)).
Qed.

Lemma clean_printable s maximum required multiline :
  Forall printable s → len s <= maximum → s ≠ [] → clean s maximum required multiline = Ok s.
Proof.
  intros Hs Hlen Hne. apply clean_spec. pose proof (printable_ascii s Hs) as Ha.
  assert (Forall (λ c, whitespace c = false) (byteZ <$> s)) as Hw.
  { apply Forall_fmap. eapply Forall_impl; [exact Hs|]. intros c Hc%Is_true_true.
    by apply printable_point. }
  assert (∀ l, Forall (λ c, whitespace c = false) l → trimmed l) as Htr.
  { intros [|c l]; [done|]. by intros [? _]%Forall_cons. }
  assert (trim (byteZ <$> s) = byteZ <$> s) as Etrim.
  { apply trim_id; apply Htr; [done|]. by apply Forall_reverse. }
  exists s, (byteZ <$> s). rewrite Etrim, length_fmap. split_and!; try done.
  - by apply map_ascii.
  - by apply scalars_ascii.
  - by rewrite utf8_ascii.
  - intros _ E. by apply fmap_nil_inv in E.
  - apply forallb_forall. intros z Hz. apply in_map_iff in Hz as (c & <- & Hc).
    apply printable_point. rewrite Forall_forall in Hs. apply Is_true_true, Hs. by apply list_elem_of_In.
Qed.
End laws.
