(* ===== verification/UnicodePlain.v ===== *)
(** The simplest instance of the Unicode operations: text is left as it is, letter
    case and categories are those of Latin text.  It satisfies the laws, so they
    can be met, and it evaluates the examples. *)
From S2P Require Import Prelude Text Unicode Timestamp CoreText.
Local Open Scope Z_scope.

#[export] Instance plain_unicode : Utf8proc := {|
  utf8proc_map _ s := if is_ok (scalars s) then Some s else None;
  utf8proc_tolower c := if (65 <=? c) && (c <=? 90) then c + 32 else c;
  utf8proc_category c :=
    if (c <? 32) || ((127 <=? c) && (c <? 160)) then CC else
    if (c =? 32) || (c =? 160) then ZS else
    if c =? 0x2028 then ZL else if c =? 0x2029 then ZP else OtherCategory
|}.

#[export] Instance plain_unicode_laws : Utf8procLaws.
Proof.
  split; cbn.
  - intros _ s t. destruct (scalars s) as [points|] eqn:E; [|done]. intros [= <-].
    exists points. by apply scalars_inv.
  - intros s t. destruct (is_ok (scalars s)) eqn:E; [|done]. intros [= <-]. by rewrite E.
  - intros a b c [_ [Hb _]%Forall_app]%Forall_app _. by rewrite scalars_utf8.
  - intros _ s Hs. by rewrite scalars_ascii.
  - intros c. destruct ((65 <=? c) && (c <=? 90)) eqn:E; [|by rewrite E].
    destruct ((65 <=? c + 32) && (c + 32 <=? 90)) eqn:E2; [|done]. lia.
  - intros c Hc. rewrite !(proj2 (Z.eqb_neq _ _)) by lia. rewrite (proj2 (Z.ltb_ge c 32)) by lia.
    rewrite (proj2 (Z.leb_gt 127 c)) by lia. done.
Qed.
