(* ===== verification/Uri.v ===== *)
(** Addresses of the native core (Native/src/Core/Authorship.cpp, [validUri],
    [withoutUserInfo], [validTimeZone], [origin], [FileLink::create],
    [FileLink::fromString]). *)
From S2P Require Import Prelude Text Unicode Timestamp CoreText.
Local Open Scope Z_scope.

(** ** Characters of the C locale *)

Definition between (lo hi : Z) (c : ascii) : bool := (lo <=? byteZ c) && (byteZ c <=? hi).
Definition is_upper : ascii → bool := between 65 90.
Definition is_lower : ascii → bool := between 97 122.
Definition is_alpha (c : ascii) : bool := is_upper c || is_lower c.
Definition is_alnum (c : ascii) : bool := is_alpha c || is_digit c.
Definition is_xdigit (c : ascii) : bool := is_digit c || between 65 70 c || between 97 102 c.
Definition to_lower (c : ascii) : ascii := if is_upper c then Zbyte (byteZ c + 32) else c.

(** [s.substr(0, s.find_first_of(set))]. *)
Definition take_until (p : ascii → bool) (s : bytes) : bytes :=
  match find_byte p s with Some n => take n s | None => s end.

(** What follows the last [c], the whole text without one. *)
Definition after_last (c : ascii) (s : bytes) : bytes :=
  match find_byte (is_char c) (rev s) with Some n => drop (length s - n) s | None => s end.

Section uri.
  Context `{Utf8proc}.

(** ** URIs *)

Definition uri_point (c : Z) : bool :=
  negb ((c <=? 32) || bool_decide (utf8proc_category c = CC) || (c =? 0x2028) || (c =? 0x2029)).

(** The bytes of a code point when everything above ASCII is percent-encoded. *)
Definition encoded_bytes (c : Z) : Z :=
  if 0x80 <=? c then if c <? 0x800 then 6 else if c <? 0x10000 then 9 else 12 else 1.

Fixpoint percent_ok (s : bytes) : bool :=
  match s with
  | [] => true
  | c :: s =>
      if bool_decide (c = "%"%char) then
        match s with a :: b :: s => is_xdigit a && is_xdigit b && percent_ok s | _ => false end
      else percent_ok s
  end.

Definition scheme_char (c : ascii) : bool := is_alnum c || one_of "+-." c.

Definition port_ok (port : bytes) : bool :=
  bool_decide (port = []) ||
  match from_chars 0 UINT32_MAX port with Some (n, []) => n <=? 65535 | _ => false end.

Definition host_ok (host : bytes) : bool :=
  if bool_decide (host = []) then false else
  if starts_with (lit "[") host then
    match find_byte (is_char "]") host with
    | None => false
    | Some end_ =>
        if (end_ =? 1)%nat || negb (has_byte ":" (substr host 1 (end_ - 1))) then false else
        if (end_ + 1 <? length host)%nat then
          bool_decide (byte_at host (end_ + 1) = ":"%char) && port_ok (drop (end_ + 2) host)
        else true
    end
  else if bool_decide (find_byte (one_of "[]\") host = None) then
    match find_byte (is_char ":") host with
    | Some sep => negb (sep =? 0)%nat && port_ok (drop (sep + 1) host)
    | None => true
    end
  else false.

(** The position of the colon that ends a scheme. *)
Definition scheme_end (value : bytes) : option nat :=
  match find_byte (is_char ":") value, find_byte (one_of "/?#") value with
  | Some colon, Some path => if (colon <? path)%nat then Some colon else None
  | o, _ => o
  end.

Definition scheme_ok (value : bytes) (colon : nat) : bool :=
  negb ((colon =? 0)%nat || negb (is_alpha (byte_at value 0)))
  && forallb scheme_char (substr value 1 (colon - 1)).

Definition authority_ok (value : bytes) (scheme : option nat) : bool :=
  let rest := match scheme with Some colon => drop (colon + 1) value | None => value end in
  if starts_with (lit "//") rest then
    let authority := take_until (one_of "/?#") (drop 2 rest) in
    if bool_decide (authority = []) then
      match scheme with Some colon => bool_decide (take colon value = lit "file") | None => false end
    else host_ok (after_last "@" authority)
  else true.

Definition validUri (value : bytes) (absolute : bool) : bool :=
  if bool_decide (value = []) || (8192 <? len value) then false else
  match scalars value with
  | Err _ => false
  | Ok points =>
      forallb uri_point points
      && (foldl (λ n c, n + encoded_bytes c) 0 points <=? 8192)
      && match scheme_end value with
         | None => negb absolute
         | Some colon => scheme_ok value colon
         end
      && percent_ok value
      && authority_ok value (scheme_end value)
  end.

(** The position of [p] in [s]. *)
Fixpoint find_text (p s : bytes) : option nat :=
  if starts_with p s then Some O else
  match s with [] => None | _ :: s => S <$> find_text p s end.

Definition withoutUserInfo (url : bytes) : bool :=
  match find_text (lit "://") url with
  | None => false
  | Some marker =>
      let authority := take_until (one_of "/?#") (drop (marker + 3) url) in
      negb (bool_decide (authority = [])) && negb (has_byte "@" authority)
  end.

(** ** Service origins *)

Definition origin (value : bytes) : result string bytes :=
  _ ← require (validUri value true && starts_with (lit "https://") value
               && bool_decide (find_byte (one_of "@?#") (drop 8 value) = None));
  let slash := find_byte (is_char "/") (drop 8 value) in
  _ ← require match slash with
              | None => true
              | Some n => (8 + n =? length value - 1)%nat
              end;
  let value := match slash with Some _ => take (length value - 1) value | None => value end in
  _ ← require ((8 <? len value) && (len value <=? 2048));
  let value := take 8 value ++ (to_lower <$> drop 8 value) in
  Ok (if ends_with (lit ":443") value then take (length value - 4) value else value).

(** ** Time zones *)

(** The pieces between separators. *)
Fixpoint split (sep : ascii) (s : bytes) : list bytes :=
  match s with
  | [] => [[]]
  | c :: s =>
      if bool_decide (c = sep) then [] :: split sep s
      else match split sep s with p :: l => (c :: p) :: l | [] => [[c]] end
  end.

(** ["UTC[+-][0-9]{2}:[0-9]{2}"]. *)
Definition offset_pattern (s : bytes) : bool :=
  match s with
  | [u; t; c; sign; a; b; colon; d; e] =>
      bool_decide ([u; t; c] = lit "UTC") && one_of "+-" sign && bool_decide (colon = ":"%char)
      && is_digit a && is_digit b && is_digit d && is_digit e
  | _ => false
  end.

(** [locate_zone]: the zones of the library's database; [zone_file]: the regular
    files under the system's zone directories. *)
Definition validTimeZone (locate_zone zone_file : bytes → bool) (value : bytes) : bool :=
  if bool_decide (value = []) then true else
  if locate_zone value then true else
  if negb (starts_with (lit "/") value)
     && forallb (λ part, negb (bool_decide (part = lit ".." ∨ part = lit "."))) (split "/" value)
     && zone_file value then true else
  if bool_decide (value = lit "UTC") || bool_decide (value = lit "GMT") then true else
  if offset_pattern value then
    match digits (substr value 4 2), digits (substr value 7 2) with
    | Ok hours, Ok minutes => (hours <=? 14) && (minutes <? 60)
    | _, _ => false
    end
  else false.

(** ** Links *)

Record FileLink := { link_name : bytes; link_url : bytes }.

#[export] Instance FileLink_eq_dec : EqDecision FileLink.
Proof. solve_decision. Defined.

Definition create (name url : bytes) : option FileLink :=
  match clean name 160 true false with
  | Ok name => if negb (has_byte "|" name) && validUri url false
               then Some {| link_name := name; link_url := url |} else None
  | Err _ => None
  end.

Definition fromString (entry : bytes) : option FileLink :=
  match find_byte (is_char "|") entry with
  | None => None
  | Some sep =>
      if negb (starts_with (lit "[") entry) || negb (ends_with (lit "]") entry)
         || (sep <=? 1)%nat || (length entry - 2 <=? sep)%nat then None
      else create (substr entry 1 (sep - 1)) (substr entry (sep + 1) (length entry - sep - 2))
  end.
End uri.

(** * Laws: a canonical service origin is its own canonical form, links survive being
    written and read again. *)

(** ** Searching *)

Lemma find_byte_app p a b : find_byte p (a ++ b) =
  match find_byte p a with Some n => Some n | None => (λ n, (length a + n)%nat) <$> find_byte p b end.
Proof.
  induction a as [|c a IH]; simpl; [by destruct (find_byte p b)|].
  destruct (p c); [done|]. rewrite IH. destruct (find_byte p a); [done|]. by destruct (find_byte p b).
Qed.

Lemma find_byte_fmap p f s : (∀ c, p (f c) = p c) → find_byte p (f <$> s) = find_byte p s.
Proof. intros Hf. induction s as [|c s IH]; [done|]. csimpl. rewrite Hf. case_match; [done|]. by rewrite IH. Qed.

Lemma find_byte_lt p s n : find_byte p s = Some n → (n < length s)%nat.
Proof. intros E. by apply find_byte_Some in E as [? _]. Qed.

Lemma take_until_none p s : find_byte p s = None → take_until p s = s.
Proof. unfold take_until. by intros ->. Qed.

Lemma after_last_none c s : find_byte (is_char c) s = None → after_last c s = s.
Proof.
  unfold after_last. intros E. destruct (find_byte (is_char c) (rev s)) as [n|] eqn:E2; [|done].
  exfalso. apply find_byte_None in E. apply Forall_rev in E. apply find_byte_None in E. by rewrite E in E2.
Qed.

(** ** Letter case *)

Lemma to_lower_cases c : to_lower c = c ∨ (is_upper c = true ∧ byteZ (to_lower c) = byteZ c + 32).
Proof.
  unfold to_lower. destruct (is_upper c) eqn:E; [|by left]. right. split; [done|].
  unfold is_upper, between in E. inv_ok. rewrite Z.leb_le in *. rewrite byteZ_Zbyte, u8_mod.
  apply Z.mod_small. lia.
Qed.

(** A test of characters that does not look at the case of letters. *)
Definition caseless (p : ascii → bool) : Prop := ∀ c, p (to_lower c) = p c.

(** Such a test is checked on the 256 bytes. *)
Lemma caseless_check p :
  forallb (λ n, eqb (p (to_lower (Zbyte (Z.of_nat n)))) (p (Zbyte (Z.of_nat n)))) (seq 0 256) = true →
  caseless p.
Proof.
  intros E c. rewrite <-(Zbyte_byteZ c). apply eqb_true_iff.
  exact (byte_cases (λ b, eqb (p (to_lower (Zbyte b))) (p (Zbyte b))) E _ (byteZ_range c)).
Qed.

Lemma percent_ok_cons c s : c ≠ "%"%char → percent_ok (c :: s) = percent_ok s.
Proof. intros Hc. cbn [percent_ok]. by rewrite bool_decide_false. Qed.

Lemma caseless_xdigit : caseless is_xdigit.
Proof. apply caseless_check. by vm_compute. Qed.

Lemma caseless_char c : is_alpha c = false → caseless (is_char c).
Proof.
  intros Hc x. unfold is_char. apply bool_decide_ext. destruct (to_lower_cases x) as [->|[Hu El]]; [done|].
  unfold is_alpha, is_upper, is_lower, between in *. inv_ok. rewrite Z.leb_le in *. split.
  - intros E. rewrite E in El. lia.
  - intros ->. lia.
Qed.

Lemma percent_ok_lower s : percent_ok (to_lower <$> s) = percent_ok s.
Proof.
  induction s as [s IH] using (induction_ltof1 _ (@length ascii)). unfold ltof in IH.
  destruct s as [|c s]; [done|]. pose proof (caseless_char "%" eq_refl c) as Hc. unfold is_char in Hc.
  cbn [fmap list_fmap percent_ok]. rewrite Hc. destruct (bool_decide (c = "%"%char)).
  - destruct s as [|a [|b s]]; [done..|]. cbn [fmap list_fmap]. rewrite !caseless_xdigit, IH; [done|].
    simpl. lia.
  - apply IH. simpl. lia.
Qed.

(** A text cut before a character that no escape contains. *)
Lemma percent_ok_cut a c b : is_xdigit c = false → percent_ok (a ++ c :: b) = true → percent_ok a = true.
Proof.
  intros Hc. induction a as [a IH] using (induction_ltof1 _ (@length ascii)). unfold ltof in IH.
  destruct a as [|x a]; [done|]. cbn [app percent_ok]. case_bool_decide.
  - destruct a as [|y [|z a]]; cbn [app]; intros E.
    + destruct b; [done|]. by rewrite Hc in E.
    + by rewrite Hc, andb_false_r in E.
    + apply andb_true_iff in E as [-> E]. apply IH; [simpl; lia|done].
  - apply IH. simpl. lia.
Qed.

(** ** Hosts *)

Lemma span_digits_le s : (span_digits s <= length s)%nat.
Proof. induction s as [|c s IH]; simpl; [lia|]. case_match; simpl; lia. Qed.

Lemma span_digits_cut a c b : is_digit c = false → (span_digits (a ++ c :: b) <= length a)%nat.
Proof. intros Hc. induction a as [|x a IH]; simpl; [by rewrite Hc|]. case_match; lia. Qed.

Lemma from_chars_unsigned hi s :
  from_chars 0 hi s =
    let n := span_digits s in
    if bool_decide (n = O) then None else
    if (0 <=? decimal_value (take n s)) && (decimal_value (take n s) <=? hi)
    then Some (decimal_value (take n s), drop n s) else None.
Proof.
  unfold from_chars. destruct s as [|c s]; [done|]. cbn [Z.ltb andb]. change (0 <? 0) with false.
  cbn [andb]. by rewrite Z.mul_1_l.
Qed.

Lemma port_cut a c b : is_digit c = false → port_ok (a ++ c :: b) = false.
Proof.
  intros Hc. unfold port_ok. rewrite bool_decide_false by (by destruct a). cbn [orb].
  rewrite from_chars_unsigned. cbv zeta. case_bool_decide; [done|]. destruct (_ && _); [|done].
  pose proof (span_digits_cut a c b Hc). pose proof (length_drop (a ++ c :: b) (span_digits (a ++ c :: b))) as Hl.
  rewrite length_app in Hl. cbn [length] in Hl.
  destruct (drop (span_digits (a ++ c :: b)) (a ++ c :: b)); [simpl in Hl; lia|done].
Qed.

Lemma from_chars_lower hi s : from_chars 0 hi (to_lower <$> s) =
  (λ r : Z * bytes, (r.1, to_lower <$> r.2)) <$> from_chars 0 hi s.
Proof.
  assert (∀ s n, (n <= span_digits s)%nat → to_lower <$> take n s = take n s) as Hid.
  { induction s0 as [|c s0 IH]; intros [|n]; try done. csimpl. destruct (is_digit c) eqn:Hc; [|lia].
    intros Hn. f_equal; [|apply IH; lia]. destruct (to_lower_cases c) as [->|[Hu _]]; [done|].
    unfold is_digit, is_upper, between in *. inv_ok. rewrite Z.leb_le in *. lia. }
  assert (span_digits (to_lower <$> s) = span_digits s) as Hspan.
  { induction s as [|c s IH]; [done|]. csimpl. rewrite IH.
    by rewrite (caseless_check is_digit ltac:(vm_compute; reflexivity) c). }
  rewrite !from_chars_unsigned. cbv zeta. rewrite Hspan, <-fmap_take, Hid, <-fmap_drop by done.
  case_bool_decide; [done|]. by case_match.
Qed.

Lemma port_lower s : port_ok (to_lower <$> s) = port_ok s.
Proof.
  unfold port_ok. rewrite from_chars_lower. destruct (from_chars _ _ s) as [[n l]|]; simpl.
  - f_equal; [apply bool_decide_ext; by destruct s|]. by destruct l.
  - f_equal. apply bool_decide_ext. by destruct s.
Qed.

Lemma byte_at_app a b i : (i < length a)%nat → byte_at (a ++ b) i = byte_at a i.
Proof. intros Hi. unfold byte_at. by apply app_nth1. Qed.

Lemma byte_at_lower s i : is_char ":" (byte_at (to_lower <$> s) i) = is_char ":" (byte_at s i).
Proof.
  assert (byte_at (to_lower <$> s) i = to_lower (byte_at s i)) as ->; [|by apply caseless_char].
  unfold byte_at. change (Zbyte 0) with (to_lower (Zbyte 0)) at 1. exact (map_nth to_lower s _ i).
Qed.

Lemma has_byte_lower c s : is_alpha c = false → has_byte c (to_lower <$> s) = has_byte c s.
Proof.
  intros Hc. unfold has_byte. apply bool_decide_ext. rewrite list_elem_of_fmap. split.
  - intros (x & E & Hx). pose proof (caseless_char c Hc x) as Hx'. unfold is_char in Hx'.
    rewrite <-E, bool_decide_true in Hx' by done. symmetry in Hx'. by apply bool_decide_eq_true in Hx' as ->.
  - intros Hx. exists c. split; [|done]. pose proof (caseless_char c Hc c) as Hx'. unfold is_char in Hx'.
    rewrite (bool_decide_true (c = c)) in Hx' by done. by apply bool_decide_eq_true in Hx'.
Qed.

Lemma starts_with_char c s :
  starts_with [c] s = match s with x :: _ => is_char c x | [] => false end.
Proof. destruct s as [|x s]; [done|]. unfold starts_with, is_char. simpl. apply bool_decide_ext. naive_solver. Qed.

Lemma starts_with_lower c s : is_alpha c = false →
  starts_with [c] (to_lower <$> s) = starts_with [c] s.
Proof.
  intros Hc. rewrite !starts_with_char. destruct s as [|x s]; [done|]. by apply caseless_char.
Qed.

Lemma host_lower h : host_ok (to_lower <$> h) = host_ok h.
Proof.
  unfold host_ok. change (lit "[") with ["["%char].
  rewrite (bool_decide_ext (to_lower <$> h = []) (h = [])) by (by destruct h).
  rewrite starts_with_lower, !find_byte_fmap by
    (reflexivity || by apply caseless_char || (apply caseless_check; vm_compute; reflexivity)).
  case_bool_decide; [done|]. destruct (starts_with ["["%char] h).
  - destruct (find_byte (is_char "]") h) as [e|]; [|done].
    unfold substr. rewrite <-!fmap_drop, <-!fmap_take, has_byte_lower, length_fmap, port_lower by done.
    change (bool_decide (byte_at ?x ?i = ":"%char)) with (is_char ":" (byte_at x i)).
    by rewrite byte_at_lower.
  - case_bool_decide; [|done]. destruct (find_byte (is_char ":") h); [|done].
    by rewrite <-fmap_drop, port_lower.
Qed.

Definition default_port : bytes := lit ":443".

Lemma default_port_cut a : port_ok (a ++ default_port) = false.
Proof. by apply port_cut. Qed.

Lemma ends_with_app p s : ends_with p s = true → ∃ a, s = a ++ p.
Proof.
  unfold ends_with. intros E. inv_ok. exists (take (length s - length p) s).
  pose proof (take_drop (length s - length p) s) as Es. by rewrite H0 in Es.
Qed.

(** The default port of a host can be left out, and there is only one. *)
Lemma host_cut a : host_ok (a ++ default_port) = true →
  host_ok a = true ∧ ends_with default_port a = false.
Proof.
  intros E. destruct (decide (a = [])) as [->|Hne]; [by vm_compute in E|]. unfold host_ok in *.
  rewrite (bool_decide_false (a = [])) by done. rewrite bool_decide_false in E by (by destruct a).
  change (lit "[") with ["["%char] in *. rewrite starts_with_char in *.
  destruct a as [|c a]; [done|]. cbn [app] in E. destruct (is_char "[" c).
  - change (c :: a ++ default_port) with ((c :: a) ++ default_port) in E.
    rewrite find_byte_app in E. destruct (find_byte (is_char "]") (c :: a)) as [e|] eqn:Ee; [|done].
    pose proof (find_byte_Some _ _ _ Ee) as (Hlt & Hat & _).
    unfold substr in *. cbn [app drop] in E |- *. rewrite drop_0 in *. rewrite take_app_le in E by (simpl in Hlt; lia).
    destruct ((e =? 1)%nat || _); [done|]. destruct (Nat.ltb_spec (e + 1) (length (c :: a))) as [Hin|Hout].
    + change (c :: a ++ default_port) with ((c :: a) ++ default_port) in E.
      destruct (Nat.ltb_spec (e + 1) (length ((c :: a) ++ default_port))); [|rewrite length_app in *; lia].
      apply andb_true_iff in E as [_ E].
      rewrite drop_app_le in E by lia. by rewrite default_port_cut in E.
    + split; [done|]. destruct (ends_with default_port (c :: a)) eqn:Ew; [|done].
      apply ends_with_app in Ew as (b & Eb). rewrite Eb in *. unfold default_port in *.
      rewrite length_app in *. change (length (lit ":443")) with 4%nat in *.
      replace e with (length b + 3)%nat in Hat by lia.
      unfold byte_at in Hat. by rewrite app_nth2_plus in Hat.
  - change (c :: a ++ default_port) with ((c :: a) ++ default_port) in E.
    case_bool_decide as Hb; [|done]. rewrite find_byte_app in Hb. rewrite find_byte_app in E.
    destruct (find_byte (one_of "[]\") (c :: a)); [done|]. rewrite bool_decide_true by done.
    destruct (find_byte (is_char ":") (c :: a)) as [sep|] eqn:Es.
    + apply find_byte_lt in Es. apply andb_true_iff in E as [_ E].
      rewrite drop_app_le in E by lia. by rewrite default_port_cut in E.
    + split; [done|]. destruct (ends_with default_port (c :: a)) eqn:Ew; [|done].
      apply ends_with_app in Ew as (b & Eb). rewrite Eb, find_byte_app in Es.
      by destruct (find_byte (is_char ":") b).
Qed.

(** ** Origins *)

Section origins.
  Context `{Utf8procLaws}.

Definition https : bytes := lit "https://".

(** An authority and nothing else. *)
Definition plain (auth : bytes) : Prop :=
  find_byte (one_of "@?#") auth = None ∧ find_byte (is_char "/") auth = None.

Definition address_point (c : ascii) : bool := uri_point (byteZ c).

Lemma printable_address c : printable c = true → address_point c = true.
Proof.
  unfold printable, address_point, uri_point. intros Hc. inv_ok. rewrite Z.leb_le in *.
  rewrite category_ascii by lia. rewrite bool_decide_false by done. lia.
Qed.

Lemma address_points s : forallb uri_point (byteZ <$> s) = forallb address_point s.
Proof. induction s as [|c s IH]; csimpl; [done|]. by rewrite IH. Qed.

Lemma encoded_ascii s : Forall is_ascii s → ∀ n,
  foldl (λ n c, n + encoded_bytes c) n (byteZ <$> s) = n + len s.
Proof.
  induction 1 as [|c s Hc _ IH]; intros n; csimpl; [lia|]. rewrite IH.
  apply Is_true_true in Hc. unfold is_ascii in Hc. apply Z.ltb_lt in Hc.
  unfold encoded_bytes. rewrite (proj2 (Z.leb_gt _ _)) by lia. lia.
Qed.

Lemma one_of_none set s : find_byte (one_of set) s = None ↔ ∀ c, c ∈ lit set → c ∉ s.
Proof.
  rewrite find_byte_None, Forall_forall. unfold one_of. split.
  - intros Hs c Hc Hin. specialize (Hs c Hin). by apply bool_decide_eq_false in Hs.
  - intros Hs c Hin. apply bool_decide_eq_false. intros Hc. by apply (Hs c).
Qed.

Lemma is_char_none c s : find_byte (is_char c) s = None ↔ c ∉ s.
Proof.
  rewrite find_byte_None, Forall_forall. unfold is_char. split.
  - intros Hs Hin. specialize (Hs c Hin). by apply bool_decide_eq_false in Hs.
  - intros Hs x Hin. apply bool_decide_eq_false. by intros ->.
Qed.

Lemma plain_authority auth tail : plain auth → tail = [] ∨ tail = ["/"%char] →
  take_until (one_of "/?#") (auth ++ tail) = auth ∧ after_last "@" auth = auth.
Proof.
  intros [H1 H2] Ht. rewrite one_of_none in H1. rewrite is_char_none in H2.
  assert (find_byte (one_of "/?#") auth = None) as E.
  { apply one_of_none. intros c Hc. change (lit "/?#") with ("/"%char :: lit "?#") in Hc.
    apply elem_of_cons in Hc as [->|Hc]; [done|]. apply H1.
    change (lit "@?#") with ("@"%char :: lit "?#"). by right. }
  split.
  - unfold take_until. rewrite find_byte_app, E. destruct Ht as [->| ->]; [apply app_nil_r|].
    simpl. by rewrite Nat.add_0_r, take_app_length.
  - apply after_last_none, is_char_none, H1. by left.
Qed.

(** The addresses an origin is made of. *)
Lemma validUri_https auth tail : plain auth → tail = [] ∨ tail = ["/"%char] →
  Forall is_ascii (auth ++ tail) →
  validUri (https ++ auth ++ tail) true = true ↔
    len (auth ++ tail) + 8 <= 8192 ∧ forallb address_point (auth ++ tail) = true ∧
    percent_ok (auth ++ tail) = true ∧ host_ok auth = true.
Proof.
  intros Hp Ht Ha. assert (Forall is_ascii (https ++ auth ++ tail)) as Hall.
  { apply Forall_app. split; [|done]. by repeat constructor. }
  unfold validUri. rewrite (scalars_ascii _ Hall).
  rewrite (encoded_ascii _ Hall). rewrite bool_decide_false by done.
  assert (scheme_end (https ++ auth ++ tail) = Some 5%nat) as -> by reflexivity.
  assert (scheme_ok (https ++ auth ++ tail) 5 = true) as -> by reflexivity.
  assert (percent_ok (https ++ auth ++ tail) = percent_ok (auth ++ tail)) as -> by reflexivity.
  assert (authority_ok (https ++ auth ++ tail) (Some 5%nat) = host_ok auth) as ->.
  { unfold authority_ok. change (drop (5 + 1) (https ++ auth ++ tail)) with (lit "//" ++ auth ++ tail).
    change (starts_with (lit "//") (lit "//" ++ auth ++ tail)) with true.
    change (drop 2 (lit "//" ++ auth ++ tail)) with (auth ++ tail). cbv zeta.
    destruct (plain_authority _ _ Hp Ht) as [-> ->]. case_bool_decide; [by subst auth|done]. }
  rewrite (length_app https), address_points, forallb_app. change (length https) with 8%nat.
  assert (forallb address_point https = true) as ->.
  { apply forallb_forall. intros c Hc. apply printable_address. revert c Hc.
    by apply forallb_forall. }
  cbn [orb]. destruct (Z.ltb_spec 8192 (Z.of_nat (8 + length (auth ++ tail)))).
  - split; [done|]. intros [Hlen _]. lia.
  - rewrite !andb_true_iff, Z.leb_le. intuition lia.
Qed.

Lemma ends_https a : a ≠ [] → ends_with default_port (https ++ a) = ends_with default_port a.
Proof.
  intros Hne. destruct a as [|x [|y [|z [|w a]]]]; [done|..];
    try (apply bool_decide_eq_false; intros E; vm_compute in E; discriminate E).
  unfold ends_with. rewrite length_app. change (length https) with 8%nat.
  change (length default_port) with 4%nat.
  rewrite drop_app_ge by (change (length https) with 8%nat; simpl; lia). f_equal.
Qed.

Lemma find_byte_split p s n : find_byte p s = Some n → ∃ a c b, s = a ++ c :: b ∧ length a = n ∧
  p c = true ∧ find_byte p a = None.
Proof.
  revert n. induction s as [|x s IH]; intros n E; [done|]. simpl in E. destruct (p x) eqn:Hx.
  - injection E as <-. by exists [], x, s.
  - destruct (find_byte p s) as [m|]; [|done]. injection E as <-.
    destruct (IH m eq_refl) as (a & c & b & -> & <- & Hc & Ha).
    exists (x :: a), c, b. simpl. by rewrite Hx, Ha.
Qed.

Definition canonical_authority (auth : bytes) : bytes :=
  let a := to_lower <$> auth in
  if ends_with default_port (https ++ a) then take (length a - 4) a else a.

Lemma finish_origin auth : 
  (let value := take 8 (https ++ auth) ++ (to_lower <$> drop 8 (https ++ auth)) in
   if ends_with (lit ":443") value then take (length value - 4) value else value)
  = https ++ canonical_authority auth.
Proof.
  change (take 8 (https ++ auth)) with https. change (drop 8 (https ++ auth)) with auth.
  unfold canonical_authority. cbv zeta. change (lit ":443") with default_port.
  destruct (ends_with default_port (https ++ (to_lower <$> auth))) eqn:E; [|done].
  destruct (decide (auth = [])) as [->|Hne]; [done|].
  rewrite ends_https in E by (by destruct auth). unfold ends_with in E. inv_ok.
  apply Nat.leb_le in H1. change (length default_port) with 4%nat in H1.
  rewrite length_app, take_app_ge by (change (length https) with 8%nat; lia).
  done.
Qed.

(** The two shapes of an accepted origin. *)
Lemma origin_shape value o : origin value = Ok o → ∃ auth tail, value = https ++ auth ++ tail ∧
  plain auth ∧ (tail = [] ∨ tail = ["/"%char]) ∧ validUri value true = true ∧
  (0 < length auth)%nat ∧ len (https ++ auth) <= 2048 ∧ o = https ++ canonical_authority auth.
Proof.
  unfold origin, require. intros E. inv_ok. unfold starts_with in *. inv_ok.
  assert (value = https ++ drop 8 value) as Ev.
  { transitivity (take 8 value ++ drop 8 value); [by rewrite take_drop|]. by f_equal. }
  set (rest := drop 8 value) in *. destruct (find_byte (is_char "/") rest) as [n|] eqn:Es.
  - apply find_byte_split in Es as (auth & c & b & Er & Hlen & Hc & Ha).
    unfold is_char in Hc. inv_ok. subst c. apply Nat.eqb_eq in H2.
    assert (b = []) as ->.
    { destruct b; [done|]. rewrite Ev, Er, !length_app in H2. simpl in H2.
      change (length https) with 8%nat in H2. lia. }
    assert (take (length value - 1) value = https ++ auth) as Et.
    { rewrite Ev, Er, app_assoc. apply take_app_length'. rewrite length_app. simpl. lia. }
    rewrite Et in *. rewrite finish_origin. rewrite Z.ltb_lt, Z.leb_le in *.
    exists auth, ["/"%char]. split_and!; eauto.
    + by rewrite Ev, Er.
    + split; [|done]. rewrite Er, find_byte_app in H5. by destruct (find_byte (one_of "@?#") auth).
    + rewrite length_app in H3. change (length https) with 8%nat in H3. lia.
  - clearbody rest. subst value. rewrite finish_origin. rewrite Z.ltb_lt, Z.leb_le in *.
    exists rest, []. rewrite app_nil_r. split_and!; eauto; [done|].
    rewrite length_app in H3. change (length https) with 8%nat in H3. lia.
Qed.

Lemma origin_plain auth : plain auth → validUri (https ++ auth) true = true →
  (0 < length auth)%nat → len (https ++ auth) <= 2048 →
  origin (https ++ auth) = Ok (https ++ canonical_authority auth).
Proof.
  intros [Hp1 Hp2] Hv Hlen Hmax. unfold origin. rewrite Hv.
  change (drop 8 (https ++ auth)) with auth.
  change (starts_with (lit "https://") (https ++ auth)) with true.
  rewrite Hp1, Hp2, bool_decide_true by done. unfold require. cbn [andb check mbind result_bind].
  assert (8 < len (https ++ auth)).
  { rewrite length_app. change (length https) with 8%nat. lia. }
  rewrite (proj2 (Z.ltb_lt _ _)), (proj2 (Z.leb_le _ _)) by lia. cbn [andb check mbind result_bind].
  by rewrite finish_origin.
Qed.

(** ** Canonical origins *)

Lemma to_lower_ascii c : is_ascii (to_lower c) = is_ascii c.
Proof. apply (caseless_check is_ascii). by vm_compute. Qed.

Lemma to_lower_twice c : to_lower (to_lower c) = to_lower c.
Proof.
  apply (inj byteZ), Z.eqb_eq. rewrite <-(Zbyte_byteZ c).
  apply (byte_cases (λ b, byteZ (to_lower (to_lower (Zbyte b))) =? byteZ (to_lower (Zbyte b)))).
  - by vm_compute.
  - apply byteZ_range.
Qed.

Lemma address_point_lower c : is_ascii c = true → address_point c = true →
  address_point (to_lower c) = true.
Proof.
  intros Ha Hc. destruct (to_lower_cases c) as [->|[Hu El]]; [done|]. apply printable_address.
  unfold printable. unfold is_upper, between in Hu. inv_ok. rewrite Z.leb_le in *. lia.
Qed.

(** What is left of a lower-case authority without its default port is valid, and
    has none. *)
Lemma canonical_authority_spec auth : plain auth → host_ok auth = true → (0 < length auth)%nat →
  Forall is_ascii auth → forallb address_point auth = true → percent_ok auth = true →
  let b := canonical_authority auth in
  plain b ∧ host_ok b = true ∧ b ≠ [] ∧ (length b <= length auth)%nat ∧ Forall is_ascii b ∧
  forallb address_point b = true ∧ percent_ok b = true ∧ ends_with default_port b = false ∧
  to_lower <$> b = b.
Proof.
  intros [Hp1 Hp2] Hh Hlen Ha Hadd Hpc. set (a := to_lower <$> auth).
  assert (plain a) as [Hq1 Hq2].
  { split; unfold a; rewrite find_byte_fmap; try done.
    - apply caseless_check. by vm_compute.
    - by apply caseless_char. }
  rewrite <-host_lower in Hh. rewrite <-percent_ok_lower in Hpc. fold a in Hh, Hpc.
  assert (a ≠ []) as Hne by (unfold a; by destruct auth).
  assert (Forall is_ascii a) as Haa.
  { apply Forall_fmap. eapply Forall_impl; [exact Ha|]. intros c Hc. simpl. by rewrite to_lower_ascii. }
  assert (forallb address_point a = true) as Hadda.
  { apply forallb_forall. intros x Hx. apply in_map_iff in Hx as (c & <- & Hc).
    rewrite forallb_forall in Hadd. apply address_point_lower; [|by apply Hadd].
    rewrite Forall_forall in Ha. by apply Is_true_true, Ha, list_elem_of_In. }
  assert (to_lower <$> a = a) as Hlow.
  { unfold a. rewrite <-list_fmap_compose. apply list_fmap_ext. intros _ c _. apply to_lower_twice. }
  assert (length a = length auth) as Hla by apply length_fmap.
  unfold canonical_authority. fold a. cbv zeta. rewrite ends_https by done.
  destruct (ends_with default_port a) eqn:E; [|split_and!; try done; lia].
  apply ends_with_app in E as (b & Eb). rewrite Eb in *. clearbody a. clear Eb a.
  change (length default_port) with 4%nat in *. rewrite length_app in *.
  change (length default_port) with 4%nat in *.
  replace (length b + 4 - 4)%nat with (length b) by lia. rewrite take_app_length.
  rewrite find_byte_app in Hq1, Hq2. apply host_cut in Hh as [Hh He].
  apply Forall_app in Haa as [Hb _]. rewrite forallb_app in Hadda. apply andb_true_iff in Hadda as [Hd _].
  split_and!; try done.
  - split; [by destruct (find_byte (one_of "@?#") b)|by destruct (find_byte (is_char "/") b)].
  - intros ->. by vm_compute in Hh.
  - lia.
  - by apply (percent_ok_cut _ ":"%char (lit "443")) in Hpc.
  - rewrite fmap_app in Hlow. by apply app_inj_2 in Hlow as [? _].
Qed.

Lemma canonical_authority_twice b : b ≠ [] → to_lower <$> b = b → ends_with default_port b = false →
  canonical_authority b = b.
Proof. intros Hne Hl He. unfold canonical_authority. by rewrite Hl, ends_https, He. Qed.

Lemma canonical_ascii auth : Forall is_ascii (canonical_authority auth) → Forall is_ascii auth.
Proof.
  unfold canonical_authority. destruct (decide (auth = [])) as [->|Hne]; [done|].
  assert (Forall is_ascii (to_lower <$> auth) → Forall is_ascii auth) as Hl.
  { rewrite Forall_fmap. intros H'. eapply Forall_impl; [exact H'|]. intros c. simpl. by rewrite to_lower_ascii. }
  rewrite ends_https by by destruct auth. case_match eqn:E; [|done]. intros Hb. apply Hl.
  apply ends_with_app in E as (b & Eb). rewrite Eb in *. rewrite length_app in Hb.
  change (length default_port) with 4%nat in Hb.
  replace (length b + 4 - 4)%nat with (length b) in Hb by lia. rewrite take_app_length in Hb.
  apply Forall_app. split; [done|]. by repeat constructor.
Qed.

Lemma canonical_length auth : (length (canonical_authority auth) <= length auth)%nat.
Proof.
  unfold canonical_authority. cbv zeta. case_match; rewrite ?length_take, length_fmap; lia.
Qed.

(** What an accepted ASCII origin is made of, and that it is accepted again. *)
Lemma origin_parts value o : origin value = Ok o → Forall is_ascii o → ∃ b,
  o = https ++ b ∧ plain b ∧ b ≠ [] ∧ to_lower <$> b = b ∧ ends_with default_port b = false ∧
  origin o = Ok o.
Proof.
  intros (auth & tail & -> & Hp & Ht & Hv & Hlen & Hmax & ->)%origin_shape Ho.
  apply Forall_app in Ho as [_ Ho]. apply canonical_ascii in Ho.
  assert (Forall is_ascii (auth ++ tail)) as Hat.
  { apply Forall_app. split; [done|]. destruct Ht as [->| ->]; by repeat constructor. }
  apply validUri_https in Hv as (_ & Hadd & Hpc & Hh); [|done..].
  rewrite forallb_app in Hadd. apply andb_true_iff in Hadd as [Hadd _].
  assert (percent_ok auth = true) as Hpc'.
  { destruct Ht as [->| ->]; [by rewrite app_nil_r in Hpc|by apply percent_ok_cut in Hpc]. }
  destruct (canonical_authority_spec _ Hp Hh Hlen Ho Hadd Hpc')
    as (Hp' & Hh' & Hne & Hle & Ho' & Hadd' & Hpc2 & He & Hl).
  exists (canonical_authority auth). split_and!; try done.
  rewrite origin_plain; [by rewrite canonical_authority_twice|done| | |].
  - rewrite <-(app_nil_r (canonical_authority auth)). apply validUri_https; [done|by left| |].
    + by rewrite app_nil_r.
    + rewrite app_nil_r. split_and!; try done. rewrite length_app in Hmax.
      change (length https) with 8%nat in Hmax. lia.
  - destruct (canonical_authority auth); [done|simpl; lia].
  - rewrite length_app in *. lia.
Qed.

Lemma origin_again value o : origin value = Ok o → Forall is_ascii o → origin o = Ok o.
Proof. intros E Ho. by destruct (origin_parts _ _ E Ho) as (b & _ & _ & _ & _ & _ & E2). Qed.

(** A service origin is canonical after one pass: an ASCII origin is
    lower-case, has neither the default port nor a final slash, and is accepted
    again unchanged.  ([keyFor] hashes the origin into the key of an author, so an
    unstable one would change who the author is.) *)
Theorem origin_is_canonical value o : origin value = Ok o → Forall is_ascii o →
  origin o = Ok o ∧ to_lower <$> o = o ∧ ends_with default_port o = false ∧
  ends_with (lit "/") o = false.
Proof.
  intros E Ho. destruct (origin_parts _ _ E Ho) as (b & -> & [_ Hp] & Hne & Hl & He & E2).
  rewrite fmap_app, Hl, ends_https, He by done. split_and!; try done.
  destruct (ends_with (lit "/") (https ++ b)) eqn:Es; [|done]. apply ends_with_app in Es as (a & Es).
  apply is_char_none in Hp. destruct (exists_last Hne) as (b' & c & ->). rewrite app_assoc in Es.
  apply app_inj_2 in Es as [_ Ec]; [|done]. injection Ec as ->. destruct Hp. apply elem_of_app. right.
  by apply list_elem_of_singleton.
Qed.
End origins.

(** ** Links *)

Section links.
  Context `{Utf8procLaws}.

Lemma create_inv name url l : create name url = Some l → ∃ clean_name,
  clean name 160 true false = Ok clean_name ∧ has_byte "|" clean_name = false ∧
  validUri url false = true ∧ l = {| link_name := clean_name; link_url := url |}.
Proof.
  unfold create. destruct (clean name 160 true false) as [n|]; [|done].
  destruct (has_byte "|" n) eqn:E1, (validUri url false) eqn:E2; try done.
  intros [= <-]. by exists n.
Qed.

(** A link is its own canonical form. *)
Lemma create_again name url l : create name url = Some l → create (link_name l) (link_url l) = Some l.
Proof.
  intros (n & Hc & Hb & Hv & ->)%create_inv. unfold create. simpl.
  by rewrite (clean_clean _ _ _ _ _ Hc), Hb, Hv.
Qed.

(** The text of a link, [[name|URL]]. *)
Definition link_text (l : FileLink) : bytes :=
  "["%char :: link_name l ++ "|"%char :: link_url l ++ ["]"%char].

Lemma fromString_text name url : has_byte "|" name = false → name ≠ [] → url ≠ [] →
  fromString ("["%char :: name ++ "|"%char :: url ++ ["]"%char]) = create name url.
Proof.
  intros Hb Hn Hu. unfold fromString. set (entry := "["%char :: _).
  assert (entry = ("["%char :: name) ++ ("|"%char :: url ++ ["]"%char])) as Ee by done.
  assert (length entry = length name + length url + 3)%nat as Hlen.
  { rewrite Ee, length_app. simpl. rewrite length_app. simpl. lia. }
  assert (0 < length name)%nat by (destruct name; [done|simpl; lia]).
  assert (0 < length url)%nat by (destruct url; [done|simpl; lia]).
  assert (find_byte (is_char "|") entry = Some (length name + 1)%nat) as ->.
  { rewrite Ee, find_byte_app. assert (find_byte (is_char "|") ("["%char :: name) = None) as ->.
    - apply is_char_none. unfold has_byte in Hb. apply bool_decide_eq_false in Hb.
      intros [Hc|Hin]%elem_of_cons; [done|done].
    - simpl. f_equal. lia. }
  assert (starts_with (lit "[") entry = true) as -> by reflexivity.
  assert (ends_with (lit "]") entry = true) as ->.
  { unfold ends_with. change (length (lit "]")) with 1%nat. rewrite (proj2 (Nat.leb_le _ _)) by lia.
    apply bool_decide_eq_true. rewrite Hlen. unfold entry.
    change ("["%char :: name ++ "|"%char :: url ++ ["]"%char])
      with (("["%char :: name) ++ ("|"%char :: url) ++ ["]"%char]).
    rewrite app_assoc. apply drop_app_length'. rewrite length_app. simpl. lia. }
  rewrite Hlen. destruct (Nat.leb_spec (length name + 1) 1); [lia|].
  destruct (Nat.leb_spec (length name + length url + 3 - 2) (length name + 1)); [lia|]. cbn [negb orb].
  f_equal.
  - unfold substr, entry. cbn [drop]. rewrite drop_0. apply take_app_length'. lia.
  - unfold substr. rewrite Ee, drop_app_ge by (simpl; lia). simpl.
    replace (length name + 1 + 1 - S (length name))%nat with 1%nat by lia. simpl. rewrite drop_0.
    apply take_app_length'. lia.
Qed.

(** A link survives being written as [[name|URL]] and read back, and the
    fields of a link are their own canonical form, so links can be stored and
    parsed any number of times. *)
Theorem links_round_trip name url l : create name url = Some l →
  fromString (link_text l) = Some l ∧ create (link_name l) (link_url l) = Some l.
Proof.
  intros E. pose proof (create_again _ _ _ E) as E2. split; [|done].
  unfold link_text. destruct (create_inv _ _ _ E) as (n & Hc & Hb & Hv & ->). simpl in *.
  rewrite fromString_text; [done|done| |].
  - apply clean_spec in Hc as (t & points & _ & Hs & -> & _ & Hne & _). intros E3.
    apply scalars_inv in Hs as [Hp _]. specialize (Hne eq_refl).
    destruct (trim_part points) as (front & back & Ep). rewrite Ep in Hp.
    apply Forall_app in Hp as [_ [Hp _]%Forall_app]. destruct (trim points) as [|c l]; [done|].
    apply Forall_cons in Hp as [Hsc _]. apply app_eq_nil in E3 as [E3 _].
    by apply encode_nonempty in E3; [|apply Is_true_true].
  - intros ->. by vm_compute in Hv.
Qed.
End links.
