(* ===== verification/Json.v ===== *)
(** JSON documents as the nlohmann library keeps and prints them
    (Native/third_party/nlohmann/json.hpp): a value type whose objects are maps
    sorted by key, and the compact serializer [dump], which refuses malformed
    UTF-8.  A floating-point number is kept as the text the library prints for it:
    the conversion between doubles and shortest decimal text is not modelled.
    Parsing is the library's: the components that parse take a parser with the
    law that it reads back what [dump] prints. *)
From S2P Require Import Prelude.
Local Open Scope Z_scope.

Inductive json :=
  | JNull
  | JBool (b : bool)
  | JInt (z : Z)
  | JReal (text : bytes)
  | JString (s : bytes)
  | JArray (l : list json)
  | JObject (l : list (bytes * json)).

(** ** The UTF-8 automaton of the serializer *)

(** [utf8d]: byte classes, then the transition table. *)
Definition byte_class (b : Z) : Z :=
  if b <? 0x80 then 0 else
  if b <? 0x90 then 1 else
  if b <? 0xA0 then 9 else
  if b <? 0xC0 then 7 else
  if b <? 0xC2 then 8 else
  if b <? 0xE0 then 2 else
  if b =? 0xE0 then 0xA else
  if b =? 0xED then 4 else
  if b <? 0xF0 then 3 else
  if b =? 0xF0 then 0xB else
  if b <? 0xF4 then 6 else
  if b =? 0xF4 then 5 else 8.

Definition transitions : list Z :=
  [0x0; 0x1; 0x2; 0x3; 0x5; 0x8; 0x7; 0x1; 0x1; 0x1; 0x4; 0x6; 0x1; 0x1; 0x1; 0x1;
   1; 1; 1; 1; 1; 1; 1; 1; 1; 1; 1; 1; 1; 1; 1; 1; 1; 0; 1; 1; 1; 1; 1; 0; 1; 0; 1; 1; 1; 1; 1; 1;
   1; 2; 1; 1; 1; 1; 1; 2; 1; 2; 1; 1; 1; 1; 1; 1; 1; 1; 1; 1; 1; 1; 1; 2; 1; 1; 1; 1; 1; 1; 1; 1;
   1; 2; 1; 1; 1; 1; 1; 1; 1; 2; 1; 1; 1; 1; 1; 1; 1; 1; 1; 1; 1; 1; 1; 3; 1; 3; 1; 1; 1; 1; 1; 1;
   1; 3; 1; 1; 1; 1; 1; 3; 1; 3; 1; 1; 1; 1; 1; 1; 1; 3; 1; 1; 1; 1; 1; 1; 1; 1; 1; 1; 1; 1; 1; 1].

Definition UTF8_ACCEPT : Z := 0.
Definition UTF8_REJECT : Z := 1.

(** The next state and the code point read so far. *)
Definition decode (state codep byte : Z) : Z * Z :=
  let type := byte_class byte in
  let codep :=
    if negb (state =? UTF8_ACCEPT)
    then Z.lor (Z.land byte 0x3f) (u32 (Z.shiftl codep 6))
    else Z.land (Z.shiftr 0xFF type) byte in
  (nth (Z.to_nat (state * 16 + type)) transitions 1, codep).

(** ** Escaping and dumping *)

Definition hex4 (n : Z) : bytes :=
  [hex_digit (Z.shiftr n 12); hex_digit (Z.land (Z.shiftr n 8) 15);
   hex_digit (Z.land (Z.shiftr n 4) 15); hex_digit (Z.land n 15)].

(** What an accepted code point ending in byte [b] is printed as
    ([ensure_ascii] is false). *)
Definition escape_point (codep : Z) (b : ascii) : bytes :=
  match codep with
  | 8 => lit "\b"
  | 9 => lit "\t"
  | 10 => lit "\n"
  | 12 => lit "\f"
  | 13 => lit "\r"
  | 34 => lit "\" ++ [ascii_of_N 34]
  | 92 => lit "\\"
  | _ => if codep <=? 0x1F then lit "\u" ++ hex4 codep else [b]
  end.

Definition invalid_utf8 : string := "[json.exception.type_error.316]".

Fixpoint dump_escaped_from (state codep : Z) (s : bytes) : result string bytes :=
  match s with
  | [] => if state =? UTF8_ACCEPT then Ok [] else Err invalid_utf8
  | b :: s =>
      let '(state, codep) := decode state codep (byteZ b) in
      if state =? UTF8_REJECT then Err invalid_utf8 else
      rest ← dump_escaped_from state codep s;
      Ok ((if state =? UTF8_ACCEPT then escape_point codep b else [b]) ++ rest)
  end.

Definition dump_escaped (s : bytes) : result string bytes :=
  dump_escaped_from UTF8_ACCEPT 0 s.

Definition quote : bytes := [ascii_of_N 34].

Definition dump_string (s : bytes) : result string bytes :=
  e ← dump_escaped s; Ok (quote ++ e ++ quote).

(** [json::dump()]: compact, keys in map order. *)
Fixpoint dump (j : json) : result string bytes :=
  match j with
  | JNull => Ok (lit "null")
  | JBool b => Ok (if b then lit "true" else lit "false")
  | JInt z => Ok (to_string z)
  | JReal text => Ok text
  | JString s => dump_string s
  | JArray l =>
      items ← (fix go (l : list json) : result string (list bytes) :=
        match l with
        | [] => Ok []
        | x :: l => d ← dump x; ds ← go l; Ok (d :: ds)
        end) l;
      Ok (lit "[" ++ join (lit ",") items ++ lit "]")
  | JObject l =>
      items ← (fix go (l : list (bytes * json)) : result string (list bytes) :=
        match l with
        | [] => Ok []
        | (k, x) :: l =>
            dk ← dump_string k; d ← dump x; ds ← go l; Ok ((dk ++ lit ":" ++ d) :: ds)
        end) l;
      Ok (lit "{" ++ join (lit ",") items ++ lit "}")
  end.

(** ** Objects as sorted maps *)

(** [std::map::insert]: an existing key keeps its value. *)
Fixpoint object_insert (k : bytes) (v : json) (l : list (bytes * json)) : list (bytes * json) :=
  match l with
  | [] => [(k, v)]
  | (k', v') :: l' =>
      match bytes_compare k k' with
      | Lt => (k, v) :: l
      | Eq => l
      | Gt => (k', v') :: object_insert k v l'
      end
  end.

(** [Json{{k1, v1}, {k2, v2}, ...}]. *)
Definition json_object (members : list (bytes * json)) : json :=
  JObject (foldl (λ l kv, object_insert kv.1 kv.2 l) [] members).

Fixpoint member (k : bytes) (l : list (bytes * json)) : option json :=
  match l with
  | [] => None
  | (k', v) :: l => if bool_decide (k = k') then Some v else member k l
  end.

Definition is_object (j : json) : bool := match j with JObject _ => true | _ => false end.
Definition is_array (j : json) : bool := match j with JArray _ => true | _ => false end.

(** [j.at(k)]. *)
Definition at_key (j : json) (k : bytes) : result string json :=
  match j with
  | JObject l => of_option "[json.exception.out_of_range.403]"%string (member k l)
  | _ => Err "[json.exception.type_error.304]"%string
  end.

(** [j.size()]. *)
Definition json_size (j : json) : nat :=
  match j with
  | JNull => 0
  | JArray l => length l
  | JObject l => length l
  | _ => 1
  end.

(** [j.get<std::string>()]. *)
Definition get_string (j : json) : result string bytes :=
  match j with JString s => Ok s | _ => Err "[json.exception.type_error.302]"%string end.

(** ** Equality and induction *)

Section induction.
  Variable P : json → Prop.
  Hypothesis P_null : P JNull.
  Hypothesis P_bool : ∀ b, P (JBool b).
  Hypothesis P_int : ∀ z, P (JInt z).
  Hypothesis P_real : ∀ t, P (JReal t).
  Hypothesis P_string : ∀ s, P (JString s).
  Hypothesis P_array : ∀ l, Forall P l → P (JArray l).
  Hypothesis P_object : ∀ l, Forall (λ kv, P kv.2) l → P (JObject l).

(** Induction that reaches the values held in arrays and objects. *)
Fixpoint json_rect' (j : json) : P j :=
  match j with
  | JNull => P_null
  | JBool b => P_bool b
  | JInt z => P_int z
  | JReal t => P_real t
  | JString s => P_string s
  | JArray l => P_array l
      ((fix go l := match l return Forall P l with
        | [] => Forall_nil_2 P
        | x :: l => Forall_cons_2 P x l (json_rect' x) (go l)
        end) l)
  | JObject l => P_object l
      ((fix go l := match l return Forall (λ kv, P kv.2) l with
        | [] => Forall_nil_2 _
        | x :: l => Forall_cons_2 (λ kv, P kv.2) x l (json_rect' x.2) (go l)
        end) l)
  end.
End induction.

(** [operator==] of two values. *)
Fixpoint json_eqb (a b : json) : bool :=
  match a, b with
  | JNull, JNull => true
  | JBool x, JBool y => bool_decide (x = y)
  | JInt x, JInt y => x =? y
  | JReal x, JReal y => bool_decide (x = y)
  | JString x, JString y => bool_decide (x = y)
  | JArray la, JArray lb =>
      (fix go la lb := match la, lb with
        | [], [] => true
        | x :: la, y :: lb => json_eqb x y && go la lb
        | _, _ => false
        end) la lb
  | JObject la, JObject lb =>
      (fix go la lb := match la, lb with
        | [], [] => true
        | x :: la, y :: lb => bool_decide (x.1 = y.1) && json_eqb x.2 y.2 && go la lb
        | _, _ => false
        end) la lb
  | _, _ => false
  end.

Lemma json_eqb_eq a b : json_eqb a b = true ↔ a = b.
Proof.
  revert b. induction a as [| | | | |la IH|la IH] using json_rect'; intros []; simpl;
    rewrite ?bool_decide_eq_true, ?Z.eqb_eq; try (split; congruence).
  - revert l. induction IH as [|x la Hx _ IH]; intros [|y lb]; try (split; congruence).
    rewrite andb_true_iff, Hx, IH. split; [intros [-> [= ->]]; done|].
    by intros [= -> ->].
  - revert l. induction IH as [|[k x] la Hx _ IH]; intros [|[k' y] lb]; try (split; congruence).
    rewrite !andb_true_iff, bool_decide_eq_true, Hx, IH. simpl.
    split; [intros [[-> ->] [= ->]]; done|]. by intros [= -> -> ->].
Qed.

#[export] Instance json_eq_dec : EqDecision json.
Proof.
  intros a b. destruct (json_eqb a b) eqn:E.
  - left. by apply json_eqb_eq.
  - right. intros ->. by rewrite (proj2 (json_eqb_eq b b) eq_refl) in E.
Defined.

(** ** Maps *)

(** What makes an association list a [std::map]: keys strictly ascend. *)
Fixpoint ascending {A} (l : list (bytes * A)) : bool :=
  match l with
  | [] => true
  | kv :: l =>
      match l with [] => true | kv' :: _ => bytes_ltb kv.1 kv'.1 end && ascending l
  end.

