(* ===== verification/JsonObject.v ===== *)
(** Editing and reading JSON objects the way nlohmann::json's [operator[]],
    [contains] and [value] do, with the laws of members after an assignment.  An
    object is a [std::map], so its keys ascend; on such objects assigning the
    value a member already has changes nothing. *)
From S2P Require Import Prelude Json.
Local Open Scope Z_scope.

(** [j[k] = v] of an object. *)
Fixpoint object_set (k : bytes) (v : json) (l : list (bytes * json)) : list (bytes * json) :=
  match l with
  | [] => [(k, v)]
  | (k', v') :: l' =>
      match bytes_compare k k' with
      | Lt => (k, v) :: l
      | Eq => (k, v) :: l'
      | Gt => (k', v') :: object_set k v l'
      end
  end.

Definition contains (k : bytes) (l : list (bytes * json)) : bool :=
  match member k l with Some _ => true | None => false end.

(** [j.value(k, d)] for a JSON default, which is never converted. *)
Definition value_or (k : bytes) (d : json) (l : list (bytes * json)) : json :=
  default d (member k l).

Definition is_null (j : json) : bool := match j with JNull => true | _ => false end.

(** The bytes of number literals; a literal of a real number has a fraction or an
    exponent. *)
Definition number_char (c : ascii) : bool :=
  is_digit c || bool_decide (c ∈ lit "+-.eE").
Definition real_literal (t : bytes) : bool :=
  match t with c :: _ => is_digit c || bool_decide (c = "-"%char) | [] => false end
  && forallb number_char t && existsb (λ c, bool_decide (c ∈ lit ".eE")) t.

(** Objects are maps, all the way down, and real numbers are literals. *)
Fixpoint json_ok (j : json) : bool :=
  match j with
  | JArray l => forallb json_ok l
  | JReal t => real_literal t
  | JObject l => ascending l && forallb (λ kv, json_ok kv.2) l
  | _ => true
  end.

Lemma bytes_ltb_compare a b : bytes_ltb a b = true ↔ bytes_compare a b = Lt.
Proof. unfold bytes_ltb. by destruct (bytes_compare a b). Qed.

Lemma bytes_compare_refl a : bytes_compare a a = Eq.
Proof. by apply bytes_compare_eq. Qed.

Lemma member_set k v l : member k (object_set k v l) = Some v.
Proof.
  induction l as [|[k' v'] l IH]; simpl; [by rewrite bool_decide_true|].
  destruct (bytes_compare k k') eqn:E; simpl; try by rewrite bool_decide_true.
  rewrite bool_decide_false; [done|]. intros ->. by rewrite bytes_compare_refl in E.
Qed.

Lemma member_set_ne k k' v l : k ≠ k' → member k (object_set k' v l) = member k l.
Proof.
  intros Hne. induction l as [|[k2 v2] l IH]; simpl; [by rewrite bool_decide_false|].
  destruct (bytes_compare k' k2) eqn:E; simpl.
  - apply bytes_compare_eq in E as ->. by rewrite !bool_decide_false.
  - by rewrite (bool_decide_false (k = k')).
  - by rewrite IH.
Qed.

Lemma ascending_cons {A} (kv : bytes * A) l : ascending (kv :: l) = true ↔
  Forall (λ kv', bytes_ltb kv.1 kv'.1 = true) l ∧ ascending l = true.
Proof.
  revert kv. induction l as [|kv2 l IH]; intros kv.
  - simpl. split; [done|]. by intros [_ _].
  - change (ascending (kv :: kv2 :: l)) with (bytes_ltb kv.1 kv2.1 && ascending (kv2 :: l)).
    rewrite andb_true_iff, Forall_cons, IH. split.
    + intros [H1 [H2 H3]]. split_and!; try done. eapply Forall_impl; [exact H2|].
      intros x Hx. apply Is_true_true, (bytes_ltb_trans _ kv2.1); by apply Is_true_true.
    + intros [[H1 H2] [H3 H4]]. done.
Qed.

Lemma set_keys k v l : (object_set k v l).*1 ⊆ k :: l.*1.
Proof.
  induction l as [|[k' v'] l IH]; simpl; [set_solver|]. destruct (bytes_compare k k'); set_solver.
Qed.

Lemma ascending_set k v l : ascending l = true → ascending (object_set k v l) = true.
Proof.
  induction l as [|[k' v'] l IH]; [done|]. intros [Hlt Hl]%ascending_cons. simpl.
  destruct (bytes_compare k k') eqn:E.
  - apply bytes_compare_eq in E as ->. by apply ascending_cons.
  - apply ascending_cons. split; [|by apply ascending_cons]. apply Forall_cons. simpl.
    apply bytes_ltb_compare in E. split; [done|]. eapply Forall_impl; [exact Hlt|]. simpl.
    intros x Hx. apply Is_true_true, (bytes_ltb_trans _ k'); by apply Is_true_true.
  - apply ascending_cons. split; [|by apply IH]. apply Forall_forall. intros kv2 Hin. simpl.
    apply (list_elem_of_fmap_2 fst) in Hin. apply set_keys in Hin.
    apply elem_of_cons in Hin as [E2|Hin].
    + rewrite E2. apply bytes_ltb_compare. by rewrite bytes_compare_antisym, E.
    + apply list_elem_of_fmap in Hin as (kv & E2 & Hin). rewrite E2. rewrite Forall_forall in Hlt. by apply Hlt.
Qed.

Lemma member_below k l : Forall (λ kv' : bytes * json, bytes_ltb k kv'.1 = true) l → member k l = None.
Proof.
  induction 1 as [|[k' v'] l Hk _ IH]; [done|]. simpl in *. rewrite bool_decide_false; [done|].
  intros ->. by rewrite bytes_ltb_irrefl in Hk.
Qed.

(** Assigning the value that is there changes nothing. *)
Lemma set_same k v l : ascending l = true → member k l = Some v → object_set k v l = l.
Proof.
  induction l as [|[k' v'] l IH]; [done|]. intros Hasc E. apply ascending_cons in Hasc as [Hlt Hl].
  simpl in *. destruct (bytes_compare k k') eqn:Ek.
  - apply bytes_compare_eq in Ek as ->. rewrite bool_decide_true in E by done. by injection E as ->.
  - rewrite bool_decide_false in E by (intros ->; by rewrite bytes_compare_refl in Ek).
    rewrite member_below in E; [done|]. eapply Forall_impl; [exact Hlt|]. simpl. intros x Hx.
    apply Is_true_true, (bytes_ltb_trans _ k'); apply Is_true_true; [|done].
    by apply bytes_ltb_compare.
  - rewrite bool_decide_false in E by (intros ->; by rewrite bytes_compare_refl in Ek).
    by rewrite IH.
Qed.

Lemma member_ok k v l : json_ok (JObject l) = true → member k l = Some v → json_ok v = true.
Proof.
  simpl. intros [_ H]%andb_true_iff. induction l as [|[k' v'] l IH]; simpl in *; [done|].
  apply andb_true_iff in H as [H1 H2]. case_bool_decide; [by intros [= <-]|]. by apply IH.
Qed.

Lemma set_ok k v l : json_ok (JObject l) = true → json_ok v = true →
  json_ok (JObject (object_set k v l)) = true.
Proof.
  simpl. intros [Hasc Hall]%andb_true_iff Hv. apply andb_true_iff.
  split; [by apply ascending_set|]. clear Hasc.
  induction l as [|[k' v'] l IH]; simpl in *; [by rewrite Hv|].
  apply andb_true_iff in Hall as [H1 H2]. destruct (bytes_compare k k'); simpl; rewrite ?Hv, ?H1, ?H2; auto.
Qed.
