(* ===== verification/JsonUtf8.v ===== *)
(** The serializer on UTF-8 text: its automaton (Native/third_party/nlohmann/json.hpp)
    accepts exactly what the decoder of utf8proc reads, and escapes it byte by
    byte. *)
From S2P Require Import Prelude Text Unicode Timestamp CoreText Json.
Local Open Scope Z_scope.

#[local] Ltac Zify.zify_post_hook ::= Z.to_euclidean_division_equations.

(** What a byte is printed as, whatever stands around it. *)
Definition escape_byte (b : ascii) : bytes :=
  match byteZ b with
  | 8 => lit "\b"
  | 9 => lit "\t"
  | 10 => lit "\n"
  | 12 => lit "\f"
  | 13 => lit "\r"
  | 34 => lit "\" ++ [ascii_of_N 34]
  | 92 => lit "\\"
  | c => if c <? 0x20 then lit "\u00" ++ [hex_digit (Z.shiftr c 4); hex_digit (Z.land c 15)] else [b]
  end.

Definition escape_text (s : bytes) : bytes := s ≫= escape_byte.

Lemma byte_value z : 0 <= z < 256 → byteZ (Zbyte z) = z.
Proof. intros Hz. rewrite byteZ_Zbyte, u8_mod. by apply Z.mod_small. Qed.

(** ** The automaton on one code point *)

(** One byte from a state. *)
Lemma step_bytes state codep b s state' codep' : decode state codep (byteZ b) = (state', codep') →
  state' ≠ UTF8_REJECT →
  dump_escaped_from state codep (b :: s) =
    (rest ← dump_escaped_from state' codep' s;
     Ok ((if state' =? UTF8_ACCEPT then escape_point codep' b else [b]) ++ rest)).
Proof.
  intros E Hne. cbn [dump_escaped_from]. rewrite E. by rewrite (proj2 (Z.eqb_neq _ _) Hne).
Qed.

Definition class_state (state type : Z) : Z := nth (Z.to_nat (state * 16 + type)) transitions 1.

Lemma decode_lead codep b type : byte_class b = type →
  decode UTF8_ACCEPT codep b = (class_state UTF8_ACCEPT type, Z.land (Z.shiftr 0xFF type) b).
Proof. unfold decode. by intros ->. Qed.

Lemma decode_more state codep b type : state ≠ UTF8_ACCEPT → byte_class b = type →
  0 <= codep < 2 ^ 26 → decode state codep b = (class_state state type, codep * 64 + b mod 64).
Proof.
  intros Hs Hc Hp. unfold decode. rewrite (proj2 (Z.eqb_neq _ _) Hs), Hc. cbn [negb]. f_equal.
  change 0x3f with (Z.ones 6). rewrite land_low, Z.lor_comm, Z.shiftl_mul_pow2, u32_small by lia.
  rewrite lor_add by lia. lia.
Qed.

(** The class of a continuation byte. *)
Definition cont_class (b : Z) : Z := if b <? 0x90 then 1 else if b <? 0xA0 then 9 else 7.

Lemma byte_class_cont b : 0x80 <= b < 0xC0 → byte_class b = cont_class b.
Proof.
  intros Hb. unfold byte_class, cont_class. rewrite (proj2 (Z.ltb_ge b 0x80)), (proj2 (Z.ltb_lt b 0xC0)) by lia.
  done.
Qed.

Lemma escape_point_high c b : 128 <= c → escape_point c b = [b].
Proof.
  intros Hc. unfold escape_point. destruct c as [|p|p]; try lia.
  do 7 (destruct p as [p|p|]; try lia); by rewrite (proj2 (Z.leb_gt _ _)) by lia.
Qed.

Lemma escape_byte_high z : 128 <= z < 256 → escape_byte (Zbyte z) = [Zbyte z].
Proof.
  intros Hz. unfold escape_byte. rewrite byte_value by lia.
  destruct z as [|p|p]; try lia.
  do 7 (destruct p as [p|p|]; try lia); by rewrite (proj2 (Z.ltb_ge _ _)) by lia.
Qed.

(** A fact of a range of bytes, checked byte by byte. *)
Lemma by_bytes (P : Z → Prop) `{!∀ z, Decision (P z)} lo hi :
  forallb (λ n, bool_decide (P (Z.of_nat n))) (seq lo (hi - lo)) = true →
  ∀ z, Z.of_nat lo <= z < Z.of_nat hi → P z.
Proof.
  intros E z Hz. rewrite forallb_forall in E. rewrite <-(Z2Nat.id z) by lia.
  apply (bool_decide_eq_true (P (Z.of_nat (Z.to_nat z)))), E, in_seq. lia.
Qed.

Lemma escape_point_ascii z : 0 <= z < 128 → escape_point z (Zbyte z) = escape_byte (Zbyte z).
Proof.
  revert z. apply (by_bytes (λ z, escape_point z (Zbyte z) = escape_byte (Zbyte z)) 0 128).
  by vm_compute.
Qed.

(** The states after a byte, written out. *)
Lemma cont_state state codep z state' : state ≠ UTF8_ACCEPT → 0x80 <= z < 0xC0 → 0 <= codep < 2 ^ 26 →
  class_state state (cont_class z) = state' →
  decode state codep z = (state', codep * 64 + z mod 64).
Proof.
  intros Hs Hz Hc <-. rewrite (decode_more _ _ _ (cont_class z)); try done. by apply byte_class_cont.
Qed.

Definition lead3_state (z : Z) : Z := if z =? 0xE0 then 4 else if z =? 0xED then 5 else 3.
Definition lead4_state (z : Z) : Z := if z =? 0xF0 then 6 else if z =? 0xF4 then 8 else 7.

Lemma lead2 codep z : 0xC2 <= z < 0xE0 → decode UTF8_ACCEPT codep z = (2, z mod 32).
Proof.
  intros Hz. rewrite (decode_lead _ _ 2) by (unfold byte_class; by solve_if).
  change (Z.shiftr 255 2) with (Z.ones 6). rewrite Z.land_comm, land_low by lia. f_equal. lia.
Qed.

Lemma lead3 codep z : 0xE0 <= z < 0xF0 → decode UTF8_ACCEPT codep z = (lead3_state z, z mod 16).
Proof.
  revert z. apply (by_bytes (λ z, decode UTF8_ACCEPT 0 z = (lead3_state z, z mod 16)) 224 240).
  by vm_compute.
Qed.

Lemma lead4 codep z : 0xF0 <= z < 0xF5 → decode UTF8_ACCEPT codep z = (lead4_state z, z mod 8).
Proof.
  revert z. apply (by_bytes (λ z, decode UTF8_ACCEPT 0 z = (lead4_state z, z mod 8)) 240 245).
  by vm_compute.
Qed.

Lemma cont_any state state' z : 0x80 <= z < 0xC0 →
  class_state state 1 = state' → class_state state 9 = state' → class_state state 7 = state' →
  class_state state (cont_class z) = state'.
Proof. intros Hz E1 E2 E3. unfold cont_class. by repeat case_match. Qed.

(** Both passes agree on a run of bytes above ASCII. *)
Lemma high_bytes l : Forall (λ z, 128 <= z < 256) l → (Zbyte <$> l) ≫= escape_byte = Zbyte <$> l.
Proof.
  induction 1 as [|z l Hz _ IH]; [done|]. csimpl. rewrite IH. by rewrite escape_byte_high.
Qed.

(** A code point of two bytes or more. *)
Lemma run2 codep s a b : 0xC2 <= a < 0xE0 → 0x80 <= b < 0xC0 →
  dump_escaped_from UTF8_ACCEPT codep ((Zbyte <$> [a; b]) ++ s) =
  (rest ← dump_escaped_from UTF8_ACCEPT (point2 a b) s; Ok ((Zbyte <$> [a; b]) ++ rest)).
Proof.
  intros Ha Hb. change ((Zbyte <$> [a; b]) ++ s) with (Zbyte a :: Zbyte b :: s).
  rewrite (step_bytes _ _ _ _ 2 (a mod 32));
    [|rewrite byte_value by lia; by apply lead2|done].
  rewrite (step_bytes _ _ _ _ UTF8_ACCEPT (point2 a b)); [| |done].
  - cbn [Z.eqb UTF8_ACCEPT]. rewrite escape_point_high by (unfold point2; lia).
    by destruct (dump_escaped_from _ _ s).
  - rewrite byte_value by lia. apply cont_state; [done|lia|lia|].
    by apply cont_any.
Qed.

Lemma run3 codep s a b c : 0xE0 <= a < 0xF0 → 0x80 <= b < 0xC0 → 0x80 <= c < 0xC0 →
  0x800 <= point3 a b c → ¬ (a = 0xed ∧ 0x9f < b) →
  dump_escaped_from UTF8_ACCEPT codep ((Zbyte <$> [a; b; c]) ++ s) =
  (rest ← dump_escaped_from UTF8_ACCEPT (point3 a b c) s; Ok ((Zbyte <$> [a; b; c]) ++ rest)).
Proof.
  intros Ha Hb Hc Hlow Hs.
  change ((Zbyte <$> [a; b; c]) ++ s) with (Zbyte a :: Zbyte b :: Zbyte c :: s).
  assert (lead3_state a ≠ UTF8_ACCEPT ∧ lead3_state a ≠ UTF8_REJECT) as [Hl1 Hl2]
    by (unfold lead3_state; by repeat case_match).
  rewrite (step_bytes _ _ _ _ (lead3_state a) (a mod 16));
    [|rewrite byte_value by lia; by apply lead3|done].
  rewrite (step_bytes _ _ _ _ 2 (a mod 16 * 64 + b mod 64)); [| |done].
  - rewrite (step_bytes _ _ _ _ UTF8_ACCEPT (point3 a b c)); [| |done].
    + rewrite (proj2 (Z.eqb_neq _ _) Hl1). cbn [Z.eqb UTF8_ACCEPT]. rewrite escape_point_high by lia.
      by destruct (dump_escaped_from _ _ s).
    + rewrite byte_value by lia. apply cont_state; [done|lia|lia|].
      by apply cont_any.
  - rewrite byte_value by lia. apply cont_state; [done|lia|lia|].
    unfold lead3_state, cont_class, point3 in *.
    destruct (Z.eqb_spec a 0xE0), (Z.eqb_spec a 0xED), (Z.ltb_spec b 0x90), (Z.ltb_spec b 0xA0); try lia; done.
Qed.

Lemma run4 codep s a b c d : 0xF0 <= a <= 0xF4 → 0x80 <= b < 0xC0 → 0x80 <= c < 0xC0 →
  0x80 <= d < 0xC0 → ¬ (a = 0xF0 ∧ b < 0x90) → ¬ (a = 0xF4 ∧ 0x8f < b) →
  dump_escaped_from UTF8_ACCEPT codep ((Zbyte <$> [a; b; c; d]) ++ s) =
  (rest ← dump_escaped_from UTF8_ACCEPT (point4 a b c d) s; Ok ((Zbyte <$> [a; b; c; d]) ++ rest)).
Proof.
  intros Ha Hb Hc Hd H0 H4.
  change ((Zbyte <$> [a; b; c; d]) ++ s) with (Zbyte a :: Zbyte b :: Zbyte c :: Zbyte d :: s).
  assert (lead4_state a ≠ UTF8_ACCEPT ∧ lead4_state a ≠ UTF8_REJECT) as [Hl1 Hl2]
    by (unfold lead4_state; by repeat case_match).
  rewrite (step_bytes _ _ _ _ (lead4_state a) (a mod 8));
    [|rewrite byte_value by lia; apply lead4; lia|done].
  rewrite (step_bytes _ _ _ _ 3 (a mod 8 * 64 + b mod 64)); [| |done].
  - rewrite (step_bytes _ _ _ _ 2 ((a mod 8 * 64 + b mod 64) * 64 + c mod 64)); [| |done].
    + rewrite (step_bytes _ _ _ _ UTF8_ACCEPT (point4 a b c d)); [| |done].
      * rewrite (proj2 (Z.eqb_neq _ _) Hl1). cbn [Z.eqb UTF8_ACCEPT].
        rewrite escape_point_high by (unfold point4; lia). by destruct (dump_escaped_from _ _ s).
      * rewrite byte_value by lia. apply cont_state; [done|lia|lia|].
        by apply cont_any.
    + rewrite byte_value by lia. apply cont_state; [done|lia|lia|].
      by apply cont_any.
  - rewrite byte_value by lia. apply cont_state; [done|lia|lia|].
    unfold lead4_state, cont_class in *.
    destruct (Z.eqb_spec a 0xF0), (Z.eqb_spec a 0xF4), (Z.ltb_spec b 0x90), (Z.ltb_spec b 0xA0); try lia; done.
Qed.

(** One code point, whatever was read before it. *)
Lemma dump_point codep c s : scalar c = true →
  dump_escaped_from UTF8_ACCEPT codep (utf8proc_encode_char c ++ s) =
  (rest ← dump_escaped_from UTF8_ACCEPT c s; Ok (escape_text (utf8proc_encode_char c) ++ rest)).
Proof.
  intros Hc. pose proof (iterate_encode c [] Hc) as E. rewrite app_nil_r in E.
  unfold scalar in Hc. inv_ok. rewrite Z.leb_le, Z.ltb_lt in *. unfold escape_text.
  rewrite encode_eq by lia.
  destruct (Z.ltb_spec c 0x80); [|destruct (Z.ltb_spec c 0x800); [|destruct (Z.ltb_spec c 0x10000)]].
  - change ((Zbyte <$> [c]) ++ s) with (Zbyte c :: s).
    rewrite (step_bytes _ _ _ _ UTF8_ACCEPT c); [|rewrite byte_value by lia|done].
    + cbn [Z.eqb UTF8_ACCEPT]. rewrite escape_point_ascii by lia. csimpl. by rewrite app_nil_r.
    + rewrite (decode_lead _ _ 0) by (unfold byte_class; by solve_if). f_equal.
      change (Z.shiftr 255 0) with (Z.ones 8). rewrite Z.land_comm, land_low by lia. lia.
  - rewrite high_bytes, run2 by (repeat constructor; lia) || lia.
    replace (point2 _ _) with c by (unfold point2; lia). done.
  - apply andb_false_iff in H0. rewrite !Z.leb_gt in H0.
    rewrite high_bytes by (repeat constructor; lia).
    rewrite run3; try (unfold point3; lia).
    replace (point3 _ _ _) with c by (unfold point3; lia). done.
  - rewrite high_bytes by (repeat constructor; lia). rewrite run4 by lia.
    replace (point4 _ _ _ _) with c by (unfold point4; lia). done.
Qed.

Lemma dump_utf8_from points codep : Forall scalar points →
  dump_escaped_from UTF8_ACCEPT codep (utf8 points) = Ok (escape_text (utf8 points)).
Proof.
  intros Hp. revert codep. induction Hp as [|c points Hc _ IH]; intros codep; [done|].
  rewrite utf8_cons, dump_point, IH by by apply Is_true_true. cbn [mbind result_bind].
  unfold escape_text. by rewrite bind_app.
Qed.

(** UTF-8 text is printed byte by byte. *)
Lemma dump_string_utf8 s points : scalars s = Ok points →
  dump_string s = Ok (quote ++ escape_text s ++ quote).
Proof.
  intros [Hp ->]%scalars_inv. unfold dump_string, dump_escaped. by rewrite dump_utf8_from.
Qed.
