(* ===== verification/JsonParser.v ===== *)
(** A reference parser for compact documents, with the two laws the code relies on
    of the library's parser: what it returns is made of maps, and it reads back
    whatever [dump] prints.  The components take the parser as a parameter; this
    one shows that the laws can be met, and evaluates examples. *)
From S2P Require Import Prelude Text Unicode Timestamp CoreText Json JsonObject JsonUtf8.
Local Open Scope Z_scope.

(** ** What the serializer accepts, it escapes byte by byte *)

(** The code points a state of the automaton can hold. *)
Definition low_point (state : Z) : Z :=
  match state with 2 => 2 | 3 | 5 | 7 | 8 => 1 | _ => 0 end.
Definition high_point (state : Z) : Z :=
  match state with 2 => 32768 | 3 => 512 | 4 | 5 => 16 | _ => 8 end.

Definition reads (state codep : Z) : Prop :=
  state = UTF8_ACCEPT ∨ (2 <= state <= 8 ∧ low_point state <= codep < high_point state).

(** One byte after the first of a sequence. *)
Definition more_ok (state b : Z) : bool :=
  let state' := class_state state (byte_class b) in
  bool_decide (state' = UTF8_REJECT) ||
  ((128 <=? b) &&
   if bool_decide (state' = UTF8_ACCEPT) then 128 <=? low_point state * 64 + b mod 64
   else (2 <=? state') && (state' <=? 8) && (low_point state' <=? low_point state * 64 + b mod 64)
        && ((high_point state - 1) * 64 + 63 <? high_point state')).

Definition lead_ok (b : Z) : bool :=
  let '(state', codep) := decode UTF8_ACCEPT 0 b in
  bool_decide (state' = UTF8_REJECT) ||
  if b <? 128 then bool_decide (state' = UTF8_ACCEPT) && (codep =? b)
  else (2 <=? state') && (state' <=? 8) && (low_point state' <=? codep) && (codep <? high_point state').

Lemma more_checked : forallb (λ st, forallb (λ b, more_ok (Z.of_nat st) (Z.of_nat b)) (seq 0 256)) (seq 2 7) = true.
Proof. by vm_compute. Qed.

Lemma lead_checked : forallb (λ b, lead_ok (Z.of_nat b)) (seq 0 256) = true.
Proof. by vm_compute. Qed.

Lemma more_cases state b : 2 <= state <= 8 → 0 <= b < 256 → more_ok state b = true.
Proof.
  intros Hs Hb. pose proof more_checked as E. rewrite forallb_forall in E.
  rewrite <-(Z2Nat.id state), <-(Z2Nat.id b) by lia.
  specialize (E (Z.to_nat state) ltac:(apply in_seq; lia)). rewrite forallb_forall in E.
  apply E, in_seq. lia.
Qed.

Lemma lead_cases b : 0 <= b < 256 → lead_ok b = true.
Proof. exact (byte_cases lead_ok lead_checked b). Qed.

Lemma dump_escaped_bytes s state codep e : reads state codep →
  dump_escaped_from state codep s = Ok e → e = escape_text s.
Proof.
  revert state codep e. induction s as [|b s IH]; intros state codep e Hr E.
  - cbn in E. destruct (state =? UTF8_ACCEPT); [by apply ok_inj in E|done].
  - cbn [dump_escaped_from] in E. destruct (decode state codep (byteZ b)) as [state' codep'] eqn:Ed.
    pose proof (byteZ_range b) as Hb. destruct (state' =? UTF8_REJECT) eqn:Hrej; [done|].
    apply Z.eqb_neq in Hrej. apply bind_ok in E as (rest & Erest & E). apply ok_inj in E. subst e.
    assert (reads state' codep' ∧
      (if state' =? UTF8_ACCEPT then escape_point codep' b else [b]) = escape_byte b) as [Hr' ->];
      [|by rewrite (IH _ _ _ Hr' Erest)].
    destruct Hr as [->|[Hs Hc]].
    + pose proof (lead_cases (byteZ b) Hb) as Hl. unfold lead_ok in Hl.
      change (decode UTF8_ACCEPT 0 (byteZ b)) with (decode UTF8_ACCEPT codep (byteZ b)) in Hl.
      rewrite Ed, bool_decide_false in Hl by done. cbn [orb] in Hl.
      destruct (Z.ltb_spec (byteZ b) 128) as [Hlt|Hge].
      * inv_ok. apply Z.eqb_eq in H0. subst state' codep'. split; [by left|]. cbn [Z.eqb UTF8_ACCEPT].
        rewrite <-(Zbyte_byteZ b) at 2 3. apply escape_point_ascii. lia.
      * inv_ok. rewrite Z.leb_le, Z.ltb_lt in *. split; [right; lia|].
        rewrite (proj2 (Z.eqb_neq state' UTF8_ACCEPT)) by (unfold UTF8_ACCEPT; lia).
        rewrite <-(Zbyte_byteZ b). rewrite escape_byte_high by lia. done.
    + pose proof (more_cases state (byteZ b) Hs Hb) as Hm. unfold more_ok in Hm.
      assert (high_point state <= 32768) by (unfold high_point; repeat case_match; lia).
      assert (0 <= low_point state) by (unfold low_point; repeat case_match; lia).
      rewrite (decode_more _ _ _ (byte_class (byteZ b))) in Ed; [|unfold UTF8_ACCEPT; lia|done|].
      2: { split; [lia|]. apply (Z.lt_le_trans _ 32768); [lia|]. by vm_compute. }
      injection Ed as Es Ec. rewrite Es, bool_decide_false in Hm by done. cbn [orb] in Hm.
      apply andb_true_iff in Hm as [Hge Hm]. apply Z.leb_le in Hge.
      assert (escape_byte b = [b]) as Hesc by (rewrite <-(Zbyte_byteZ b); apply escape_byte_high; lia).
      rewrite Hesc. case_bool_decide as Ea.
      * split; [by left|]. rewrite Ea. cbn [Z.eqb UTF8_ACCEPT]. apply Z.leb_le in Hm.
        apply escape_point_high. lia.
      * inv_ok. rewrite Z.leb_le, Z.ltb_lt in *. split.
        -- right. split; [lia|]. pose proof (Z.mod_pos_bound (byteZ b) 64 ltac:(lia)). lia.
        -- by rewrite (proj2 (Z.eqb_neq _ _) Ea).
Qed.

Lemma dump_string_bytes s d : dump_string s = Ok d → d = quote ++ escape_text s ++ quote.
Proof.
  unfold dump_string, dump_escaped. intros E. apply bind_ok in E as (e & He & E). apply ok_inj in E. subst d.
  apply dump_escaped_bytes in He; [by subst e|by left].
Qed.

(** ** The parser *)

Definition hex_value (c : ascii) : Z :=
  match find_byte (is_char c) (lit "0123456789abcdef") with Some n => Z.of_nat n | None => 0 end.

(** The rest of a string after its opening quote. *)
Fixpoint parse_string (s : bytes) : option (bytes * bytes) :=
  match s with
  | [] => None
  | c :: s =>
      if bool_decide (byteZ c = 34) then Some ([], s) else
      if bool_decide (byteZ c = 92) then
        match s with
        | [] => None
        | e :: s =>
            let simple (x : Z) (s : bytes) :=
              match parse_string s with Some (l, r) => Some (Zbyte x :: l, r) | None => None end in
            match byteZ e with
            | 98 => simple 8 s
            | 116 => simple 9 s
            | 110 => simple 10 s
            | 102 => simple 12 s
            | 114 => simple 13 s
            | 117 =>
                match s with
                | _ :: _ :: h :: l :: s => simple (hex_value h * 16 + hex_value l) s
                | _ => None
                end
            | x => simple x s
            end
        end
      else match parse_string s with Some (l, r) => Some (c :: l, r) | None => None end
  end.

Fixpoint span_number (s : bytes) : nat :=
  match s with c :: s => if number_char c then S (span_number s) else O | [] => O end.

(** An integer, or a real number as it is written. *)
Definition parse_number (s : bytes) : option (json * bytes) :=
  let n := span_number s in
  let t := take n s in
  if existsb (λ c, bool_decide (c ∈ lit ".eE")) t then
    if real_literal t then Some (JReal t, drop n s) else None
  else
    match t with
    | [] => None
    | c :: t' => Some (JInt (if bool_decide (c = "-"%char) then - decimal_value t' else decimal_value t),
                       drop n s)
    end.

Definition parse_word (w : string) (j : json) (s : bytes) : option (json * bytes) :=
  if starts_with (lit w) s then Some (j, drop (length (lit w)) s) else None.

(** A value, the items of an array and the members of an object; the fuel bounds
    the bytes that are read. *)
Fixpoint parse_value (fuel : nat) (s : bytes) : option (json * bytes) :=
  match fuel with
  | O => None
  | S fuel =>
      match s with
      | [] => None
      | c :: s' =>
          match byteZ c with
          | 34 => match parse_string s' with Some (t, r) => Some (JString t, r) | None => None end
          | 91 =>
              if starts_with (lit "]") s' then Some (JArray [], drop 1 s') else
              match parse_items fuel s' with Some (l, r) => Some (JArray l, r) | None => None end
          | 123 =>
              if starts_with (lit "}") s' then Some (JObject [], drop 1 s') else
              match parse_members fuel s' with Some (l, r) => Some (JObject l, r) | None => None end
          | 110 => parse_word "null" JNull s
          | 116 => parse_word "true" (JBool true) s
          | 102 => parse_word "false" (JBool false) s
          | _ => parse_number s
          end
      end
  end
with parse_items (fuel : nat) (s : bytes) : option (list json * bytes) :=
  match fuel with
  | O => None
  | S fuel =>
      match parse_value fuel s with
      | Some (x, c :: r) =>
          if bool_decide (c = ","%char) then
            match parse_items fuel r with Some (l, r) => Some (x :: l, r) | None => None end
          else if bool_decide (c = "]"%char) then Some ([x], r) else None
      | _ => None
      end
  end
with parse_members (fuel : nat) (s : bytes) : option (list (bytes * json) * bytes) :=
  match fuel with
  | O => None
  | S fuel =>
      match s with
      | _ :: s =>
          match parse_string s with
          | Some (k, _ :: r) =>
              match parse_value fuel r with
              | Some (x, c :: r) =>
                  if bool_decide (c = ","%char) then
                    match parse_members fuel r with Some (l, r) => Some ((k, x) :: l, r) | None => None end
                  else if bool_decide (c = "}"%char) then Some ([(k, x)], r) else None
              | _ => None
              end
          | _ => None
          end
      | [] => None
      end
  end.

Definition json_parse (s : bytes) : option json :=
  match parse_value (S (length s)) s with
  | Some (j, []) => if json_ok j then Some j else None
  | _ => None
  end.

(** ** Reading back what is printed *)

(** Where a number can end. *)
Definition stop (rest : bytes) : Prop := match rest with c :: _ => number_char c = false | [] => True end.

Lemma span_stop s rest : forallb number_char s = true → stop rest → span_number (s ++ rest) = length s.
Proof.
  intros Hs Hr. induction s as [|c s IH]; simpl in *.
  - destruct rest as [|c rest]; [done|]. simpl in *. by rewrite Hr.
  - apply andb_true_iff in Hs as [Hc Hs]. by rewrite Hc, IH.
Qed.

Lemma parse_string_escape b s : parse_string (escape_byte b ++ s) =
  match parse_string s with Some (l, r) => Some (b :: l, r) | None => None end.
Proof. destruct b as [[] [] [] [] [] [] [] []]; reflexivity. Qed.

Lemma parse_string_text s rest : parse_string (escape_text s ++ quote ++ rest) = Some (s, rest).
Proof.
  induction s as [|b s IH]; [done|].
  change (escape_text (b :: s)) with (escape_byte b ++ escape_text s).
  by rewrite <-app_assoc, parse_string_escape, IH.
Qed.

Lemma to_string_neg z : z < 0 → to_string z = "-"%char :: to_string (- z).
Proof. destruct z; [lia|lia|]. reflexivity. Qed.

Lemma digits_number s : Forall is_digit s →
  forallb number_char s = true ∧ existsb (λ c, bool_decide (c ∈ lit ".eE")) s = false.
Proof.
  induction 1 as [|c s Hc _ [IH1 IH2]]; [done|]. apply Is_true_true in Hc. cbn [forallb existsb].
  rewrite IH1, IH2. unfold number_char. rewrite Hc. split; [done|]. rewrite orb_false_r.
  apply bool_decide_eq_false. intros Hin. revert Hc.
  assert (Forall (λ c, is_digit c = false) (lit ".eE")) as Hf by (by repeat constructor).
  rewrite Forall_forall in Hf. by rewrite (Hf _ Hin).
Qed.

Lemma to_string_cons z : 0 <= z → ∃ c l, to_string z = c :: l ∧ is_digit c = true.
Proof.
  intros Hz. pose proof (to_string_digits z Hz) as Hd. destruct (to_string z) as [|c l] eqn:E.
  - destruct (decide (z = 0)) as [->|]; [done|]. destruct (to_string_lead z ltac:(lia)) as (? & ? & E' & _).
    congruence.
  - exists c, l. split; [done|]. apply Forall_cons in Hd as [Hd _]. by apply Is_true_true.
Qed.

(** A literal is taken whole. *)
Lemma parse_number_span t rest : forallb number_char t = true → stop rest → parse_number (t ++ rest) =
  if existsb (λ c, bool_decide (c ∈ lit ".eE")) t then
    if real_literal t then Some (JReal t, rest) else None
  else match t with
       | [] => None
       | c :: t' => Some (JInt (if bool_decide (c = "-"%char) then - decimal_value t' else decimal_value t), rest)
       end.
Proof.
  intros Ht Hr. unfold parse_number. cbv zeta. by rewrite span_stop, take_app_length, drop_app_length by done.
Qed.

Lemma parse_number_text z rest : stop rest → parse_number (to_string z ++ rest) = Some (JInt z, rest).
Proof.
  intros Hr. destruct (Z.ltb_spec z 0) as [Hz|Hz].
  - pose proof (to_string_digits (- z) ltac:(lia)) as [H1 H2]%digits_number.
    rewrite to_string_neg by done. rewrite parse_number_span by done. cbn [existsb]. rewrite H2.
    rewrite (bool_decide_true (_ = _)) by done. change (bool_decide _ || false) with false. cbv iota.
    by rewrite to_string_value, Z.opp_involutive by lia.
  - pose proof (to_string_digits z Hz) as [H1 H2]%digits_number. rewrite parse_number_span, H2 by done.
    pose proof (to_string_value z Hz) as Hv. destruct (to_string_cons z Hz) as (c & l & E & Hc).
    rewrite E in *. rewrite bool_decide_false by (intros ->; done). by rewrite Hv.
Qed.

Lemma parse_value_head fuel c s : c = "-"%char ∨ is_digit c = true →
  parse_value (S fuel) (c :: s) = parse_number (c :: s).
Proof.
  cbn [parse_value]. intros [->|Hc]; [done|].
  destruct c as [[] [] [] [] [] [] [] []]; try reflexivity; discriminate Hc.
Qed.

Lemma parse_value_number fuel z rest : stop rest →
  parse_value (S fuel) (to_string z ++ rest) = Some (JInt z, rest).
Proof.
  intros Hr. rewrite <-(parse_number_text z rest Hr). destruct (Z.ltb_spec z 0) as [Hz|Hz].
  - rewrite to_string_neg by done. apply parse_value_head. by left.
  - destruct (to_string_cons z Hz) as (c & l & -> & Hc). apply parse_value_head. by right.
Qed.

Lemma real_literal_inv t : real_literal t = true → ∃ c l, t = c :: l ∧
  (c = "-"%char ∨ is_digit c = true) ∧ forallb number_char t = true ∧
  existsb (λ c, bool_decide (c ∈ lit ".eE")) t = true.
Proof.
  destruct t as [|c l]; [done|]. intros H. assert (H' := H). unfold real_literal in H'.
  apply andb_true_iff in H' as [[H1 H2]%andb_true_iff H3]. exists c, l. split_and!; try done.
  apply orb_true_iff in H1 as [?|?%bool_decide_eq_true]; auto.
Qed.

Lemma parse_value_real fuel t rest : real_literal t = true → stop rest →
  parse_value (S fuel) (t ++ rest) = Some (JReal t, rest).
Proof.
  intros Ht Hr. destruct (real_literal_inv t Ht) as (c & l & -> & Hc & Hn & He).
  cbn [app]. rewrite parse_value_head by done. change (c :: l ++ rest) with ((c :: l) ++ rest).
  by rewrite parse_number_span, He, Ht.
Qed.

(** The printed forms of arrays and objects. *)
Lemma dump_array_inv l d : dump (JArray l) = Ok d → ∃ items,
  Forall2 (λ x t, dump x = Ok t) l items ∧ d = lit "[" ++ join (lit ",") items ++ lit "]".
Proof.
  cbn [dump]. intros E. apply bind_ok in E as (items & E & Ed). apply ok_inj in Ed. exists items.
  split; [|done]. clear Ed. revert items E. induction l as [|x l IH]; intros items E.
  - apply ok_inj in E. by subst items.
  - apply bind_ok in E as (t & Ht & E). apply bind_ok in E as (ts & Hts & E). apply ok_inj in E.
    subst items. constructor; [done|by apply IH].
Qed.

Lemma dump_object_inv l d : dump (JObject l) = Ok d → ∃ items,
  Forall2 (λ kv t, ∃ v, dump kv.2 = Ok v ∧ t = quote ++ escape_text kv.1 ++ quote ++ lit ":" ++ v) l items ∧
  d = lit "{" ++ join (lit ",") items ++ lit "}".
Proof.
  cbn [dump]. intros E. apply bind_ok in E as (items & E & Ed). apply ok_inj in Ed. exists items.
  split; [|done]. clear Ed. revert items E. induction l as [|[k x] l IH]; intros items E.
  - apply ok_inj in E. by subst items.
  - apply bind_ok in E as (dk & Hk & E). apply bind_ok in E as (v & Hv & E).
    apply bind_ok in E as (ts & Hts & E). apply ok_inj in E. subst items. constructor; [|by apply IH].
    exists v. split; [done|]. apply dump_string_bytes in Hk as ->. by rewrite <-!app_assoc.
Qed.

Lemma dump_head j d : json_ok j = true → dump j = Ok d → ∃ c d', d = c :: d' ∧ c ≠ "]"%char.
Proof.
  destruct j as [|b|z|t|s|l|l]; intros Hok E.
  - apply ok_inj in E as <-. by eexists _, _.
  - apply ok_inj in E as <-. destruct b; by eexists _, _.
  - apply ok_inj in E as <-. destruct (Z.ltb_spec z 0).
    + rewrite to_string_neg by done. by eexists _, _.
    + destruct (to_string_cons z ltac:(lia)) as (c & l & -> & Hc). exists c, l. split; [done|]. by intros ->.
  - apply ok_inj in E as <-. destruct (real_literal_inv t Hok) as (c & l & -> & Hc & _). exists c, l.
    split; [done|]. intros ->. by destruct Hc.
  - apply dump_string_bytes in E as ->. by eexists _, _.
  - apply dump_array_inv in E as (items & _ & ->). by eexists _, _.
  - apply dump_object_inv in E as (items & _ & ->). by eexists _, _.
Qed.

Lemma join_cons sep (x : bytes) l : join sep (x :: l) = match l with [] => x | _ => x ++ sep ++ join sep l end.
Proof. by destruct l. Qed.

Definition printed (j : json) : Prop := ∀ d rest fuel, dump j = Ok d → stop rest → (length d < fuel)%nat →
  parse_value fuel (d ++ rest) = Some (j, rest).

Lemma parse_items_text l items rest fuel : forallb json_ok l = true → Forall printed l → l ≠ [] →
  Forall2 (λ x t, dump x = Ok t) l items → (length (join (lit ",") items) + 1 < fuel)%nat →
  parse_items fuel (join (lit ",") items ++ lit "]" ++ rest) = Some (l, rest).
Proof.
  intros Hok HP Hne Hd. revert fuel Hok HP Hne.
  induction Hd as [|x t l items Hx Hl IH]; intros fuel Hok HP Hne Hf; [done|].
  apply andb_true_iff in Hok as [Hox Hok]. apply Forall_cons in HP as [Hp HP]. destruct fuel as [|fuel]; [lia|]. cbn [parse_items].
  rewrite join_cons in *. destruct (dump_head _ _ Hox Hx) as (c & t' & Et & _).
  destruct Hl as [|y u l items Hy Hl].
  - rewrite (Hp t _ fuel Hx) by (done || lia). cbn [app lit String.list_ascii_of_string].
    by rewrite bool_decide_false, bool_decide_true.
  - rewrite !length_app in Hf. change (length (lit ",")) with 1%nat in Hf.
    assert (0 < length t)%nat by (rewrite Et; simpl; lia).
    rewrite <-!app_assoc, (Hp t _ fuel Hx) by (done || lia). cbn [app lit String.list_ascii_of_string].
    rewrite bool_decide_true by done. change ("]"%char :: rest) with (lit "]" ++ rest).
    by rewrite IH by (done || lia).
Qed.

Lemma parse_members_text l items rest fuel : Forall (λ kv, printed kv.2) l → l ≠ [] →
  Forall2 (λ kv t, ∃ v, dump kv.2 = Ok v ∧ t = quote ++ escape_text kv.1 ++ quote ++ lit ":" ++ v) l items →
  (length (join (lit ",") items) + 1 < fuel)%nat →
  parse_members fuel (join (lit ",") items ++ lit "}" ++ rest) = Some (l, rest).
Proof.
  intros HP Hne Hd. revert fuel HP Hne.
  induction Hd as [|[k x] t l items (v & Hv & Et) Hl IH]; intros fuel HP Hne Hf; [done|]. cbn [fst snd] in Hv, Et.
  apply Forall_cons in HP as [Hp HP]. simpl in Hp. destruct fuel as [|fuel]; [lia|]. cbn [parse_members].
  rewrite join_cons in *.
  assert (∀ tail, parse_string (drop 1 (t ++ tail)) = Some (k, lit ":" ++ v ++ tail)) as Hk.
  { intros tail. rewrite Et, <-!app_assoc. exact (parse_string_text k (lit ":" ++ v ++ tail)). }
  assert (∀ tail, t ++ tail = ascii_of_N 34 :: drop 1 (t ++ tail)) as Ht by (intros tail; by rewrite Et).
  assert (length v < length t)%nat as Hlen by (rewrite Et, !length_app; simpl; lia).
  destruct Hl as [|y u l items Hy Hl].
  - rewrite Ht, Hk. cbn [app lit String.list_ascii_of_string].
    rewrite (Hp v _ fuel Hv) by (done || lia). by rewrite bool_decide_false, bool_decide_true.
  - rewrite !length_app in Hf. change (length (lit ",")) with 1%nat in Hf. rewrite <-!app_assoc, Ht, Hk.
    cbn [app lit String.list_ascii_of_string]. rewrite (Hp v _ fuel Hv) by (done || lia).
    rewrite bool_decide_true by done. change ("}"%char :: rest) with (lit "}" ++ rest).
    by rewrite IH by (done || lia).
Qed.

Lemma printed_all j : json_ok j = true → printed j.
Proof.
  induction j as [|b|z|t|s|l IH|l IH] using json_rect'; intros Hok d rest fuel E Hr Hf;
    (destruct fuel as [|fuel]; [lia|]).
  - apply ok_inj in E as <-. done.
  - apply ok_inj in E as <-. by destruct b.
  - apply ok_inj in E as <-. by apply parse_value_number.
  - apply ok_inj in E as <-. by apply parse_value_real.
  - apply dump_string_bytes in E as ->. rewrite <-!app_assoc.
    change (parse_value (S fuel) (quote ++ escape_text s ++ quote ++ rest)) with
      (match parse_string (escape_text s ++ quote ++ rest) with
       Some (t, r) => Some (JString t, r) | None => None end).
    by rewrite parse_string_text.
  - apply dump_array_inv in E as (items & Hi & ->). rewrite !length_app in Hf.
    destruct (decide (l = [])) as [->|Hne]; [inversion Hi; subst; done|].
    assert (parse_value (S fuel) ((lit "[" ++ join (lit ",") items ++ lit "]") ++ rest) =
      match parse_items fuel (join (lit ",") items ++ lit "]" ++ rest) with
      Some (l, r) => Some (JArray l, r) | None => None end) as ->.
    { rewrite <-!app_assoc. destruct Hi as [|x t l items Hx Hi]; [done|].
      destruct (dump_head _ _ (proj1 (andb_prop _ _ Hok)) Hx) as (c & t' & -> & Hc). rewrite join_cons.
      assert (∀ s, parse_value (S fuel) (lit "[" ++ (c :: s)) =
        match parse_items fuel (c :: s) with Some (l, r) => Some (JArray l, r) | None => None end) as Hgo.
      { intros s. cbn [app lit String.list_ascii_of_string parse_value].
        change (starts_with (String.list_ascii_of_string "]") (c :: s)) with (starts_with ["]"%char] (c :: s)).
        assert (starts_with ["]"%char] (c :: s) = false) as ->; [|done].
        apply bool_decide_eq_false. intros E2. by injection E2 as ->. }
      destruct items; apply Hgo. }
    change (length (lit "[")) with 1%nat in Hf. change (length (lit "]")) with 1%nat in Hf.
    rewrite (parse_items_text l items); [done|done| |done..|lia].
    apply Forall_forall. intros x Hx. rewrite Forall_forall in IH. apply (IH _ Hx).
    cbn [json_ok] in Hok. rewrite forallb_forall in Hok. by apply Hok, list_elem_of_In.
  - apply dump_object_inv in E as (items & Hi & ->). rewrite !length_app in Hf.
    destruct (decide (l = [])) as [->|Hne]; [inversion Hi; subst; done|].
    assert (parse_value (S fuel) ((lit "{" ++ join (lit ",") items ++ lit "}") ++ rest) =
      match parse_members fuel (join (lit ",") items ++ lit "}" ++ rest) with
      Some (l, r) => Some (JObject l, r) | None => None end) as ->.
    { rewrite <-!app_assoc. destruct Hi as [|x t l items (v & _ & ->) Hi]; [done|]. rewrite join_cons.
      destruct items; reflexivity. }
    change (length (lit "{")) with 1%nat in Hf. change (length (lit "}")) with 1%nat in Hf.
    rewrite (parse_members_text l items); [done| |done..|lia].
    apply Forall_forall. intros x Hx. rewrite Forall_forall in IH. apply (IH _ Hx).
    cbn [json_ok] in Hok. apply andb_true_iff in Hok as [_ Hok]. rewrite forallb_forall in Hok.
    by apply (Hok x), list_elem_of_In.
Qed.

(** The two laws. *)
Lemma json_parse_ok s j : json_parse s = Some j → json_ok j = true.
Proof.
  unfold json_parse. destruct (parse_value _ _) as [[j' [|]]|]; try done.
  destruct (json_ok j') eqn:E; [|done]. by intros [= ->].
Qed.

Lemma json_parse_dump j s : json_ok j = true → dump j = Ok s → json_parse s = Some j.
Proof.
  intros Hok Hd. unfold json_parse. pose proof (printed_all j Hok s [] (S (length s)) Hd I ltac:(lia)) as E.
  rewrite app_nil_r in E. by rewrite E, Hok.
Qed.
