(* ===== verification/Closure.v ===== *)
(** Recursive queries.  [WITH RECURSIVE r AS (start UNION SELECT y FROM r JOIN edges
    ON x = r)] computes the rows that the edges reach from the starting rows;
    the UNION drops the rows already found, so the recursion ends.  Here it is
    the iteration of one round of joins, as often as there are edges, and it is
    proved to be reachability. *)
From stdpp Require Import relations.
From S2P Require Import Prelude.

Section closure.
Context {A : Type} `{Countable A}.
Implicit Types (edges : list (A * A)) (X : gset A).

Definition edge edges : relation A := λ x y, (x, y) ∈ edges.

(** One round: the targets of the edges that leave the set. *)
Definition targets edges X : gset A := list_to_set (filter (λ e, e.1 ∈ X) edges).*2.
Definition grow edges X : gset A := X ∪ targets edges X.
Definition reach edges X : gset A := Nat.iter (length edges) (grow edges) X.

Lemma elem_of_targets edges X y : y ∈ targets edges X ↔ ∃ x, x ∈ X ∧ edge edges x y.
Proof.
  unfold targets, edge. rewrite elem_of_list_to_set, list_elem_of_fmap. split.
  - intros ([x y'] & -> & [Hx Hin]%list_elem_of_filter). by exists x.
  - intros (x & Hx & Hin). exists (x, y). split; [done|]. by apply list_elem_of_filter.
Qed.

Lemma elem_of_grow edges X y : y ∈ grow edges X ↔ y ∈ X ∨ ∃ x, x ∈ X ∧ edge edges x y.
Proof. unfold grow. by rewrite elem_of_union, elem_of_targets. Qed.

Definition closed edges X : Prop := ∀ x y, x ∈ X → edge edges x y → y ∈ X.

Lemma closed_grow edges X : grow edges X = X → closed edges X.
Proof. intros E x y Hx Hxy. rewrite <-E. apply elem_of_grow. right. by exists x. Qed.

Lemma closed_rtc edges X x y : closed edges X → rtc (edge edges) x y → x ∈ X → y ∈ X.
Proof. intros HX. induction 1 as [|x y z Hxy _ IH]; [done|]. intros Hx. by apply IH, (HX x). Qed.

Lemma iter_sound edges n X y : y ∈ Nat.iter n (grow edges) X → ∃ x, x ∈ X ∧ rtc (edge edges) x y.
Proof.
  revert y. induction n as [|n IH]; intros y; simpl.
  - intros Hy. by exists y.
  - intros [Hy|(z & Hz & Hzy)]%elem_of_grow; [by apply IH|].
    destruct (IH z Hz) as (x & Hx & Hxz). exists x. split; [done|]. by eapply rtc_r.
Qed.

Lemma iter_subseteq edges n X : X ⊆ Nat.iter n (grow edges) X.
Proof. induction n as [|n IH]; simpl; [done|]. intros y Hy. apply elem_of_grow. left. by apply IH. Qed.

Lemma iter_fixed edges m X : grow edges X = X → Nat.iter m (grow edges) X = X.
Proof. intros E. induction m as [|m IH]; simpl; [done|]. by rewrite IH. Qed.

(** Every round before the last adds an element of the targets. *)
Lemma iter_progress edges n X : closed edges (Nat.iter n (grow edges) X) ∨
  (n < size (Nat.iter (S n) (grow edges) X ∖ X))%nat.
Proof.
  induction n as [|n IH].
  - simpl. destruct (decide (grow edges X = X)) as [E|Hne]; [left; by apply closed_grow|]. right.
    apply Nat.neq_0_lt_0. rewrite size_empty_iff. intros E. apply Hne, set_eq. intros y.
    split; [|apply (iter_subseteq edges 1 X)]. intros Hy. destruct (decide (y ∈ X)) as [|Hn]; [done|].
    assert (y ∈ grow edges X ∖ X) as Hd by (by apply elem_of_difference).
    rewrite E in Hd. by apply not_elem_of_empty in Hd.
  - destruct IH as [IH|IH].
    + left. cbn [Nat.iter nat_rect]. fold (Nat.iter n (grow edges) X).
      change (closed edges (grow edges (Nat.iter n (grow edges) X))).
      assert (grow edges (Nat.iter n (grow edges) X) = Nat.iter n (grow edges) X) as ->; [|done].
      apply set_eq. intros y. rewrite elem_of_grow. split; [|by left]. intros [?|(x & Hx & Hxy)]; [done|].
      by apply (IH x).
    + set (Y := Nat.iter (S n) (grow edges) X) in *.
      change (Nat.iter (S (S n)) (grow edges) X) with (grow edges Y).
      destruct (decide (grow edges Y = Y)) as [E|Hne]; [left; by apply closed_grow|]. right.
      assert (X ⊆ Y) as HX by apply iter_subseteq.
      apply (Nat.lt_le_trans _ (S (size (Y ∖ X)))); [lia|]. apply subset_size. split.
      * intros y [Hy Hn]%elem_of_difference. apply elem_of_difference. split; [|done].
        by apply (iter_subseteq edges 1 Y).
      * intros Hsub. apply Hne. apply set_eq. intros y. 
        split; [|apply (iter_subseteq edges 1 Y)]. intros Hy. destruct (decide (y ∈ X)) as [|Hn]; [by apply HX|].
        assert (y ∈ grow edges Y ∖ X) as Hy2 by (by apply elem_of_difference).
        apply Hsub, elem_of_difference in Hy2. by destruct Hy2.
Qed.

Lemma iter_targets edges n X : Nat.iter n (grow edges) X ∖ X ⊆ list_to_set edges.*2.
Proof.
  induction n as [|n IH]; intros y [Hy Hn]%elem_of_difference; [done|]. simpl in Hy.
  apply elem_of_grow in Hy as [Hy|(x & _ & Hxy)]; [by apply IH, elem_of_difference|].
  apply elem_of_list_to_set, list_elem_of_fmap. by exists (x, y).
Qed.

Lemma list_size (l : list A) : (size (list_to_set l : gset A) ≤ length l)%nat.
Proof.
  induction l as [|x l IH]; [rewrite list_to_set_nil, size_empty; simpl; lia|]. rewrite list_to_set_cons. cbn [length].
  pose proof (size_union_alt {[x]} (list_to_set l : gset A)) as E. rewrite size_singleton in E. rewrite E.
  assert (size (list_to_set l ∖ {[x]} : gset A) ≤ size (list_to_set l : gset A))%nat; [|lia].
  apply subseteq_size. by intros y [Hy _]%elem_of_difference.
Qed.

Lemma reach_closed edges X : closed edges (reach edges X).
Proof.
  unfold reach. destruct (iter_progress edges (length edges) X) as [Hc|Hs]; [done|]. exfalso.
  pose proof (iter_targets edges (S (length edges)) X) as Ht. apply subseteq_size in Ht.
  pose proof (list_size edges.*2) as Hl. rewrite length_fmap in Hl. lia.
Qed.

Lemma elem_of_reach edges X y : y ∈ reach edges X ↔ ∃ x, x ∈ X ∧ rtc (edge edges) x y.
Proof.
  split; [apply iter_sound|]. intros (x & Hx & Hxy).
  apply (closed_rtc _ _ _ _ (reach_closed edges X) Hxy). by apply iter_subseteq.
Qed.

(** What lies on a cycle. *)
Lemma reach_cycle edges x :
  x ∈ reach edges (list_to_set (filter (λ e, e.1 = x) edges).*2) ↔ tc (edge edges) x x.
Proof.
  rewrite elem_of_reach. split.
  - intros (y & Hy & Hyx). apply elem_of_list_to_set, list_elem_of_fmap in Hy as ([x' y'] & -> & [Hx Hin]%list_elem_of_filter).
    simpl in *. subst x'. by eapply tc_rtc_r; [by apply tc_once|].
  - assert (∀ y, edge edges x y → y ∈ (list_to_set (filter (λ e, e.1 = x) edges).*2 : gset A)) as Hstart.
    { intros y Hxy. apply elem_of_list_to_set, list_elem_of_fmap. exists (x, y). split; [done|].
      by apply list_elem_of_filter. }
    intros Hc. inversion Hc as [? ? Hxy|? y ? Hxy Hyx]; subst; eauto using tc_rtc.
Qed.
End closure.
