(* ===== verification/AuthorProfile.v ===== *)
(** Author profiles of the native core (Native/src/Core/Authorship.cpp, [keys],
    [text], [optionalDate], [profile], [FileAuthor]): a JSON snapshot is checked
    field by field and rewritten in canonical form.  The members of an object are
    edited in place, as nlohmann::json's [operator[]] does. *)
From S2P Require Import Prelude Text Unicode Timestamp CoreText Uri Json JsonObject.
Local Open Scope Z_scope.

(** ** Patterns

    The regular expressions of [profile], each matched against a whole text. *)

Definition repeated (p : ascii → bool) (lo hi : nat) (s : bytes) : bool :=
  (lo <=? length s)%nat && (length s <=? hi)%nat && forallb p s.

Definition subjectPattern : bytes → bool :=
  repeated (λ c, is_alnum c || one_of "_-" c) 1 128.

Definition is_space (c : ascii) : bool := between 9 13 c || bool_decide (c = " "%char).

(** A dot with something on both sides. *)
Definition inner_dot (s : bytes) : bool :=
  has_byte "." (drop 1 (take (length s - 1) s)).

Definition emailPattern (s : bytes) : bool :=
  forallb (λ c, negb (is_space c)) s &&
  match find_byte (is_char "@") s with
  | None => false
  | Some n => negb (n =? 0)%nat && negb (has_byte "@" (drop (n + 1) s)) && inner_dot (drop (n + 1) s)
  end.

Definition userPattern (s : bytes) : bool :=
  match s with
  | c :: s => is_char "@" c && repeated (λ c, is_lower c || is_digit c || is_char "_" c) 3 30 s
  | [] => false
  end.

Definition lower_hex (c : ascii) : bool := is_digit c || between 97 102 c.

Definition media_avatars : bytes := lit "/media/avatars/".

Definition avatarPattern (s : bytes) : bool :=
  starts_with media_avatars s &&
  repeated lower_hex 64 64 (substr s (length media_avatars) 64) &&
  bool_decide (drop (length media_avatars + 64) s = lit ".webp").

Definition countryPattern : bytes → bool := repeated is_upper 2 2.

Definition localePattern (s : bytes) : bool :=
  match split "-" s with
  | first :: rest => repeated is_alpha 2 8 first && forallb (repeated is_alnum 1 8) rest
  | [] => false
  end.

Definition devicePattern : bytes → bool := repeated lower_hex 64 64.

(** ** Reading fields *)

Definition type_error : string := "[json.exception.type_error.302]".

Definition keys (value : json) (allowed : list string) : result string (list (bytes * json)) :=
  match value with
  | JObject l =>
      _ ← require (forallb (λ kv, bool_decide (kv.1 ∈ lit <$> allowed)) l);
      Ok l
  | _ => Err invalid
  end.

(** [value.at(k)] of an object. *)
Definition at_member (k : string) (l : list (bytes * json)) : result string json :=
  of_option "[json.exception.out_of_range.403]"%string (member (lit k) l).

Section profiles.
  Context `{Utf8proc}.

Definition text (value : list (bytes * json)) (name : string) (maximum : Z)
    (required multiline : bool) : result string bytes :=
  match member (lit name) value with
  | None => _ ← require (negb required); Ok []
  | Some (JString s) => clean s maximum required multiline
  | Some _ => Err invalid
  end.

Definition dateValue (value : bytes) : json := if bool_decide (value = []) then JNull else JString value.

Definition optionalDate (value : list (bytes * json)) (name : string) (required : bool) :
    result string bytes :=
  match member (lit name) value with
  | None | Some JNull => _ ← require (negb required); Ok []
  | Some (JString s) => timestamp s
  | Some _ => Err invalid
  end.

(** [v[k] = text(v, k, maximum, required, multiline)] for each of a list of fields. *)
Record field := { field_name : string; field_maximum : Z; field_multiline : bool }.

Definition set_text (required : bool) (l : list (bytes * json)) (f : field) :
    result string (list (bytes * json)) :=
  s ← text l (field_name f) (field_maximum f) required (field_multiline f);
  Ok (object_set (lit (field_name f)) (JString s) l).

Definition set_texts (required : bool) (fields : list field) (l : list (bytes * json)) :
    result string (list (bytes * json)) :=
  fold_res (set_text required) l fields.

(** The string a field was just set to. *)
Definition string_of (k : string) (l : list (bytes * json)) : result string bytes :=
  j ← at_member k l; get_string j.

Definition line (name : string) (maximum : Z) : field :=
  {| field_name := name; field_maximum := maximum; field_multiline := false |}.

(** [detailLimits], in the order of the map; the biography alone has lines. *)
Definition detailLimits : list field :=
  [line "additionalName" 80;
   {| field_name := "biography"; field_maximum := 4096; field_multiline := true |};
   line "city" 160; line "contactEmail" 254; line "countryCode" 2; line "department" 160;
   line "familyName" 80; line "fullName" 160; line "givenName" 80; line "jobTitle" 160;
   line "locale" 64; line "organization" 160; line "organizationId" 128; line "phoneNumber" 64;
   line "pseudonym" 80; line "region" 160; line "team" 160; line "timeZone" 128].

(** [url.starts_with("https://")], valid and without user information. *)
Definition https_url (url : bytes) : bool :=
  validUri url true && starts_with (lit "https://") url && withoutUserInfo url.

(** ** The parts of a profile *)

(** The address of an avatar, made absolute. *)
Definition avatar_value (service : bytes) (avatar : json) : result string json :=
  match avatar with
  | JNull => Ok JNull
  | JString url =>
      let url := if starts_with (lit "/") url then service ++ url else url in
      _ ← require (starts_with (service ++ media_avatars) url);
      _ ← require (avatarPattern (drop (length service) url));
      Ok (JString url)
  | _ => Err invalid
  end.

Definition account_json (sub mail name user membership : bytes) (avatar : json) : json :=
  json_object [(lit "sub", JString sub); (lit "email", JString mail);
    (lit "displayName", JString name); (lit "userId", JString user);
    (lit "societyCloudMembership", JString membership); (lit "avatarUrl", avatar)].

Definition account_value (service : bytes) (account : json) : result string json :=
  l ← keys account ["sub"; "email"; "displayName"; "userId"; "societyCloudMembership"; "avatarUrl"];
  sub ← text l "sub" 128 true false;
  _ ← require (subjectPattern sub);
  raw ← text l "email" 254 true false;
  mail ← normalize raw true true;
  _ ← require (emailPattern mail &&
               match find_byte (is_char "@") mail with Some n => (n <=? 64)%nat | None => false end);
  user ← text l "userId" 31 false false;
  _ ← require (bool_decide (user = []) || userPattern user);
  membership ← get_string (value_or (lit "societyCloudMembership") (JString (lit "Free")) l);
  _ ← require (bool_decide (membership ∈ lit <$> ["Free"; "Plus"; "Pro"; "Enterprise"]));
  avatar ← avatar_value service (value_or (lit "avatarUrl") JNull l);
  name ← text l "displayName" 80 false false;
  Ok (account_json sub mail name user membership avatar).

Definition link_value (entry : json) : result string json :=
  l ← keys entry ["relation"; "label"; "url"];
  l ← set_texts true [line "relation" 40] l;
  l ← set_texts false [line "label" 160] l;
  l ← set_texts true [line "url" 2048] l;
  url ← string_of "url" l;
  _ ← require (https_url url);
  Ok (JObject l).

Definition identifier_value (entry : json) : result string json :=
  l ← keys entry ["scheme"; "value"];
  l ← set_texts true [line "scheme" 40; line "value" 256] l;
  Ok (JObject l).

(** [for (auto &entry : entries) entry = f(entry);] *)
Definition each (f : json → result string json) (l : list json) : result string (list json) :=
  fold_res (λ acc x, y ← f x; Ok (acc ++ [y])) [] l.

Definition entries_value (name : string) (f : json → result string json) (l : list (bytes * json)) :
    result string (list (bytes * json)) :=
  match value_or (lit name) (JArray []) l with
  | JArray entries =>
      _ ← require (len entries <=? 32);
      entries ← each f entries;
      Ok (object_set (lit name) (JArray entries) l)
  | _ => Err invalid
  end.

Definition detail_key (k : bytes) : bool :=
  bool_decide (k ∈ (λ f, lit (field_name f)) <$> detailLimits) ||
  bool_decide (k = lit "links") || bool_decide (k = lit "identifiers").

Definition set_contact (email : bytes) (l : list (bytes * json)) : result string (list (bytes * json)) :=
  if bool_decide (email = []) then Ok l else
  email ← normalize email true true;
  _ ← require (emailPattern email);
  Ok (object_set (lit "contactEmail") (JString email) l).

(** The zones of the library's database, and the regular files under the
    system's zone directories. *)
Context (locate_zone zone_file : bytes → bool).

Definition details_value (details : json) : result string json :=
  match details with
  | JObject l =>
      d ← dump details;
      _ ← require (len d <=? 65536);
      _ ← require (forallb (λ kv, detail_key kv.1) l);
      l ← set_texts false detailLimits l;
      country ← string_of "countryCode" l;
      _ ← require (bool_decide (country = []) || countryPattern country);
      locale ← string_of "locale" l;
      _ ← require (bool_decide (locale = []) || localePattern locale);
      zone ← string_of "timeZone" l;
      _ ← require (validTimeZone locate_zone zone_file zone);
      email ← string_of "contactEmail" l;
      l ← set_contact email l;
      l ← entries_value "links" link_value l;
      l ← entries_value "identifiers" identifier_value l;
      Ok (JObject l)
  | _ => Err invalid
  end.

(** [unique.insert(name).second] for every role. *)
Definition role_values (roles : list json) : result string (list bytes) :=
  fold_res (λ acc role,
    raw ← of_option invalid (match role with JString s => Some s | _ => None end);
    name ← clean raw 40 true false;
    _ ← require (negb (bool_decide (name ∈ acc)));
    Ok (acc ++ [name])) [] roles.

Definition attributionLimits : list field :=
  [line "credit" 1024; line "copyrightNotice" 1024; line "licenseIdentifier" 128;
   line "licenseUrl" 2048; line "documentId" 128; line "projectId" 128; line "workspaceId" 128].

Definition attribution_value (attribution : json) : result string json :=
  l ← keys attribution ["roles"; "credit"; "copyrightNotice"; "licenseIdentifier"; "licenseUrl";
                        "documentId"; "projectId"; "workspaceId"; "createdAt"; "modifiedAt"];
  match value_or (lit "roles") (JArray []) l with
  | JArray roles =>
      _ ← require (len roles <=? 16);
      roles ← role_values roles;
      let l := object_set (lit "roles") (JArray (JString <$> roles)) l in
      l ← set_texts false attributionLimits l;
      license ← string_of "licenseUrl" l;
      _ ← require (bool_decide (license = []) || https_url license);
      created ← optionalDate l "createdAt" false;
      modified ← optionalDate l "modifiedAt" false;
      _ ← require (bool_decide (created = []) || bool_decide (modified = []) || bytes_leb created modified);
      Ok (JObject (object_set (lit "modifiedAt") (dateValue modified)
                    (object_set (lit "createdAt") (dateValue created) l)))
  | _ => Err invalid
  end.

Definition deviceLimits : list field :=
  [line "appId" 128; line "appVersion" 40; line "id" 64; line "name" 80; line "osVersion" 80;
   line "platform" 40; line "type" 6].

Definition device_value (device : json) : result string json :=
  match device with
  | JNull => Ok JNull
  | _ =>
      l ← keys device ["id"; "type"; "name"; "platform"; "osVersion"; "appId"; "appVersion"];
      l ← set_texts true deviceLimits l;
      id ← string_of "id" l;
      type ← string_of "type" l;
      _ ← require (devicePattern id && (bool_decide (type = lit "pc") || bool_decide (type = lit "tablet")));
      Ok (JObject l)
  end.

(** [value.dump().size() <= 131072]. *)
Definition sized (value : json) : result string unit :=
  d ← dump value; require (len d <=? 131072).

Definition profile_keys : list string :=
  ["schemaVersion"; "account"; "details"; "attribution"; "serviceOrigin"; "capturedAt"; "device"].

(** [is_number()] and [== 1], which compares by value. *)
Definition is_one (j : json) : bool := bool_decide (j = JInt 1) || bool_decide (j = JReal (lit "1.0")).

Definition profile (value : json) : result string json :=
  _ ← sized value;
  l ← keys value profile_keys;
  version ← at_member "schemaVersion" l;
  _ ← require (is_one version);
  raw ← text l "serviceOrigin" 2048 true false;
  service ← origin raw;
  let l := object_set (lit "serviceOrigin") (JString service) l in
  captured ← optionalDate l "capturedAt" true;
  let l := object_set (lit "capturedAt") (JString captured) l in
  account ← at_member "account" l;
  account ← account_value service account;
  let l := object_set (lit "account") account l in
  details ← details_value (value_or (lit "details") (JObject []) l);
  let l := object_set (lit "details") details l in
  attribution ← attribution_value (value_or (lit "attribution") (JObject []) l);
  let l := object_set (lit "attribution") attribution l in
  device ← device_value (value_or (lit "device") JNull l);
  let l := object_set (lit "device") device l in
  _ ← sized (JObject l);
  Ok (JObject l).
End profiles.
