(* ===== verification/AuthorLaws.v ===== *)
(** Laws of author profiles: a canonical profile is its own canonical form. *)
From S2P Require Import Prelude Text Unicode Timestamp CoreText Uri Json JsonObject AuthorProfile.
Local Open Scope Z_scope.

(** ** Members of edited objects *)

Lemma lit_ne (a b : string) : a ≠ b → lit a ≠ lit b.
Proof. intros Hne E. by apply Hne, lit_inj. Qed.

(** Looks members of an edited object up. *)
Ltac members :=
  repeat (rewrite member_set || rewrite member_set_ne by (apply lit_ne; done)).

Lemma keys_inv value allowed l : keys value allowed = Ok l →
  value = JObject l ∧ ∀ k, k ∈ l.*1 → k ∈ lit <$> allowed.
Proof.
  unfold keys. destruct value as [| | | | | |m]; try done. intros E. unfold require in E. inv_ok.
  split; [done|]. intros k Hk. apply list_elem_of_fmap in Hk as (kv & -> & Hin).
  rewrite forallb_forall in H. apply list_elem_of_In in Hin. apply H in Hin. by apply bool_decide_eq_true in Hin.
Qed.

Lemma keys_intro allowed l : (∀ k, k ∈ l.*1 → k ∈ lit <$> allowed) → keys (JObject l) allowed = Ok l.
Proof.
  intros Hl. unfold keys. assert (forallb (λ kv : bytes * json, bool_decide (kv.1 ∈ lit <$> allowed)) l = true) as ->.
  { apply forallb_forall. intros kv Hin. apply bool_decide_eq_true, Hl. apply list_elem_of_fmap.
    exists kv. split; [done|]. by apply list_elem_of_In. }
  done.
Qed.

Lemma keys_set k v l (P : bytes → Prop) : P k → (∀ k', k' ∈ l.*1 → P k') →
  ∀ k', k' ∈ (object_set k v l).*1 → P k'.
Proof. intros Hk Hl k' Hin%set_keys. apply elem_of_cons in Hin as [->|Hin]; auto. Qed.

(** Decides a closed proposition by computation. *)
Ltac decided := apply (bool_decide_unpack _); vm_compute; exact I.

Section laws.
  Context `{Utf8procLaws}.

(** ** Fields *)

Lemma clean_empty maximum multiline : 0 <= maximum → clean [] maximum false multiline = Ok [].
Proof.
  intros Hm. apply clean_spec. exists [], []. split_and!; try done. by apply map_ascii.
Qed.

(** What a field is read as, is read again where it is stored. *)
Lemma text_again l name maximum required multiline s l' :
  text l name maximum required multiline = Ok s → member (lit name) l' = Some (JString s) →
  0 <= maximum → text l' name maximum required multiline = Ok s.
Proof.
  unfold text. intros E -> Hm. destruct (member (lit name) l) as [[]|]; try done.
  - by apply clean_clean in E.
  - unfold require in E. inv_ok. destruct required; [done|]. by apply clean_empty.
Qed.

Definition field_names (fields : list field) : list string := field_name <$> fields.

(** Every field of the list holds its own clean form. *)
Definition settled (required : bool) (fields : list field) (l : list (bytes * json)) : Prop :=
  Forall (λ f, ∃ s, member (lit (field_name f)) l = Some (JString s) ∧
    text l (field_name f) (field_maximum f) required (field_multiline f) = Ok s) fields.

Lemma set_texts_cons required f fields l : set_texts required (f :: fields) l =
  (s ← text l (field_name f) (field_maximum f) required (field_multiline f);
   set_texts required fields (object_set (lit (field_name f)) (JString s) l)).
Proof. unfold set_texts. cbn [fold_res]. unfold set_text. by destruct (text _ _ _ _ _). Qed.

Lemma set_texts_settled required fields l : ascending l = true → settled required fields l →
  set_texts required fields l = Ok l.
Proof.
  intros Ha. induction 1 as [|f fields (s & Hm & Ht) _ IH]; [done|].
  rewrite set_texts_cons, Ht. cbn [mbind result_bind].
  by rewrite set_same.
Qed.

Lemma set_texts_other required fields l l' k : set_texts required fields l = Ok l' →
  k ∉ lit <$> field_names fields → member k l' = member k l.
Proof.
  revert l. induction fields as [|f fields IH]; intros l E Hk; [unfold set_texts in E; simpl in E; by inv_ok|].
  rewrite set_texts_cons in E. inv_ok. csimpl in Hk. apply not_elem_of_cons in Hk as [Hne Hk].
  rewrite (IH _ E Hk). by apply member_set_ne.
Qed.

Lemma set_texts_ok required fields l l' : set_texts required fields l = Ok l' →
  json_ok (JObject l) = true → json_ok (JObject l') = true.
Proof.
  intros E Hl. revert E. unfold set_texts. apply (fold_res_ind (λ l, json_ok (JObject l) = true)); [done|].
  intros c f c' _ Hc E. unfold set_text in E. inv_ok. by apply set_ok.
Qed.

Lemma set_texts_keys required fields l l' (P : bytes → Prop) : set_texts required fields l = Ok l' →
  (∀ f, f ∈ fields → P (lit (field_name f))) → (∀ k, k ∈ l.*1 → P k) → ∀ k, k ∈ l'.*1 → P k.
Proof.
  intros E Hf Hl. revert E. unfold set_texts.
  apply (fold_res_ind (λ l : list (bytes * json), ∀ k, k ∈ l.*1 → P k)); [done|].
  intros c f c' Hin Hc E. unfold set_text in E. inv_ok. by apply keys_set; [apply Hf|].
Qed.

(** Setting fields settles them. *)
Lemma set_texts_spec required fields l l' : NoDup (field_names fields) →
  Forall (λ f, 0 <= field_maximum f) fields →
  set_texts required fields l = Ok l' → settled required fields l'.
Proof.
  unfold settled. revert l. induction fields as [|f fields IH]; intros l Hnd Hmax E; [done|].
  apply NoDup_cons in Hnd as [Hf Hnd]. apply Forall_cons in Hmax as [Hm Hmax].
  rewrite set_texts_cons in E. apply bind_ok in E as (s & Ht & E). apply Forall_cons. split; [|by eapply IH].
  assert (member (lit (field_name f)) l' = Some (JString s)) as Hmem.
  { rewrite (set_texts_other _ _ _ _ _ E); [by rewrite member_set|].
    intros (x & Ex & Hx)%list_elem_of_fmap. apply lit_inj in Ex. by rewrite Ex in Hf. }
  exists s. split; [done|]. by apply (text_again l).
Qed.

Lemma string_of_member k l s : string_of k l = Ok s ↔ member (lit k) l = Some (JString s).
Proof.
  unfold string_of, at_member. destruct (member (lit k) l) as [[]|]; simpl; split; try done; congruence.
Qed.

(** ** Dates *)

(** A date of the grammar, or none. *)
Definition date_in_grammar (j : option json) : Prop :=
  match j with Some (JString s) => timestampShape s = true | _ => True end.

Lemma optionalDate_again l name required s l' : optionalDate l name required = Ok s →
  member (lit name) l' = Some (JString s) → date_in_grammar (member (lit name) l') → s ≠ [] →
  optionalDate l' name required = Ok s.
Proof.
  unfold optionalDate. intros E Hm Hg Hne. rewrite Hm in *. simpl in Hg.
  destruct (member (lit name) l) as [[| | | |raw| |]|]; try done; [|by apply (timestamp_again raw)|];
    unfold require in E; inv_ok; by destruct Hne.
Qed.

(** ** Accounts *)

Lemma lower_ascii points : Forall is_ascii (concat (lower <$> points)) →
  Forall (λ c, lower (byteZ c) = [c]) (concat (lower <$> points)).
Proof.
  induction points as [|p points IH]; [done|]. csimpl. intros [Hp Hl]%Forall_app.
  apply Forall_app. split; [|by apply IH]. destruct (decide (p = 0x130)) as [->|Hne].
  { change (lower 0x130) with [ascii_of_N 0x69; ascii_of_N 0xcc; ascii_of_N 0x87] in Hp.
    rewrite !Forall_cons in Hp. destruct Hp as (_ & Hc & _). by vm_compute in Hc. }
  assert (lower p = utf8proc_encode_char (utf8proc_tolower p)) as E
    by (unfold lower; by rewrite (proj2 (Z.eqb_neq p 0x130))).
  rewrite E in Hp |- *. set (q := utf8proc_tolower p) in *.
  destruct (encode_ascii_point q Hp) as [->|Hq]; [done|].
  destruct (encode_point1 q ltac:(lia)) as [_ Eq]. rewrite Eq. csimpl. repeat constructor.
  rewrite byteZ_Zbyte, u8_mod, Z.mod_small by lia. unfold lower.
  rewrite (proj2 (Z.eqb_neq q 0x130)) by lia. unfold q. by rewrite tolower_idempotent.
Qed.

(** A folded address in ASCII is its own folded form. *)
Lemma fold_again raw mail : normalize raw true true = Ok mail → Forall is_ascii mail →
  normalize mail true true = Ok mail.
Proof.
  unfold normalize. intros E Ha. inv_ok. rewrite map_ascii by done. cbn [of_option mbind result_bind].
  rewrite scalars_ascii by done. cbn [mbind result_bind]. f_equal.
  apply lower_ascii in Ha. induction Ha as [|c l Hc _ IH]; [done|]. csimpl. by rewrite Hc, IH.
Qed.

(** The address of a person that can be read again. *)
Definition plain_mail (j : option json) : Prop :=
  match j with Some (JString s) => Forall printable s ∧ len s <= 254 | _ => True end.

Lemma email_nonempty s : emailPattern s = true → s ≠ [].
Proof. intros E ->. by vm_compute in E. Qed.

Lemma avatar_again service w avatar v : service = https ++ w → avatar_value service avatar = Ok v →
  avatar_value service v = Ok v.
Proof.
  intros -> E. destruct avatar as [| | | |url| |]; try done; unfold avatar_value in E.
  - by inv_ok.
  - cbv zeta in E. set (u := if starts_with _ _ then _ else _) in *. clearbody u.
    unfold require in E. inv_ok. unfold avatar_value.
    assert (starts_with (lit "/") u = false) as ->.
    { destruct u as [|c u]; [done|]. unfold starts_with in H1. inv_ok. 
      cbn in H1. injection H1 as -> _. reflexivity. }
    cbv zeta. unfold require. by rewrite H1, H2.
Qed.

Lemma account_json_members sub mail name user membership avatar :
  account_json sub mail name user membership avatar =
  JObject [(lit "avatarUrl", avatar); (lit "displayName", JString name); (lit "email", JString mail);
           (lit "societyCloudMembership", JString membership); (lit "sub", JString sub);
           (lit "userId", JString user)].
Proof. reflexivity. Qed.

Lemma clean_mail mail : plain_mail (Some (JString mail)) → emailPattern mail = true →
  clean mail 254 true false = Ok mail.
Proof. intros [Hp Hl] He. apply clean_printable; [done..|]. by apply email_nonempty. Qed.

Lemma account_again service w account a : service = https ++ w →
  account_value service account = Ok a →
  (∀ l, a = JObject l → plain_mail (member (lit "email") l)) → account_value service a = Ok a.
Proof.
  intros Hw E Hmail. unfold account_value, require in E.
  apply bind_ok in E as (l & _ & E). apply bind_ok in E as (sub & Hsub & E).
  apply bind_ok in E as (? & Hsp & E). apply bind_ok in E as (raw & Hraw & E).
  apply bind_ok in E as (mail & Hnorm & E). apply bind_ok in E as (? & Hep & E).
  apply bind_ok in E as (user & Huser & E). apply bind_ok in E as (? & Hup & E).
  apply bind_ok in E as (mem & Hmem & E). apply bind_ok in E as (? & Hmp & E).
  apply bind_ok in E as (avatar & Hav & E). apply bind_ok in E as (name & Hname & E).
  apply ok_inj in E. subst a. rewrite account_json_members in *. set (m := [_; _; _; _; _; _]).
  specialize (Hmail m eq_refl). change (plain_mail (Some (JString mail))) in Hmail.
  apply check_ok in Hep as He2. apply andb_true_iff in He2 as [He _].
  unfold account_value.
  assert (keys (JObject m) ["sub"; "email"; "displayName"; "userId"; "societyCloudMembership";
    "avatarUrl"] = Ok m) as -> by reflexivity. cbn [mbind result_bind].
  rewrite (text_again _ _ _ _ _ _ m Hsub eq_refl ltac:(lia)). cbn [mbind result_bind].
  unfold require. rewrite Hsp. cbn [mbind result_bind].
  assert (text m "email" 254 true false = Ok mail) as -> by exact (clean_mail _ Hmail He).
  cbn [mbind result_bind]. rewrite (fold_again raw) by (done || by apply printable_ascii, Hmail).
  cbn [mbind result_bind]. rewrite Hep. cbn [mbind result_bind].
  rewrite (text_again _ _ _ _ _ _ m Huser eq_refl ltac:(lia)). cbn [mbind result_bind].
  rewrite Hup. cbn [mbind result_bind].
  change (get_string (value_or (lit "societyCloudMembership") (JString (lit "Free")) m)) with (@Ok string bytes mem).
  cbn [mbind result_bind]. rewrite Hmp. cbn [mbind result_bind].
  change (value_or (lit "avatarUrl") JNull m) with avatar. rewrite (avatar_again _ _ _ _ Hw Hav).
  cbn [mbind result_bind]. rewrite (text_again _ _ _ _ _ _ m Hname eq_refl ltac:(lia)).
  cbn [mbind result_bind]. by rewrite account_json_members.
Qed.

(** ** Details *)

Lemma settled_other required fields l l' : settled required fields l →
  (∀ f, f ∈ fields → member (lit (field_name f)) l' = member (lit (field_name f)) l) →
  settled required fields l'.
Proof.
  unfold settled. rewrite !Forall_forall. intros Hs Hm f Hf. destruct (Hs f Hf) as (s & E1 & E2).
  exists s. unfold text in *. by rewrite Hm.
Qed.

Lemma ok_ascending l : json_ok (JObject l) = true → ascending l = true.
Proof. simpl. by intros [? _]%andb_true_iff. Qed.

Lemma each_spec f l l' : each f l = Ok l' ↔ Forall2 (λ x y, f x = Ok y) l l'.
Proof.
  unfold each. assert (∀ acc, fold_res (λ acc x, y ← f x; Ok (acc ++ [y])) acc l = Ok l' ↔
    ∃ r, l' = acc ++ r ∧ Forall2 (λ x y, f x = Ok y) l r) as Hacc; last first.
  { rewrite Hacc. split; [by intros (r & -> & ?)|]. intros Hr. by exists l'. }
  induction l as [|x l IH]; intros acc; cbn [fold_res].
  - split.
    + intros E%ok_inj. exists []. by rewrite app_nil_r.
    + intros (r & -> & Hr). inversion Hr. by rewrite app_nil_r.
  - destruct (f x) as [y|] eqn:E; cbn [mbind result_bind].
    + rewrite IH. split.
      * intros (r & -> & Hr). exists (y :: r). rewrite <-app_assoc. split; [done|by constructor].
      * intros (r & -> & Hr). inversion Hr as [|? y' ? r' E' Hr']; subst. exists r'.
        rewrite E in E'. apply ok_inj in E' as ->. by rewrite <-app_assoc.
    + split; [done|]. intros (r & _ & Hr). inversion Hr; congruence.
Qed.

Lemma each_again f l l' : (∀ x y, json_ok x = true → f x = Ok y → f y = Ok y) →
  forallb json_ok l = true → each f l = Ok l' → each f l' = Ok l'.
Proof.
  intros Hf Hl E. apply each_spec in E. apply each_spec. rewrite forallb_forall in Hl.
  assert (∀ x, x ∈ l → json_ok x = true) as Hl' by (intros x Hx; by apply Hl, list_elem_of_In).
  clear Hl. induction E as [|x y l l' Hxy _ IH]; constructor.
  - apply (Hf x); [|done]. apply Hl'. by left.
  - apply IH. intros z Hz. apply Hl'. by right.
Qed.

Lemma each_ok f l l' : (∀ x y, json_ok x = true → f x = Ok y → json_ok y = true) →
  forallb json_ok l = true → each f l = Ok l' → forallb json_ok l' = true.
Proof.
  intros Hf Hl E. apply each_spec in E. induction E as [|x y l l' Hxy _ IH]; [done|].
  simpl in *. apply andb_true_iff in Hl as [Hx Hl]. by rewrite (Hf x y), IH.
Qed.

Lemma link_ok e e' : json_ok e = true → link_value e = Ok e' → json_ok e' = true.
Proof.
  intros Hok E. unfold link_value in E. inv_ok. apply keys_inv in H1 as [-> _].
  by repeat (eapply set_texts_ok; [eassumption|]).
Qed.

Lemma link_again e e' : json_ok e = true → link_value e = Ok e' → link_value e' = Ok e'.
Proof.
  intros Hok E. pose proof (link_ok _ _ Hok E) as Hok'. unfold link_value in E.
  apply bind_ok in E as (l0 & Hk & E). apply keys_inv in Hk as [-> Hk].
  apply bind_ok in E as (l1 & E1 & E). apply bind_ok in E as (l2 & E2 & E).
  apply bind_ok in E as (l3 & E3 & E). apply bind_ok in E as (url & Hu & E).
  apply bind_ok in E as (? & Hc & E). apply ok_inj in E. subst e'.
  assert (settled true [line "relation" 40] l3) as S1.
  { apply (settled_other _ _ l1); [apply (set_texts_spec _ _ l0); [decided|by repeat constructor|done]|].
    intros f Hf. rewrite list_elem_of_singleton in Hf. subst f.
    rewrite (set_texts_other _ _ _ _ _ E3), (set_texts_other _ _ _ _ _ E2); [done|..];
      decided. }
  assert (settled false [line "label" 160] l3) as S2.
  { apply (settled_other _ _ l2); [apply (set_texts_spec _ _ l1); [decided|by repeat constructor|done]|].
    intros f Hf. rewrite list_elem_of_singleton in Hf. subst f.
    rewrite (set_texts_other _ _ _ _ _ E3); [done|]. decided. }
  assert (settled true [line "url" 2048] l3) as S3
    by (apply (set_texts_spec _ _ l2); [decided|by repeat constructor|done]).
  pose proof (ok_ascending _ Hok') as Hasc. unfold link_value. rewrite keys_intro.
  - cbn [mbind result_bind]. rewrite !set_texts_settled by done. cbn [mbind result_bind].
    rewrite set_texts_settled by done. cbn [mbind result_bind].
    rewrite set_texts_settled by done. cbn [mbind result_bind]. rewrite Hu. cbn [mbind result_bind].
    by rewrite Hc.
  - repeat (eapply set_texts_keys; [eassumption|intros f Hf; rewrite list_elem_of_singleton in Hf;
      subst f; decided|]). done.
Qed.

Lemma identifier_ok e e' : json_ok e = true → identifier_value e = Ok e' → json_ok e' = true.
Proof.
  intros Hok E. unfold identifier_value in E. inv_ok. apply keys_inv in H1 as [-> _].
  by eapply set_texts_ok.
Qed.

Lemma identifier_again e e' : json_ok e = true → identifier_value e = Ok e' → identifier_value e' = Ok e'.
Proof.
  intros Hok E. pose proof (identifier_ok _ _ Hok E) as Hok'. unfold identifier_value in E.
  apply bind_ok in E as (l0 & Hk & E). apply keys_inv in Hk as [-> Hk].
  apply bind_ok in E as (l1 & E1 & E). apply ok_inj in E. subst e'.
  unfold identifier_value. rewrite keys_intro.
  - cbn [mbind result_bind]. rewrite set_texts_settled; [done|by apply ok_ascending|].
    apply (set_texts_spec _ _ l0); [decided|by repeat constructor|done].
  - eapply set_texts_keys; [exact E1| |exact Hk]. intros f Hf. revert f Hf. apply Forall_forall. decided.
Qed.

(** What [entries_value] leaves behind. *)
Lemma entries_inv name f l l' : entries_value name f l = Ok l' → ∃ entries entries',
  value_or (lit name) (JArray []) l = JArray entries ∧ len entries <= 32 ∧ each f entries = Ok entries' ∧
  l' = object_set (lit name) (JArray entries') l.
Proof.
  unfold entries_value, require. destruct (value_or _ _ _) as [| | | | |entries|] eqn:Ev; try done.
  intros E. apply bind_ok in E as (? & Hlen & E). apply bind_ok in E as (entries' & He & E).
  apply ok_inj in E. apply check_ok, Z.leb_le in Hlen. by exists entries, entries'.
Qed.

Lemma entries_ok name f l l' : (∀ x y, json_ok x = true → f x = Ok y → json_ok y = true) →
  json_ok (JObject l) = true → entries_value name f l = Ok l' → json_ok (JObject l') = true.
Proof.
  intros Hf Hl (entries & entries' & Ev & _ & He & ->)%entries_inv. apply set_ok; [done|].
  apply (each_ok f entries); [done| |done]. unfold value_or in Ev.
  destruct (member (lit name) l) as [v|] eqn:Em; simpl in Ev.
  - subst v. exact (member_ok _ _ _ Hl Em).
  - by injection Ev as <-.
Qed.

(** Entries that were set are set again to what they are. *)
Lemma entries_again name f l l' l'' : (∀ x y, json_ok x = true → f x = Ok y → f y = Ok y) →
  json_ok (JObject l) = true → entries_value name f l = Ok l' → ascending l'' = true →
  member (lit name) l'' = member (lit name) l' → entries_value name f l'' = Ok l''.
Proof.
  intros Hf Hl (entries & entries' & Ev & Hlen & He & ->)%entries_inv Ha Hm. rewrite member_set in Hm.
  unfold entries_value, value_or, require. rewrite Hm. cbn [default from_option id].
  pose proof (proj1 (each_spec _ _ _) He) as Hlen'%Forall2_length.
  rewrite (proj2 (Z.leb_le _ _)) by lia. cbn [check mbind result_bind].
  rewrite (each_again f entries); [cbn [mbind result_bind]; by rewrite set_same|done| |done].
  unfold value_or in Ev. destruct (member (lit name) l) as [v|] eqn:Em; simpl in Ev.
  - subst v. exact (member_ok _ _ _ Hl Em).
  - by injection Ev as <-.
Qed.

(** The conditions under which the details of a profile can be read again. *)
Definition details_readable (details : json) : Prop :=
  match details with
  | JObject l => plain_mail (member (lit "contactEmail") l)
  | _ => True
  end ∧ ∀ d, dump details = Ok d → len d <= 65536.

Lemma settled_member required fields l f s : settled required fields l → f ∈ fields →
  member (lit (field_name f)) l = Some (JString s) →
  text l (field_name f) (field_maximum f) required (field_multiline f) = Ok s.
Proof.
  unfold settled. rewrite Forall_forall. intros Hs Hf E. destruct (Hs f Hf) as (s' & E1 & E2). congruence.
Qed.

Lemma contact_ok email l l' : json_ok (JObject l) = true → set_contact email l = Ok l' →
  json_ok (JObject l') = true.
Proof. intros Hl. unfold set_contact. case_bool_decide; intros E; inv_ok; [done|by apply set_ok]. Qed.

Lemma contact_other email l l' k : set_contact email l = Ok l' → k ≠ lit "contactEmail" →
  member k l' = member k l.
Proof. unfold set_contact. intros E Hk. case_bool_decide; inv_ok; [done|by apply member_set_ne]. Qed.

(** The contact address after normalisation: set again it is what it is. *)
Lemma contact_again email l l' l'' : string_of "contactEmail" l = Ok email →
  set_contact email l = Ok l' → plain_mail (member (lit "contactEmail") l') →
  text l "contactEmail" 254 false false = Ok email → ascending l'' = true →
  member (lit "contactEmail") l'' = member (lit "contactEmail") l' →
  ∃ mail, string_of "contactEmail" l'' = Ok mail ∧ set_contact mail l'' = Ok l'' ∧
    text l'' "contactEmail" 254 false false = Ok mail ∧ member (lit "contactEmail") l'' = Some (JString mail).
Proof.
  unfold set_contact. intros Hs E Hp Ht Ha Hm. apply string_of_member in Hs as Hmem.
  case_bool_decide as He; unfold require in E.
  - inv_ok. subst email. exists []. rewrite Hmem in Hm. rewrite bool_decide_true by done.
    split_and!; [by apply string_of_member|done| |done]. by apply (text_again l).
  - apply bind_ok in E as (mail & Hn & E). apply bind_ok in E as (? & Hpat & E). apply ok_inj in E. subst l'.
    rewrite member_set in Hm, Hp. exists mail. apply check_ok in Hpat.
    pose proof (email_nonempty _ Hpat) as Hne. rewrite bool_decide_false by done.
    rewrite (fold_again email) by (done || by apply printable_ascii, Hp). cbn [mbind result_bind].
    unfold require. rewrite Hpat. cbn [check mbind result_bind].
    split_and!; [by apply string_of_member|by rewrite set_same| |done].
    unfold text. rewrite Hm. destruct Hp as [Hp Hl]. by apply clean_printable.
Qed.

Section zones.
  Context (locate_zone zone_file : bytes → bool).

(** The steps of [details_value]. *)
Lemma details_inv details d : details_value locate_zone zone_file details = Ok d →
  ∃ l0 l1 l2 l3 l4 country locale zone email, details = JObject l0 ∧ d = JObject l4 ∧
    forallb (λ kv, detail_key kv.1) l0 = true ∧ set_texts false detailLimits l0 = Ok l1 ∧
    string_of "countryCode" l1 = Ok country ∧
    (bool_decide (country = []) || countryPattern country) = true ∧
    string_of "locale" l1 = Ok locale ∧ (bool_decide (locale = []) || localePattern locale) = true ∧
    string_of "timeZone" l1 = Ok zone ∧ validTimeZone locate_zone zone_file zone = true ∧
    string_of "contactEmail" l1 = Ok email ∧ set_contact email l1 = Ok l2 ∧
    entries_value "links" link_value l2 = Ok l3 ∧ entries_value "identifiers" identifier_value l3 = Ok l4.
Proof.
  unfold details_value. destruct details as [| | | | | |l0]; try done. intros E.
  apply bind_ok in E as (? & _ & E). apply bind_ok in E as (? & _ & E).
  apply bind_ok in E as (? & Hk & E). apply bind_ok in E as (l1 & E1 & E).
  apply bind_ok in E as (country & Hc & E). apply bind_ok in E as (? & Hcp & E).
  apply bind_ok in E as (locale & Hl & E). apply bind_ok in E as (? & Hlp & E).
  apply bind_ok in E as (zone & Hz & E). apply bind_ok in E as (? & Hzp & E).
  apply bind_ok in E as (email & He & E). apply bind_ok in E as (l2 & E2 & E).
  apply bind_ok in E as (l3 & E3 & E). apply bind_ok in E as (l4 & E4 & E). apply ok_inj in E.
  apply check_ok in Hk, Hcp, Hlp, Hzp. exists l0, l1, l2, l3, l4, country, locale, zone, email.
  by split_and!.
Qed.

Lemma details_ok details d : json_ok details = true →
  details_value locate_zone zone_file details = Ok d → json_ok d = true.
Proof.
  intros Hok (l0 & l1 & l2 & l3 & l4 & ? & ? & ? & ? & -> & -> & _ & E1 & _ & _ & _ & _ & _ & _ & _ & E2 & E3 & E4)%details_inv.
  apply set_texts_ok in E1; [|done]. apply contact_ok in E2; [|done].
  apply entries_ok in E3; [|exact link_ok|done]. by apply entries_ok in E4; [|exact identifier_ok|].
Qed.

Lemma entries_other name f l l' k : entries_value name f l = Ok l' → k ≠ lit name → member k l' = member k l.
Proof. intros (? & ? & _ & _ & _ & ->)%entries_inv Hk. by apply member_set_ne. Qed.

Lemma entries_keys name f l l' (P : bytes → Prop) : entries_value name f l = Ok l' → P (lit name) →
  (∀ k, k ∈ l.*1 → P k) → ∀ k, k ∈ l'.*1 → P k.
Proof. intros (? & ? & _ & _ & _ & ->)%entries_inv. apply keys_set. Qed.

Lemma contact_keys email l l' (P : bytes → Prop) : set_contact email l = Ok l' → P (lit "contactEmail") →
  (∀ k, k ∈ l.*1 → P k) → ∀ k, k ∈ l'.*1 → P k.
Proof. unfold set_contact. intros E. case_bool_decide; inv_ok; [done|apply keys_set]. Qed.

Lemma detail_fields f : f ∈ detailLimits →
  lit (field_name f) ≠ lit "links" ∧ lit (field_name f) ≠ lit "identifiers" ∧
  (field_name f = "contactEmail" → f = line "contactEmail" 254).
Proof.
  intros Hf. assert (Forall (λ f, lit (field_name f) ≠ lit "links" ∧ lit (field_name f) ≠ lit "identifiers" ∧
    (field_name f = "contactEmail" → f = line "contactEmail" 254)) detailLimits) as Hall.
  { repeat (apply Forall_cons; split; [split_and!; [by apply lit_ne..|done || (intros _; reflexivity)]|]).
    done. }
  rewrite Forall_forall in Hall. by apply Hall.
Qed.

Lemma detail_keys f : f ∈ detailLimits → detail_key (lit (field_name f)) = true.
Proof. intros Hf. unfold detail_key. rewrite bool_decide_true; [done|]. by apply list_elem_of_fmap; eauto. Qed.

Lemma details_keys email l0 l1 l2 l3 l4 : forallb (λ kv : bytes * json, detail_key kv.1) l0 = true →
  set_texts false detailLimits l0 = Ok l1 → set_contact email l1 = Ok l2 →
  entries_value "links" link_value l2 = Ok l3 → entries_value "identifiers" identifier_value l3 = Ok l4 →
  ∀ k, k ∈ l4.*1 → detail_key k = true.
Proof.
  intros Hk E1 E2 E3 E4. apply (entries_keys _ _ _ _ _ E4); [done|].
  apply (entries_keys _ _ _ _ _ E3); [done|]. apply (contact_keys _ _ _ _ E2); [done|].
  apply (set_texts_keys _ _ _ _ _ E1); [apply detail_keys|].
  intros k (kv & -> & Hin)%list_elem_of_fmap. rewrite forallb_forall in Hk. by apply Hk, list_elem_of_In.
Qed.

(** The details of a canonical profile are their own canonical form. *)
Lemma details_again details d : json_ok details = true →
  details_value locate_zone zone_file details = Ok d → details_readable d → (∃ t, dump d = Ok t) →
  details_value locate_zone zone_file d = Ok d.
Proof.
  intros Hok E [Hmail Hsize] [t Ht]. pose proof (details_ok _ _ Hok E) as Hok4.
  destruct (details_inv _ _ E) as (l0 & l1 & l2 & l3 & l4 & country & locale & zone & email & -> & -> &
    Hk & E1 & Hc & Hcp & Hl & Hlp & Hz & Hzp & He & E2 & E3 & E4).
  pose proof (set_texts_ok _ _ _ _ E1 Hok) as Hok1. pose proof (contact_ok _ _ _ Hok1 E2) as Hok2.
  pose proof (entries_ok _ _ _ _ link_ok Hok2 E3) as Hok3.
  assert (settled false detailLimits l1) as S1
    by (apply (set_texts_spec _ _ l0); [decided|by repeat constructor|done]).
  pose proof (ok_ascending _ Hok4) as Ha.
  assert (∀ k, k ≠ lit "links" → k ≠ lit "identifiers" → member k l4 = member k l2) as Hm42.
  { intros k H1 H2. by rewrite (entries_other _ _ _ _ _ E4), (entries_other _ _ _ _ _ E3). }
  assert (∀ k, k ≠ lit "links" → k ≠ lit "identifiers" → k ≠ lit "contactEmail" →
    member k l4 = member k l1) as Hm41.
  { intros k H1 H2 H3. by rewrite Hm42, (contact_other _ _ _ _ E2). }
  assert (member (lit "contactEmail") l4 = member (lit "contactEmail") l2) as Hcm
    by (apply Hm42; by apply lit_ne).
  rewrite Hcm in Hmail.
  destruct (contact_again email l1 l2 l4) as (mail & Hs & Hset & Htext & Hmem); try done.
  { apply (settled_member _ _ _ (line "contactEmail" 254) email S1); [|by apply string_of_member].
    by repeat (left; reflexivity) || right. }
  assert (settled false detailLimits l4) as S4.
  { apply Forall_forall. intros f Hf. destruct (detail_fields f Hf) as (H1 & H2 & H3).
    destruct (decide (field_name f = "contactEmail")) as [Ef|Ef].
    - rewrite (H3 Ef). exists mail. done.
    - unfold settled in S1. rewrite Forall_forall in S1. destruct (S1 f Hf) as (s & Em & Et).
      exists s. unfold text in *. rewrite Hm41 by (done || by apply lit_ne). done. }
  unfold details_value. rewrite Ht. cbn [mbind result_bind]. unfold require.
  rewrite (proj2 (Z.leb_le _ _)) by by apply Hsize. cbn [check mbind result_bind].
  assert (forallb (λ kv : bytes * json, detail_key kv.1) l4 = true) as ->.
  { apply forallb_forall. intros kv Hin%list_elem_of_In. apply (list_elem_of_fmap_2 fst) in Hin.
    by apply (details_keys _ _ _ _ _ _ Hk E1 E2 E3 E4). }
  cbn [check mbind result_bind]. rewrite set_texts_settled by done. cbn [mbind result_bind].
  apply string_of_member in Hc, Hl, Hz.
  rewrite <-Hm41 in Hc, Hl, Hz by by apply lit_ne. apply string_of_member in Hc, Hl, Hz.
  rewrite Hc. cbn [mbind result_bind]. rewrite Hcp. cbn [check mbind result_bind].
  rewrite Hl. cbn [mbind result_bind]. rewrite Hlp. cbn [check mbind result_bind].
  rewrite Hz. cbn [mbind result_bind]. rewrite Hzp. cbn [check mbind result_bind].
  rewrite Hs. cbn [mbind result_bind]. rewrite Hset. cbn [mbind result_bind].
  rewrite (entries_again _ _ _ _ l4 link_again Hok2 E3 Ha)
    by (apply (entries_other _ _ _ _ _ E4); by apply lit_ne).
  cbn [mbind result_bind].
  by rewrite (entries_again _ _ _ _ l4 identifier_again Hok3 E4 Ha).
Qed.
End zones.

(** ** Attribution *)

Lemma role_loop acc roles names : fold_res (λ acc role,
    raw ← of_option invalid (match role with JString s => Some s | _ => None end);
    name ← clean raw 40 true false;
    _ ← require (negb (bool_decide (name ∈ acc)));
    Ok (acc ++ [name])) acc roles = Ok names →
  ∃ new, names = acc ++ new ∧ length new = length roles ∧ fold_res (λ acc role,
    raw ← of_option invalid (match role with JString s => Some s | _ => None end);
    name ← clean raw 40 true false;
    _ ← require (negb (bool_decide (name ∈ acc)));
    Ok (acc ++ [name])) acc (JString <$> new) = Ok names.
Proof.
  revert acc. induction roles as [|role roles IH]; intros acc E; cbn [fold_res] in E.
  - apply ok_inj in E as ->. exists []. by rewrite app_nil_r.
  - apply bind_ok in E as (acc' & E1 & E). apply bind_ok in E1 as (raw & _ & E1).
    apply bind_ok in E1 as (name & Hn & E1). apply bind_ok in E1 as (? & Hu & E1).
    apply ok_inj in E1. subst acc'. destruct (IH _ E) as (new & -> & Hlen & Hnew).
    exists (name :: new). rewrite <-app_assoc in *. split_and!; [done|simpl; lia|].
    csimpl. cbn [fold_res of_option mbind result_bind]. rewrite (clean_clean _ _ _ _ _ Hn).
    cbn [mbind result_bind]. rewrite Hu. exact Hnew.
Qed.

Lemma role_again roles names : role_values roles = Ok names →
  role_values (JString <$> names) = Ok names ∧ length names = length roles.
Proof. unfold role_values. by intros (new & -> & Hl & Hn)%role_loop. Qed.

(** A date that was set is read again. *)
Lemma date_set_again l name s l' : optionalDate l name false = Ok s →
  member (lit name) l' = Some (dateValue s) → date_in_grammar (member (lit name) l') →
  optionalDate l' name false = Ok s.
Proof.
  intros E Hm Hg. unfold dateValue in Hm. case_bool_decide.
  - subst s. unfold optionalDate. by rewrite Hm.
  - by apply (optionalDate_again l).
Qed.

Lemma attribution_inv attribution a : attribution_value attribution = Ok a →
  ∃ l0 roles names l2 license created modified,
    let l1 := object_set (lit "roles") (JArray (JString <$> names)) l0 in
    let l4 := object_set (lit "modifiedAt") (dateValue modified)
                (object_set (lit "createdAt") (dateValue created) l2) in
    keys attribution ["roles"; "credit"; "copyrightNotice"; "licenseIdentifier"; "licenseUrl";
                      "documentId"; "projectId"; "workspaceId"; "createdAt"; "modifiedAt"] = Ok l0 ∧
    a = JObject l4 ∧ len roles <= 16 ∧ role_values roles = Ok names ∧
    set_texts false attributionLimits l1 = Ok l2 ∧ string_of "licenseUrl" l2 = Ok license ∧
    (bool_decide (license = []) || https_url license) = true ∧
    optionalDate l2 "createdAt" false = Ok created ∧ optionalDate l2 "modifiedAt" false = Ok modified ∧
    (bool_decide (created = []) || bool_decide (modified = []) || bytes_leb created modified) = true.
Proof.
  unfold attribution_value, require. intros E. apply bind_ok in E as (l0 & Hk & E).
  destruct (value_or _ _ _) as [| | | | |roles|]; try done.
  apply bind_ok in E as (? & Hlen & E). apply bind_ok in E as (names & Hr & E).
  apply bind_ok in E as (l2 & E2 & E). apply bind_ok in E as (license & Hl & E).
  apply bind_ok in E as (? & Hlp & E). apply bind_ok in E as (created & Hc & E).
  apply bind_ok in E as (modified & Hm & E). apply bind_ok in E as (? & Ho & E). apply ok_inj in E.
  apply check_ok in Hlen, Hlp, Ho. apply Z.leb_le in Hlen.
  by exists l0, roles, names, l2, license, created, modified.
Qed.

Definition dates_readable (a : json) : Prop :=
  match a with
  | JObject l => date_in_grammar (member (lit "createdAt") l) ∧ date_in_grammar (member (lit "modifiedAt") l)
  | _ => True
  end.

Lemma strings_ok l : forallb json_ok (JString <$> l) = true.
Proof. by induction l. Qed.

Lemma date_value_ok s : json_ok (dateValue s) = true.
Proof. unfold dateValue. by case_bool_decide. Qed.

Lemma attribution_ok attribution a : json_ok attribution = true → attribution_value attribution = Ok a →
  json_ok a = true.
Proof.
  intros Hok (l0 & roles & names & l2 & license & created & modified & [-> _]%keys_inv & -> & _ & _ &
    E2 & _)%attribution_inv.
  do 2 (apply set_ok; [|apply date_value_ok]). apply (set_texts_ok _ _ _ _ E2), set_ok; [done|].
  exact (strings_ok names).
Qed.

Lemma attribution_fields f : f ∈ attributionLimits →
  lit (field_name f) ≠ lit "roles" ∧ lit (field_name f) ≠ lit "createdAt" ∧
  lit (field_name f) ≠ lit "modifiedAt" ∧
  lit (field_name f) ∈ lit <$> ["roles"; "credit"; "copyrightNotice"; "licenseIdentifier"; "licenseUrl";
                                "documentId"; "projectId"; "workspaceId"; "createdAt"; "modifiedAt"].
Proof. revert f. apply Forall_forall. decided. Qed.

Lemma attribution_again attribution a : json_ok attribution = true →
  attribution_value attribution = Ok a → dates_readable a → attribution_value a = Ok a.
Proof.
  intros Hok E Hdates. pose proof (attribution_ok _ _ Hok E) as Hok4.
  destruct (attribution_inv _ _ E) as (l0 & roles & names & l2 & license & created & modified & Hk & -> &
    Hlen & Hr & E2 & Hl & Hlp & Hc & Hm & Ho).
  destruct Hdates as [Hgc Hgm]. apply keys_inv in Hk as [-> Hk]. apply role_again in Hr as [Hr Hrl].
  set (l4 := object_set (lit "modifiedAt") _ _) in *. pose proof (ok_ascending _ Hok4) as Ha.
  assert (settled false attributionLimits l4) as S4.
  { apply (settled_other _ _ l2).
    - eapply set_texts_spec; [decided|by repeat constructor|exact E2].
    - intros f Hf. destruct (attribution_fields f Hf) as (_ & H1 & H2 & _). unfold l4. by rewrite !member_set_ne. }
  assert (member (lit "roles") l4 = Some (JArray (JString <$> names))) as Hroles.
  { unfold l4. rewrite !member_set_ne by by apply lit_ne.
    rewrite (set_texts_other _ _ _ _ _ E2) by decided. by members. }
  assert (member (lit "createdAt") l4 = Some (dateValue created)) as Hcm by (unfold l4; by members).
  assert (member (lit "modifiedAt") l4 = Some (dateValue modified)) as Hmm by (unfold l4; by members).
  unfold attribution_value. rewrite keys_intro; last first.
  { unfold l4. apply keys_set; [decided|]. apply keys_set; [decided|].
    apply (set_texts_keys _ _ _ _ _ E2); [by apply attribution_fields|]. apply keys_set; [decided|done]. }
  cbn [mbind result_bind]. unfold value_or, require. rewrite Hroles. cbn [default from_option id].
  rewrite length_fmap, Hrl, (proj2 (Z.leb_le _ _)) by done. cbn [check mbind result_bind].
  rewrite Hr. cbn [mbind result_bind]. rewrite (set_same (lit "roles")) by done.
  rewrite set_texts_settled by done. cbn [mbind result_bind].
  apply string_of_member in Hl.
  assert (string_of "licenseUrl" l4 = Ok license) as ->.
  { apply string_of_member. unfold l4. by members. }
  cbn [mbind result_bind]. rewrite Hlp. cbn [check mbind result_bind].
  rewrite (date_set_again l2 "createdAt" created), (date_set_again l2 "modifiedAt" modified) by done.
  cbn [mbind result_bind].
  rewrite Ho. cbn [check mbind result_bind]. by rewrite (set_same (lit "createdAt")), set_same.
Qed.

(** ** Devices *)

Lemma device_fields f : f ∈ deviceLimits →
  lit (field_name f) ∈ lit <$> ["id"; "type"; "name"; "platform"; "osVersion"; "appId"; "appVersion"].
Proof. revert f. apply Forall_forall. decided. Qed.

Lemma device_again device d : json_ok device = true → device_value device = Ok d →
  device_value d = Ok d ∧ json_ok d = true.
Proof.
  intros Hok E. assert (device = JNull ∧ d = JNull ∨ ∃ l0 l1 id type,
    keys device ["id"; "type"; "name"; "platform"; "osVersion"; "appId"; "appVersion"] = Ok l0 ∧
    d = JObject l1 ∧ set_texts true deviceLimits l0 = Ok l1 ∧ string_of "id" l1 = Ok id ∧
    string_of "type" l1 = Ok type ∧
    (devicePattern id && (bool_decide (type = lit "pc") || bool_decide (type = lit "tablet"))) = true)
    as [[-> ->]|(l0 & l1 & id & type & Hk & -> & E1 & Hi & Ht & Hc)]; [|done|].
  { unfold device_value, require in E. destruct device as [| | | | | |l]; try done.
    - left. by inv_ok.
    - right. apply bind_ok in E as (l0 & Hk & E). apply bind_ok in E as (l1 & E1 & E).
      apply bind_ok in E as (id & Hi & E). apply bind_ok in E as (type & Ht & E).
      apply bind_ok in E as (? & Hc & E). apply ok_inj in E. apply check_ok in Hc.
      by exists l0, l1, id, type. }
  apply keys_inv in Hk as [-> Hk]. pose proof (set_texts_ok _ _ _ _ E1 Hok) as Hok1. split; [|done].
  unfold device_value. rewrite keys_intro; last first.
  { apply (set_texts_keys _ _ _ _ _ E1); [by apply device_fields|done]. }
  cbn [mbind result_bind]. rewrite set_texts_settled; [|by apply ok_ascending|].
  - cbn [mbind result_bind]. rewrite Hi. cbn [mbind result_bind]. rewrite Ht. cbn [mbind result_bind].
    unfold require. by rewrite Hc.
  - apply (set_texts_spec _ _ l0); [decided|by repeat constructor|done].
Qed.

(** ** Profiles *)

(** A profile that can be read again: its origin and addresses are printable
    ASCII, its dates are in the years the grammar can write, and its details are
    within the limit that is checked when they are read. *)
Definition readable (p : json) : Prop :=
  match p with
  | JObject l =>
      match member (lit "serviceOrigin") l with Some (JString s) => Forall printable s | _ => True end ∧
      date_in_grammar (member (lit "capturedAt") l) ∧
      (∀ m, member (lit "account") l = Some (JObject m) → plain_mail (member (lit "email") m)) ∧
      (∀ d, member (lit "details") l = Some d → details_readable d) ∧
      (∀ a, member (lit "attribution") l = Some a → dates_readable a)
  | _ => False
  end.

(** The members [profile] sets. *)
Definition set_parts (service captured : bytes) (account details attribution device : json)
    (l : list (bytes * json)) : list (bytes * json) :=
  object_set (lit "device") device (object_set (lit "attribution") attribution
    (object_set (lit "details") details (object_set (lit "account") account
      (object_set (lit "capturedAt") (JString captured)
        (object_set (lit "serviceOrigin") (JString service) l))))).

Section profiles.
  Context (locate_zone zone_file : bytes → bool).

Lemma profile_inv v p : profile locate_zone zone_file v = Ok p →
  ∃ l raw service captured account account' details attribution device,
    v = JObject l ∧ (∀ k, k ∈ l.*1 → k ∈ lit <$> profile_keys) ∧
    (∃ version, member (lit "schemaVersion") l = Some version ∧ is_one version = true) ∧
    text l "serviceOrigin" 2048 true false = Ok raw ∧ origin raw = Ok service ∧
    optionalDate l "capturedAt" true = Ok captured ∧
    member (lit "account") l = Some account ∧ account_value service account = Ok account' ∧
    details_value locate_zone zone_file (value_or (lit "details") (JObject []) l) = Ok details ∧
    attribution_value (value_or (lit "attribution") (JObject []) l) = Ok attribution ∧
    device_value (value_or (lit "device") JNull l) = Ok device ∧
    p = JObject (set_parts service captured account' details attribution device l) ∧ sized p = Ok tt.
Proof.
  unfold profile. intros E. apply bind_ok in E as (? & _ & E). apply bind_ok in E as (l & Hk & E).
  apply keys_inv in Hk as [-> Hk]. apply bind_ok in E as (version & Hv & E).
  apply bind_ok in E as (? & Hv1 & E). apply check_ok in Hv1.
  apply of_option_ok in Hv. apply bind_ok in E as (raw & Hraw & E).
  apply bind_ok in E as (service & Ho & E). cbv zeta in E.
  apply bind_ok in E as (captured & Hd & E). apply bind_ok in E as (account & Ha & E).
  apply bind_ok in E as (account' & Ha' & E). apply bind_ok in E as (details & Hde & E).
  apply bind_ok in E as (attribution & Hat & E). apply bind_ok in E as (device & Hdv & E).
  apply bind_ok in E as ([] & Hs & E). apply ok_inj in E. apply of_option_ok in Ha.
  unfold value_or in *. unfold optionalDate in Hd.
  repeat (rewrite member_set_ne in Ha by by apply lit_ne).
  repeat (rewrite member_set_ne in Hd by by apply lit_ne).
  repeat (rewrite member_set_ne in Hde by by apply lit_ne).
  repeat (rewrite member_set_ne in Hat by by apply lit_ne).
  repeat (rewrite member_set_ne in Hdv by by apply lit_ne).
  subst p. exists l, raw, service, captured, account, account', details, attribution, device.
  split_and!; try done. by exists version.
Qed.

Lemma default_ok k d l : json_ok (JObject l) = true → json_ok d = true → json_ok (value_or k d l) = true.
Proof.
  intros Hl Hd. unfold value_or. destruct (member k l) as [v|] eqn:E; [|done]. exact (member_ok _ _ _ Hl E).
Qed.

Lemma parts_ascending service captured account details attribution device l : ascending l = true →
  ascending (set_parts service captured account details attribution device l) = true.
Proof. intros Hl. unfold set_parts. by repeat apply ascending_set. Qed.

(** A profile whose parts are canonical is accepted as it is. *)
Lemma profile_run q version service captured account details attribution device :
  sized (JObject q) = Ok tt → (∀ k, k ∈ q.*1 → k ∈ lit <$> profile_keys) → ascending q = true →
  member (lit "schemaVersion") q = Some version → is_one version = true →
  member (lit "serviceOrigin") q = Some (JString service) →
  text q "serviceOrigin" 2048 true false = Ok service → origin service = Ok service →
  member (lit "capturedAt") q = Some (JString captured) → optionalDate q "capturedAt" true = Ok captured →
  member (lit "account") q = Some account → account_value service account = Ok account →
  member (lit "details") q = Some details → details_value locate_zone zone_file details = Ok details →
  member (lit "attribution") q = Some attribution → attribution_value attribution = Ok attribution →
  member (lit "device") q = Some device → device_value device = Ok device →
  profile locate_zone zone_file (JObject q) = Ok (JObject q).
Proof.
  intros Hs Hk Hasc Qv Hv1 Qs Hts Ho Qc Htc Qa Ha Qd Hd Qt Ht Qe He.
  unfold profile. rewrite Hs. cbn [mbind result_bind]. rewrite keys_intro by done. cbn [mbind result_bind].
  unfold at_member, value_or. rewrite Qv. cbn [of_option mbind result_bind]. unfold require.
  rewrite Hv1. cbn [check mbind result_bind]. rewrite Hts. cbn [mbind result_bind].
  rewrite Ho. cbn [mbind result_bind]. rewrite (set_same (lit "serviceOrigin")) by done.
  rewrite Htc. cbn [mbind result_bind]. rewrite (set_same (lit "capturedAt")) by done.
  rewrite Qa. cbn [of_option mbind result_bind]. rewrite Ha. cbn [mbind result_bind].
  rewrite (set_same (lit "account")) by done. rewrite Qd. cbn [default from_option id]. rewrite Hd.
  cbn [mbind result_bind]. rewrite (set_same (lit "details")) by done. rewrite Qt.
  cbn [default from_option id]. rewrite Ht. cbn [mbind result_bind].
  rewrite (set_same (lit "attribution")) by done. rewrite Qe. cbn [default from_option id]. rewrite He.
  cbn [mbind result_bind]. rewrite (set_same (lit "device")) by done. by rewrite Hs.
Qed.

Lemma sized_dump q : sized q = Ok tt → ∃ t, dump q = Ok t ∧ len t <= 131072.
Proof.
  unfold sized, require. intros E. apply bind_ok in E as (t & Ht & Hl). apply check_ok, Z.leb_le in Hl.
  by exists t.
Qed.

(** A part of a document that prints, prints. *)
Lemma dump_member k v l t : dump (JObject l) = Ok t → member k l = Some v → ∃ d, dump v = Ok d.
Proof.
  simpl. intros E. apply bind_ok in E as (items & E & _). revert items E.
  induction l as [|[k' v'] l IH]; intros items E Hm; [done|]. simpl in Hm.
  apply bind_ok in E as (dk & _ & E). apply bind_ok in E as (d & Hd & E).
  apply bind_ok in E as (ds & Hds & E). case_bool_decide.
  - injection Hm as ->. by exists d.
  - by apply (IH ds).
Qed.

(** The canonical profile holds each part in its own canonical form. *)
Lemma profile_again v p : json_ok v = true → profile locate_zone zone_file v = Ok p → readable p →
  profile locate_zone zone_file p = Ok p.
Proof.
  intros Hok E Hread. destruct (profile_inv _ _ E) as (l & raw & service & captured & account & account' &
    details & attribution & device & -> & Hk & (version & Hv & Hv1) & Hraw & Ho & Hd & Ha & Ha' & Hde & Hat & Hdv & -> & Hs).
  set (q := set_parts _ _ _ _ _ _ _) in *.
  assert (member (lit "serviceOrigin") q = Some (JString service)) as Qs by (unfold q, set_parts; by members).
  assert (member (lit "capturedAt") q = Some (JString captured)) as Qc by (unfold q, set_parts; by members).
  assert (member (lit "account") q = Some account') as Qa by (unfold q, set_parts; by members).
  assert (member (lit "details") q = Some details) as Qd by (unfold q, set_parts; by members).
  assert (member (lit "attribution") q = Some attribution) as Qt by (unfold q, set_parts; by members).
  pose proof (parts_ascending service captured account' details attribution device l (ok_ascending _ Hok))
    as Hasc. fold q in Hasc. destruct Hread as (Hro & Hrc & Hra & Hrd & Hrt). rewrite Qs in Hro.
  destruct (origin_shape _ _ Ho) as (auth & _ & _ & _ & _ & _ & _ & Hmax & Hshape).
  destruct (sized_dump _ Hs) as (t & Hdump & _).
  apply (profile_run q version service captured account' details attribution device); try done.
  - unfold q, set_parts. by repeat (apply keys_set; [decided|]).
  - unfold q, set_parts. by members.
  - unfold text. rewrite Qs. apply clean_printable; [done| |by rewrite Hshape].
    rewrite Hshape, length_app in *. pose proof (canonical_length auth). lia.
  - apply (origin_again raw); [done|]. by apply printable_ascii.
  - apply (optionalDate_again l _ _ captured); [done..|]. rewrite Qc in Hrc. intros ->. by vm_compute in Hrc.
  - apply (account_again service (canonical_authority auth) account); [done..|].
    intros m ->. by apply Hra.
  - apply (details_again locate_zone zone_file (value_or (lit "details") (JObject []) l)); [|done|by apply Hrd|].
    + by apply default_ok.
    + exact (dump_member _ _ _ _ Hdump Qd).
  - apply (attribution_again (value_or (lit "attribution") (JObject []) l)); [|done|by apply Hrt].
    by apply default_ok.
  - unfold q, set_parts. by members.
  - apply (device_again (value_or (lit "device") JNull l)); [|done]. by apply default_ok.
Qed.
End profiles.
End laws.
