(* ===== verification/MetadataCodec.v ===== *)
(** The canonical documents of the object store: RAW envelopes and work-session
    contexts (src/Objects/ObjectMetadataCodec.cpp), with the file metadata they
    carry (src/Catalog/FileCatalog.h). *)
From S2P Require Import Prelude Json.
Local Open Scope Z_scope.

(** ** Data *)

Inductive ColorLabel := None_ | Red | Orange | Yellow | Green | Blue | Purple | Gray.

#[export] Instance ColorLabel_eq_dec : EqDecision ColorLabel.
Proof. solve_decision. Defined.

(** [static_cast<unsigned>(color)] and back. *)
Definition color_code (c : ColorLabel) : Z :=
  match c with
  | None_ => 0 | Red => 1 | Orange => 2 | Yellow => 3
  | Green => 4 | Blue => 5 | Purple => 6 | Gray => 7
  end.
Definition color_of_code (z : Z) : option ColorLabel :=
  match z with
  | 0 => Some None_ | 1 => Some Red | 2 => Some Orange | 3 => Some Yellow
  | 4 => Some Green | 5 => Some Blue | 6 => Some Purple | 7 => Some Gray | _ => None
  end.

(** A [std::map<std::string, std::string>], in iteration order. *)
Abbreviation string_map := (list (bytes * bytes)).

Record FileMetadata := {
  title : bytes;
  description : bytes;
  keywords : list bytes;
  rating : Z;
  color : ColorLabel;
  fields : string_map;
  collections : list bytes
}.

#[export] Instance FileMetadata_eq_dec : EqDecision FileMetadata.
Proof. solve_decision. Defined.

Record RawMetadata := {
  originalName : bytes;
  mediaType : bytes;
  annotations : FileMetadata
}.

#[export] Instance RawMetadata_eq_dec : EqDecision RawMetadata.
Proof. solve_decision. Defined.

Record ObjectSessionContext := {
  application : bytes;
  applicationVersion : bytes;
  project : bytes;
  document : bytes;
  attributes : string_map
}.

#[export] Instance ObjectSessionContext_eq_dec : EqDecision ObjectSessionContext.
Proof. solve_decision. Defined.

Definition empty_context : ObjectSessionContext :=
  {| application := []; applicationVersion := []; project := []; document := [];
     attributes := [] |}.

Record MetadataChange := {
  pointer : bytes;
  beforeJson : option bytes;
  afterJson : option bytes
}.

Definition maximumMetadataBytes : Z := 256 * 1024.

(** ** Validation *)

Definition NUL : ascii := Zbyte 0.

Definition text (s : bytes) (limit : Z) (required : bool) : result string unit :=
  _ ← check (negb ((required && bool_decide (s = [])) || (limit <? len s) || has_byte NUL s))
        "invalid envelope/session text or byte limit";
  _ ← dump (JString s);
  Ok tt.

(** [for (const auto &x : v) f(x);] *)
Definition for_each {A} (f : A → result string unit) (l : list A) : result string unit :=
  fold_res (λ _ x, f x) tt l.

Definition strings (v : list bytes) (count : Z) (limit : Z) : result string unit :=
  _ ← check (negb (count <? len v)) "too many envelope metadata values";
  for_each (λ s, text s limit true) v.

(** [std::tolower] in the C locale. *)
Definition tolower (c : ascii) : ascii :=
  if (65 <=? byteZ c) && (byteZ c <=? 90) then Zbyte (byteZ c + 32) else c.

Definition credential (key : bytes) : bool :=
  let name := tolower <$> filter (λ c, c ≠ "_"%char ∧ c ≠ "-"%char) key in
  bool_decide (name ∈ (lit <$> ["token"; "secret"; "password"; "authorization";
    "accesstoken"; "refreshtoken"; "authenticationtoken"])).

Definition map_json (m : string_map) : json :=
  JObject ((λ kv, (kv.1, JString kv.2)) <$> m).

Definition metadata_value (m : FileMetadata) : json :=
  json_object [(lit "title", JString (title m)); (lit "description", JString (description m));
    (lit "keywords", JArray (JString <$> keywords m)); (lit "rating", JInt (rating m));
    (lit "color", JInt (color_code (color m)));
    (lit "collections", JArray (JString <$> collections m)); (lit "fields", map_json (fields m))].

Definition metadataJson (m : FileMetadata) : result string json :=
  _ ← text (title m) 4096 false;
  _ ← text (description m) (64 * 1024) false;
  _ ← strings (keywords m) 256 256;
  _ ← strings (collections m) 128 128;
  _ ← check (negb ((5 <? rating m) || (7 <? color_code (color m)) || (64 <? len (fields m))))
        "invalid envelope classification";
  _ ← for_each (λ kv, _ ← text kv.1 256 true; text kv.2 (64 * 1024) false) (fields m);
  let result := metadata_value m in
  d ← dump result;
  _ ← check (negb (maximumMetadataBytes <? len d)) "envelope metadata exceeds 256 KiB";
  Ok result.

(** ** Encoding *)

Definition raw_value (raw : RawMetadata) (metadata : json) : json :=
  json_object [(lit "schemaVersion", JInt 1); (lit "originalName", JString (originalName raw));
    (lit "mediaType", JString (mediaType raw)); (lit "metadata", metadata)].

Definition encodeRawMetadata (raw : RawMetadata) : result string bytes :=
  _ ← text (originalName raw) 4096 true;
  _ ← text (mediaType raw) 256 true;
  _ ← check (negb (bool_decide (originalName raw = lit ".") || bool_decide (originalName raw = lit "..")
        || has_byte "/"%char (originalName raw) || has_byte "\"%char (originalName raw)))
        "RAW original name must be a basename";
  metadata ← metadataJson (annotations raw);
  dump (raw_value raw metadata).

Lemma dump_object_nonempty l d : dump (JObject l) = Ok d → d ≠ [].
Proof. simpl. intros E. apply bind_ok in E as (items & _ & [= <-]). by destruct items. Qed.

Lemma encodeRawMetadata_nonempty raw d : encodeRawMetadata raw = Ok d → d ≠ [].
Proof.
  unfold encodeRawMetadata. intros E. inv_ok. by eapply dump_object_nonempty.
Qed.

Definition context_value (s : ObjectSessionContext) : json :=
  json_object [(lit "schemaVersion", JInt 1); (lit "application", JString (application s));
    (lit "applicationVersion", JString (applicationVersion s)); (lit "project", JString (project s));
    (lit "document", JString (document s)); (lit "attributes", map_json (attributes s))].

Definition encodeSessionContext (s : ObjectSessionContext) : result string bytes :=
  _ ← text (application s) 4096 false;
  _ ← text (applicationVersion s) 256 false;
  _ ← text (project s) 4096 false;
  _ ← text (document s) 4096 false;
  _ ← check (negb (64 <? len (attributes s))) "too many work-session attributes";
  _ ← for_each (λ kv, _ ← text kv.1 256 true; _ ← text kv.2 16384 false;
        check (negb (credential kv.1)) "runtime credentials are forbidden in work sessions")
        (attributes s);
  if bool_decide (s = empty_context) then Ok [] else
  d ← dump (context_value s);
  _ ← check (negb (maximumMetadataBytes <? len d)) "work-session context exceeds 256 KiB";
  Ok d.

(** ** Differences of two documents *)

Definition pointerToken (s : bytes) : bytes :=
  s ≫= λ c, if decide (c = "~"%char) then lit "~0" else
            if decide (c = "/"%char) then lit "~1" else [c].

(** [std::set<std::string>::insert]. *)
Fixpoint set_insert (k : bytes) (l : list bytes) : list bytes :=
  match l with
  | [] => [k]
  | k' :: l' =>
      match bytes_compare k k' with
      | Lt => k :: l
      | Eq => l
      | Gt => k' :: set_insert k l'
      end
  end.

Definition key_set (la lb : list (bytes * json)) : list bytes :=
  foldl (λ s k, set_insert k s) [] (la.*1 ++ lb.*1).

(** [x ? std::optional(x->dump()) : std::nullopt]. *)
Definition dump_option (x : option json) : result string (option bytes) :=
  match x with
  | Some x => d ← dump x; Ok (Some d)
  | None => Ok None
  end.

(** [out.push_back({path, ..., ...})]. *)
Definition push_change (before after : option json) (path : bytes) (out : list MetadataChange) :
    result string (list MetadataChange) :=
  b ← dump_option before;
  a ← dump_option after;
  Ok (out ++ [{| pointer := path; beforeJson := b; afterJson := a |}]).

Fixpoint assoc {A} (k : bytes) (l : list (bytes * A)) : option A :=
  match l with
  | [] => None
  | kv :: l => if bool_decide (k = kv.1) then Some kv.2 else assoc k l
  end.

(** [differences] where both values are present; an absent side is reported by
    its caller. *)
Fixpoint differences (before after : json) (path : bytes) (out : list MetadataChange) :
    result string (list MetadataChange) :=
  if decide (before = after) then Ok out else
  match before, after with
  | JObject la, JObject lb =>
      let visit := (fix go (l : list (bytes * json)) := match l with
        | [] => []
        | (k, x) :: l => (k, differences x) :: go l
        end) la in
      fold_res (λ out k,
        let path := path ++ lit "/" ++ pointerToken k in
        match assoc k visit, member k lb with
        | Some f, Some y => f y path out
        | Some _, None => push_change (member k la) None path out
        | None, y => push_change None y path out
        end) out (key_set la lb)
  | _, _ => push_change (Some before) (Some after) path out
  end.

(** ** Decoding *)
Section decoding.

(** [Json::parse], the library's parser; [None] is its exception. *)
Context (json_parse : bytes → option json).

Definition parse (s : bytes) : result string json :=
  _ ← check (negb (maximumMetadataBytes + 65536 <? len s)) "envelope/session document exceeds limit";
  of_option "[json.exception.parse_error.101]" (json_parse s).

(** [get<std::vector<std::string>>()] and [get<std::map<std::string, std::string>>()]. *)
Definition get_strings (j : json) : result string (list bytes) :=
  match j with
  | JArray l => fold_res (λ acc x, s ← get_string x; Ok (acc ++ [s])) [] l
  | _ => Err "[json.exception.type_error.302]"
  end.

Definition get_map (j : json) : result string string_map :=
  match j with
  | JObject l => fold_res (λ acc kv, s ← get_string kv.2; Ok (acc ++ [(kv.1, s)])) [] l
  | _ => Err "[json.exception.type_error.302]"
  end.

(** [is_number_unsigned()] with its value. *)
Definition unsigned_value (j : json) : option Z :=
  match j with JInt z => if 0 <=? z then Some z else None | _ => None end.

Definition parseMetadata (j : json) : result string FileMetadata :=
  _ ← check (is_object j && (json_size j =? 7)%nat) "invalid envelope classification schema";
  t ← at_key j (lit "title") ≫= get_string;
  d ← at_key j (lit "description") ≫= get_string;
  k ← at_key j (lit "keywords") ≫= get_strings;
  jr ← at_key j (lit "rating");
  jc ← at_key j (lit "color");
  r ← of_option "invalid envelope classification values" (unsigned_value jr);
  c ← of_option "invalid envelope classification values" (unsigned_value jc);
  _ ← check (negb ((5 <? r) || (7 <? c))) "invalid envelope classification values";
  col ← of_option "invalid envelope classification values" (color_of_code c);
  f ← at_key j (lit "fields") ≫= get_map;
  cs ← at_key j (lit "collections") ≫= get_strings;
  let m := {| title := t; description := d; keywords := k; rating := r; color := col;
              fields := f; collections := cs |} in
  _ ← metadataJson m;
  Ok m.

Definition is_schema_one (j : json) : bool := match j with JInt 1 => true | _ => false end.

Definition decodeRawMetadata (s : bytes) : result string RawMetadata :=
  j ← parse s;
  _ ← check (is_object j && (json_size j =? 4)%nat) "unknown RAW envelope schema";
  v ← at_key j (lit "schemaVersion");
  _ ← check (is_schema_one v) "unknown RAW envelope schema";
  n ← at_key j (lit "originalName") ≫= get_string;
  t ← at_key j (lit "mediaType") ≫= get_string;
  m ← at_key j (lit "metadata") ≫= parseMetadata;
  let raw := {| originalName := n; mediaType := t; annotations := m |} in
  e ← encodeRawMetadata raw;
  _ ← check (bool_decide (e = s)) "noncanonical RAW metadata";
  Ok raw.

Definition decodeSessionContext (s : bytes) : result string ObjectSessionContext :=
  if bool_decide (s = []) then Ok empty_context else
  j ← parse s;
  _ ← check (is_object j && (json_size j =? 6)%nat) "unknown work-session context schema";
  v ← at_key j (lit "schemaVersion");
  _ ← check (is_schema_one v) "unknown work-session context schema";
  a ← at_key j (lit "application") ≫= get_string;
  av ← at_key j (lit "applicationVersion") ≫= get_string;
  p ← at_key j (lit "project") ≫= get_string;
  d ← at_key j (lit "document") ≫= get_string;
  at_ ← at_key j (lit "attributes") ≫= get_map;
  let result := {| application := a; applicationVersion := av; project := p; document := d;
                   attributes := at_ |} in
  e ← encodeSessionContext result;
  _ ← check (bool_decide (e = s)) "noncanonical work-session context";
  Ok result.

(** The metadata of a RAW document, [{}] for no document. *)
Definition document_metadata (s : bytes) : result string json :=
  if bool_decide (s = []) then Ok (JObject []) else
  raw ← decodeRawMetadata s;
  metadataJson (annotations raw).

Definition metadataChanges (before after : bytes) : result string (list MetadataChange) :=
  a ← document_metadata before;
  b ← document_metadata after;
  differences a b [] [].
End decoding.
