(* ===== verification/Sha256.v ===== *)
(** SHA-256 twice: the native streaming hash (Native/src/Crypto/Sha256.cpp) and
    the object store's portable one (src/Objects/ObjectHash.cpp).  Both are
    proved to compute the SHA-256 of FIPS 180-4, stated independently in the
    module [Fips], on the concatenation of whatever is fed to [update]. *)
From S2P Require Import Prelude.
Local Open Scope Z_scope.

(** [std::rotr] on [std::uint32_t]. *)
Definition rotr (x : Z) (n : Z) : Z := Z.lor (Z.shiftr x n) (u32 (Z.shiftl x (32 - n))).

(** Unsigned 32-bit addition and complement. *)
Definition add32 (x y : Z) : Z := u32 (x + y).
Definition not32 (x : Z) : Z := Z.lxor x UINT32_MAX.

Infix "+w" := add32 (at level 50, left associativity).
Infix "⊕" := Z.lxor (at level 49, left associativity).

(** [std::array] subscript of a word array. *)
Definition word (ws : list Z) (i : nat) : Z := ws !!! i.

(** The eight working variables [a .. h]. *)
Definition vars : Type := Z * Z * Z * Z * Z * Z * Z * Z.

Definition vars_of (s : list Z) : vars :=
  (word s 0, word s 1, word s 2, word s 3, word s 4, word s 5, word s 6, word s 7).

(** ** The native hash *)
Module Sha256.

Definition constants : list Z :=
  [0x428A2F98; 0x71374491; 0xB5C0FBCF; 0xE9B5DBA5; 0x3956C25B; 0x59F111F1; 0x923F82A4;
   0xAB1C5ED5; 0xD807AA98; 0x12835B01; 0x243185BE; 0x550C7DC3; 0x72BE5D74; 0x80DEB1FE;
   0x9BDC06A7; 0xC19BF174; 0xE49B69C1; 0xEFBE4786; 0x0FC19DC6; 0x240CA1CC; 0x2DE92C6F;
   0x4A7484AA; 0x5CB0A9DC; 0x76F988DA; 0x983E5152; 0xA831C66D; 0xB00327C8; 0xBF597FC7;
   0xC6E00BF3; 0xD5A79147; 0x06CA6351; 0x14292967; 0x27B70A85; 0x2E1B2138; 0x4D2C6DFC;
   0x53380D13; 0x650A7354; 0x766A0ABB; 0x81C2C92E; 0x92722C85; 0xA2BFE8A1; 0xA81A664B;
   0xC24B8B70; 0xC76C51A3; 0xD192E819; 0xD6990624; 0xF40E3585; 0x106AA070; 0x19A4C116;
   0x1E376C08; 0x2748774C; 0x34B0BCB5; 0x391C0CB3; 0x4ED8AA4A; 0x5B9CCA4F; 0x682E6FF3;
   0x748F82EE; 0x78A5636F; 0x84C87814; 0x8CC70208; 0x90BEFFFA; 0xA4506CEB; 0xBEF9A3F7;
   0xC67178F2].

Definition initial_state : list Z :=
  [0x6A09E667; 0xBB67AE85; 0x3C6EF372; 0xA54FF53A; 0x510E527F; 0x9B05688C; 0x1F83D9AB;
   0x5BE0CD19].

Record t := {
  m_state : list Z;
  m_pending : bytes;
  m_bytes : Z;
  m_pendingSize : nat
}.

Definition init : t := {|
  m_state := initial_state;
  m_pending := replicate 64 (Zbyte 0);
  m_bytes := 0;
  m_pendingSize := 0
|}.

Definition block_byte (block : bytes) (i : nat) : Z := byteZ (nth i block (Zbyte 0)).

Definition load_word (block : bytes) (i : nat) : Z :=
  Z.lor (Z.lor (Z.lor (Z.shiftl (block_byte block (i * 4)) 24)
                      (Z.shiftl (block_byte block (i * 4 + 1)) 16))
               (Z.shiftl (block_byte block (i * 4 + 2)) 8))
        (block_byte block (i * 4 + 3)).

Definition expand_word (words : list Z) (i : nat) : list Z :=
  let a := word words (i - 15) in
  let b := word words (i - 2) in
  let small0 := rotr a 7 ⊕ rotr a 18 ⊕ Z.shiftr a 3 in
  let small1 := rotr b 17 ⊕ rotr b 19 ⊕ Z.shiftr b 10 in
  <[i := word words (i - 16) +w small0 +w word words (i - 7) +w small1]> words.

Definition schedule (block : bytes) : list Z :=
  let words := replicate 64 0 in
  let words := foldl (λ ws i, <[i := load_word block i]> ws) words (seq 0 16) in
  foldl expand_word words (seq 16 48).

Definition round (words : list Z) (v : vars) (i : nat) : vars :=
  let '(a, b, c, d, e, f, g, h) := v in
  let big1 := rotr e 6 ⊕ rotr e 11 ⊕ rotr e 25 in
  let choice := Z.land e f ⊕ Z.land (not32 e) g in
  let first := h +w big1 +w choice +w word constants i +w word words i in
  let big0 := rotr a 2 ⊕ rotr a 13 ⊕ rotr a 22 in
  let majority := Z.land a b ⊕ Z.land a c ⊕ Z.land b c in
  (first +w big0 +w majority, a, b, c, d +w first, e, f, g).

(** [transform] only changes [m_state]. *)
Definition transform (state : list Z) (block : bytes) : list Z :=
  let words := schedule block in
  let '(a, b, c, d, e, f, g, h) := foldl (round words) (vars_of state) (seq 0 64) in
  [word state 0 +w a; word state 1 +w b; word state 2 +w c; word state 3 +w d;
   word state 4 +w e; word state 5 +w f; word state 6 +w g; word state 7 +w h].

(** [while (input.size() >= 64)]: the state reached and the bytes left. *)
Fixpoint absorb (fuel : nat) (state : list Z) (input : bytes) : list Z * bytes :=
  match fuel with
  | O => (state, input)
  | S fuel =>
      if (64 <=? length input)%nat
      then absorb fuel (transform state (take 64 input)) (drop 64 input)
      else (state, input)
  end.

Definition maximumBytes : Z := UINT64_MAX / 8.

Definition length_error : string := "SHA-256 message exceeds its 64-bit bit length".

Definition update (s : t) (input : bytes) : result string t :=
  if u64 (maximumBytes - m_bytes s) <? len input then Err length_error else
  let total := u64 (m_bytes s + len input) in
  let '(state, pending, size, input) :=
    if (m_pendingSize s =? 0)%nat
    then (m_state s, m_pending s, m_pendingSize s, input)
    else
      let n := (length input `min` (64 - m_pendingSize s))%nat in
      let pending := splice (m_pending s) (m_pendingSize s) (take n input) in
      let size := (m_pendingSize s + n)%nat in
      if (size =? 64)%nat
      then (transform (m_state s) pending, pending, 0%nat, drop n input)
      else (m_state s, pending, size, drop n input) in
  let '(state, input) := absorb (length input) state input in
  Ok (if (length input =? 0)%nat
      then {| m_state := state; m_pending := pending; m_bytes := total;
              m_pendingSize := size |}
      else {| m_state := state; m_pending := splice pending 0 input; m_bytes := total;
              m_pendingSize := length input |}).

(** [block[63 - i] = bits >> (8 * i)] for [i < 8]. *)
Definition length_bytes (bits : Z) : bytes :=
  (λ i, Zbyte (Z.shiftr bits (8 * Z.of_nat i))) <$> rev (seq 0 8).

(** The state words written most significant byte first. *)
Definition word_bytes (w : Z) : bytes :=
  (λ j, Zbyte (Z.shiftr w (24 - 8 * Z.of_nat j))) <$> seq 0 4.

Definition digest (s : t) : bytes :=
  let bits := u64 (m_bytes s * 8) in
  let block := splice (m_pending s) (m_pendingSize s) [Zbyte 0x80] in
  let used := S (m_pendingSize s) in
  let '(state, block, used) :=
    if (56 <? used)%nat
    then let block := splice block used (replicate (64 - used) (Zbyte 0)) in
         (transform (m_state s) block, block, 0%nat)
    else (m_state s, block, used) in
  let block := splice block used (replicate (56 - used) (Zbyte 0)) in
  let block := splice block 56 (length_bytes bits) in
  let state := transform state block in
  (word state <$> seq 0 8) ≫= word_bytes.

Definition hex_byte (b : ascii) : bytes :=
  [hex_digit (Z.shiftr (byteZ b) 4); hex_digit (Z.land (byteZ b) 15)].

Definition hexDigest (s : t) : bytes := digest s ≫= hex_byte.

Definition sha256 (input : bytes) : result string bytes :=
  s ← update init input; Ok (hexDigest s).

End Sha256.

(** ** The portable hash of the object store *)

Module ObjectHash.

Record t := {
  state : list Z;
  pending : bytes;
  length_ : Z;
  used : nat
}.

Definition init : t := {|
  state := [0x6A09E667; 0xBB67AE85; 0x3C6EF372; 0xA54FF53A; 0x510E527F; 0x9B05688C;
            0x1F83D9AB; 0x5BE0CD19];
  pending := replicate 64 (Zbyte 0);
  length_ := 0;
  used := 0
|}.

Definition k : list Z :=
  [0x428A2F98; 0x71374491; 0xB5C0FBCF; 0xE9B5DBA5; 0x3956C25B; 0x59F111F1; 0x923F82A4; 0xAB1C5ED5;
   0xD807AA98; 0x12835B01; 0x243185BE; 0x550C7DC3; 0x72BE5D74; 0x80DEB1FE; 0x9BDC06A7; 0xC19BF174;
   0xE49B69C1; 0xEFBE4786; 0x0FC19DC6; 0x240CA1CC; 0x2DE92C6F; 0x4A7484AA; 0x5CB0A9DC; 0x76F988DA;
   0x983E5152; 0xA831C66D; 0xB00327C8; 0xBF597FC7; 0xC6E00BF3; 0xD5A79147; 0x06CA6351; 0x14292967;
   0x27B70A85; 0x2E1B2138; 0x4D2C6DFC; 0x53380D13; 0x650A7354; 0x766A0ABB; 0x81C2C92E; 0x92722C85;
   0xA2BFE8A1; 0xA81A664B; 0xC24B8B70; 0xC76C51A3; 0xD192E819; 0xD6990624; 0xF40E3585; 0x106AA070;
   0x19A4C116; 0x1E376C08; 0x2748774C; 0x34B0BCB5; 0x391C0CB3; 0x4ED8AA4A; 0x5B9CCA4F; 0x682E6FF3;
   0x748F82EE; 0x78A5636F; 0x84C87814; 0x8CC70208; 0x90BEFFFA; 0xA4506CEB; 0xBEF9A3F7; 0xC67178F2].

Definition data_at (data : bytes) (i : nat) : Z := byteZ (nth i data (Zbyte 0)).

Definition w_load (data : bytes) (w : list Z) (i : nat) : list Z :=
  <[i := Z.lor (Z.lor (Z.lor (Z.shiftl (data_at data (i * 4)) 24)
                             (Z.shiftl (data_at data (i * 4 + 1)) 16))
                      (Z.shiftl (data_at data (i * 4 + 2)) 8))
               (data_at data (i * 4 + 3))]> w.

Definition w_expand (w : list Z) (i : nat) : list Z :=
  let a := word w (i - 15) in
  let b := word w (i - 2) in
  <[i := word w (i - 16) +w (rotr a 7 ⊕ rotr a 18 ⊕ Z.shiftr a 3) +w word w (i - 7)
         +w (rotr b 17 ⊕ rotr b 19 ⊕ Z.shiftr b 10)]> w.

Definition round (w : list Z) (v : vars) (i : nat) : vars :=
  let '(a, b, c, d, e, f, g, h) := v in
  let t1 := h +w (rotr e 6 ⊕ rotr e 11 ⊕ rotr e 25)
              +w (Z.land e f ⊕ Z.land (not32 e) g) +w word k i +w word w i in
  let t2 := (rotr a 2 ⊕ rotr a 13 ⊕ rotr a 22)
              +w (Z.land a b ⊕ Z.land a c ⊕ Z.land b c) in
  (t1 +w t2, a, b, c, d +w t1, e, f, g).

(** [block] only changes [state]. *)
Definition block (state : list Z) (data : bytes) : list Z :=
  let w := replicate 64 0 in
  let w := foldl (w_load data) w (seq 0 16) in
  let w := foldl w_expand w (seq 16 48) in
  let '(a, b, c, d, e, f, g, h) := foldl (round w) (vars_of state) (seq 0 64) in
  let result := [a; b; c; d; e; f; g; h] in
  (λ i, word state i +w word result i) <$> seq 0 8.

(** One iteration of [while (!bytes.empty())]. *)
Definition update_step (s : t) (input : bytes) : t * bytes :=
  let n := (length input `min` (64 - used s))%nat in
  let pending := splice (pending s) (used s) (take n input) in
  let used := (used s + n)%nat in
  (if (used =? 64)%nat
   then {| state := block (state s) pending; pending := pending;
           length_ := length_ s; used := 0 |}
   else {| state := state s; pending := pending;
           length_ := length_ s; used := used |},
   drop n input).

Fixpoint update_loop (fuel : nat) (s : t) (input : bytes) : t :=
  match fuel with
  | O => s
  | S fuel =>
      match input with
      | [] => s
      | _ => let '(s, input) := update_step s input in update_loop fuel s input
      end
  end.

Definition length_error : string := "SHA-256 input too large".

Definition update (s : t) (input : bytes) : result string t :=
  if u64 (UINT64_MAX / 8 - length_ s) <? len input then Err length_error else
  Ok (update_loop (length input)
        {| state := state s; pending := pending s;
           length_ := u64 (length_ s + len input); used := used s |} input).

(** [for (shift = 28; shift >= 0; shift -= 4) result += hex[(word >> shift) & 15]]. *)
Definition hex_word (w : Z) : bytes :=
  (λ shift, hex_digit (Z.land (Z.shiftr w shift) 15)) <$> [28; 24; 20; 16; 12; 8; 4; 0].

Definition finish (s : t) : bytes :=
  let bits := u64 (length_ s * 8) in
  let p := splice (pending s) (used s) [Zbyte 0x80] in
  let u := S (used s) in
  let '(st, p, u) :=
    if (56 <? u)%nat
    then let p := splice p u (replicate (64 - u) (Zbyte 0)) in
         (block (state s) p, p, 0%nat)
    else (state s, p, u) in
  let p := splice p u (replicate (56 - u) (Zbyte 0)) in
  let p := splice p 56 ((λ i, Zbyte (Z.shiftr bits (8 * Z.of_nat i))) <$> rev (seq 0 8)) in
  block st p ≫= hex_word.

Definition digest (input : bytes) : result string bytes :=
  s ← update init input; Ok (finish s).

End ObjectHash.

(** ** FIPS 180-4

    SHA-256 as the standard states it, on its own: nothing below is shared with
    the two implementations.  The constants are computed from the primes,
    rotation is arithmetic, the schedule is a growing list and the message is
    padded and cut into blocks before the first one is compressed. *)
Module Fips.

(** The integer part of the [k]-th root of [n], for [n < 2 ^ (48 * k)], bit by bit. *)
Definition root (k n : Z) : Z :=
  foldl (λ r i, let s := r + 2 ^ Z.of_nat i in if s ^ k <=? n then s else r) 0 (rev (seq 0 48)).

Definition prime (n : nat) : bool := forallb (λ d, negb (n mod d =? 0)%nat) (seq 2 (n - 2)).

Definition primes (count : nat) : list nat := take count (List.filter prime (seq 2 400)).

(** The first 32 bits of the fractional part of the [k]-th root of [p]. *)
Definition fractional_bits (k : Z) (p : nat) : Z := root k (Z.of_nat p * 2 ^ (32 * k)) mod 2 ^ 32.

(** Section 4.2.2, from the cube roots of the first 64 primes, and section
    5.3.3, from the square roots of the first 8. *)
Definition K : list Z := fractional_bits 3 <$> primes 64.
Definition H0 : list Z := fractional_bits 2 <$> primes 8.

(** Sections 2.2.2, 3.2 and 4.1.2 on 32-bit words. *)
Definition plus (x y : Z) : Z := (x + y) mod 2 ^ 32.
Definition SHR (n x : Z) : Z := x / 2 ^ n.
Definition ROTR (n x : Z) : Z := x / 2 ^ n + x mod 2 ^ n * 2 ^ (32 - n).
Definition Ch (x y z : Z) : Z := Z.lxor (Z.land x y) (Z.ldiff z x).
Definition Maj (x y z : Z) : Z := Z.lxor (Z.lxor (Z.land x y) (Z.land x z)) (Z.land y z).
Definition Sigma0 (x : Z) : Z := Z.lxor (Z.lxor (ROTR 2 x) (ROTR 13 x)) (ROTR 22 x).
Definition Sigma1 (x : Z) : Z := Z.lxor (Z.lxor (ROTR 6 x) (ROTR 11 x)) (ROTR 25 x).
Definition sigma0 (x : Z) : Z := Z.lxor (Z.lxor (ROTR 7 x) (ROTR 18 x)) (SHR 3 x).
Definition sigma1 (x : Z) : Z := Z.lxor (Z.lxor (ROTR 17 x) (ROTR 19 x)) (SHR 10 x).

(** Section 5.1.1: a one bit, the fewest zeros that leave 64 bits of the last
    block, and the length in bits. *)
Fixpoint big_endian (count : nat) (x : Z) : bytes :=
  match count with
  | O => []
  | S count => big_endian count (x / 2 ^ 8) ++ [Zbyte (x mod 2 ^ 8)]
  end.

Definition padding (m : bytes) : bytes :=
  Zbyte 128 :: replicate (Z.to_nat ((55 - len m) mod 64)) (Zbyte 0) ++ big_endian 8 (8 * len m).

(** Section 5.2.1: big-endian words, sixteen to a block. *)
Fixpoint words (m : bytes) : list Z :=
  match m with
  | a :: b :: c :: d :: m =>
      (byteZ a * 2 ^ 24 + byteZ b * 2 ^ 16 + byteZ c * 2 ^ 8 + byteZ d) :: words m
  | _ => []
  end.

(** Section 6.2.2, step 1: [W t] from the words before it. *)
Definition extend (W : list Z) : list Z :=
  let t := length W in
  W ++ [plus (plus (plus (sigma1 (W !!! (t - 2)%nat)) (W !!! (t - 7)%nat))
                   (sigma0 (W !!! (t - 15)%nat))) (W !!! (t - 16)%nat)].

Definition schedule (M : list Z) : list Z := Nat.iter 48 extend M.

(** Steps 2 to 4. *)
Definition step (v : list Z) (KW : Z * Z) : list Z :=
  match v with
  | [a; b; c; d; e; f; g; h] =>
      let T1 := plus (plus (plus (plus h (Sigma1 e)) (Ch e f g)) KW.1) KW.2 in
      let T2 := plus (Sigma0 a) (Maj a b c) in
      [plus T1 T2; a; b; c; plus d T1; e; f; g]
  | _ => v
  end.

Definition compress (H M : list Z) : list Z :=
  zip_with plus (foldl step H (zip K (schedule M))) H.

Definition sha256 (m : bytes) : bytes :=
  let M := m ++ padding m in
  let block i := words (take 64 (drop (64 * i) M)) in
  foldl compress H0 (block <$> seq 0 (length M / 64)) ≫= big_endian 4.

(** A digest as lower case hexadecimal text. *)
Definition hex (d : bytes) : bytes :=
  let digit n := nth (Z.to_nat n) (lit "0123456789abcdef") "0"%char in
  d ≫= λ b, [digit (byteZ b / 16); digit (byteZ b mod 16)].

End Fips.

(** ** The whole message at once

    What streaming comes to: the padded message absorbed by the native code's
    own block function.  It is the step between the two implementations and the
    standard. *)
Definition padded (m : bytes) : bytes :=
  let k := ((119 - length m mod 64) mod 64)%nat in
  m ++ [Zbyte 0x80] ++ replicate k (Zbyte 0) ++ Sha256.length_bytes (u64 (len m * 8)).

Definition blocked (m : bytes) : list Z :=
  (Sha256.absorb (length (padded m)) Sha256.initial_state (padded m)).1.

Definition blocked_hex (m : bytes) : bytes :=
  ((word (blocked m) <$> seq 0 8) ≫= Sha256.word_bytes) ≫= Sha256.hex_byte.

(** ** The two block functions agree *)
Section blocks.
Import Sha256.

Lemma add32_assoc x y z : x +w (y +w z) = x +w y +w z.
Proof.
  unfold add32. rewrite !u32_mod, Zplus_mod_idemp_l, Zplus_mod_idemp_r.
  f_equal. lia.
Qed.

Lemma round_agrees ws v i : ObjectHash.round ws v i = round ws v i.
Proof.
  destruct v as [[[[[[[a b] c] d] e] f] g] h]. unfold ObjectHash.round, round.
  change ObjectHash.k with constants. by rewrite add32_assoc.
Qed.

Lemma foldl_ext_eq {A B} (f g : A → B → A) a l :
  (∀ x y, f x y = g x y) → foldl f a l = foldl g a l.
Proof. intros E. revert a. induction l; simpl; intros; [done|]. by rewrite E. Qed.

Lemma w_load_agrees b : ObjectHash.w_load b = λ ws i, <[i:=load_word b i]> ws.
Proof. reflexivity. Qed.

Lemma w_expand_agrees : ObjectHash.w_expand = expand_word.
Proof. reflexivity. Qed.

Lemma block_agrees st b : ObjectHash.block st b = transform st b.
Proof.
  unfold ObjectHash.block, transform, schedule. rewrite w_load_agrees, w_expand_agrees.
  generalize (foldl expand_word
    (foldl (λ ws i, <[i:=load_word b i]> ws) (replicate 64 0) (seq 0 16)) (seq 16 48)).
  intros ws. rewrite (foldl_ext_eq _ (round ws)) by apply round_agrees.
  generalize (foldl (round ws) (vars_of st) (seq 0 64)).
  intros [[[[[[[a ?] c] d] e] f] g] h]. reflexivity.
Qed.
End blocks.

(** ** Absorbing whole blocks *)
Section absorb.
Import Sha256.

Lemma absorb_short fuel st m : (length m < 64)%nat → absorb fuel st m = (st, m).
Proof. intros H. destruct fuel; cbn [absorb]; [done|]. destruct (Nat.leb_spec 64 (length m)); [lia|done]. Qed.

Lemma absorb_fuel f1 f2 st m :
  (length m ≤ f1)%nat → (length m ≤ f2)%nat → absorb f1 st m = absorb f2 st m.
Proof.
  revert f2 st m. induction f1 as [|f1 IH]; intros f2 st m H1 H2.
  { rewrite !absorb_short by lia. done. }
  destruct f2 as [|f2]; [rewrite !absorb_short by lia; done|].
  cbn [absorb]. destruct (Nat.leb_spec 64 (length m)); [|done].
  apply IH; rewrite length_drop; lia.
Qed.

(** [absorb] with exactly enough fuel. *)
Definition absorb_all (st : list Z) (m : bytes) : list Z * bytes := absorb (length m) st m.

Lemma absorb_all_block st b m :
  length b = 64%nat → absorb_all st (b ++ m) = absorb_all (transform st b) m.
Proof.
  intros Hb. unfold absorb_all.
  rewrite length_app, Hb. change (64 + length m)%nat with (S (63 + length m)). cbn [absorb].
  rewrite length_app, Hb.
  replace (64 <=? 64 + length m)%nat with true by (symmetry; apply Nat.leb_le; lia).
  rewrite <-Hb at 1 2. rewrite take_app_length, drop_app_length. apply absorb_fuel; lia.
Qed.

Lemma absorb_all_short st m : (length m < 64)%nat → absorb_all st m = (st, m).
Proof. apply absorb_short. Qed.

(** Splits a long message into its first block and the rest. *)
Lemma absorb_all_long st m :
  (64 ≤ length m)%nat →
  absorb_all st m = absorb_all (transform st (take 64 m)) (drop 64 m).
Proof.
  intros H. rewrite <-(take_drop 64 m) at 1.
  apply absorb_all_block. rewrite length_take. lia.
Qed.

Lemma absorb_all_mod st m st' r :
  absorb_all st m = (st', r) → length r = (length m mod 64)%nat.
Proof.
  remember (length m) as n eqn:Hn. revert st m Hn.
  induction (lt_wf n) as [n _ IH]. intros st m -> E.
  destruct (decide (length m < 64)%nat).
  - rewrite absorb_all_short in E by done. simplify_eq. by rewrite Nat.mod_small.
  - rewrite absorb_all_long in E by lia. erewrite IH; [| |reflexivity|exact E].
    + rewrite length_drop. replace (length m) with (length m - 64 + 1 * 64)%nat at 2 by lia.
      by rewrite Nat.Div0.mod_add.
    + rewrite length_drop. lia.
Qed.

Lemma absorb_all_rest st m st' r : absorb_all st m = (st', r) → (length r < 64)%nat.
Proof. intros E. rewrite (absorb_all_mod _ _ _ _ E). by apply Nat.mod_upper_bound. Qed.

(** Absorbing in two goes is absorbing the concatenation. *)
Lemma absorb_all_app st m1 m2 st1 r1 :
  absorb_all st m1 = (st1, r1) → absorb_all st (m1 ++ m2) = absorb_all st1 (r1 ++ m2).
Proof.
  remember (length m1) as n eqn:Hn. revert st m1 Hn.
  induction (lt_wf n) as [n _ IH]. intros st m1 -> E.
  destruct (decide (length m1 < 64)%nat).
  - rewrite absorb_all_short in E by done. by simplify_eq.
  - rewrite absorb_all_long in E by lia.
    rewrite (absorb_all_long st (m1 ++ m2)) by (rewrite length_app; lia).
    rewrite take_app_le, drop_app_le by lia.
    eapply IH; [|reflexivity|exact E]. rewrite length_drop. lia.
Qed.
End absorb.

(** ** What a hash object holds

    After hashing [m], the state has absorbed the whole blocks of [m], the first
    [size] bytes of the pending array are what is left of it, and the counter is
    the length of [m]. *)
Definition holds (state : list Z) (pending : bytes) (size : nat) (total : Z) (m : bytes) : Prop :=
  length pending = 64%nat ∧ (size < 64)%nat ∧
  absorb_all Sha256.initial_state m = (state, take size pending) ∧
  total = len m ∧ len m <= Sha256.maximumBytes.

Definition sha_holds (s : Sha256.t) : bytes → Prop :=
  holds (Sha256.m_state s) (Sha256.m_pending s) (Sha256.m_pendingSize s) (Sha256.m_bytes s).

Definition object_holds (s : ObjectHash.t) : bytes → Prop :=
  holds (ObjectHash.state s) (ObjectHash.pending s) (ObjectHash.used s) (ObjectHash.length_ s).

Section streaming.
Import Sha256.

Lemma maximumBytes_value : maximumBytes = 2305843009213693951.
Proof. reflexivity. Qed.

Lemma holds_init : holds initial_state (replicate 64 (Zbyte 0)) 0 0 [].
Proof.
  unfold holds. repeat apply conj; try reflexivity; [lia|]. rewrite maximumBytes_value. simpl. lia.
Qed.

(** The room left for more input, as computed on 64-bit counters. *)
Lemma room_value st p n total m :
  holds st p n total m → u64 (maximumBytes - total) = maximumBytes - len m.
Proof.
  intros (_ & _ & _ & -> & Hm). rewrite maximumBytes_value in *.
  apply u64_small. unfold UINT64_MAX. lia.
Qed.

Lemma total_value st p n total m (input : bytes) :
  holds st p n total m → len input <= maximumBytes - len m →
  u64 (total + len input) = len (m ++ input).
Proof.
  intros (_ & _ & _ & -> & Hm) Hi. rewrite maximumBytes_value in *.
  rewrite length_app, Nat2Z.inj_add. apply u64_small. unfold UINT64_MAX. lia.
Qed.

(** Filling the pending array up to a whole block, or with all of the input. *)
Lemma holds_fill st p n total m (input : bytes) :
  holds st p n total m → len input <= maximumBytes - len m →
  let k := (length input `min` (64 - n))%nat in
  let p' := splice p n (take k input) in
  let st' := if (n + k =? 64)%nat then transform st p' else st in
  let n' := if (n + k =? 64)%nat then 0%nat else (n + k)%nat in
  holds st' p' n' (len (m ++ take k input)) (m ++ take k input).
Proof.
  intros (Hp & Hn & Ha & -> & Hm) Hi k p' st' n'.
  assert (Hk : length (take k input) = k) by (rewrite length_take; unfold k; lia).
  assert (Hp' : length p' = 64%nat) by (unfold p'; rewrite length_splice; lia).
  assert (Ht : take (n + k) p' = take n p ++ take k input).
  { unfold p'. rewrite <-Hk at 1. apply take_splice. lia. }
  assert (Hmax : len (m ++ take k input) <= maximumBytes).
  { rewrite length_app, Hk, Nat2Z.inj_add. unfold k. lia. }
  assert (E : absorb_all initial_state (m ++ take k input) = absorb_all st (take (n + k) p')).
  { rewrite Ht. by apply absorb_all_app. }
  unfold st', n'. destruct (Nat.eqb_spec (n + k) 64) as [Hf|Hf].
  - unfold holds; split_and!; [done|lia| |done|done]. rewrite E, Hf, take_ge by lia.
    trans (absorb_all st (p' ++ [])); [by rewrite app_nil_r|].
    by rewrite absorb_all_block, absorb_all_short by (simpl; lia).
  - assert (n + k < 64)%nat by (unfold k in *; lia).
    unfold holds; split_and!; [done|lia| |done|done]. rewrite E.
    apply absorb_all_short. rewrite length_take. lia.
Qed.

(** The second half of the native [update], from a message [m1] whose pending
    array is empty or which is followed by nothing. *)
Lemma holds_blocks st1 p1 n1 m1 rest :
  holds st1 p1 n1 (len m1) m1 → len (m1 ++ rest) <= maximumBytes →
  n1 = 0%nat ∨ rest = [] →
  let '(state, r) := absorb (length rest) st1 rest in
  holds state (if (length r =? 0)%nat then p1 else splice p1 0 r)
    (if (length r =? 0)%nat then n1 else length r) (len (m1 ++ rest)) (m1 ++ rest).
Proof.
  intros (Hp1 & Hn1 & Ha1 & _ & Hm1) Hmax Hcase. fold (absorb_all st1 rest).
  destruct (absorb_all st1 rest) as [st2 r2] eqn:E2.
  pose proof (absorb_all_rest _ _ _ _ E2) as Hr2.
  pose proof (absorb_all_app _ _ rest _ _ Ha1) as Ea.
  destruct (Nat.eqb_spec (length r2) 0) as [Hz|Hz].
  - unfold holds; split_and!; [done..| |done|done]. rewrite Ea. destruct Hcase as [->| ->].
    + rewrite take_0. simpl. rewrite E2. by apply nil_length_inv in Hz as ->.
    + rewrite absorb_all_short in E2 by (simpl; lia). simplify_eq.
      rewrite app_nil_r. rewrite absorb_all_short; [done|rewrite length_take; lia].
  - destruct Hcase as [->| ->].
    2:{ rewrite absorb_all_short in E2 by (simpl; lia). by simplify_eq. }
    unfold holds; split_and!; [rewrite length_splice; lia|done| |done|done].
    rewrite Ea, take_0. simpl. rewrite E2. f_equal.
    pose proof (take_splice p1 0 r2) as Hts. rewrite take_0 in Hts. simpl in Hts.
    by rewrite Hts by lia.
Qed.

(** The native [update]: the whole message is absorbed, or it is too long. *)
Lemma update_holds s m input :
  sha_holds s m → len m + len input <= maximumBytes →
  ∃ s', update s input = Ok s' ∧ sha_holds s' (m ++ input).
Proof.
  intros Hs Hi. unfold update. rewrite (room_value _ _ _ _ _ Hs).
  destruct (Z.ltb_spec (maximumBytes - len m) (len input)); [lia|].
  rewrite (total_value _ _ _ _ _ input Hs) by lia.
  pose proof (holds_fill _ _ _ _ _ input Hs ltac:(lia)) as Hfill. cbn zeta in Hfill.
  destruct s as [st p total n]. unfold sha_holds in *.
  cbn [m_state m_pending m_bytes m_pendingSize] in *.
  set (k := (length input `min` (64 - n))%nat) in *.
  assert (Hmax : len (m ++ input) <= maximumBytes) by (rewrite length_app; lia).
  assert (Hdone : ∀ st1 p1 n1 m1 rest, holds st1 p1 n1 (len m1) m1 → m1 ++ rest = m ++ input →
    n1 = 0%nat ∨ rest = [] →
    ∃ s', (let '(state, r) := absorb (length rest) st1 rest in
      Ok (if (length r =? 0)%nat
      then {| m_state := state; m_pending := p1; m_bytes := len (m ++ input); m_pendingSize := n1 |}
      else {| m_state := state; m_pending := splice p1 0 r; m_bytes := len (m ++ input);
              m_pendingSize := length r |})) = @Ok string t s' ∧
      holds (m_state s') (m_pending s') (m_pendingSize s') (m_bytes s') (m ++ input)).
  { intros st1 p1 n1 m1 rest H1 Heq Hcase.
    pose proof (holds_blocks st1 p1 n1 m1 rest H1) as Hb. rewrite Heq in Hb.
    specialize (Hb Hmax Hcase). destruct (absorb (length rest) st1 rest) as [st2 r].
    eexists; split; [reflexivity|]. by destruct (length r =? 0)%nat. }
  destruct (Nat.eqb_spec n 0) as [->|Hn0].
  - eapply (Hdone st p 0%nat m input); [|done|by left]. by destruct Hs as (? & ? & ? & -> & ?).
  - destruct (Nat.eqb_spec (n + k) 64) as [Hf|Hf]; eapply (Hdone _ _ _ _ (drop k input));
      [exact Hfill|by rewrite <-app_assoc, take_drop|by left|
       exact Hfill|by rewrite <-app_assoc, take_drop|right].
    apply drop_ge. destruct Hs as (_ & ? & _). unfold k in *. lia.
Qed.

Lemma update_too_long s m input :
  sha_holds s m → maximumBytes < len m + len input → update s input = Err length_error.
Proof.
  intros Hs Hi. unfold update. rewrite (room_value _ _ _ _ _ Hs).
  destruct (Z.ltb_spec (maximumBytes - len m) (len input)); [done|lia].
Qed.

(** One iteration of the portable [update]. *)
Lemma update_step_holds s m input :
  holds (ObjectHash.state s) (ObjectHash.pending s) (ObjectHash.used s) (len m) m →
  len (m ++ input) <= maximumBytes →
  let k := (length input `min` (64 - ObjectHash.used s))%nat in
  let '(s', rest) := ObjectHash.update_step s input in
  rest = drop k input ∧ ObjectHash.length_ s' = ObjectHash.length_ s ∧
  holds (ObjectHash.state s') (ObjectHash.pending s') (ObjectHash.used s')
    (len (m ++ take k input)) (m ++ take k input).
Proof.
  intros Hs Hmax k. unfold ObjectHash.update_step. fold k. split; [done|].
  rewrite length_app in Hmax.
  pose proof (holds_fill _ _ _ _ _ input Hs ltac:(lia)) as Hfill. cbn zeta in Hfill. fold k in Hfill.
  rewrite block_agrees. by destruct (_ =? 64)%nat.
Qed.

(** The portable [update] loop. *)
Lemma update_loop_holds fuel s m input :
  holds (ObjectHash.state s) (ObjectHash.pending s) (ObjectHash.used s) (len m) m →
  len (m ++ input) <= maximumBytes → (length input ≤ fuel)%nat →
  let s' := ObjectHash.update_loop fuel s input in
  ObjectHash.length_ s' = ObjectHash.length_ s ∧
  holds (ObjectHash.state s') (ObjectHash.pending s') (ObjectHash.used s')
    (len (m ++ input)) (m ++ input).
Proof.
  revert s m input. induction fuel as [|fuel IH]; intros s m input Hs Hmax Hf.
  { destruct input; [|simpl in Hf; lia]. simpl. by rewrite app_nil_r. }
  destruct (decide (input = [])) as [->|Hne].
  { simpl. by rewrite app_nil_r. }
  destruct input as [|c input'] eqn:Ei; [done|]. cbn [ObjectHash.update_loop].
  rewrite <-Ei in *. clear c input' Ei.
  pose proof (update_step_holds s m input Hs Hmax) as Hstep. cbn zeta in Hstep.
  destruct (ObjectHash.update_step s input) as [s1 rest].
  destruct Hstep as (-> & Hlen & H1).
  set (k := (length input `min` (64 - ObjectHash.used s))%nat) in *.
  destruct Hs as (_ & Hu & _).
  assert (0 < length input)%nat by (destruct input; [done|simpl; lia]).
  destruct (IH s1 (m ++ take k input) (drop k input)) as [Hl2 H2].
  - done.
  - by rewrite <-app_assoc, take_drop.
  - rewrite length_drop. unfold k. lia.
  - rewrite <-Hlen. split; [done|]. by rewrite <-app_assoc, take_drop in H2.
Qed.

Lemma object_update_holds s m input :
  object_holds s m → len m + len input <= maximumBytes →
  ∃ s', ObjectHash.update s input = Ok s' ∧ object_holds s' (m ++ input).
Proof.
  intros Hs Hi. unfold ObjectHash.update. change (UINT64_MAX / 8) with maximumBytes.
  rewrite (room_value _ _ _ _ _ Hs).
  destruct (Z.ltb_spec (maximumBytes - len m) (len input)); [lia|].
  rewrite (total_value _ _ _ _ _ input Hs) by lia.
  eexists; split; [reflexivity|].
  assert (Hm : len (m ++ input) <= maximumBytes) by (rewrite length_app; lia).
  destruct s as [st p total n]. destruct Hs as (Hp & Hn & Ha & Ht & Hx). simpl in Ht. subst total.
  set (s0 := {| ObjectHash.state := st; ObjectHash.pending := p;
                ObjectHash.length_ := len (m ++ input); ObjectHash.used := n |}).
  destruct (update_loop_holds (length input) s0 m input) as [Hl Hh]; [done..|].
  change (object_holds (ObjectHash.update_loop (length input) s0 input) (m ++ input)).
  unfold object_holds. rewrite Hl. exact Hh.
Qed.

Lemma object_update_too_long s m input :
  object_holds s m → maximumBytes < len m + len input →
  ObjectHash.update s input = Err ObjectHash.length_error.
Proof.
  intros Hs Hi. unfold ObjectHash.update. change (UINT64_MAX / 8) with maximumBytes.
  rewrite (room_value _ _ _ _ _ Hs).
  destruct (Z.ltb_spec (maximumBytes - len m) (len input)); [done|lia].
Qed.
End streaming.

(** ** Finishing a hash *)
Section finishing.
Import Sha256.

Lemma length_length_bytes bits : length (length_bytes bits) = 8%nat.
Proof. reflexivity. Qed.

(** What is appended to the message, in terms of what is still pending. *)
Definition padding (used : nat) (bits : Z) : bytes :=
  [Zbyte 0x80] ++ replicate ((119 - used) mod 64) (Zbyte 0) ++ length_bytes bits.

Lemma pad_holds st p n total m :
  holds st p n total m →
  (n = length m mod 64)%nat ∧ padded m = m ++ padding n (u64 (total * 8)) ∧
  absorb_all initial_state (padded m) = absorb_all st (take n p ++ padding n (u64 (total * 8))).
Proof.
  intros (Hp & Hn & Ha & -> & Hm).
  assert (Hmod : (n = length m mod 64)%nat).
  { rewrite <-(absorb_all_mod _ _ _ _ Ha), length_take. lia. }
  assert (Hpad : padded m = m ++ padding n (u64 (len m * 8))).
  { unfold padded, padding. by rewrite Hmod. }
  split_and!; [done..|]. rewrite Hpad. by apply absorb_all_app.
Qed.

Abbreviation zeros k := (replicate k (Zbyte 0)).

Lemma absorb_all_one st b : length b = 64%nat → absorb_all st b = (transform st b, []).
Proof.
  intros Hb. trans (absorb_all st (b ++ [])); [by rewrite app_nil_r|].
  by rewrite absorb_all_block, absorb_all_short by (simpl; lia).
Qed.

(** Zeroing up to byte 56 and storing the length. *)
Lemma last_block b u bits :
  length b = 64%nat → (u ≤ 56)%nat →
  splice (splice b u (zeros (56 - u))) 56 (length_bytes bits) =
    take u b ++ zeros (56 - u) ++ length_bytes bits.
Proof.
  intros Hb Hu.
  assert (Hz : length (zeros (56 - u)) = (56 - u)%nat) by apply length_replicate.
  assert (Hl : length (splice b u (zeros (56 - u))) = 64%nat) by (rewrite length_splice; lia).
  rewrite splice_all by (rewrite Hl, length_length_bytes; lia).
  pose proof (take_splice b u (zeros (56 - u))) as E. rewrite Hz in E.
  replace (u + (56 - u))%nat with 56%nat in E by lia. rewrite E by lia. by rewrite app_assoc.
Qed.

(** The one or two last blocks, as built in the pending array. *)
Lemma final_blocks st p n bits :
  length p = 64%nat → (n < 64)%nat →
  let block := splice p n [Zbyte 0x80] in
  let '(st', block', used') :=
    if (56 <? S n)%nat
    then (transform st (splice block (S n) (zeros (64 - S n))),
          splice block (S n) (zeros (64 - S n)), 0%nat)
    else (st, block, S n) in
  absorb_all st (take n p ++ padding n bits) =
    (transform st' (splice (splice block' used' (zeros (56 - used'))) 56 (length_bytes bits)), []).
Proof.
  intros Hp Hn block.
  assert (Hb : length block = 64%nat) by (unfold block; rewrite length_splice; simpl; lia).
  assert (Hbt : take (S n) block = take n p ++ [Zbyte 0x80]).
  { pose proof (take_splice p n [Zbyte 0x80]) as E. simpl in E.
    rewrite <-E by lia. f_equal. lia. }
  destruct (Nat.ltb_spec 56 (S n)) as [Hlong|Hshort].
  - set (first := splice block (S n) (zeros (64 - S n))).
    assert (Hf : first = take n p ++ [Zbyte 0x80] ++ zeros (63 - n)).
    { unfold first. rewrite splice_all by (rewrite length_replicate; lia).
      rewrite Hbt, <-app_assoc. done. }
    assert (Hl : length first = 64%nat).
    { rewrite Hf, !length_app, length_take, length_replicate. simpl. lia. }
    rewrite last_block, take_0 by (done || lia).
    replace (take n p ++ padding n bits) with (first ++ zeros 56 ++ length_bytes bits).
    + rewrite absorb_all_block by done. apply absorb_all_one.
      reflexivity.
    + rewrite Hf. unfold padding.
      replace ((119 - n) mod 64)%nat with ((63 - n) + 56)%nat by (rewrite Nat.mod_small; lia).
      by rewrite replicate_add, <-!app_assoc.
  - rewrite last_block by (done || lia). unfold padding.
    replace ((119 - n) mod 64)%nat with (56 - S n)%nat.
    2:{ replace (119 - n)%nat with ((55 - n) + 1 * 64)%nat by lia.
        rewrite Nat.Div0.mod_add, Nat.mod_small; lia. }
    rewrite Hbt, <-app_assoc. apply absorb_all_one.
    rewrite !length_app, length_take, length_replicate, length_length_bytes. simpl. lia.
Qed.

Lemma digest_holds s m :
  sha_holds s m → digest s = (word (blocked m) <$> seq 0 8) ≫= word_bytes.
Proof.
  intros Hs. destruct (pad_holds _ _ _ _ _ Hs) as (_ & _ & Hpad).
  unfold blocked. fold (absorb_all initial_state (padded m)). rewrite Hpad.
  destruct Hs as (Hp & Hn & _). destruct s as [st p total n].
  cbn [m_state m_pending m_bytes m_pendingSize] in *.
  pose proof (final_blocks st p n (u64 (total * 8)) Hp Hn) as Hf. cbn zeta in Hf.
  unfold digest. cbn [m_state m_pending m_bytes m_pendingSize].
  destruct (56 <? S n)%nat; rewrite Hf; cbn [fst]; reflexivity.
Qed.

Lemma hexDigest_holds s m : sha_holds s m → hexDigest s = blocked_hex m.
Proof. intros Hs. unfold hexDigest, blocked_hex. by rewrite (digest_holds s m). Qed.

(** Two hexadecimal digits of a byte are the next two nibbles of the word. *)
Lemma hex_word_bytes w : ObjectHash.hex_word w = word_bytes w ≫= hex_byte.
Proof.
  assert (Hb : ∀ i, 0 <= i → hex_byte (Zbyte (Z.shiftr w i)) =
    [hex_digit (Z.land (Z.shiftr w (i + 4)) 15); hex_digit (Z.land (Z.shiftr w i) 15)]).
  { intros i Hi. unfold hex_byte. rewrite byteZ_Zbyte. unfold u8. f_equal; [f_equal|f_equal; f_equal].
    - change 15 with (Z.ones 4). change 255 with (Z.ones 8).
      apply Z.bits_inj'. intros j Hj.
      rewrite !Z.land_spec, !Z.shiftr_spec, Z.land_spec, Z.shiftr_spec, !Z.testbit_ones by lia.
      f_equal; [f_equal; lia|]. repeat destruct (Z.leb_spec 0 _); repeat destruct (Z.ltb_spec _ _); simpl; lia.
    - by rewrite <-Z.land_assoc. }
  change (word_bytes w ≫= hex_byte) with
    (hex_byte (Zbyte (Z.shiftr w 24)) ++ hex_byte (Zbyte (Z.shiftr w 16)) ++
     hex_byte (Zbyte (Z.shiftr w 8)) ++ hex_byte (Zbyte (Z.shiftr w 0)) ++ []).
  rewrite !Hb by lia. reflexivity.
Qed.

Lemma hex_list_bytes l : l ≫= ObjectHash.hex_word = (l ≫= word_bytes) ≫= hex_byte.
Proof.
  induction l as [|w l IH]; [done|].
  rewrite !bind_cons, bind_app, <-IH, hex_word_bytes. done.
Qed.

(** [transform] returns eight words. *)
Lemma transform_words st b : word (transform st b) <$> seq 0 8 = transform st b.
Proof.
  unfold transform.
  generalize (foldl (round (schedule b)) (vars_of st) (seq 0 64)).
  intros [[[[[[[a ?] c] d] e] f] g] h]. reflexivity.
Qed.

(** The state as hexadecimal text, word by word or through its bytes. *)
Lemma hex_words st b :
  transform st b ≫= ObjectHash.hex_word =
    ((word (transform st b) <$> seq 0 8) ≫= word_bytes) ≫= hex_byte.
Proof. rewrite transform_words. apply hex_list_bytes. Qed.

Lemma finish_holds s m : object_holds s m → ObjectHash.finish s = blocked_hex m.
Proof.
  intros Hs. destruct (pad_holds _ _ _ _ _ Hs) as (_ & _ & Hpad).
  unfold blocked_hex, blocked. fold (absorb_all initial_state (padded m)). rewrite Hpad.
  destruct Hs as (Hp & Hn & _). destruct s as [st p total n].
  cbn [ObjectHash.state ObjectHash.pending ObjectHash.length_ ObjectHash.used] in *.
  pose proof (final_blocks st p n (u64 (total * 8)) Hp Hn) as Hf. cbn zeta in Hf.
  unfold ObjectHash.finish.
  cbn [ObjectHash.state ObjectHash.pending ObjectHash.length_ ObjectHash.used].
  change ((λ i, Zbyte (Z.shiftr (u64 (total * 8)) (8 * Z.of_nat i))) <$> rev (seq 0 8))
    with (length_bytes (u64 (total * 8))).
  rewrite !block_agrees.
  destruct (56 <? S n)%nat; rewrite Hf, block_agrees; cbn [fst]; apply hex_words.
Qed.
End finishing.

(** ** The native hash is the FIPS 180-4 one *)
Section equivalence.
Import Sha256.

Lemma constants_are_roots : constants = Fips.K ∧ initial_state = Fips.H0.
Proof. split; vm_compute; reflexivity. Qed.

(** The roots are the integer parts of the real ones. *)
Lemma roots_are_roots :
  Forall (λ p, let n := Z.of_nat p * 2 ^ 96 in let r := Fips.root 3 n in r ^ 3 <= n < (r + 1) ^ 3)
    (Fips.primes 64) ∧
  Forall (λ p, let n := Z.of_nat p * 2 ^ 64 in let r := Fips.root 2 n in r ^ 2 <= n < (r + 1) ^ 2)
    (Fips.primes 8).
Proof. split; apply Forall_forall; intros p Hp; vm_compute in Hp; set_unfold in Hp;
  repeat destruct Hp as [->|Hp]; try destruct Hp; vm_compute; split; congruence. Qed.

Definition is_word (x : Z) : Prop := 0 <= x < 2 ^ 32.

Lemma add32_plus x y : x +w y = Fips.plus x y.
Proof. apply u32_mod. Qed.

Lemma plus_word x y : is_word (Fips.plus x y).
Proof. by apply Z.mod_pos_bound. Qed.

Lemma plus32_mod x y : Fips.plus (x mod 2 ^ 32) y = (x + y) mod 2 ^ 32.
Proof. apply Zplus_mod_idemp_l. Qed.

Lemma plus32_sum a b c d :
  Fips.plus (Fips.plus (Fips.plus a b) c) d = (a + b + c + d) mod 2 ^ 32.
Proof. change (Fips.plus a b) with ((a + b) mod 2 ^ 32). by rewrite !plus32_mod. Qed.

Lemma plus32_assoc a b c : Fips.plus a (Fips.plus b c) = Fips.plus (Fips.plus a b) c.
Proof. rewrite <-!add32_plus. apply add32_assoc. Qed.

Lemma plus32_comm a b : Fips.plus a b = Fips.plus b a.
Proof. unfold Fips.plus. by rewrite Z.add_comm. Qed.

(** Disjoint bits are added by [|]. *)
Lemma lor_plus n x y : 0 <= n → 0 <= y < 2 ^ n → Z.lor (x * 2 ^ n) y = x * 2 ^ n + y.
Proof.
  intros Hn Hy. symmetry. rewrite <-Z.shiftl_mul_pow2 by done. apply Z.add_nocarry_lor.
  apply Z.bits_inj'. intros i Hi. rewrite Z.land_spec, Z.bits_0, Z.shiftl_spec by done.
  destruct (Z.ltb_spec i n).
  - by rewrite (Z.testbit_neg_r x) by lia.
  - rewrite <-(Z.mod_small y (2 ^ n)), Z.mod_pow2_bits_high by lia. apply andb_false_r.
Qed.

Lemma rotr_ROTR n x : 0 < n < 32 → is_word x → rotr x n = Fips.ROTR n x.
Proof.
  intros Hn Hx. unfold rotr, Fips.ROTR.
  rewrite Z.shiftr_div_pow2, Z.shiftl_mul_pow2, u32_mod, Z.lor_comm by lia.
  replace (2 ^ 32) with (2 ^ n * 2 ^ (32 - n)) by (rewrite <-Z.pow_add_r by lia; f_equal; lia).
  rewrite Z.mul_mod_distr_r by lia.
  rewrite lor_plus; [lia..|]. split; [apply Z.div_pos; unfold is_word in *; lia|].
  apply Z.div_lt_upper_bound; [lia|]. rewrite <-Z.pow_add_r by lia.
  replace (n + (32 - n)) with 32 by lia. unfold is_word in *; lia.
Qed.

Lemma shiftr_SHR n x : 0 <= n → Z.shiftr x n = Fips.SHR n x.
Proof. apply Z.shiftr_div_pow2. Qed.

Lemma choice_Ch e f g : is_word g → Z.lxor (Z.land e f) (Z.land (not32 e) g) = Fips.Ch e f g.
Proof.
  intros Hg. unfold Fips.Ch. f_equal. apply Z.bits_inj'. intros i Hi.
  unfold not32. change UINT32_MAX with (Z.ones 32).
  rewrite Z.land_spec, Z.ldiff_spec, Z.lxor_spec, Z.testbit_ones_nonneg by lia.
  destruct (Z.ltb_spec i 32).
  - rewrite xorb_true_r. apply andb_comm.
  - rewrite <-(Z.mod_small g (2 ^ 32)), Z.mod_pow2_bits_high by done. apply andb_false_r.
Qed.

(** *** Words of a block *)
Lemma load_word_value b i :
  load_word b i = block_byte b (i * 4) * 2 ^ 24 + block_byte b (i * 4 + 1) * 2 ^ 16 +
                  block_byte b (i * 4 + 2) * 2 ^ 8 + block_byte b (i * 4 + 3).
Proof.
  unfold load_word. rewrite !Z.shiftl_mul_pow2 by lia.
  pose proof (byteZ_range (nth (i * 4 + 1) b (Zbyte 0))) as H1.
  pose proof (byteZ_range (nth (i * 4 + 2) b (Zbyte 0))) as H2.
  pose proof (byteZ_range (nth (i * 4 + 3) b (Zbyte 0))) as H3.
  fold (block_byte b (i * 4 + 1)) in H1. fold (block_byte b (i * 4 + 2)) in H2.
  fold (block_byte b (i * 4 + 3)) in H3.
  generalize dependent (block_byte b (i * 4 + 3)). generalize dependent (block_byte b (i * 4 + 2)).
  generalize dependent (block_byte b (i * 4 + 1)). generalize (block_byte b (i * 4)).
  intros w x Hx y Hy z Hz. rewrite lor_plus by lia.
  replace (w * 2 ^ 24 + x * 2 ^ 16) with ((w * 2 ^ 8 + x) * 2 ^ 16) by lia.
  rewrite lor_plus by lia.
  replace ((w * 2 ^ 8 + x) * 2 ^ 16 + y * 2 ^ 8) with ((w * 2 ^ 16 + x * 2 ^ 8 + y) * 2 ^ 8) by lia.
  rewrite lor_plus by lia. lia.
Qed.

Lemma load_word_word b i : is_word (load_word b i).
Proof.
  rewrite load_word_value. unfold is_word, block_byte.
  pose proof (byteZ_range (nth (i * 4) b (Zbyte 0))).
  pose proof (byteZ_range (nth (i * 4 + 1) b (Zbyte 0))).
  pose proof (byteZ_range (nth (i * 4 + 2) b (Zbyte 0))).
  pose proof (byteZ_range (nth (i * 4 + 3) b (Zbyte 0))). lia.
Qed.

Lemma words_load k b : length b = (4 * k)%nat → Fips.words b = load_word b <$> seq 0 k.
Proof.
  revert b. induction k as [|k IH]; intros b Hb; [by apply nil_length_inv in Hb as ->|].
  destruct b as [|b0 [|b1 [|b2 [|b3 b]]]]; simpl in Hb; try lia.
  cbn [Fips.words]. rewrite (IH b) by lia. simpl. f_equal; [by rewrite load_word_value|].
  rewrite <-(fmap_S_seq 0), <-list_fmap_compose. reflexivity.
Qed.

(** *** The schedule *)
Lemma fill_words (f : nat → Z) n k :
  (k ≤ n)%nat →
  foldl (λ ws i, <[i := f i]> ws) (replicate n 0) (seq 0 k) = (f <$> seq 0 k) ++ replicate (n - k) 0.
Proof.
  induction k as [|k IH]; intros Hk; [by rewrite Nat.sub_0_r|].
  rewrite seq_S, foldl_snoc, IH, fmap_app by lia. simpl.
  replace (n - k)%nat with (S (n - S k)) by lia.
  rewrite insert_app_r_alt by (rewrite length_fmap, length_seq; lia).
  rewrite length_fmap, length_seq, Nat.sub_diag. simpl. by rewrite <-app_assoc.
Qed.

Lemma lookup_word W r i : (i < length W)%nat → word (W ++ r) i = W !!! i.
Proof. intros Hi. unfold word. rewrite !list_lookup_total_alt. by rewrite lookup_app_l. Qed.

Lemma lookup_is_word W i : Forall is_word W → (i < length W)%nat → is_word (W !!! i).
Proof. intros HW Hi. by apply (Forall_lookup_total_1 _ _ _ HW). Qed.

Lemma expand_extend W r :
  (16 ≤ length W)%nat → Forall is_word W →
  expand_word (W ++ replicate (S r) 0) (length W) = Fips.extend W ++ replicate r 0.
Proof.
  intros Hl HW. unfold expand_word, Fips.extend. rewrite !lookup_word by lia.
  rewrite insert_app_r_alt by lia. rewrite Nat.sub_diag. simpl. rewrite <-app_assoc. simpl.
  do 2 f_equal. rewrite !add32_plus.
  rewrite !rotr_ROTR, !shiftr_SHR by (lia || (apply lookup_is_word; [done|lia])).
  fold (Fips.sigma0 (W !!! (length W - 15)%nat)). fold (Fips.sigma1 (W !!! (length W - 2)%nat)).
  rewrite !plus32_sum. f_equal. lia.
Qed.

Lemma extend_words W : Forall is_word W → Forall is_word (Fips.extend W).
Proof. intros HW. apply Forall_app. split; [done|]. apply Forall_singleton, plus_word. Qed.

Lemma length_extend W : length (Fips.extend W) = S (length W).
Proof. unfold Fips.extend. rewrite length_app. simpl. lia. Qed.

Lemma expand_schedule M k :
  length M = 16%nat → Forall is_word M → (k ≤ 48)%nat →
  let W := Nat.iter k Fips.extend M in
  foldl expand_word (M ++ replicate 48 0) (seq 16 k) = W ++ replicate (48 - k) 0 ∧
  length W = (16 + k)%nat ∧ Forall is_word W.
Proof.
  intros Hl HM. induction k as [|k IH]; intros Hk W; [by split_and!|].
  destruct IH as (E & HW & HF); [lia|]. subst W. rewrite seq_S, foldl_snoc, E, !Nat.iter_succ.
  replace (48 - k)%nat with (S (48 - S k)) by lia. rewrite <-HW, expand_extend by (done || lia).
  split_and!; [done| |by apply extend_words].
  rewrite length_extend, HW. lia.
Qed.

Lemma schedule_is b :
  length b = 64%nat →
  schedule b = Fips.schedule (Fips.words b) ∧ length (schedule b) = 64%nat ∧
  Forall is_word (schedule b).
Proof.
  intros Hb. unfold schedule, Fips.schedule. rewrite (words_load 16), fill_words by lia.
  destruct (expand_schedule (load_word b <$> seq 0 16) 48) as (E & HW & HF);
    [by rewrite length_fmap, length_seq| |lia|].
  { apply Forall_fmap, Forall_forall. intros i _. apply load_word_word. }
  change (64 - 16)%nat with 48%nat. rewrite E, app_nil_r. exact (conj eq_refl (conj HW HF)).
Qed.

(** *** Rounds *)
Definition vars_list (v : vars) : list Z :=
  let '(a, b, c, d, e, f, g, h) := v in [a; b; c; d; e; f; g; h].

Lemma round_step ws v i :
  Forall is_word (vars_list v) →
  vars_list (round ws v i) = Fips.step (vars_list v) (word constants i, word ws i) ∧
  Forall is_word (vars_list (round ws v i)).
Proof.
  destruct v as [[[[[[[a b] c] d] e] f] g] h]. cbn [vars_list]. intros Hv.
  rewrite !Forall_cons in Hv. destruct Hv as (Ha & Hb & Hc & Hd & He & Hf & Hg & Hh & _).
  cbn [round vars_list Fips.step fst snd].
  rewrite choice_Ch, !rotr_ROTR by (done || lia). rewrite !add32_plus.
  fold (Fips.Sigma1 e) (Fips.Sigma0 a) (Fips.Maj a b c). split.
  - f_equal. by rewrite plus32_assoc.
  - repeat (apply Forall_cons; split); try done; apply plus_word.
Qed.

Lemma rounds_steps ws v l :
  Forall is_word (vars_list v) →
  vars_list (foldl (round ws) v l) =
    foldl Fips.step (vars_list v) ((λ i, (word constants i, word ws i)) <$> l) ∧
  Forall is_word (vars_list (foldl (round ws) v l)).
Proof.
  revert v. induction l as [|i l IH]; intros v Hv; [done|]. rewrite fmap_cons. cbn [foldl].
  destruct (round_step ws v i Hv) as [E Hw]. rewrite <-E. by apply IH.
Qed.

Lemma words_of_list ws : word ws <$> seq 0 (length ws) = ws.
Proof.
  apply list_eq. intros i. rewrite list_lookup_fmap. destruct (ws !! i) as [w|] eqn:E.
  - rewrite lookup_seq_lt by by eapply lookup_lt_Some. simpl. f_equal. unfold word.
    by apply list_lookup_total_correct.
  - apply lookup_ge_None in E. by rewrite lookup_seq_ge.
Qed.

Lemma zip_words ws :
  length ws = 64%nat → (λ i, (word constants i, word ws i)) <$> seq 0 64 = zip Fips.K ws.
Proof.
  intros Hw. destruct constants_are_roots as [<- _]. trans (zip (word constants <$> seq 0 64) (word ws <$> seq 0 64)).
  - by rewrite zip_with_fmap_l, zip_with_fmap_r, zip_with_diag.
  - pose proof (words_of_list constants) as E. change (length constants) with 64%nat in E.
    rewrite E. f_equal. rewrite <-Hw. apply words_of_list.
Qed.

(** *** Compression *)
Definition add_vars (st : list Z) (v : vars) : list Z :=
  let '(a, b, c, d, e, f, g, h) := v in
  [word st 0 +w a; word st 1 +w b; word st 2 +w c; word st 3 +w d;
   word st 4 +w e; word st 5 +w f; word st 6 +w g; word st 7 +w h].

Lemma rounds_compress ws st :
  length ws = 64%nat → length st = 8%nat → Forall is_word st →
  add_vars st (foldl (round ws) (vars_of st) (seq 0 64)) =
    zip_with Fips.plus (foldl Fips.step st (zip Fips.K ws)) st.
Proof.
  intros Hl Hs Hw. rewrite <-(zip_words ws Hl).
  destruct st as [|s0 [|s1 [|s2 [|s3 [|s4 [|s5 [|s6 [|s7 [|]]]]]]]]]; try discriminate.
  destruct (rounds_steps ws (vars_of [s0; s1; s2; s3; s4; s5; s6; s7]) (seq 0 64) Hw) as [R _].
  cbn [vars_of word vars_list lookup_total list_lookup_total] in R. rewrite <-R.
  destruct (foldl (round ws) _ (seq 0 64)) as [[[[[[[a b] c] d] e] f] g] h].
  cbn [vars_list zip_with add_vars word lookup_total list_lookup_total]. rewrite !add32_plus.
  by rewrite (plus32_comm s0), (plus32_comm s1), (plus32_comm s2), (plus32_comm s3), (plus32_comm s4),
    (plus32_comm s5), (plus32_comm s6), (plus32_comm s7).
Qed.

Lemma add_vars_words st v : length (add_vars st v) = 8%nat ∧ Forall is_word (add_vars st v).
Proof.
  destruct v as [[[[[[[a b] c] d] e] f] g] h]. cbn [add_vars]. rewrite !add32_plus.
  split; [done|]. repeat (apply Forall_cons; split; [apply plus_word|]). done.
Qed.

Lemma transform_vars st b :
  transform st b = add_vars st (foldl (round (schedule b)) (vars_of st) (seq 0 64)).
Proof. unfold transform, add_vars. cbv zeta. reflexivity. Qed.

Lemma transform_compress st b :
  length b = 64%nat → length st = 8%nat → Forall is_word st →
  transform st b = Fips.compress st (Fips.words b) ∧ length (transform st b) = 8%nat ∧
  Forall is_word (transform st b).
Proof.
  intros Hb Hs Hw. destruct (schedule_is b Hb) as (E & Hl & _).
  rewrite transform_vars. split; [|apply add_vars_words]. rewrite rounds_compress by done. unfold Fips.compress.
  by rewrite E.
Qed.

Definition block_words (M : bytes) (n : nat) : list (list Z) :=
  (λ i, Fips.words (take 64 (drop (64 * i) M))) <$> seq 0 n.

Lemma block_words_S M n :
  block_words M (S n) = Fips.words (take 64 M) :: block_words (drop 64 M) n.
Proof.
  unfold block_words. rewrite <-(cons_seq n 0), fmap_cons, <-fmap_S_seq, <-list_fmap_compose. f_equal.
  apply list_fmap_ext. intros i x _. simpl. rewrite drop_drop. do 3 f_equal. lia.
Qed.

Lemma absorb_compress n st M :
  length M = (64 * n)%nat → length st = 8%nat → Forall is_word st →
  let st' := foldl Fips.compress st (block_words M n) in
  absorb_all st M = (st', []) ∧ length st' = 8%nat ∧ Forall is_word st'.
Proof.
  revert st M. induction n as [|n IH]; intros st M HM Hs Hw.
  { apply nil_length_inv in HM as ->. done. }
  rewrite absorb_all_long by lia.
  destruct (transform_compress st (take 64 M)) as (E & Hl & HF); [rewrite length_take; lia|done..|].
  destruct (IH (transform st (take 64 M)) (drop 64 M)) as (A & B); [rewrite length_drop; lia|done..|].
  cbn zeta. rewrite A, block_words_S. cbn [foldl]. rewrite <-E. exact (conj eq_refl B).
Qed.
(** *** Padding and output *)
Lemma fmap_rev_list {A B} (f : A → B) l : f <$> rev l = rev (f <$> l).
Proof. induction l as [|x l IH]; [done|]. simpl. by rewrite fmap_app, IH. Qed.

Lemma big_endian_shifts n x :
  Fips.big_endian n x = (λ i, Zbyte (Z.shiftr x (8 * Z.of_nat i))) <$> rev (seq 0 n).
Proof.
  revert x. induction n as [|n IH]; intros x; [done|].
  rewrite <-(cons_seq n 0), <-fmap_S_seq. cbn [rev Fips.big_endian]. rewrite fmap_app, IH. f_equal.
  - rewrite !fmap_rev_list, <-list_fmap_compose. f_equal. apply list_fmap_ext.
    intros i j _. simpl. f_equal. rewrite <-Z.shiftr_div_pow2, Z.shiftr_shiftr by lia. f_equal. lia.
  - simpl. f_equal. unfold Zbyte. do 2 f_equal. rewrite Z.shiftr_0_r, !u8_mod. by apply Z.mod_mod.
Qed.

Lemma word_bytes_big_endian w : word_bytes w = Fips.big_endian 4 w.
Proof. by rewrite big_endian_shifts. Qed.

Lemma hex_byte_hex d : d ≫= hex_byte = Fips.hex d.
Proof.
  unfold Fips.hex. apply list_bind_ext; [|done]. intros b. unfold hex_byte, hex_digit.
  rewrite Z.shiftr_div_pow2 by lia. change 15 with (Z.ones 4). rewrite Z.land_ones by lia.
  by rewrite !nth_lookup.
Qed.

Lemma zeros_needed n : Z.to_nat ((55 - Z.of_nat n) mod 64) = ((119 - n mod 64) mod 64)%nat.
Proof.
  apply Nat2Z.inj. rewrite Z2Nat.id by (by apply Z.mod_pos_bound).
  pose proof (Nat.mod_upper_bound n 64 ltac:(lia)).
  rewrite Nat2Z.inj_mod, Nat2Z.inj_sub, Nat2Z.inj_mod by lia. change (Z.of_nat 64) with 64.
  rewrite (Z.div_mod (Z.of_nat n) 64) at 1 by lia. change (Z.of_nat 119) with 119.
  replace (55 - _) with (119 - Z.of_nat n mod 64 + (- (Z.of_nat n / 64) - 1) * 64) by lia.
  apply Z_mod_plus_full.
Qed.

Lemma pad_padding m :
  len m <= maximumBytes → padded m = m ++ Fips.padding m ∧ ∃ n, length (padded m) = (64 * n)%nat.
Proof.
  intros Hm. unfold padded, Fips.padding. rewrite maximumBytes_value in Hm.
  rewrite u64_small by (unfold UINT64_MAX; lia). rewrite big_endian_shifts, (Z.mul_comm 8).
  pose proof (zeros_needed (length m)) as E.
  rewrite E. split; [reflexivity|].
  exists (Z.to_nat (1 - (55 - len m) / 64)).
  rewrite !length_app, length_replicate, length_length_bytes, <-E. cbn [length].
  pose proof (Z.div_mod (55 - len m) 64). pose proof (Z.mod_pos_bound (55 - len m) 64). lia.
Qed.

Lemma blocked_hex_is m : len m <= maximumBytes → blocked_hex m = Fips.hex (Fips.sha256 m).
Proof.
  intros Hm. destruct (pad_padding m Hm) as (E & n & Hn). unfold blocked_hex, blocked, Fips.sha256.
  rewrite hex_byte_hex. f_equal.
  assert (Hd : (length (padded m) / 64 = n)%nat) by (rewrite Hn, Nat.mul_comm; by apply Nat.div_mul).
  rewrite <-E, Hd.
  rewrite <-(proj2 constants_are_roots). fold (block_words (padded m) n).
  destruct (absorb_compress n initial_state (padded m) Hn) as (A & B & _); [done| |].
  { repeat (apply Forall_cons; split; [unfold is_word; lia|]). done. }
  fold (absorb_all initial_state (padded m)). rewrite A. cbn [fst].
  set (st := foldl _ _ _) in *. rewrite <-B, words_of_list.
  apply list_bind_ext; [|done]. apply word_bytes_big_endian.
Qed.
End equivalence.

(** ** The hash interface

    What the object store asks of a hash: it is fed piecewise and finished
    once.  The laws say that only the concatenation of the pieces matters, and
    that the only failure is a message that is too long. *)
Class StreamHash (H : Type) := {
  hash_init : H;
  hash_update : H → bytes → result string H;
  hash_finish : H → bytes
}.

(** Hashing a sequence of pieces. *)
Definition hash_run {H} `{StreamHash H} (pieces : list bytes) : result string bytes :=
  h ← fold_res hash_update hash_init pieces; Ok (hash_finish h).

Class StreamHashLaws (H : Type) `{StreamHash H} := {
  hash_digest : bytes → bytes;
  hash_maximum : Z;
  hash_error : string;
  hash_run_spec pieces :
    hash_run (H:=H) pieces =
      if len (concat pieces) <=? hash_maximum then Ok (hash_digest (concat pieces))
      else Err hash_error
}.

#[export] Instance sha256_hash : StreamHash Sha256.t := {|
  hash_init := Sha256.init;
  hash_update := Sha256.update;
  hash_finish := Sha256.hexDigest
|}.

#[export] Instance object_hash : StreamHash ObjectHash.t := {|
  hash_init := ObjectHash.init;
  hash_update := ObjectHash.update;
  hash_finish := ObjectHash.finish
|}.

Section run.
Context {H : Type} `{StreamHash H} (R : H → bytes → Prop) (e : string).
Context (R_update : ∀ s m i, R s m → len m + len i <= Sha256.maximumBytes →
  ∃ s', hash_update s i = Ok s' ∧ R s' (m ++ i)).
Context (R_too_long : ∀ s m i, R s m → Sha256.maximumBytes < len m + len i →
  hash_update s i = Err e).

Lemma run_holds s m pieces :
  R s m → len (m ++ concat pieces) <= Sha256.maximumBytes →
  ∃ s', fold_res hash_update s pieces = Ok s' ∧ R s' (m ++ concat pieces).
Proof using R_update.
  revert s m. induction pieces as [|i pieces IH]; intros s m HR Hm; simpl.
  { exists s. by rewrite app_nil_r. }
  simpl in Hm. rewrite !length_app in Hm.
  destruct (R_update s m i HR) as (s1 & -> & H1); [lia|]. simpl.
  destruct (IH s1 (m ++ i)) as (s' & E & H'); [done|rewrite !length_app; lia|].
  exists s'. by rewrite app_assoc.
Qed.

Lemma run_too_long s m pieces :
  R s m → len m <= Sha256.maximumBytes → Sha256.maximumBytes < len (m ++ concat pieces) →
  fold_res hash_update s pieces = Err e.
Proof using R_update R_too_long.
  revert s m. induction pieces as [|i pieces IH]; intros s m HR Hm Hl; simpl.
  { rewrite app_nil_r in Hl. lia. }
  simpl in Hl. rewrite !length_app in Hl.
  destruct (Z.leb_spec (len m + len i) Sha256.maximumBytes) as [Hle|Hgt].
  - destruct (R_update s m i HR Hle) as (s1 & -> & H1). simpl.
    apply (IH s1 (m ++ i)); [done|rewrite !length_app; lia..].
  - by rewrite (R_too_long s m i HR Hgt).
Qed.

Lemma run_spec (digest : bytes → bytes) pieces :
  R hash_init [] → (∀ s m, R s m → hash_finish s = digest m) →
  hash_run pieces = if len (concat pieces) <=? Sha256.maximumBytes
    then Ok (digest (concat pieces)) else Err e.
Proof using R_update R_too_long.
  intros Hi Hd. unfold hash_run.
  destruct (Z.leb_spec (len (concat pieces)) Sha256.maximumBytes) as [Hle|Hgt].
  - destruct (run_holds hash_init [] pieces Hi) as (s & -> & Hs); [done|].
    simpl. by rewrite (Hd s (concat pieces)).
  - rewrite (run_too_long hash_init [] pieces Hi); [done|simpl|done].
    rewrite maximumBytes_value. lia.
Qed.
End run.

Lemma sha256_run_spec pieces :
  hash_run (H:=Sha256.t) pieces = if len (concat pieces) <=? Sha256.maximumBytes
    then Ok (blocked_hex (concat pieces)) else Err Sha256.length_error.
Proof.
  apply (run_spec sha_holds); [apply update_holds|apply update_too_long|apply holds_init|].
  apply hexDigest_holds.
Qed.

Lemma object_hash_run_spec pieces :
  hash_run (H:=ObjectHash.t) pieces = if len (concat pieces) <=? Sha256.maximumBytes
    then Ok (blocked_hex (concat pieces)) else Err ObjectHash.length_error.
Proof.
  apply (run_spec object_holds);
    [apply object_update_holds|apply object_update_too_long|apply holds_init|apply finish_holds].
Qed.

#[export] Instance sha256_laws : StreamHashLaws Sha256.t := {|
  hash_run_spec := sha256_run_spec
|}.

#[export] Instance object_hash_laws : StreamHashLaws ObjectHash.t := {|
  hash_run_spec := object_hash_run_spec
|}.

(** ** Properties *)

(** C33 The native SHA-256, fed in any pieces, gives the hexadecimal digest of
    FIPS 180-4 (module [Fips], which shares nothing with the code) of their
    concatenation, and throws exactly when the message has 2^64 bits or more:
    constants, rotations, schedule, rounds, padding, counters and byte order are
    right for every message and every split. *)
Theorem sha256_streaming pieces :
  (s ← fold_res Sha256.update Sha256.init pieces; Ok (Sha256.hexDigest s)) =
    if 8 * len (concat pieces) <? 2 ^ 64 then Ok (Fips.hex (Fips.sha256 (concat pieces)))
    else Err Sha256.length_error.
Proof.
  change (hash_run (H:=Sha256.t) pieces =
    if 8 * len (concat pieces) <? 2 ^ 64 then Ok (Fips.hex (Fips.sha256 (concat pieces)))
    else Err Sha256.length_error).
  rewrite sha256_run_spec, maximumBytes_value.
  destruct (Z.ltb_spec (8 * len (concat pieces)) (2 ^ 64)), (Z.leb_spec (len (concat pieces))
    2305843009213693951); [|lia|lia|done].
  by rewrite blocked_hex_is by (rewrite maximumBytes_value; lia).
Qed.

Lemma sha256_streaming_witness :
  (s ← fold_res Sha256.update Sha256.init [lit "ab"; []; lit "c"]; Ok (Sha256.hexDigest s)) =
    @Ok string bytes (lit "ba7816bf8f01cfea414140de5dae2223b00361a396177a9cb410ff61f20015ad").
Proof. rewrite sha256_streaming. vm_compute. reflexivity. Defined.

(** The examples of the standard: one block, two blocks, no bytes. *)
Example fips_vectors :
  Fips.hex (Fips.sha256 (lit "abc")) =
    lit "ba7816bf8f01cfea414140de5dae2223b00361a396177a9cb410ff61f20015ad" ∧
  Fips.hex (Fips.sha256 (lit "abcdbcdecdefdefgefghfghighijhijkijkljklmklmnlmnomnopnopq")) =
    lit "248d6a61d20638b8e5c026930c3e6039a33ce45964ff2167f6ecedd419db06c1" ∧
  Fips.hex (Fips.sha256 []) =
    lit "e3b0c44298fc1c149afbf4c8996fb92427ae41e4649b934ca495991b7852b855".
Proof. vm_compute. by split_and!. Qed.

(** C34 The object store's portable hash and the native hash are the same
    function: fed in possibly different pieces of the same message, both give
    the same 64 hexadecimal digits, or both throw because it is too long. *)
Theorem object_hash_is_sha256 pieces1 pieces2 :
  concat pieces1 = concat pieces2 →
  (s ← fold_res ObjectHash.update ObjectHash.init pieces1; Ok (ObjectHash.finish s)) =
    match (s ← fold_res Sha256.update Sha256.init pieces2; Ok (Sha256.hexDigest s)) with
    | Ok d => Ok d
    | Err _ => Err ObjectHash.length_error
    end.
Proof.
  intros E.
  change (hash_run (H:=ObjectHash.t) pieces1 =
    match hash_run (H:=Sha256.t) pieces2 with
    | Ok d => Ok d | Err _ => Err ObjectHash.length_error end).
  rewrite (sha256_run_spec pieces2), (object_hash_run_spec pieces1), E.
  by destruct (_ <=? _).
Qed.

Lemma object_hash_is_sha256_witness :
  concat [lit "ab"; lit "c"] = concat [lit "abc"] ∧
  (s ← fold_res ObjectHash.update ObjectHash.init [lit "ab"; lit "c"]; Ok (ObjectHash.finish s)) =
    @Ok string bytes (lit "ba7816bf8f01cfea414140de5dae2223b00361a396177a9cb410ff61f20015ad").
Proof.
  split; [reflexivity|].
  rewrite (object_hash_is_sha256 [lit "ab"; lit "c"] [lit "abc"]) by reflexivity.
  reflexivity.
Defined.

Lemma digest_text input d : Sha256.sha256 input = Ok d → length d = 64%nat ∧ Forall is_hex d.
Proof.
  intros Hd. assert (E : hash_run (H:=Sha256.t) [input] = Ok d).
  { unfold hash_run. simpl. unfold Sha256.sha256 in Hd.
    destruct (Sha256.update Sha256.init input); [done|discriminate]. }
  rewrite sha256_run_spec in E. destruct (_ <=? _); [|done]. injection E as <-.
  unfold blocked_hex. split; [reflexivity|].
  apply Forall_forall. intros c Hc. apply list_elem_of_bind in Hc as (b & Hc & _).
  unfold Sha256.hex_byte in Hc. set_unfold in Hc. destruct Hc as [->|[->|[]]]; apply hex_digit_is_hex.
Qed.
