(* ===== verification/Authorship.v ===== *)
(** Authors and rosters of the native core (Native/src/Core/Authorship.cpp,
    [FileAuthor], [keyFor], [validatedLinks], [Authorship]).  An operation on a
    roster works on a copy and commits it at the end, so it is a function to the
    new roster or to the exception, which leaves the old one as it was. *)
From S2P Require Import Sha256 Prelude Text Unicode Timestamp CoreText Uri Json JsonObject AuthorProfile.
Local Open Scope Z_scope.

(** ** Data *)

Record IisaccAccount := {
  sub : bytes;
  email : bytes;
  displayName : bytes;
  userId : bytes;
  societyCloudMembership : bytes;
  avatarUrl : bytes
}.

Record FileAuthor := {
  account : IisaccAccount;
  serviceOrigin : bytes;
  capturedAt : bytes;
  toJsonText : bytes
}.

Record AuthorRecord := {
  key : bytes;
  author_profile : bytes;
  firstChangedAt : bytes;
  lastChangedAt : bytes
}.

Record Authorship := {
  revision_ : Z;
  modifiedAt_ : bytes;
  lastAuthor_ : bytes;
  activeAuthor_ : bytes;
  dump_ : bytes;
  authors_ : list AuthorRecord;
  links_ : list FileLink
}.

Definition MaximumBytes : Z := 2 * 1024 * 1024.
Definition MaximumLinks : Z := 64.
Definition maximumProfileBytes : Z := 131072.

(** ** Printing a roster *)

(** The loop of [quote]. *)
Definition quote_byte (c : ascii) : bytes :=
  if bool_decide (byteZ c = 34) then lit "\" ++ Json.quote else
  if bool_decide (c = "\"%char) then lit "\\" else
  if bool_decide (byteZ c = 8) then lit "\b" else
  if bool_decide (byteZ c = 12) then lit "\f" else
  if bool_decide (byteZ c = 10) then lit "\n" else
  if bool_decide (byteZ c = 13) then lit "\r" else
  if bool_decide (byteZ c = 9) then lit "\t" else
  if byteZ c <? 0x20 then lit "\u00" ++ [hex_digit (Z.shiftr (byteZ c) 4); hex_digit (Z.land (byteZ c) 15)]
  else [c].

Definition quoted (value : bytes) : bytes := Json.quote ++ (value ≫= quote_byte) ++ Json.quote.

Definition nullable (value : bytes) : bytes :=
  if bool_decide (value = []) then lit "null" else quoted value.

(** A member name and its colon, the name free of special characters. *)
Definition name (s : string) : bytes := Json.quote ++ lit s ++ Json.quote ++ lit ":".

Definition record_text (r : AuthorRecord) : bytes :=
  lit "{" ++ name "author" ++ author_profile r ++
  lit "," ++ name "firstChangedAt" ++ quoted (firstChangedAt r) ++
  lit "," ++ name "key" ++ quoted (key r) ++
  lit "," ++ name "lastChangedAt" ++ quoted (lastChangedAt r) ++ lit "}".

Definition link_json_text (l : FileLink) : bytes :=
  lit "{" ++ name "name" ++ quoted (link_name l) ++ lit "," ++ name "url" ++ quoted (link_url l) ++ lit "}".

Definition front_key (authors : list AuthorRecord) : bytes :=
  match authors with r :: _ => key r | [] => [] end.

Definition roster_text (a : Authorship) : bytes :=
  lit "{" ++ name "authors" ++ lit "[" ++ join (lit ",") (record_text <$> authors_ a) ++ lit "]," ++
  name "firstEditor" ++ nullable (front_key (authors_ a)) ++
  lit "," ++ name "lastAuthor" ++ nullable (lastAuthor_ a) ++
  lit "," ++ name "links" ++ lit "[" ++ join (lit ",") (link_json_text <$> links_ a) ++ lit "]," ++
  name "modifiedAt" ++ nullable (modifiedAt_ a) ++
  lit "," ++ name "participants" ++ lit "[" ++
    join (lit ",") ((λ r, quoted (key r)) <$> drop 1 (authors_ a)) ++ lit "]," ++
  name "revision" ++ quoted (to_string (revision_ a)) ++
  lit "," ++ name "schemaVersion" ++ lit "3}".

Definition length_error : string := "Authorship metadata exceeds its size limit".

Definition with_dump (a : Authorship) (next : bytes) : Authorship :=
  {| revision_ := revision_ a; modifiedAt_ := modifiedAt_ a; lastAuthor_ := lastAuthor_ a;
     activeAuthor_ := activeAuthor_ a; dump_ := next; authors_ := authors_ a; links_ := links_ a |}.

Definition rebuildDump (a : Authorship) : result string Authorship :=
  let next := roster_text a in
  _ ← check (negb (MaximumBytes <? len next)) length_error;
  Ok (with_dump a next).

(** [Authorship()]; [rebuildDump] cannot fail on an empty roster. *)
Definition empty_roster : Authorship :=
  let a := {| revision_ := 0; modifiedAt_ := []; lastAuthor_ := []; activeAuthor_ := []; dump_ := [];
              authors_ := []; links_ := [] |} in
  with_dump a (roster_text a).

(** ** Plain queries *)

Definition isEmpty (a : Authorship) : bool := (revision_ a =? 0) && bool_decide (authors_ a = []).

Definition with_active (a : Authorship) (active : bytes) : Authorship :=
  {| revision_ := revision_ a; modifiedAt_ := modifiedAt_ a; lastAuthor_ := lastAuthor_ a;
     activeAuthor_ := active; dump_ := dump_ a; authors_ := authors_ a; links_ := links_ a |}.

Definition clearActiveAuthor (a : Authorship) : Authorship := with_active a [].
Definition hasActiveAuthor (a : Authorship) : bool := negb (bool_decide (activeAuthor_ a = [])).
Definition links (a : Authorship) : list FileLink := links_ a.

Definition displayLabel (a : FileAuthor) : bytes :=
  if bool_decide (displayName (account a) = []) then email (account a) else displayName (account a).

Section roster.
  Context `{Utf8proc} (json_parse : bytes → option json) (locate_zone zone_file : bytes → bool).

(** ** Authors *)

(** [data[k]] as a string. *)
Definition string_member (k : string) (j : json) : result string bytes :=
  v ← at_key j (lit k); get_string v.

Definition nullable_member (k : string) (j : json) : result string bytes :=
  v ← at_key j (lit k); if is_null v then Ok [] else get_string v.

Definition read_author (snapshot : bytes) : result string FileAuthor :=
  _ ← require (len snapshot <=? maximumProfileBytes);
  j ← of_option "[json.exception.parse_error.101]" (json_parse snapshot);
  data ← profile locate_zone zone_file j;
  text ← dump data;
  a ← at_key data (lit "account");
  sub ← string_member "sub" a;
  mail ← string_member "email" a;
  name ← string_member "displayName" a;
  user ← string_member "userId" a;
  membership ← string_member "societyCloudMembership" a;
  avatar ← nullable_member "avatarUrl" a;
  service ← string_member "serviceOrigin" data;
  captured ← string_member "capturedAt" data;
  Ok {| account := {| sub := sub; email := mail; displayName := name; userId := user;
                      societyCloudMembership := membership; avatarUrl := avatar |};
        serviceOrigin := service; capturedAt := captured; toJsonText := text |}.

Definition fromJsonText (snapshot : bytes) : option FileAuthor :=
  match read_author snapshot with Ok a => Some a | Err _ => None end.

(** The text of the document is built before anything is caught. *)
Definition fromIisaccAccount (account : list (bytes * bytes)) (service capturedAt : bytes) :
    result string (option FileAuthor) :=
  text ← dump (json_object [(lit "schemaVersion", JInt 1);
    (lit "account", JObject ((λ kv, (kv.1, JString kv.2)) <$> account));
    (lit "serviceOrigin", JString service); (lit "capturedAt", JString capturedAt)]);
  Ok (fromJsonText text).

Definition keyFor (author : FileAuthor) : result string bytes :=
  Sha256.Sha256.sha256 (serviceOrigin author ++ Zbyte 10 :: sub (account author)).

Definition firstEditor (a : Authorship) : option FileAuthor :=
  match authors_ a with r :: _ => fromJsonText (author_profile r) | [] => None end.

(** [*FileAuthor::fromJsonText(...)]: dereferencing nothing is an error of the
    program. *)
Definition participants (a : Authorship) : result string (list FileAuthor) :=
  fold_res (λ acc r,
    author ← of_option "dereferenced an empty optional" (fromJsonText (author_profile r));
    Ok (acc ++ [author])) [] (drop 1 (authors_ a)).

(** ** Links *)

Definition validatedLinks (links : list FileLink) : result string (list FileLink) :=
  _ ← require (len links <=? MaximumLinks);
  fold_res (λ result link,
    parsed ← of_option invalid (create (link_name link) (link_url link));
    _ ← require (negb (bool_decide (parsed ∈ result)));
    Ok (result ++ [parsed])) [] links.

(** ** Changes *)

(** The first record of the active author takes the date; the loop stops there. *)
Fixpoint stamp (active date : bytes) (authors : list AuthorRecord) : list AuthorRecord :=
  match authors with
  | [] => []
  | r :: l =>
      if bool_decide (key r = active) then
        {| key := key r; author_profile := author_profile r;
           firstChangedAt := if bool_decide (firstChangedAt r = []) then date else firstChangedAt r;
           lastChangedAt := date |} :: l
      else r :: stamp active date l
  end.

Definition overflow_error : string := "Authorship revision exhausted".

Definition recordChange (a : Authorship) (at_ : bytes) : result string Authorship :=
  at_ ← timestamp at_;
  _ ← check (negb (revision_ a =? UINT64_MAX)) overflow_error;
  let modified := if bool_decide (modifiedAt_ a = []) || bytes_ltb (modifiedAt_ a) at_
                  then at_ else modifiedAt_ a in
  rebuildDump {| revision_ := revision_ a + 1; modifiedAt_ := modified;
                 lastAuthor_ := activeAuthor_ a; activeAuthor_ := activeAuthor_ a; dump_ := dump_ a;
                 authors_ := stamp (activeAuthor_ a) modified (authors_ a); links_ := links_ a |}.

Definition with_author (a : Authorship) (active : bytes) (authors : list AuthorRecord)
    (links : list FileLink) : Authorship :=
  {| revision_ := revision_ a; modifiedAt_ := modifiedAt_ a; lastAuthor_ := lastAuthor_ a;
     activeAuthor_ := active; dump_ := dump_ a; authors_ := authors; links_ := links |}.

(** [r.profile = profile] of the first record with the key. *)
Fixpoint put_profile (k profile : bytes) (authors : list AuthorRecord) : list AuthorRecord :=
  match authors with
  | [] => []
  | r :: l =>
      if bool_decide (key r = k) then
        {| key := key r; author_profile := profile; firstChangedAt := firstChangedAt r;
           lastChangedAt := lastChangedAt r |} :: l
      else r :: put_profile k profile l
  end.

Definition maximumAuthors : Z := 256.

Definition setAuthor (a : Authorship) (author : FileAuthor) (links : list FileLink) (at_ : bytes) :
    result string (bool * Authorship) :=
  links ← validatedLinks links;
  key_ ← keyFor author;
  match List.find (λ r, bool_decide (key r = key_)) (authors_ a) with
  | Some r =>
      if bool_decide (author_profile r = toJsonText author) && bool_decide (links = links_ a)
      then Ok (false, with_active a key_)
      else
        next ← recordChange
          (with_author a key_ (put_profile key_ (toJsonText author) (authors_ a)) links) at_;
        Ok (true, next)
  | None =>
      _ ← require (len (authors_ a) <? maximumAuthors);
      next ← recordChange
        (with_author a key_ (authors_ a ++ [{| key := key_; author_profile := toJsonText author;
                                               firstChangedAt := []; lastChangedAt := [] |}]) links) at_;
      Ok (true, next)
  end.

Definition setLinks (a : Authorship) (links : list FileLink) (at_ : bytes) :
    result string (bool * Authorship) :=
  parsed ← validatedLinks links;
  if bool_decide (parsed = links_ a) then Ok (false, a) else
  next ← recordChange (with_author a (activeAuthor_ a) (authors_ a) parsed) at_;
  Ok (true, next).

Definition setLinksFromStrings (a : Authorship) (entries : list bytes) (at_ : bytes) :
    result string (bool * Authorship) :=
  links ← fold_res (λ acc entry,
    parsed ← of_option invalid (fromString entry); Ok (acc ++ [parsed])) [] entries;
  setLinks a links at_.

(** ** Reading *)

(** ["0|[1-9][0-9]*"]. *)
Definition revisionPattern (s : bytes) : bool :=
  match s with
  | [c] => is_digit c
  | c :: l => is_digit c && negb (bool_decide (c = "0"%char)) && forallb is_digit l
  | [] => false
  end.

(** [int schema = value.value("schemaVersion", 0)] of a number, compared with it. *)
Definition schema_of (value : json) : result string Z :=
  v ← at_key value (lit "schemaVersion");
  match v with
  | JInt z => _ ← require ((1 <=? z) && (z <=? 3)); Ok z
  | JReal t =>
      if bool_decide (t = lit "1.0") then Ok 1 else
      if bool_decide (t = lit "2.0") then Ok 2 else
      if bool_decide (t = lit "3.0") then Ok 3 else Err invalid
  | _ => Err invalid
  end.

Definition schema_keys (schema : Z) : list string :=
  ["schemaVersion"; "revision"; "modifiedAt"; "authors"; "lastAuthor"] ++
  (if 2 <=? schema then ["firstEditor"; "participants"] else []) ++
  (if 3 <=? schema then ["links"] else []).

(** The sizes of the older schemas. *)
Definition schema_size (schema : Z) (value : json) : result string unit :=
  if schema =? 1 then d ← dump value; require (len d <=? 1024 * 1024) else
  if schema =? 2 then d ← dump value; require (len d <=? 1024 * 1024 + 32 * 1024) else Ok tt.

Definition read_revision (l : list (bytes * json)) : result string Z :=
  raw ← text l "revision" 20 true false;
  _ ← require (revisionPattern raw);
  match from_chars 0 UINT64_MAX raw with
  | Some (z, []) => Ok z
  | _ => Err invalid
  end.

(** One element of ["authors"], after [modified]; [seen] are the keys before it. *)
Definition read_record (modified : bytes) (records : list AuthorRecord) (item : json) :
    result string (list AuthorRecord) :=
  l ← keys item ["key"; "author"; "firstChangedAt"; "lastChangedAt"];
  snapshot ← at_member "author" l;
  d ← dump snapshot;
  author ← of_option invalid (fromJsonText d);
  key_ ← text l "key" 64 true false;
  expected ← keyFor author;
  _ ← require (bool_decide (key_ = expected) && negb (bool_decide (key_ ∈ key <$> records)));
  first ← optionalDate l "firstChangedAt" true;
  last ← optionalDate l "lastChangedAt" true;
  _ ← require (bytes_leb first last && bytes_leb last modified);
  Ok (records ++ [{| key := key_; author_profile := toJsonText author; firstChangedAt := first;
                     lastChangedAt := last |}]).

Definition read_last (l : list (bytes * json)) (seen : list bytes) : result string bytes :=
  last ← at_member "lastAuthor" l;
  match last with
  | JNull => Ok []
  | JString s => _ ← require (bool_decide (s ∈ seen)); Ok s
  | _ => Err invalid
  end.

Definition read_link (item : json) : result string FileLink :=
  l ← keys item ["name"; "url"];
  n ← at_member "name" l ≫= get_string;
  u ← at_member "url" l ≫= get_string;
  of_option invalid (create n u).

Definition read_links (l : list (bytes * json)) : result string (list FileLink) :=
  links ← at_member "links" l;
  match links with
  | JArray items =>
      _ ← require (len items <=? MaximumLinks);
      links ← fold_res (λ acc item, link ← read_link item; Ok (acc ++ [link])) [] items;
      validatedLinks links
  | _ => Err invalid
  end.

(** The redundant members must be what the roster itself prints. *)
Definition check_derived (l : list (bytes * json)) (dump_ : bytes) : result string unit :=
  canonical ← of_option "[json.exception.parse_error.101]"%string (json_parse dump_);
  c ← match canonical with JObject c => Ok c | _ => Err invalid end;
  first ← at_member "firstEditor" l;
  others ← at_member "participants" l;
  require (bool_decide (first = value_or (lit "firstEditor") JNull c)
           && bool_decide (others = value_or (lit "participants") JNull c)).

Definition read_roster (text_ : bytes) : result string Authorship :=
  _ ← require (len text_ <=? MaximumBytes);
  value ← of_option "[json.exception.parse_error.101]"%string (json_parse text_);
  schema ← schema_of value;
  _ ← schema_size schema value;
  l ← keys value (schema_keys schema);
  revision ← read_revision l;
  modified ← optionalDate l "modifiedAt" (negb (revision =? 0));
  authors ← at_member "authors" l;
  items ← match authors with JArray items => Ok items | _ => Err invalid end;
  _ ← require (len items <=? maximumAuthors);
  records ← fold_res (read_record modified) [] items;
  last ← read_last l (key <$> records);
  links ← (if schema =? 3 then read_links l else Ok []);
  _ ← require (negb (revision =? 0) ||
               (bool_decide (records = []) && bool_decide (links = []) && bool_decide (modified = [])));
  result ← rebuildDump {| revision_ := revision; modifiedAt_ := modified; lastAuthor_ := last;
                          activeAuthor_ := []; dump_ := []; authors_ := records; links_ := links |};
  _ ← (if 2 <=? schema then check_derived l (dump_ result) else Ok tt);
  Ok result.

Definition fromDump (text_ : bytes) : option Authorship :=
  match read_roster text_ with Ok a => Some a | Err _ => None end.
End roster.
