(* ===== verification/AuthorshipLaws.v ===== *)
(** Laws of rosters: the hand-written serializer is the library's, every reachable
    roster satisfies the invariant, and exactly those are read back from their own
    dump whose authors and dates are read back. *)
From S2P Require Import Sha256 Prelude Text Unicode Timestamp CoreText Uri Json JsonObject JsonUtf8.
From S2P Require Import Calendar AuthorProfile AuthorLaws Authorship.
Local Open Scope Z_scope.

(** ** The serializer *)

Lemma quote_byte_escape b : quote_byte b = escape_byte b.
Proof.
  rewrite <-(Zbyte_byteZ b). pose proof (byteZ_range b) as Hb. revert Hb. generalize (byteZ b).
  apply (by_bytes (λ z, quote_byte (Zbyte z) = escape_byte (Zbyte z)) 0 256). by vm_compute.
Qed.

(** UTF-8 text. *)
Definition utf8_text (s : bytes) : Prop := ∃ points, scalars s = Ok points.

Lemma dump_quoted s : utf8_text s → dump (JString s) = Ok (quoted s).
Proof.
  intros [points Hs]. cbn [dump]. rewrite (dump_string_utf8 _ _ Hs). unfold quoted, escape_text.
  do 3 f_equal. clear Hs. induction s as [|c s IH]; [done|]. csimpl. by rewrite IH, quote_byte_escape.
Qed.

Lemma dump_array l items : Forall2 (λ x d, dump x = Ok d) l items →
  dump (JArray l) = Ok (lit "[" ++ join (lit ",") items ++ lit "]").
Proof.
  intros Hl. cbn [dump]. match goal with |- context [?g l] => assert (g l = Ok items) as -> end; [|done].
  induction Hl as [|x d l items Hx _ IH]; [done|]. by rewrite Hx, IH.
Qed.

Lemma dump_object l items : Forall2 (λ kv t, ∃ dk d, dump_string kv.1 = Ok dk ∧ dump kv.2 = Ok d ∧
    t = dk ++ lit ":" ++ d) l items →
  dump (JObject l) = Ok (lit "{" ++ join (lit ",") items ++ lit "}").
Proof.
  intros Hl. cbn [dump]. match goal with |- context [?g l] => assert (g l = Ok items) as -> end; [|done].
  induction Hl as [|[k x] t l items (dk & d & Hk & Hx & ->) _ IH]; [done|]. simpl in Hk, Hx.
  by rewrite Hk, Hx, IH.
Qed.

(** ** The document of a roster *)

Definition record_json (r : AuthorRecord) (p : json) : json :=
  JObject [(lit "author", p); (lit "firstChangedAt", JString (firstChangedAt r));
           (lit "key", JString (key r)); (lit "lastChangedAt", JString (lastChangedAt r))].

Definition link_json (l : FileLink) : json :=
  JObject [(lit "name", JString (link_name l)); (lit "url", JString (link_url l))].

Definition null_or (s : bytes) : json := if bool_decide (s = []) then JNull else JString s.

Definition roster_json (a : Authorship) (profiles : list json) : json :=
  JObject [(lit "authors", JArray (zip_with record_json (authors_ a) profiles));
           (lit "firstEditor", null_or (front_key (authors_ a)));
           (lit "lastAuthor", null_or (lastAuthor_ a));
           (lit "links", JArray (link_json <$> links_ a));
           (lit "modifiedAt", null_or (modifiedAt_ a));
           (lit "participants", JArray ((λ r, JString (key r)) <$> drop 1 (authors_ a)));
           (lit "revision", JString (to_string (revision_ a)));
           (lit "schemaVersion", JInt 3)].

(** The texts of a roster are UTF-8. *)
Definition record_printable (r : AuthorRecord) : Prop :=
  utf8_text (firstChangedAt r) ∧ utf8_text (key r) ∧ utf8_text (lastChangedAt r).

Definition roster_printable (a : Authorship) : Prop :=
  Forall record_printable (authors_ a) ∧ utf8_text (lastAuthor_ a) ∧ utf8_text (modifiedAt_ a) ∧
  Forall (λ l, utf8_text (link_name l) ∧ utf8_text (link_url l)) (links_ a) ∧
  utf8_text (to_string (revision_ a)).

Lemma utf8_empty : utf8_text [].
Proof. by exists []. Qed.

Lemma dump_nullable s : utf8_text s → dump (null_or s) = Ok (nullable s).
Proof. intros Hs. unfold null_or, nullable. case_bool_decide; [done|]. by apply dump_quoted. Qed.

(** A member whose name is a plain literal. *)
Lemma dump_member_text k v d : dump_string (lit k) = Ok (Json.quote ++ lit k ++ Json.quote) →
  dump v = Ok d → ∃ dk d', dump_string (lit k, v).1 = Ok dk ∧ dump (lit k, v).2 = Ok d' ∧
    name k ++ d = dk ++ lit ":" ++ d'.
Proof.
  intros Hk Hv. exists (Json.quote ++ lit k ++ Json.quote), d. split_and!; [done..|].
  unfold name. by rewrite <-!app_assoc.
Qed.

Ltac object_texts :=
  repeat (apply Forall2_cons; split; [apply dump_member_text; [reflexivity|eassumption || reflexivity]|]);
  apply Forall2_nil; exact I.

Lemma dump_record r p : record_printable r → dump p = Ok (author_profile r) →
  dump (record_json r p) = Ok (record_text r).
Proof.
  intros (H1%dump_quoted & H2%dump_quoted & H3%dump_quoted) Hp. unfold record_json.
  erewrite dump_object; [|object_texts]. f_equal. unfold record_text. cbn [join].
  by rewrite <-!app_assoc.
Qed.

Lemma dump_link l : utf8_text (link_name l) → utf8_text (link_url l) →
  dump (link_json l) = Ok (link_json_text l).
Proof.
  intros H1%dump_quoted H2%dump_quoted. unfold link_json.
  erewrite dump_object; [|object_texts]. f_equal. unfold link_json_text. cbn [join].
  by rewrite <-!app_assoc.
Qed.

Lemma dump_roster a profiles : roster_printable a →
  Forall2 (λ r p, dump p = Ok (author_profile r)) (authors_ a) profiles →
  dump (roster_json a profiles) = Ok (roster_text a).
Proof.
  intros (Hr & Hl & Hm & Hk & Hv) Hp.
  assert (dump (JArray (zip_with record_json (authors_ a) profiles)) =
    Ok (lit "[" ++ join (lit ",") (record_text <$> authors_ a) ++ lit "]")) as E1.
  { apply dump_array. clear -Hr Hp. induction Hp as [|r p rs ps Hrp _ IH]; [constructor|].
    apply Forall_cons in Hr as [Hr Hrs]. csimpl. constructor; [by apply dump_record|by apply IH]. }
  assert (dump (JArray (link_json <$> links_ a)) =
    Ok (lit "[" ++ join (lit ",") (link_json_text <$> links_ a) ++ lit "]")) as E2.
  { apply dump_array. clear -Hk. induction Hk as [|l ls [H1 H2] _ IH]; [constructor|].
    csimpl. constructor; [by apply dump_link|done]. }
  assert (dump (JArray ((λ r, JString (key r)) <$> drop 1 (authors_ a))) =
    Ok (lit "[" ++ join (lit ",") ((λ r, quoted (key r)) <$> drop 1 (authors_ a)) ++ lit "]")) as E3.
  { apply dump_array. apply (Forall_drop _ 1) in Hr. clear -Hr.
    induction Hr as [|r rs (_ & Hk & _) _ IH]; [constructor|]. csimpl. constructor; [by apply dump_quoted|done]. }
  assert (utf8_text (front_key (authors_ a))) as Hf%dump_nullable.
  { destruct (authors_ a) as [|r rs]; [apply utf8_empty|]. by apply Forall_cons in Hr as [(_ & ? & _) _]. }
  apply dump_nullable in Hl, Hm. apply dump_quoted in Hv.
  assert (dump (JInt 3) = Ok (lit "3")) as Hs by reflexivity.
  unfold roster_json. erewrite dump_object; [|object_texts]. f_equal. unfold roster_text. cbn [join].
  by rewrite <-!app_assoc.
Qed.

(** ** Well-formed rosters *)

Section rosters.
  Context `{Utf8procLaws} (json_parse : bytes → option json) (locate_zone zone_file : bytes → bool).

(** The library's parser reads maps, and reads back what the serializer prints. *)
Context (parse_ok : ∀ s j, json_parse s = Some j → json_ok j = true).
Context (parse_dump : ∀ j s, json_ok j = true → dump j = Ok s → json_parse s = Some j).

Abbreviation read := (read_author json_parse locate_zone zone_file).

(** ** Accepted authors

    What [fromJsonText] and [fromIisaccAccount] can give. *)
Definition accepted (a : FileAuthor) : Prop := ∃ snapshot, read snapshot = Ok a.

(** An author whose snapshot is read back as the author itself. *)
Definition stable (a : FileAuthor) : Prop := read (toJsonText a) = Ok a.

Lemma account_json_ok service account a : account_value service account = Ok a → json_ok a = true.
Proof.
  unfold account_value, require. intros E. inv_ok. rewrite account_json_members.
  match goal with E : avatar_value _ _ = Ok ?v |- _ => assert (json_ok v = true) as Hv end.
  { match goal with E : avatar_value _ ?x = Ok _ |- _ => revert E; generalize x end.
    intros x. unfold avatar_value, require. destruct x as [| | | |url| |]; try done; intros E; inv_ok; done. }
  cbn. by rewrite Hv.
Qed.

Lemma profile_json_ok v p : json_ok v = true → profile locate_zone zone_file v = Ok p → json_ok p = true.
Proof.
  intros Hok E. destruct (profile_inv _ _ _ _ E) as (l & raw & service & captured & account & account' &
    details & attribution & device & -> & _ & _ & _ & _ & _ & _ & Ha & Hde & Hat & Hdv & -> & _).
  unfold set_parts. repeat (apply set_ok; [|done]). repeat apply set_ok; try done.
  - by apply account_json_ok in Ha.
  - eapply details_ok; [|exact Hde]. by apply default_ok.
  - eapply attribution_ok; [|exact Hat]. by apply default_ok.
  - eapply device_again; [|exact Hdv]. by apply default_ok.
Qed.

(** Reading an author is reading its canonical profile. *)
Lemma read_profile snapshot a : read snapshot = Ok a → ∃ j p, json_parse snapshot = Some j ∧
  profile locate_zone zone_file j = Ok p ∧ dump p = Ok (toJsonText a) ∧ sized p = Ok tt ∧
  ∀ s, json_parse s = Some p → profile locate_zone zone_file p = Ok p → len s <= maximumProfileBytes →
    read s = Ok a.
Proof.
  unfold read_author. intros E. apply bind_ok in E as (? & _ & E). apply bind_ok in E as (j & Hj & E).
  apply of_option_ok in Hj. apply bind_ok in E as (p & Hp & E). apply bind_ok in E as (text & Ht & E).
  destruct (profile_inv _ _ _ _ Hp) as (? & ? & ? & ? & ? & ? & ? & ? & ? & _ & _ & _ & _ & _ & _ & _ & _ & _ &
    _ & _ & _ & Hs).
  exists j, p. split_and!; [done..| |done|].
  - inv_ok. by rewrite Ht.
  - intros s Hs1 Hp1 Hl. unfold require. rewrite (proj2 (Z.leb_le _ _) Hl). cbn [check mbind result_bind].
    rewrite Hs1. cbn [of_option mbind result_bind]. rewrite Hp1. cbn [mbind result_bind].
    rewrite Ht. exact E.
Qed.

(** The text of an accepted author is a printed document. *)
Lemma accepted_document a : accepted a → ∃ p, json_ok p = true ∧ dump p = Ok (toJsonText a).
Proof.
  intros [snapshot E]. destruct (read_profile _ _ E) as (j & p & Hj & Hp & Hd & _). exists p.
  split; [|done]. by eapply profile_json_ok; [eapply parse_ok|].
Qed.

(** ** The invariant *)

(** A date as [timestamp] prints it. *)
Definition printed (d : bytes) : Prop := ∃ raw, timestamp raw = Ok d.

Record record_ok (modified : bytes) (r : AuthorRecord) : Prop := {
  record_author : ∃ author, accepted author ∧ toJsonText author = author_profile r ∧ keyFor author = Ok (key r);
  record_first : printed (firstChangedAt r);
  record_last : printed (lastChangedAt r);
  record_order : bytes_leb (firstChangedAt r) (lastChangedAt r) = true;
  record_modified : bytes_leb (lastChangedAt r) modified = true
}.

Definition link_ok (l : FileLink) : Prop := create (link_name l) (link_url l) = Some l.

Record wf (a : Authorship) : Prop := {
  wf_revision : 0 <= revision_ a <= UINT64_MAX;
  wf_dump : dump_ a = roster_text a;
  wf_size : len (dump_ a) <= MaximumBytes;
  wf_authors : len (authors_ a) <= maximumAuthors;
  wf_keys : NoDup (key <$> authors_ a);
  wf_records : Forall (record_ok (modifiedAt_ a)) (authors_ a);
  wf_last : lastAuthor_ a = [] ∨ lastAuthor_ a ∈ key <$> authors_ a;
  wf_active : activeAuthor_ a = [] ∨ activeAuthor_ a ∈ key <$> authors_ a;
  wf_links : len (links_ a) <= MaximumLinks;
  wf_links_ok : Forall link_ok (links_ a);
  wf_links_distinct : NoDup (links_ a);
  wf_modified : printed (modifiedAt_ a) ∨ revision_ a = 0;
  wf_empty : revision_ a = 0 → authors_ a = [] ∧ links_ a = [] ∧ modifiedAt_ a = []
}.

(** ** Printable parts *)

Lemma utf8_ascii_text s : Forall is_ascii s → utf8_text s.
Proof. intros Hs. exists (byteZ <$> s). by apply scalars_ascii. Qed.

Lemma hex_printable s : Forall is_hex s → Forall printable s.
Proof.
  intros Hs. eapply Forall_impl; [exact Hs|]. intros c. unfold is_hex. intros Hc%bool_decide_unpack.
  revert c Hc. apply Forall_forall. decided.
Qed.

Lemma digit_printable s : Forall is_digit s → Forall printable s.
Proof.
  intros Hs. eapply Forall_impl; [exact Hs|]. intros c Hc. unfold is_digit, printable in *.
  apply Is_true_true in Hc. apply Is_true_true. inv_ok. rewrite Z.leb_le in *.
  apply andb_true_iff. rewrite !Z.leb_le. lia.
Qed.

Lemma key_text author k : keyFor author = Ok k → length k = 64%nat ∧ Forall printable k.
Proof. intros [Hl Hk]%digest_text. split; [done|by apply hex_printable]. Qed.

Lemma clean_utf8 value maximum required multiline r :
  clean value maximum required multiline = Ok r → utf8_text r.
Proof.
  intros (t & points & _ & Hs & -> & _)%clean_spec. apply scalars_inv in Hs as [Hp _].
  destruct (trim_part points) as (front & back & E). rewrite E in Hp.
  apply Forall_app in Hp as [_ [Hp _]%Forall_app]. exists (trim points). by apply scalars_utf8.
Qed.

Lemma uri_utf8 value absolute : validUri value absolute = true → utf8_text value.
Proof.
  unfold validUri. destruct (_ || _); [done|]. destruct (scalars value) as [points|] eqn:Es; [|done].
  intros _. by exists points.
Qed.

Lemma digits_ascii s : Forall is_digit s → Forall is_ascii s.
Proof. intros Hs. by apply printable_ascii, digit_printable. Qed.

Lemma pad_ascii w z : Forall is_ascii (pad w z).
Proof.
  unfold pad. cbv zeta beta. destruct (Z.ltb_spec z 0); [apply Forall_cons; split; [done|]|];
    apply Forall_app; (split; [by apply Forall_replicate|]); apply digits_ascii, to_string_digits; lia.
Qed.

Lemma print_ascii t : Forall is_ascii (print_instant t).
Proof.
  unfold print_instant. destruct (civil_from_days _) as [[y mo] d].
  repeat (apply Forall_app; split; [apply pad_ascii|apply Forall_cons; split; [done|]]).
  done.
Qed.

Lemma timestamp_ascii raw s : timestamp raw = Ok s → Forall is_ascii s ∧ s ≠ [].
Proof.
  unfold timestamp. intros E. apply bind_ok in E as (t & _ & E). apply ok_inj in E. subst s.
  split; [apply print_ascii|]. unfold print_instant. destruct (civil_from_days _) as [[y mo] d].
  intros E. by apply app_eq_nil in E as [_ E].
Qed.

Lemma printed_ascii s : printed s → Forall is_ascii s ∧ s ≠ [].
Proof. intros [raw E]. by eapply timestamp_ascii. Qed.

Lemma wf_printable a : wf a → roster_printable a.
Proof.
  intros Hw. assert (Forall record_printable (authors_ a)) as Hr.
  { eapply Forall_impl; [apply (wf_records a Hw)|]. intros r Hr.
    destruct (record_author _ _ Hr) as (author & _ & _ & Hk).
    split_and!; apply utf8_ascii_text; [by eapply printed_ascii, record_first| |by eapply printed_ascii, record_last].
    by apply printable_ascii, (key_text author). }
  split_and!; [done| | | |].
  - destruct (wf_last a Hw) as [->|Hin]; [apply utf8_empty|]. apply list_elem_of_fmap in Hin as (r & -> & Hin).
    rewrite Forall_forall in Hr. by destruct (Hr r Hin) as (_ & ? & _).
  - destruct (wf_modified a Hw) as [Ht|E0].
    + by apply utf8_ascii_text, printed_ascii.
    + destruct (wf_empty a Hw E0) as (_ & _ & ->). apply utf8_empty.
  - eapply Forall_impl; [apply (wf_links_ok a Hw)|]. intros l Hl.
    destruct (create_inv _ _ _ Hl) as (n & Hc & _ & Hv & ->). simpl in *. split; [by eapply clean_utf8|by eapply uri_utf8].
  - apply utf8_ascii_text, digits_ascii, to_string_digits. pose proof (wf_revision a Hw). lia.
Qed.

(** The parsed profiles of a roster. *)
Lemma wf_profiles a : wf a → ∃ profiles,
  Forall2 (λ r p, dump p = Ok (author_profile r) ∧ json_ok p = true) (authors_ a) profiles.
Proof.
  intros Hw. pose proof (wf_records a Hw) as Hr. induction Hr as [|r rs Hr _ [ps IH]]; [by exists []|].
  destruct (record_author _ _ Hr) as (author & Ha & Ht & _). destruct (accepted_document _ Ha) as (p & Hok & Hd).
  rewrite Ht in Hd. exists (p :: ps). by constructor.
Qed.

(** ** Reading a roster back *)

Lemma text_printable l k s maximum required : member (lit k) l = Some (JString s) →
  Forall printable s → len s <= maximum → s ≠ [] → text l k maximum required false = Ok s.
Proof. intros Hm Hp Hl Hne. unfold text. rewrite Hm. by apply clean_printable. Qed.

(** A stored record that reading gives back: the profile is read as an author with
    this very text and key, and the dates are their own canonical form. *)
Record comes_back (r : AuthorRecord) : Prop := {
  back_author : ∃ author, read (author_profile r) = Ok author ∧ toJsonText author = author_profile r ∧
    keyFor author = Ok (key r);
  back_first : timestamp (firstChangedAt r) = Ok (firstChangedAt r);
  back_last : timestamp (lastChangedAt r) = Ok (lastChangedAt r)
}.

(** The roster's own date too. *)
Definition roster_comes_back (a : Authorship) : Prop :=
  Forall comes_back (authors_ a) ∧ (modifiedAt_ a = [] ∨ timestamp (modifiedAt_ a) = Ok (modifiedAt_ a)).

Lemma required_date l k d : optionalDate l k true = Ok d → printed d.
Proof.
  unfold optionalDate. destruct (member (lit k) l) as [[]|]; try done. intros E. by eexists.
Qed.

(** Reading one record of a printed roster. *)
Lemma read_record_steps modified r p records k author : dump p = Ok (author_profile r) →
  Forall printable (key r) → length (key r) = 64%nat →
  read (author_profile r) = Ok author → keyFor author = Ok k →
  read_record json_parse locate_zone zone_file modified records (record_json r p) =
    (_ ← require (bool_decide (key r = k) && negb (bool_decide (key r ∈ key <$> records)));
     first ← timestamp (firstChangedAt r);
     last ← timestamp (lastChangedAt r);
     _ ← require (bytes_leb first last && bytes_leb last modified);
     Ok (records ++ [{| key := key r; author_profile := toJsonText author; firstChangedAt := first;
                        lastChangedAt := last |}])).
Proof.
  intros Hp Hprint Hlen Hread Hk. unfold read_record.
  change (keys (record_json r p) ["key"; "author"; "firstChangedAt"; "lastChangedAt"]) with
    (@Ok string _ [(lit "author", p); (lit "firstChangedAt", JString (firstChangedAt r));
      (lit "key", JString (key r)); (lit "lastChangedAt", JString (lastChangedAt r))]).
  cbn [mbind result_bind]. set (l := [_; _; _; _]).
  change (at_member "author" l) with (@Ok string _ p). cbn [mbind result_bind]. rewrite Hp.
  cbn [mbind result_bind]. unfold fromJsonText. rewrite Hread. cbn [of_option mbind result_bind].
  rewrite (text_printable l "key" (key r)); [|done|done|lia|by intros E; rewrite E in Hlen].
  cbn [mbind result_bind]. rewrite Hk. done.
Qed.

Lemma record_key modified r : record_ok modified r → length (key r) = 64%nat ∧ Forall printable (key r).
Proof. intros Hr. destruct (record_author _ _ Hr) as (author & _ & _ & Hk). by apply (key_text author). Qed.

Lemma read_record_ok modified r p records : record_ok modified r → comes_back r → dump p = Ok (author_profile r) →
  key r ∉ key <$> records →
  read_record json_parse locate_zone zone_file modified records (record_json r p) = Ok (records ++ [r]).
Proof.
  intros Hr Hb Hp Hn. destruct (back_author _ Hb) as (author & Hread & Ht & Hk).
  destruct (record_key _ _ Hr) as [Hlen Hprint]. rewrite (read_record_steps _ _ _ _ _ _ Hp Hprint Hlen Hread Hk).
  unfold require. rewrite bool_decide_true, bool_decide_false by done. cbn [negb andb check mbind result_bind].
  rewrite (back_first _ Hb), (back_last _ Hb). cbn [mbind result_bind].
  rewrite (record_order _ _ Hr), (record_modified _ _ Hr). cbn [andb check mbind result_bind].
  do 3 f_equal. rewrite Ht. by destruct r.
Qed.

(** Conversely, a record that reading gives comes back. *)
Lemma read_record_back modified r p records r' : record_ok modified r → dump p = Ok (author_profile r) →
  read_record json_parse locate_zone zone_file modified records (record_json r p) = Ok (records ++ [r']) →
  r' = r → comes_back r.
Proof.
  intros Hr Hp E ->. destruct (record_key _ _ Hr) as [Hlen Hprint].
  destruct (read (author_profile r)) as [author|m] eqn:Hread.
  2: { exfalso. unfold read_record, fromJsonText in E. apply bind_ok in E as (l & El & E). injection El as <-.
    apply bind_ok in E as (s & Es & E). injection Es as <-. apply bind_ok in E as (t & Et & E).
    rewrite Hp in Et. apply ok_inj in Et. subst t. by rewrite Hread in E. }
  destruct (keyFor author) as [k|m] eqn:Hk.
  2: { exfalso. unfold read_record, fromJsonText in E. apply bind_ok in E as (l & El & E). injection El as <-.
    apply bind_ok in E as (s & Es & E). injection Es as <-. apply bind_ok in E as (t & Et & E).
    rewrite Hp in Et. apply ok_inj in Et. subst t. rewrite Hread in E. cbn [of_option mbind result_bind] in E.
    apply bind_ok in E as (k & _ & E). by rewrite Hk in E. }
  rewrite (read_record_steps _ _ _ _ _ _ Hp Hprint Hlen Hread Hk) in E.
  apply bind_ok in E as (u & Hu & E). apply check_ok, andb_true_iff in Hu as [Hu _]. apply bool_decide_eq_true in Hu.
  apply bind_ok in E as (f & Hf & E). apply bind_ok in E as (d & Hd & E). apply bind_ok in E as (u2 & _ & E).
  apply ok_inj, app_inj_2 in E as [_ E]; [|done]. clear Hr Hp Hprint Hlen. destruct r as [rk rp rf rl].
  cbn in *. injection E as E1 E2 E3. split; cbn; [|congruence..]. exists author. split_and!; congruence.
Qed.

Lemma read_records modified rs profiles records :
  Forall (record_ok modified) rs → Forall comes_back rs →
  Forall2 (λ r p, dump p = Ok (author_profile r) ∧ json_ok p = true) rs profiles →
  NoDup (key <$> (records ++ rs)) →
  fold_res (read_record json_parse locate_zone zone_file modified) records
    (zip_with record_json rs profiles) = Ok (records ++ rs).
Proof.
  intros Hr Hb Hp. revert records. induction Hp as [|r p rs ps [Hd _] _ IH]; intros records Hnd.
  - cbn [zip_with fold_res]. by rewrite app_nil_r.
  - apply Forall_cons in Hr as [Hr Hrs]. apply Forall_cons in Hb as [Hb Hbs]. cbn [zip_with fold_res].
    rewrite read_record_ok; [|done..|].
    + cbn [mbind result_bind]. rewrite IH; rewrite <-?app_assoc; done.
    + rewrite fmap_app in Hnd. apply NoDup_app in Hnd as (_ & Hnd & _). intros Hin.
      apply (Hnd _ Hin). csimpl. by left.
Qed.

(** What is read of one record: it is appended, and is in order. *)
Lemma read_record_inv modified records item out :
  read_record json_parse locate_zone zone_file modified records item = Ok out →
  ∃ r, out = records ++ [r] ∧ record_ok modified r ∧ key r ∉ key <$> records.
Proof.
  unfold read_record. intros E. apply bind_ok in E as (l & _ & E). apply bind_ok in E as (s & _ & E).
  apply bind_ok in E as (t & _ & E). apply bind_ok in E as (author & Ha & E). apply of_option_ok in Ha.
  apply bind_ok in E as (k & _ & E). apply bind_ok in E as (k' & Hk & E). apply bind_ok in E as (u & Hu & E).
  apply check_ok, andb_true_iff in Hu as [->%bool_decide_eq_true Hn].
  apply negb_true_iff, bool_decide_eq_false in Hn. apply bind_ok in E as (f & Hf & E).
  apply bind_ok in E as (d & Hd & E). apply bind_ok in E as (u2 & Ho & E).
  apply check_ok, andb_true_iff in Ho as [Ho1 Ho2]. apply ok_inj in E. subst out. eexists. split; [done|].
  split; [|done]. split; cbn; [|by eapply required_date|by eapply required_date|done|done].
  exists author. unfold fromJsonText in Ha. destruct (read t) as [x|] eqn:Er; [|done]. injection Ha as ->.
  split_and!; [by exists t|done|done].
Qed.

Lemma read_records_inv modified items records out :
  fold_res (read_record json_parse locate_zone zone_file modified) records items = Ok out →
  Forall (record_ok modified) records → NoDup (key <$> records) →
  (∃ more, out = records ++ more ∧ length more = length items) ∧ Forall (record_ok modified) out ∧ NoDup (key <$> out).
Proof.
  revert records. induction items as [|item items IH]; intros records E Hr Hnd; cbn [fold_res] in E.
  - apply ok_inj in E. subst out. split_and!; [|done..]. exists []. by rewrite app_nil_r.
  - apply bind_ok in E as (next & E1 & E). apply read_record_inv in E1 as (r & -> & Hok & Hn).
    apply IH in E as ((more & -> & Hl) & H1' & H2').
    + split_and!; [|done..]. exists (r :: more). rewrite <-app_assoc. split; [done|]. cbn. by rewrite Hl.
    + by apply Forall_app_2; [|apply Forall_singleton].
    + rewrite fmap_app. apply NoDup_app. split_and!; [done| |apply NoDup_singleton].
      intros x Hx ->%list_elem_of_singleton. done.
Qed.

Lemma read_records_back modified rs profiles records :
  Forall (record_ok modified) records → NoDup (key <$> records) →
  Forall (record_ok modified) rs → Forall2 (λ r p, dump p = Ok (author_profile r) ∧ json_ok p = true) rs profiles →
  fold_res (read_record json_parse locate_zone zone_file modified) records
    (zip_with record_json rs profiles) = Ok (records ++ rs) → Forall comes_back rs.
Proof.
  intros H1' H2' Hr Hp. revert records H1' H2'. induction Hp as [|r p rs ps [Hd _] _ IH]; intros records H1' H2' E; [done|].
  apply Forall_cons in Hr as [Hr Hrs]. cbn [zip_with fold_res] in E. apply bind_ok in E as (next & E1 & E).
  pose proof E1 as E2. apply read_record_inv in E2 as (r' & -> & Hok & Hn).
  assert (Forall (record_ok modified) (records ++ [r'])) as G1 by by apply Forall_app_2; [|apply Forall_singleton].
  assert (NoDup (key <$> (records ++ [r']))) as G2.
  { rewrite fmap_app. apply NoDup_app. split_and!; [done| |apply NoDup_singleton].
    intros x Hx ->%list_elem_of_singleton. done. }
  destruct (read_records_inv _ _ _ _ E G1 G2) as ((more & Eo & _) & _).
  rewrite <-app_assoc in Eo. apply app_inv_head in Eo. injection Eo as <- <-.
  constructor; [by eapply read_record_back|]. apply (IH Hrs (records ++ [r])); [done..|].
  by rewrite <-app_assoc.
Qed.

Lemma validated_loop links acc : Forall link_ok links → NoDup (acc ++ links) →
  fold_res (λ result link,
    parsed ← of_option invalid (create (link_name link) (link_url link));
    _ ← require (negb (bool_decide (parsed ∈ result)));
    Ok (result ++ [parsed])) acc links = Ok (acc ++ links).
Proof.
  intros Hok. revert acc. induction Hok as [|l links Hl _ IH]; intros acc Hnd; cbn [fold_res];
    [by rewrite app_nil_r|].
  unfold link_ok in Hl. rewrite Hl. cbn [of_option mbind result_bind]. unfold require.
  rewrite bool_decide_false; last first.
  { apply NoDup_app in Hnd as (_ & Hnd & _). intros Hin. apply (Hnd _ Hin). by left. }
  cbn [negb check mbind result_bind]. unfold require in IH. rewrite IH; rewrite <-?app_assoc; done.
Qed.

Lemma validatedLinks_inv links l : validatedLinks links = Ok l →
  Forall link_ok l ∧ NoDup l ∧ len l <= MaximumLinks.
Proof.
  unfold validatedLinks. intros E. apply bind_ok in E as (u & Hlen & E). apply check_ok, Z.leb_le in Hlen.
  assert (∀ ls acc r, fold_res (λ result link,
      parsed ← of_option invalid (create (link_name link) (link_url link));
      _ ← require (negb (bool_decide (parsed ∈ result)));
      Ok (result ++ [parsed])) acc ls = Ok r → Forall link_ok acc → NoDup acc →
    Forall link_ok r ∧ NoDup r ∧ length r = (length acc + length ls)%nat) as Hloop.
  { induction ls as [|x ls IH]; intros acc r E2 H1 H2; cbn [fold_res] in E2.
    - apply ok_inj in E2. subst r. simpl. by rewrite Nat.add_0_r.
    - apply bind_ok in E2 as (acc' & E1 & E2). apply bind_ok in E1 as (parsed & Hp & E1).
      apply bind_ok in E1 as (? & Hd & E1). apply ok_inj in E1. subst acc'.
      apply of_option_ok in Hp. apply check_ok, negb_true_iff, bool_decide_eq_false in Hd.
      destruct (IH _ _ E2) as (H3 & H4 & H5).
      + apply Forall_app. split; [done|]. apply Forall_singleton. exact (create_again _ _ _ Hp).
      + apply NoDup_app. split_and!; [done| |apply NoDup_singleton].
        intros y Hy ->%list_elem_of_singleton. done.
      + split_and!; [done..|]. rewrite H5, length_app. simpl. lia. }
  destruct (Hloop links [] l E) as (H1 & H2 & H3); [done|constructor|]. split_and!; [done..|].
  rewrite H3. simpl. lia.
Qed.

Lemma validatedLinks_ok links : Forall link_ok links → NoDup links → len links <= MaximumLinks →
  validatedLinks links = Ok links.
Proof.
  intros Hok Hnd Hlen. unfold validatedLinks, require at 1. rewrite (proj2 (Z.leb_le _ _)) by done.
  cbn [check mbind result_bind]. by apply (validated_loop links []).
Qed.

Lemma read_links_ok links l : member (lit "links") l = Some (JArray (link_json <$> links)) →
  Forall link_ok links → NoDup links → len links <= MaximumLinks → read_links l = Ok links.
Proof.
  intros Hm Hok Hnd Hlen. unfold read_links, at_member. rewrite Hm. cbn [of_option mbind result_bind].
  unfold require. rewrite length_fmap, (proj2 (Z.leb_le _ _)) by done. cbn [check mbind result_bind].
  assert (∀ acc, fold_res (λ acc item, link ← read_link item; Ok (acc ++ [link])) acc (link_json <$> links)
    = Ok (acc ++ links)) as ->.
  { clear Hm Hnd Hlen. induction Hok as [|x links Hx _ IH]; intros acc; csimpl; [by rewrite app_nil_r|].
    cbn [fold_res]. assert (read_link (link_json x) = Ok x) as ->.
    { unfold read_link. change (keys (link_json x) ["name"; "url"]) with
        (@Ok string _ [(lit "name", JString (link_name x)); (lit "url", JString (link_url x))]).
      cbn [mbind result_bind]. set (m := [_; _]).
      change (at_member "name" m ≫= get_string) with (@Ok string _ (link_name x)).
      change (at_member "url" m ≫= get_string) with (@Ok string _ (link_url x)).
      cbn [mbind result_bind]. unfold link_ok in Hx. by rewrite Hx. }
    cbn [mbind result_bind]. by rewrite IH, <-app_assoc. }
  cbn [mbind result_bind app]. by apply validatedLinks_ok.
Qed.

Lemma revision_pattern z : 0 <= z → revisionPattern (to_string z) = true.
Proof.
  intros Hz. pose proof (to_string_digits z Hz) as Hd. destruct (decide (z = 0)) as [->|Hne]; [done|].
  destruct (to_string_lead z ltac:(lia)) as (c & l & E & Hc). rewrite E in *.
  apply Forall_cons in Hd as [Hdc Hdl]. apply Is_true_true in Hdc. unfold revisionPattern.
  destruct l as [|d l]; [done|]. rewrite Hdc, bool_decide_false by done. cbn [negb andb].
  apply Is_true_true, forallb_True. exact Hdl.
Qed.

Lemma read_revision_ok z l : 0 <= z <= UINT64_MAX → member (lit "revision") l = Some (JString (to_string z)) →
  read_revision l = Ok z.
Proof.
  intros Hz Hm. pose proof (to_string_digits z ltac:(lia)) as Hd. unfold UINT64_MAX in Hz.
  pose proof (to_string_length 20 z ltac:(change (10 ^ Z.of_nat 20) with 100000000000000000000; lia) ltac:(lia)) as Hl.
  assert (to_string z ≠ []) as Hne.
  { destruct (decide (z = 0)) as [->|]; [done|]. destruct (to_string_lead z ltac:(lia)) as (? & ? & -> & _). done. }
  unfold read_revision. rewrite (text_printable l _ _ _ _ Hm); [|by apply digit_printable|lia|done].
  cbn [mbind result_bind]. unfold require. rewrite revision_pattern by lia. cbn [check mbind result_bind].
  rewrite from_chars_digits; [|done|done|lia|rewrite to_string_value; unfold UINT64_MAX; lia].
  by rewrite to_string_value by lia.
Qed.

Lemma from_chars_range lo hi s z rest : from_chars lo hi s = Some (z, rest) → lo <= z <= hi.
Proof.
  unfold from_chars. destruct (match s with [] => _ | _ => _ end) as [sign t]. case_bool_decide; [done|].
  destruct (_ && _) eqn:E; [|done]. intros [= <- _]. apply andb_true_iff in E as [??]. by rewrite <-!Z.leb_le.
Qed.

Lemma read_revision_range l z : read_revision l = Ok z → 0 <= z <= UINT64_MAX.
Proof.
  unfold read_revision. intros E. apply bind_ok in E as (raw & _ & E). apply bind_ok in E as (u & _ & E).
  destruct (from_chars 0 UINT64_MAX raw) as [[z' [|]]|] eqn:Ef; try discriminate E. apply ok_inj in E. subst z'.
  by apply from_chars_range in Ef.
Qed.

Lemma null_or_ok s : json_ok (null_or s) = true.
Proof. unfold null_or. by case_bool_decide. Qed.

Lemma roster_json_ok a profiles :
  Forall2 (λ r p, dump p = Ok (author_profile r) ∧ json_ok p = true) (authors_ a) profiles →
  json_ok (roster_json a profiles) = true.
Proof.
  intros Hp. unfold roster_json. set (records := zip_with _ _ _). set (ls := _ <$> links_ a).
  set (ks := _ <$> drop 1 _).
  assert (forallb json_ok records = true) as Hr.
  { unfold records. clear -Hp. induction Hp as [|r p rs ps [_ Hp] _ IH]; [done|].
    cbn [zip_with forallb]. rewrite IH. cbn. by rewrite Hp. }
  assert (forallb json_ok ls = true) as Hl by (unfold ls; clear; by induction (links_ a)).
  assert (forallb json_ok ks = true) as Hk by (unfold ks; clear; by induction (drop 1 (authors_ a))).
  cbn [json_ok]. apply andb_true_iff. split; [reflexivity|].
  cbn [forallb snd json_ok]. by rewrite !null_or_ok, Hr, Hl, Hk.
Qed.

(** An optional date that was printed. *)
Lemma date_member l k date required : member (lit k) l = Some (null_or date) →
  (date = [] → required = false) → (date ≠ [] → timestamp date = Ok date) →
  optionalDate l k required = Ok date.
Proof.
  intros Hm H1 H2. unfold optionalDate. rewrite Hm. unfold null_or. case_bool_decide as E.
  - subst date. by rewrite H1.
  - by apply H2.
Qed.

(** A roster that was read, part by part. *)
Record roster_read (text_ : bytes) (a : Authorship) (l : list (bytes * json)) (items : list json) : Prop := {
  got_members : ∃ value schema, json_parse text_ = Some value ∧ keys value (schema_keys schema) = Ok l;
  got_revision : read_revision l = Ok (revision_ a);
  got_modified : optionalDate l "modifiedAt" (negb (revision_ a =? 0)) = Ok (modifiedAt_ a);
  got_authors : at_member "authors" l = Ok (JArray items) ∧ len items <= maximumAuthors;
  got_records : fold_res (read_record json_parse locate_zone zone_file (modifiedAt_ a)) [] items = Ok (authors_ a);
  got_last : read_last l (key <$> authors_ a) = Ok (lastAuthor_ a);
  got_links : read_links l = Ok (links_ a) ∨ links_ a = [];
  got_empty : revision_ a = 0 → authors_ a = [] ∧ links_ a = [] ∧ modifiedAt_ a = [];
  got_active : activeAuthor_ a = [];
  got_dump : dump_ a = roster_text a ∧ len (dump_ a) <= MaximumBytes
}.

Lemma read_roster_inv text_ a : read_roster json_parse locate_zone zone_file text_ = Ok a →
  ∃ l items, roster_read text_ a l items.
Proof.
  unfold read_roster. intros E. apply bind_ok in E as (u & _ & E). apply bind_ok in E as (value & Hv & E).
  apply of_option_ok in Hv. apply bind_ok in E as (schema & _ & E). apply bind_ok in E as (u1 & _ & E).
  apply bind_ok in E as (l & Hl & E). apply bind_ok in E as (revision & Hrev & E).
  apply bind_ok in E as (modified & Hmod & E). apply bind_ok in E as (authors & Hau & E).
  apply bind_ok in E as (items & Hit & E). destruct authors as [| | | | |x|]; try discriminate Hit. apply ok_inj in Hit. subst x.
  apply bind_ok in E as (u2 & Hlen & E). apply check_ok, Z.leb_le in Hlen.
  apply bind_ok in E as (records & Hrec & E). apply bind_ok in E as (last & Hlast & E).
  apply bind_ok in E as (links & Hlinks & E). apply bind_ok in E as (u3 & Hempty & E). apply check_ok in Hempty.
  apply bind_ok in E as (result & Hres & E). apply bind_ok in E as (u4 & _ & E). apply ok_inj in E. subst result.
  unfold rebuildDump in Hres. apply bind_ok in Hres as (u5 & Hsize & Hres). apply ok_inj in Hres. subst a.
  apply check_ok, negb_true_iff, Z.ltb_ge in Hsize. exists l, items.
  split; cbn -[roster_text]; try done; [exists value, schema; split; [exact Hv|exact Hl]| |].
  - destruct (schema =? 3); [by left|right; by apply ok_inj in Hlinks].
  - intros ->. cbn in Hempty. apply andb_true_iff in Hempty as [[E1 E2]%andb_true_iff E3].
    apply bool_decide_eq_true in E1, E2, E3. done.
Qed.

Lemma read_back a : wf a → roster_comes_back a →
  read_roster json_parse locate_zone zone_file (dump_ a) = Ok (clearActiveAuthor a).
Proof.
  intros Hw [Hback Hbackm]. destruct (wf_profiles a Hw) as [profiles Hp].
  assert (Forall2 (λ r p, dump p = Ok (author_profile r)) (authors_ a) profiles) as Hp1
    by (eapply Forall2_impl; [exact Hp|]; by intros r p [? _]).
  pose proof (dump_roster a profiles (wf_printable a Hw) Hp1) as Hdump.
  pose proof (parse_dump _ _ (roster_json_ok a profiles Hp) Hdump) as Hparse.
  pose proof (wf_size a Hw) as Hsize. rewrite (wf_dump a Hw) in *.
  unfold read_roster, require at 1. rewrite (proj2 (Z.leb_le _ _)) by done. cbn [check mbind result_bind].
  rewrite Hparse. cbn [of_option mbind result_bind].
  change (schema_of (roster_json a profiles)) with (@Ok string Z 3). cbn [mbind result_bind].
  change (schema_size 3 (roster_json a profiles)) with (@Ok string unit tt). cbn [mbind result_bind].
  destruct (roster_json a profiles) as [| | | | | |l] eqn:El; try discriminate El.
  assert (keys (JObject l) (schema_keys 3) = Ok l) as -> by (injection El as <-; reflexivity).
  assert (member (lit "revision") l = Some (JString (to_string (revision_ a)))) as M1 by (by injection El as <-).
  assert (member (lit "modifiedAt") l = Some (null_or (modifiedAt_ a))) as M2 by (by injection El as <-).
  assert (member (lit "authors") l = Some (JArray (zip_with record_json (authors_ a) profiles))) as M3
    by (by injection El as <-).
  assert (member (lit "lastAuthor") l = Some (null_or (lastAuthor_ a))) as M4 by (by injection El as <-).
  assert (member (lit "links") l = Some (JArray (link_json <$> links_ a))) as M5 by (by injection El as <-).
  assert (check_derived json_parse l (roster_text a) = Ok tt) as Hderived.
  { assert (member (lit "firstEditor") l = Some (null_or (front_key (authors_ a)))) as M6
      by (by injection El as <-).
    assert (member (lit "participants") l = Some (JArray ((λ r, JString (key r)) <$> drop 1 (authors_ a))))
      as M7 by (by injection El as <-).
    unfold check_derived. rewrite Hparse. cbn [of_option mbind result_bind].
    unfold at_member, value_or. rewrite M6, M7. cbn [of_option mbind result_bind default from_option id].
    by rewrite !bool_decide_true. }
  clear El. cbn [mbind result_bind]. rewrite (read_revision_ok (revision_ a)) by (apply Hw || done).
  cbn [mbind result_bind]. rewrite (date_member l "modifiedAt" (modifiedAt_ a)); [|done|..].
  - cbn [mbind result_bind]. unfold at_member at 1. rewrite M3. cbn [of_option mbind result_bind].
    assert (length (zip_with record_json (authors_ a) profiles) = length (authors_ a)) as ->.
    { rewrite length_zip_with. apply Forall2_length in Hp. lia. }
    unfold require at 1.
    rewrite (proj2 (Z.leb_le (len (authors_ a)) maximumAuthors)) by apply Hw. cbn [check mbind result_bind].
    rewrite (read_records _ (authors_ a) _ []) by (apply Hw || done). cbn [mbind result_bind app].
    assert (read_last l (key <$> authors_ a) = Ok (lastAuthor_ a)) as ->.
    { unfold read_last, at_member. rewrite M4. cbn [of_option mbind result_bind]. unfold null_or.
      destruct (decide (lastAuthor_ a = [])) as [E|E]; [by rewrite E|].
      rewrite (bool_decide_false (lastAuthor_ a = [])) by done. destruct (wf_last a Hw) as [|Hin]; [done|].
      unfold require. by rewrite bool_decide_true. }
    change (require true) with (@Ok string unit tt). change (3 =? 3) with true. cbn [mbind result_bind].
    rewrite (read_links_ok (links_ a)) by (apply Hw || done). cbn [mbind result_bind].
    assert (negb (revision_ a =? 0) || (bool_decide (authors_ a = []) && bool_decide (links_ a = []) &&
      bool_decide (modifiedAt_ a = [])) = true) as ->.
    { destruct (Z.eqb_spec (revision_ a) 0) as [E|]; [|done]. destruct (wf_empty a Hw E) as (-> & -> & ->). done. }
    cbn [check mbind result_bind]. unfold rebuildDump.
    set (next := roster_text _). change next with (roster_text a). clear next.
    destruct (Z.ltb_spec MaximumBytes (len (roster_text a))); [lia|]. cbn [negb check mbind result_bind].
    change (2 <=? 3) with true. cbn [with_dump dump_]. rewrite Hderived. cbn [mbind result_bind].
    unfold clearActiveAuthor, with_active. cbn. by rewrite (wf_dump a Hw).
  - intros E. destruct (wf_modified a Hw) as [Ht| ->]; [|done]. by apply printed_ascii in Ht as [_ Ht].
  - intros E. by destruct Hbackm.
Qed.

(** Exactly the rosters whose records and dates come back are read back. *)
Lemma read_back_only a : wf a → read_roster json_parse locate_zone zone_file (dump_ a) = Ok (clearActiveAuthor a) →
  roster_comes_back a.
Proof.
  intros Hw E. destruct (wf_profiles a Hw) as [profiles Hp].
  assert (Forall2 (λ r p, dump p = Ok (author_profile r)) (authors_ a) profiles) as Hp1
    by (eapply Forall2_impl; [exact Hp|]; by intros r p [? _]).
  pose proof (dump_roster a profiles (wf_printable a Hw) Hp1) as Hdump.
  pose proof (parse_dump _ _ (roster_json_ok a profiles Hp) Hdump) as Hparse. rewrite <-(wf_dump a Hw) in Hparse.
  apply read_roster_inv in E as (l & items & E). destruct (got_members _ _ _ _ E) as (value & schema & Hv & Hl).
  rewrite Hparse in Hv. injection Hv as <-.
  assert (l = match roster_json a profiles with JObject l => l | _ => [] end) as ->.
  { unfold keys in Hl. cbn -[forallb] in Hl. destruct (forallb _ _) in Hl; [|done]. by apply ok_inj in Hl. }
  destruct (got_authors _ _ _ _ E) as [Hi _]. injection Hi as <-.
  pose proof (got_records _ _ _ _ E) as Hr. pose proof (got_modified _ _ _ _ E) as Hm. split.
  - eapply (read_records_back _ (authors_ a) profiles []); [constructor|constructor|apply Hw|exact Hp|exact Hr].
  - destruct (decide (modifiedAt_ a = [])) as [|Hne]; [by left|right].
    unfold optionalDate in Hm. match type of Hm with context [member ?k ?l] =>
      change (member k l) with (Some (null_or (modifiedAt_ a))) in Hm end.
    unfold null_or in Hm. by rewrite bool_decide_false in Hm.
Qed.

(** A roster that was read is well formed. *)
Lemma read_roster_wf text_ a : read_roster json_parse locate_zone zone_file text_ = Ok a → wf a.
Proof.
  intros (l & items & E)%read_roster_inv. destruct (got_authors _ _ _ _ E) as [_ Hlen].
  destruct (read_records_inv _ _ _ _ (got_records _ _ _ _ E)) as ((more & Em & Hmore) & Hok & Hnd);
    [constructor|constructor|]. cbn [app] in Em.
  assert (Forall link_ok (links_ a) ∧ NoDup (links_ a) ∧ len (links_ a) <= MaximumLinks) as (L1 & L2 & L3).
  { destruct (got_links _ _ _ _ E) as [El| ->]; [|by split_and!; [constructor|constructor|]].
    unfold read_links in El. apply bind_ok in El as (v & _ & El). destruct v; try discriminate El.
    apply bind_ok in El as (u & _ & El). apply bind_ok in El as (ls & _ & El). by apply validatedLinks_inv in El. }
  split; try done; try apply (got_dump _ _ _ _ E).
  - eapply read_revision_range, E.
  - by rewrite Em, Hmore.
  - pose proof (got_last _ _ _ _ E) as Hl. unfold read_last in Hl. apply bind_ok in Hl as (v & _ & Hl).
    destruct v; try discriminate Hl; [left; by apply ok_inj in Hl|right].
    apply bind_ok in Hl as (u & Hu & Hl). apply check_ok, bool_decide_eq_true in Hu. apply ok_inj in Hl. by rewrite <-Hl.
  - left. apply (got_active _ _ _ _ E).
  - destruct (decide (revision_ a = 0)) as [|Hne]; [by right|left]. pose proof (got_modified _ _ _ _ E) as Hm.
    rewrite (proj2 (Z.eqb_neq _ _) Hne) in Hm. by eapply required_date.
  - apply (got_empty _ _ _ _ E).
Qed.

(** ** Changes *)

(** The date [recordChange] writes. *)
Definition newer (modified at_ : bytes) : bytes :=
  if bool_decide (modified = []) || bytes_ltb modified at_ then at_ else modified.

Lemma newer_modified modified at_ : bytes_leb modified (newer modified at_) = true ∨ modified = [].
Proof.
  unfold newer. case_bool_decide; [by right|]. left. cbn [orb].
  destruct (bytes_ltb modified at_) eqn:E; [|apply bytes_leb_refl]. apply bytes_leb_cases. by right.
Qed.

Lemma newer_at modified at_ : bytes_leb at_ (newer modified at_) = true.
Proof.
  unfold newer. destruct (bool_decide (modified = []) || bytes_ltb modified at_) eqn:E; [apply bytes_leb_refl|].
  apply orb_false_iff in E as [_ E]. unfold bytes_leb. by rewrite E.
Qed.

Lemma recordChange_inv a at_ a' : recordChange a at_ = Ok a' ↔ ∃ t, timestamp at_ = Ok t ∧
  revision_ a ≠ UINT64_MAX ∧
  let b := {| revision_ := revision_ a + 1; modifiedAt_ := newer (modifiedAt_ a) t;
              lastAuthor_ := activeAuthor_ a; activeAuthor_ := activeAuthor_ a; dump_ := dump_ a;
              authors_ := stamp (activeAuthor_ a) (newer (modifiedAt_ a) t) (authors_ a);
              links_ := links_ a |} in
  len (roster_text b) <= MaximumBytes ∧ a' = with_dump b (roster_text b).
Proof.
  unfold recordChange, rebuildDump. destruct (timestamp at_) as [t|]; cbn [mbind result_bind]; last first.
  { split; [done|]. by intros (t & ? & _). }
  destruct (Z.eqb_spec (revision_ a) UINT64_MAX) as [E|E]; cbn [negb check mbind result_bind].
  { split; [done|]. by intros (t' & _ & ? & _). }
  fold (newer (modifiedAt_ a) t). set (b := {| revision_ := _ |}). split.
  - intros E2. exists t. split; [done|split; [done|]]. cbv zeta. fold b.
    destruct (Z.ltb_spec MaximumBytes (len (roster_text b))); [done|]. cbn in E2. apply ok_inj in E2. done.
  - intros (t' & Et & _ & Hlen & ->). apply ok_inj in Et. subst t'. fold b in Hlen |- *.
    by rewrite (proj2 (Z.ltb_ge _ _) Hlen).
Qed.

(** What is needed of the record of the active author before a change. *)
Definition author_ok (k profile : bytes) : Prop := ∃ author, accepted author ∧
  toJsonText author = profile ∧ keyFor author = Ok k.

Record active_ok (modified : bytes) (r : AuthorRecord) : Prop := {
  active_author : author_ok (key r) (author_profile r);
  active_first : firstChangedAt r = [] ∨ printed (firstChangedAt r) ∧
    bytes_leb (firstChangedAt r) modified = true
}.

(** A roster about to record a change. *)
Record pending (a : Authorship) : Prop := {
  pending_revision : 0 <= revision_ a <= UINT64_MAX;
  pending_authors : len (authors_ a) <= maximumAuthors;
  pending_keys : NoDup (key <$> authors_ a);
  pending_records : Forall (λ r, active_ok (modifiedAt_ a) r ∧
    (key r ≠ activeAuthor_ a → record_ok (modifiedAt_ a) r)) (authors_ a);
  pending_active : activeAuthor_ a = [] ∨ activeAuthor_ a ∈ key <$> authors_ a;
  pending_links : len (links_ a) <= MaximumLinks;
  pending_links_ok : Forall link_ok (links_ a);
  pending_links_distinct : NoDup (links_ a);
  pending_modified : printed (modifiedAt_ a) ∨ modifiedAt_ a = []
}.

Lemma record_active modified r : record_ok modified r → active_ok modified r.
Proof.
  intros Hr. split; [apply Hr|]. right. split; [apply Hr|].
  eapply bytes_leb_trans; apply Hr.
Qed.

Lemma wf_pending a : wf a → pending a.
Proof.
  intros Hw. split; try apply Hw.
  - eapply Forall_impl; [apply (wf_records a Hw)|]. intros r Hr. split; [by apply record_active|done].
  - destruct (wf_modified a Hw) as [|E]; [by left|right]. by apply (wf_empty a Hw).
Qed.

Lemma stamp_keys active date authors : key <$> stamp active date authors = key <$> authors.
Proof. induction authors as [|r l IH]; [done|]. cbn [stamp]. case_bool_decide; csimpl; [done|by rewrite IH]. Qed.

(** Stamping touches the record of the active author alone. *)
Lemma stamp_records (P Q : AuthorRecord → Prop) active date authors : NoDup (key <$> authors) →
  Forall P authors → (∀ r, key r ≠ active → P r → Q r) →
  (∀ r, key r = active → P r → Q {| key := key r; author_profile := author_profile r;
     firstChangedAt := if bool_decide (firstChangedAt r = []) then date else firstChangedAt r;
     lastChangedAt := date |}) → Forall Q (stamp active date authors).
Proof.
  intros Hnd HP Hother Hactive. induction HP as [|r l Hr HP IH]; [done|].
  csimpl in Hnd. apply NoDup_cons in Hnd as [Hk Hnd]. cbn [stamp]. case_bool_decide as E.
  - constructor; [by apply Hactive|]. apply Forall_forall. intros x Hx. rewrite Forall_forall in HP.
    apply Hother; [|by apply HP]. intros Ex. apply Hk. rewrite E, <-Ex. by apply list_elem_of_fmap_2.
  - constructor; [by apply Hother|by apply IH].
Qed.

Lemma record_later modified modified' r : record_ok modified r → bytes_leb modified modified' = true →
  record_ok modified' r.
Proof. intros Hr Hm. split; try apply Hr. eapply bytes_leb_trans; [apply Hr|done]. Qed.

(** A recorded change gives a well-formed roster. *)
Lemma recordChange_wf a at_ a' : pending a → recordChange a at_ = Ok a' → wf a'.
Proof.
  intros Hp (t & Ht & Hrev & Hlen & ->)%recordChange_inv.
  assert (printed (newer (modifiedAt_ a) t)) as Hnew.
  { unfold newer. case_bool_decide as E; [by exists at_|]. cbn [orb].
    destruct (bytes_ltb (modifiedAt_ a) t); [by exists at_|]. by destruct (pending_modified a Hp). }
  destruct (printed_ascii _ Hnew) as [_ Hne].
  assert (∀ x, printed x → bytes_leb x (modifiedAt_ a) = true →
    bytes_leb x (newer (modifiedAt_ a) t) = true) as Hle.
  { intros x Hx Hxm. destruct (newer_modified (modifiedAt_ a) t) as [Hm|Hm]; [by eapply bytes_leb_trans|].
    rewrite Hm in Hxm. apply printed_ascii in Hx as [_ Hx]. by destruct x. }
  split; cbn -[roster_text]; try apply Hp; try done.
  - pose proof (pending_revision a Hp). lia.
  - rewrite <-(length_fmap key), stamp_keys, length_fmap. apply Hp.
  - rewrite stamp_keys. apply Hp.
  - eapply stamp_records; [apply Hp|apply (pending_records a Hp)|..]; cbn beta.
    + intros r Hk [_ Hr]. specialize (Hr Hk). split; try apply Hr. apply Hle; apply Hr.
    + intros r Hk [Hr _]. destruct (active_first _ _ Hr) as [Hf|[Hf1 Hf2]].
      * rewrite bool_decide_true by done. split; cbn; try done; [apply Hr|apply bytes_leb_refl..].
      * destruct (printed_ascii _ Hf1) as [_ Hfn]. rewrite bool_decide_false by done.
        split; cbn; try done; [apply Hr|by apply Hle|apply bytes_leb_refl].
  - rewrite stamp_keys. apply Hp.
  - rewrite stamp_keys. apply Hp.
  - by left.
  - pose proof (pending_revision a Hp). lia.
Qed.

(** ** Operations *)

Lemma put_profile_keys k profile authors : key <$> put_profile k profile authors = key <$> authors.
Proof. induction authors as [|r l IH]; [done|]. cbn [put_profile]. case_bool_decide; csimpl; [done|by rewrite IH]. Qed.

(** The records after the profile of [k] was put in. *)
Lemma put_profile_pending modified k profile authors : author_ok k profile → NoDup (key <$> authors) →
  Forall (record_ok modified) authors →
  Forall (λ r, active_ok modified r ∧ (key r ≠ k → record_ok modified r)) (put_profile k profile authors).
Proof.
  intros Ha Hnd Hr. induction Hr as [|r l Hr Hl IH]; [done|]. csimpl in Hnd.
  apply NoDup_cons in Hnd as [Hk Hnd]. cbn [put_profile]. case_bool_decide as E.
  - constructor.
    + split; [|done]. split; cbn; [by rewrite E|by apply (record_active _ _ Hr)].
    + eapply Forall_impl; [exact Hl|]. intros x Hx. split; [by apply record_active|done].
  - constructor; [split; [by apply record_active|done]|by apply IH].
Qed.

Lemma find_key k authors r : List.find (λ r, bool_decide (key r = k)) authors = Some r →
  r ∈ authors ∧ key r = k.
Proof. intros E. apply find_some in E as [Hin E]. split; [by apply list_elem_of_In|by apply bool_decide_eq_true in E]. Qed.

Lemma find_no_key k authors : List.find (λ r, bool_decide (key r = k)) authors = None → k ∉ key <$> authors.
Proof.
  intros E Hin. apply list_elem_of_fmap in Hin as (r & -> & Hin). apply list_elem_of_In in Hin.
  pose proof (find_none _ _ E r Hin) as H'. by apply bool_decide_eq_false in H'.
Qed.

Lemma accepted_author author k : accepted author → keyFor author = Ok k → author_ok k (toJsonText author).
Proof. intros Ha Hk. by exists author. Qed.

Lemma with_active_wf a k : wf a → k = [] ∨ k ∈ key <$> authors_ a → wf (with_active a k).
Proof. intros Hw Hk. split; try apply Hw. done. Qed.

Lemma setAuthor_wf a author links at_ b a' : wf a → accepted author →
  setAuthor a author links at_ = Ok (b, a') → wf a'.
Proof.
  intros Hw Ha E. unfold setAuthor in E. apply bind_ok in E as (l & Hl & E).
  apply validatedLinks_inv in Hl as (Hl1 & Hl2 & Hl3). apply bind_ok in E as (k & Hk & E).
  pose proof (accepted_author _ _ Ha Hk) as Hok. pose proof (wf_pending a Hw) as Hp.
  destruct (List.find _ _) as [r|] eqn:Ef.
  - apply find_key in Ef as [Hin Hkey]. destruct (_ && _).
    + apply ok_inj in E. injection E as <- <-. apply with_active_wf; [done|]. right. rewrite <-Hkey.
      by apply list_elem_of_fmap_2.
    + apply bind_ok in E as (next & E & E2). apply ok_inj in E2. injection E2 as <- <-.
      refine (recordChange_wf _ _ _ _ E). split; cbn; try done; try apply Hp.
      * rewrite <-(length_fmap key), put_profile_keys, length_fmap. apply Hp.
      * rewrite put_profile_keys. apply Hp.
      * apply put_profile_pending; [done|apply Hw..].
      * rewrite put_profile_keys. right. rewrite <-Hkey. by apply list_elem_of_fmap_2.
  - apply find_no_key in Ef. apply bind_ok in E as (? & Hlen & E). apply check_ok, Z.ltb_lt in Hlen.
    apply bind_ok in E as (next & E & E2). apply ok_inj in E2. injection E2 as <- <-.
    refine (recordChange_wf _ _ _ _ E). split; cbn; try done; try apply Hp.
    + rewrite length_app. simpl. lia.
    + rewrite fmap_app. apply NoDup_app. split_and!; [apply Hw| |apply NoDup_singleton].
      intros z Hz ->%list_elem_of_singleton. done.
    + apply Forall_app. split.
      * eapply Forall_impl; [apply (wf_records a Hw)|]. intros r Hr. split; [by apply record_active|done].
      * apply Forall_singleton. cbn. split; [split; [done|by left]|done].
    + right. rewrite fmap_app. apply elem_of_app. right. by apply list_elem_of_singleton.
Qed.

Lemma setLinks_wf a links at_ b a' : wf a → setLinks a links at_ = Ok (b, a') → wf a'.
Proof.
  intros Hw E. unfold setLinks in E. apply bind_ok in E as (l & Hl & E).
  apply validatedLinks_inv in Hl as (Hl1 & Hl2 & Hl3). case_bool_decide.
  - apply ok_inj in E. by injection E as <- <-.
  - apply bind_ok in E as (next & E & E2). apply ok_inj in E2. injection E2 as <- <-.
    pose proof (wf_pending a Hw) as Hp. refine (recordChange_wf _ _ _ _ E). split; cbn; done || apply Hp.
Qed.

Lemma setLinksFromStrings_wf a entries at_ b a' : wf a →
  setLinksFromStrings a entries at_ = Ok (b, a') → wf a'.
Proof.
  intros Hw E. unfold setLinksFromStrings in E. apply bind_ok in E as (l & _ & E). by eapply setLinks_wf.
Qed.

Lemma empty_wf : wf empty_roster.
Proof. split; cbn -[roster_text]; try done; try (by left); try (by constructor); by right. Qed.

(** ** Reachable rosters *)

(** What a program can hold: an empty roster or a stored one, changed by any operation
    with any author that was accepted, any links and any time. *)
Inductive reachable : Authorship → Prop :=
  | reach_new : reachable empty_roster
  | reach_fromDump text_ a : fromDump json_parse locate_zone zone_file text_ = Some a → reachable a
  | reach_setAuthor a author links at_ b a' : reachable a → accepted author →
      setAuthor a author links at_ = Ok (b, a') → reachable a'
  | reach_setLinks a links at_ b a' : reachable a → setLinks a links at_ = Ok (b, a') → reachable a'
  | reach_setLinksFromStrings a entries at_ b a' : reachable a →
      setLinksFromStrings a entries at_ = Ok (b, a') → reachable a'
  | reach_recordChange a at_ a' : reachable a → recordChange a at_ = Ok a' → reachable a'
  | reach_clearActiveAuthor a : reachable a → reachable (clearActiveAuthor a).

Lemma reachable_wf a : reachable a → wf a.
Proof.
  induction 1 as [|text_ a E| | | | |].
  - apply empty_wf.
  - unfold fromDump in E. destruct (read_roster _ _ _ _) as [x|] eqn:Er; [|done]. injection E as ->.
    by eapply read_roster_wf.
  - by eapply setAuthor_wf.
  - by eapply setLinks_wf.
  - by eapply setLinksFromStrings_wf.
  - eapply recordChange_wf; [by apply wf_pending|done].
  - apply with_active_wf; [done|by left].
Qed.
End rosters.
