(* ===== verification/AuthorshipProperties.v ===== *)
(** The properties of authors and rosters of the native core. *)
From S2P Require Import Sha256 Prelude Text Unicode Timestamp CoreText UnicodePlain Uri Json JsonObject.
From S2P Require Import JsonUtf8 JsonParser Calendar AuthorProfile AuthorLaws Authorship AuthorshipLaws.
Local Open Scope Z_scope.

(** ** Text *)

(** C36 Decoding UTF-8 terminates and is exact: the loop of [scalars], which
    advances by what the decoder took, gives the code points of a text if and only
    if the text is their encoding, and never runs past the end: every amount of
    fuel from the size of the text on gives this result. *)
Theorem scalars_exact value points fuel : (length value <= fuel)%nat →
  scalars_from fuel value = scalars value ∧ scalars value ≠ Err out_of_fuel ∧
  (scalars value = Ok points ↔ Forall scalar points ∧ value = utf8 points).
Proof.
  intros Hf. destruct (scalars_from_enough fuel (length value) value Hf (le_n _)) as [E Hn].
  unfold scalars at 1. rewrite E in *. split_and!; [done..|]. split; [apply scalars_inv|].
  intros [Hp ->]. by apply scalars_utf8.
Qed.

Lemma scalars_exact_witness :
  scalars_from 9 (lit "A" ++ [Zbyte 0xc3; Zbyte 0xa9]) = Ok [65; 0xe9].
Proof.
  destruct (scalars_exact (lit "A" ++ [Zbyte 0xc3; Zbyte 0xa9]) [65; 0xe9] 9 ltac:(vm_compute; lia))
    as (-> & _ & [_ E]).
  apply E. split; [by repeat constructor|reflexivity].
Defined.

Section properties.
  Context `{Utf8procLaws} (json_parse : bytes → option json) (locate_zone zone_file : bytes → bool).
  Context (parse_ok : ∀ s j, json_parse s = Some j → json_ok j = true).
  Context (parse_dump : ∀ j s, json_ok j = true → dump j = Ok s → json_parse s = Some j).

Abbreviation read := (read_author json_parse locate_zone zone_file).
Abbreviation reach := (reachable json_parse locate_zone zone_file).
Abbreviation well_formed := (wf json_parse locate_zone zone_file).
Abbreviation returns := (comes_back json_parse locate_zone zone_file).

(** ** Authors *)

Lemma read_again snapshot a : read snapshot = Ok a →
  (∀ p, json_parse (toJsonText a) = Some p → readable p) → stable json_parse locate_zone zone_file a.
Proof.
  intros E Hr. destruct (read_profile _ _ _ _ _ E) as (j & p & Hj & Hp & Hd & Hs & Hagain).
  pose proof (profile_json_ok _ _ _ _ (parse_ok _ _ Hj) Hp) as Hok.
  pose proof (parse_dump _ _ Hok Hd) as Hparse. apply Hagain; [done| |].
  - by apply (profile_again _ _ j); [apply (parse_ok _ _ Hj)| |apply Hr].
  - destruct (sized_dump _ Hs) as (t & Ht & Hl). rewrite Hd in Ht. apply ok_inj in Ht. by rewrite Ht.
Qed.

(** An accepted author is read back from its own snapshot.  The canonical
    profile, written as JSON text and read again, gives the same author: the same
    text, and the same cached metadata, provided its origin and addresses are
    printable ASCII, its dates lie in the years 0 to 9999 and its details stay
    within the limit that reading checks. *)
Theorem author_round_trip snapshot a :
  fromJsonText json_parse locate_zone zone_file snapshot = Some a →
  (∀ p, json_parse (toJsonText a) = Some p → readable p) →
  fromJsonText json_parse locate_zone zone_file (toJsonText a) = Some a.
Proof.
  unfold fromJsonText at 1. destruct (read snapshot) as [a'|] eqn:E; [|done]. intros [= ->] Hr.
  unfold fromJsonText. by rewrite (read_again snapshot a E Hr).
Qed.

(** ** Rosters *)

(** What reading needs of a stored record: a profile that can be read again, and dates
    within the years 0 to 9999. *)
Definition plain_record (r : AuthorRecord) : Prop :=
  (∀ p, json_parse (author_profile r) = Some p → readable p) ∧
  timestampShape (firstChangedAt r) = true ∧ timestampShape (lastChangedAt r) = true.

Lemma plain_record_returns modified r : record_ok json_parse locate_zone zone_file modified r → plain_record r → returns r.
Proof.
  intros Hr (Hp & Hf & Hl). destruct (record_author _ _ _ _ _ Hr) as (author & [snapshot E] & Ht & Hk). split.
  - exists author. split_and!; [|done..]. rewrite <-Ht. apply (read_again snapshot); [done|]. by rewrite Ht.
  - destruct (record_first _ _ _ _ _ Hr) as [raw ?]. by eapply timestamp_again.
  - destruct (record_last _ _ _ _ _ Hr) as [raw ?]. by eapply timestamp_again.
Qed.

(** C21 When a roster survives being stored.  Whatever sequence of operations built it,
    [fromDump] reads what [dump] shows as the same roster - revision, dates, records,
    links and last author included, only the choice of an active author, which is not
    stored, being gone - exactly if every stored profile is read as an author with the
    same text and key and every date is its own canonical form.  It is enough that the
    profiles are readable (printable ASCII origin and addresses, dates in the years 0
    to 9999, details within the limit) and that the dates of the roster lie in those
    years; accepted authors and times outside these bounds can make a roster that is
    not read back. *)
Theorem roster_round_trip a : reach a →
  (fromDump json_parse locate_zone zone_file (dump_ a) = Some (clearActiveAuthor a) ↔
     (∀ r, r ∈ authors_ a →
        (∃ author, fromJsonText json_parse locate_zone zone_file (author_profile r) = Some author ∧
           toJsonText author = author_profile r ∧ keyFor author = Ok (key r)) ∧
        timestamp (firstChangedAt r) = Ok (firstChangedAt r) ∧ timestamp (lastChangedAt r) = Ok (lastChangedAt r)) ∧
     (modifiedAt_ a = [] ∨ timestamp (modifiedAt_ a) = Ok (modifiedAt_ a))) ∧
  ((∀ r, r ∈ authors_ a → plain_record r) → (modifiedAt_ a = [] ∨ timestampShape (modifiedAt_ a) = true) →
   fromDump json_parse locate_zone zone_file (dump_ a) = Some (clearActiveAuthor a)).
Proof.
  intros Ha. apply reachable_wf in Ha as Hw.
  assert (fromDump json_parse locate_zone zone_file (dump_ a) = Some (clearActiveAuthor a) ↔
    roster_comes_back json_parse locate_zone zone_file a) as Hiff.
  { unfold fromDump. split.
    - intros E. destruct (read_roster _ _ _ _) as [x|] eqn:Er; [|done]. injection E as ->.
      by eapply read_back_only.
    - intros Hb. by rewrite (read_back json_parse locate_zone zone_file parse_ok parse_dump a Hw Hb). }
  split.
  - rewrite Hiff. unfold roster_comes_back. rewrite Forall_forall. apply and_iff_compat_r.
    split; intros Hr r Hin; specialize (Hr r Hin).
    + destruct Hr as [(author & E & Ht & Hk) ? ?]. split; [|done]. exists author. unfold fromJsonText. by rewrite E.
    + destruct Hr as ((author & E & Ht & Hk) & ? & ?). split; [|done..]. exists author. unfold fromJsonText in E.
      destruct (read (author_profile r)) as [x|]; [|done]. by injection E as ->.
  - intros Hr Hm. apply Hiff. split.
    + apply Forall_forall. intros r Hin. eapply plain_record_returns; [|by apply Hr].
      pose proof (wf_records _ _ _ a Hw) as Hrs. rewrite Forall_forall in Hrs. by apply Hrs.
    + destruct (wf_modified _ _ _ a Hw) as [[raw Ht]|E0]; [|left; by apply (wf_empty _ _ _ a Hw)].
      destruct Hm as [|Hm]; [by left|right]. by eapply timestamp_again.
Qed.

(** C22 The invariant of rosters, whatever operations, authors and times made them and
    whether they started empty or from a stored text.  Every reachable roster has at
    most 256 authors under distinct keys, each record holding the text of an accepted
    author under the SHA-256 of its origin and subject; its dates are what [timestamp]
    prints, hence canonical if they lie in the years 0 to 9999, and ordered as text,
    first change, last change, roster; the last and the active author are on it; it
    has at most 64 distinct links, each canonical; without a change it is empty; and
    its dump is what the serializer prints for it, within 2 MiB. *)
Theorem roster_invariant a : reach a →
  0 <= revision_ a <= UINT64_MAX ∧
  len (authors_ a) <= 256 ∧ NoDup (key <$> authors_ a) ∧
  (∀ r, r ∈ authors_ a →
     (∃ snapshot author, fromJsonText json_parse locate_zone zone_file snapshot = Some author ∧
        toJsonText author = author_profile r ∧ keyFor author = Ok (key r)) ∧
     (∀ d, d = firstChangedAt r ∨ d = lastChangedAt r ∨ d = modifiedAt_ a →
        (∃ t, timestamp t = Ok d) ∧ (timestampShape d = true → timestamp d = Ok d)) ∧
     bytes_leb (firstChangedAt r) (lastChangedAt r) = true ∧
     bytes_leb (lastChangedAt r) (modifiedAt_ a) = true) ∧
  (lastAuthor_ a = [] ∨ lastAuthor_ a ∈ key <$> authors_ a) ∧
  (activeAuthor_ a = [] ∨ activeAuthor_ a ∈ key <$> authors_ a) ∧
  len (links_ a) <= 64 ∧ NoDup (links_ a) ∧
  (∀ l, l ∈ links_ a → create (link_name l) (link_url l) = Some l) ∧
  (if revision_ a =? 0 then authors_ a = [] ∧ links_ a = [] ∧ modifiedAt_ a = []
   else ∃ t, timestamp t = Ok (modifiedAt_ a)) ∧
  dump_ a = roster_text a ∧ len (dump_ a) <= 2097152.
Proof.
  intros Ha%reachable_wf. split_and!; try apply Ha.
  - intros r Hr. pose proof (wf_records _ _ _ a Ha) as Hrs. rewrite Forall_forall in Hrs. specialize (Hrs r Hr).
    destruct (record_author _ _ _ _ _ Hrs) as (author & [snapshot E] & Ht & Hk). split_and!; try apply Hrs.
    + exists snapshot, author. unfold fromJsonText. by rewrite E.
    + assert (printed (modifiedAt_ a)) as Hm.
      { destruct (wf_modified _ _ _ a Ha) as [|E0]; [done|]. destruct (wf_empty _ _ _ a Ha E0) as [Hnil _].
        rewrite Hnil in Hr. by apply not_elem_of_nil in Hr. }
      intros d Hd. assert (printed d) as [t Et]; [|split; [by exists t|by apply timestamp_again with t]].
      destruct Hd as [->|[->| ->]]; [apply Hrs..|done].
  - intros l Hl. pose proof (wf_links_ok _ _ _ a Ha) as Hls. rewrite Forall_forall in Hls. by apply Hls.
  - destruct (Z.eqb_spec (revision_ a) 0) as [E0|E0]; [by apply (wf_empty _ _ _ a Ha)|].
    by destruct (wf_modified _ _ _ a Ha).
Qed.

(** The hand-written serializer of rosters is the library's.  For any roster
    whose texts are UTF-8 and whose profiles are printed documents, [rebuildDump]
    writes byte for byte what nlohmann::json's [dump] prints for the document of
    the roster. *)
Theorem roster_serializer a profiles : roster_printable a →
  Forall2 (λ r p, dump p = Ok (author_profile r)) (authors_ a) profiles →
  dump (roster_json a profiles) = Ok (roster_text a).
Proof. apply dump_roster. Qed.







(** The participants of a roster whose records come back can be read.  [participants]
    reads each stored profile again and dereferences the result without a test; on
    such a roster the result is never empty, and the authors come in order. *)
Theorem participants_are_readable a : Forall returns (authors_ a) → ∃ l,
  participants json_parse locate_zone zone_file a = Ok l ∧
  toJsonText <$> l = author_profile <$> drop 1 (authors_ a).
Proof.
  intros Hr. apply (Forall_drop _ 1) in Hr. unfold participants. revert Hr. generalize (drop 1 (authors_ a)). intros rs Hr.
  assert (∀ acc, ∃ l, fold_res (λ acc r,
    author ← of_option "dereferenced an empty optional"
      (fromJsonText json_parse locate_zone zone_file (author_profile r));
    Ok (acc ++ [author])) acc rs = Ok l ∧ toJsonText <$> l = (toJsonText <$> acc) ++ (author_profile <$> rs))
    as Hloop; [|by apply (Hloop [])].
  induction Hr as [|r rs Hr _ IH]; intros acc.
  - exists acc. by rewrite app_nil_r.
  - destruct (back_author _ _ _ _ Hr) as (author & Hs & Ht & _). cbn [fold_res].
    assert (fromJsonText json_parse locate_zone zone_file (author_profile r) = Some author) as ->
      by (unfold fromJsonText; by rewrite Hs). cbn [of_option mbind result_bind].
    destruct (IH (acc ++ [author])) as (l & -> & El). exists l. split; [done|].
    rewrite El, fmap_app, <-app_assoc. csimpl. by rewrite Ht.
Qed.
End properties.
