(* ===== verification/AuthorshipExamples.v ===== *)
(** Concrete authors and rosters: the witnesses of the properties, and two inputs
    on which the code does not do what it means to. *)
From S2P Require Import Sha256 Prelude Text Unicode Timestamp CoreText UnicodePlain Uri Json JsonObject.
From S2P Require Import JsonUtf8 JsonParser AuthorProfile AuthorLaws Authorship AuthorshipLaws AuthorshipProperties.
Local Open Scope Z_scope.

Definition no_zone (_ : bytes) : bool := false.

Abbreviation read_one := (fromJsonText json_parse no_zone no_zone).

(** A snapshot with a default port, an upper-case host and address, and details. *)
Definition ada_json : json :=
  json_object [(lit "schemaVersion", JInt 1);
    (lit "account", json_object [(lit "sub", JString (lit "ada"));
       (lit "email", JString (lit "Ada@Example.org")); (lit "displayName", JString (lit " Ada "));
       (lit "avatarUrl", JString (lit "/media/avatars/" ++ replicate 64 "a"%char ++ lit ".webp"))]);
    (lit "details", json_object [(lit "countryCode", JString (lit "GB"));
       (lit "contactEmail", JString (lit "ADA@example.org"));
       (lit "links", JArray [json_object [(lit "relation", JString (lit "home"));
          (lit "url", JString (lit "https://ada.example/"))]])]);
    (lit "attribution", json_object [(lit "roles", JArray [JString (lit "author")]);
       (lit "createdAt", JString (lit "2024-01-01T00:00:00+01:00"))]);
    (lit "serviceOrigin", JString (lit "https://IISACC.example:443/"));
    (lit "capturedAt", JString (lit "2024-02-29T23:59:59.5+01:30"))].

Definition snapshot_of (j : json) : bytes := match dump j with Ok s => s | Err _ => [] end.

Definition ada : FileAuthor :=
  match read_one (snapshot_of ada_json) with
  | Some a => a
  | None => {| account := {| sub := []; email := []; displayName := []; userId := [];
                 societyCloudMembership := []; avatarUrl := [] |};
               serviceOrigin := []; capturedAt := []; toJsonText := [] |}
  end.

Example ada_read : read_one (snapshot_of ada_json) = Some ada ∧
  serviceOrigin ada = lit "https://iisacc.example" ∧ email (account ada) = lit "ada@example.org" ∧
  displayLabel ada = lit "Ada" ∧ capturedAt ada = lit "2024-02-29T22:29:59.500Z".
Proof. by vm_compute. Qed.

(** Deciding the conditions of [readable]. *)
Definition mail_check (j : option json) : bool :=
  match j with Some (JString s) => forallb printable s && (len s <=? 254) | _ => true end.
Definition date_check (j : option json) : bool :=
  match j with Some (JString s) => timestampShape s | _ => true end.
Definition sub_check (k : string) (f : list (bytes * json) → bool) (l : list (bytes * json)) : bool :=
  match member (lit k) l with Some (JObject m) => f m | _ => true end.
Definition readable_check (p : json) : bool :=
  match p with
  | JObject l =>
      match member (lit "serviceOrigin") l with Some (JString s) => forallb printable s | _ => true end
      && date_check (member (lit "capturedAt") l)
      && sub_check "account" (λ m, mail_check (member (lit "email") m)) l
      && match member (lit "details") l with
         | Some (JObject m) => mail_check (member (lit "contactEmail") m)
         | _ => true
         end
      && match member (lit "details") l with
         | Some d => match dump d with Ok t => len t <=? 65536 | Err _ => true end
         | None => true
         end
      && sub_check "attribution" (λ m, date_check (member (lit "createdAt") m)
           && date_check (member (lit "modifiedAt") m)) l
  | _ => false
  end.

Lemma mail_check_ok j : mail_check j = true → plain_mail j.
Proof.
  unfold mail_check, plain_mail. destruct j as [[| | | |s| |]|]; try done. intros E. inv_ok.
  rewrite Z.leb_le in *. split; [by apply forallb_True, Is_true_true|done].
Qed.

Lemma date_check_ok j : date_check j = true → date_in_grammar j.
Proof. by destruct j as [[]|]. Qed.

Lemma readable_check_ok p : readable_check p = true → readable p.
Proof.
  unfold readable_check, readable. destruct p as [| | | | | |l]; try done. intros E. inv_ok.
  unfold sub_check in *. split_and!.
  - destruct (member (lit "serviceOrigin") l) as [[]|]; try done. by apply forallb_True, Is_true_true.
  - by apply date_check_ok.
  - intros m Em. rewrite Em in *. by apply mail_check_ok.
  - intros d Ed. rewrite Ed in *. split; [destruct d; try done; by apply mail_check_ok|].
    intros t Et. rewrite Et in *. by apply Z.leb_le.
  - intros a Ea. rewrite Ea in *. destruct a; try done. inv_ok. split; by apply date_check_ok.
Qed.

Definition parsed_check (a : FileAuthor) : bool :=
  match json_parse (toJsonText a) with Some p => readable_check p | None => true end.

Lemma parsed_check_ok a : parsed_check a = true → ∀ p, json_parse (toJsonText a) = Some p → readable p.
Proof. unfold parsed_check. intros E p Ep. rewrite Ep in E. by apply readable_check_ok. Qed.

Lemma author_round_trip_witness :
  fromJsonText json_parse no_zone no_zone (toJsonText ada) = Some ada.
Proof.
  apply (author_round_trip json_parse no_zone no_zone json_parse_ok json_parse_dump (snapshot_of ada_json)).
  - vm_compute. reflexivity.
  - apply parsed_check_ok. vm_compute. reflexivity.
Defined.

(** ** A roster *)

Definition bob : FileAuthor :=
  match read_one (snapshot_of (json_object [(lit "schemaVersion", JInt 1);
    (lit "account", json_object [(lit "sub", JString (lit "bob")); (lit "email", JString (lit "bob@example.org"))]);
    (lit "serviceOrigin", JString (lit "https://iisacc.example"));
    (lit "capturedAt", JString (lit "2024-03-01T00:00:00Z"))])) with
  | Some a => a
  | None => ada
  end.

Definition or_empty (r : result string (bool * Authorship)) : Authorship :=
  match r with Ok (_, a) => a | Err _ => empty_roster end.

Definition home : FileLink := {| link_name := lit "home"; link_url := lit "https://ada.example/" |}.

Definition roster1 : Authorship := or_empty (setAuthor empty_roster ada [home] (lit "2024-03-01T10:00:00Z")).
Definition roster2 : Authorship := or_empty (setAuthor roster1 bob [home] (lit "2024-03-01T09:00:00Z")).
Definition roster3 : Authorship :=
  or_empty (setLinksFromStrings roster2 [lit "[home|https://ada.example/]"; lit "[a b|docs/x.txt]"]
    (lit "2024-03-02T09:00:00+02:00")).

Example roster3_facts : revision_ roster3 = 3 ∧ modifiedAt_ roster3 = lit "2024-03-02T07:00:00.000Z" ∧
  length (authors_ roster3) = 2%nat ∧ length (links_ roster3) = 2%nat ∧
  (firstChangedAt <$> authors_ roster3) = [lit "2024-03-01T10:00:00.000Z"; lit "2024-03-01T10:00:00.000Z"].
Proof. by vm_compute. Qed.

Abbreviation reached := (reachable json_parse no_zone no_zone).

Lemma ada_accepted : accepted json_parse no_zone no_zone ada.
Proof. exists (snapshot_of ada_json). vm_compute. reflexivity. Qed.

Lemma bob_accepted : accepted json_parse no_zone no_zone bob.
Proof. exists (toJsonText bob). vm_compute. reflexivity. Qed.

Lemma roster1_reached : reached roster1.
Proof.
  apply (reach_setAuthor _ _ _ empty_roster ada [home] (lit "2024-03-01T10:00:00Z") true).
  - constructor.
  - apply ada_accepted.
  - vm_compute. reflexivity.
Qed.

Lemma roster3_reached : reached roster3.
Proof.
  apply (reach_setLinksFromStrings _ _ _ roster2
    [lit "[home|https://ada.example/]"; lit "[a b|docs/x.txt]"] (lit "2024-03-02T09:00:00+02:00") true).
  - apply (reach_setAuthor _ _ _ roster1 bob [home] (lit "2024-03-01T09:00:00Z") true).
    + apply roster1_reached.
    + apply bob_accepted.
    + vm_compute. reflexivity.
  - vm_compute. reflexivity.
Qed.

(** Deciding [plain_record]. *)
Definition plain_check (r : AuthorRecord) : bool :=
  match json_parse (author_profile r) with Some p => readable_check p | None => true end &&
  timestampShape (firstChangedAt r) && timestampShape (lastChangedAt r).

Lemma plain_check_ok r : plain_check r = true → plain_record json_parse r.
Proof.
  unfold plain_check. intros [[Hp Hf]%andb_true_iff Hl]%andb_true_iff. split; [|done].
  intros p Ep. rewrite Ep in Hp. by apply readable_check_ok.
Qed.

Lemma plain_checks_ok l : forallb plain_check l = true → ∀ r, r ∈ l → plain_record json_parse r.
Proof. intros E r Hin. apply plain_check_ok. rewrite forallb_forall in E. by apply E, list_elem_of_In. Qed.

Lemma roster_round_trip_witness :
  fromDump json_parse no_zone no_zone (dump_ roster3) = Some (clearActiveAuthor roster3).
Proof.
  destruct (roster_round_trip json_parse no_zone no_zone json_parse_ok json_parse_dump roster3 roster3_reached) as [_ H].
  apply H; [|right; vm_compute; reflexivity]. apply plain_checks_ok. vm_compute. reflexivity.
Defined.

(** A time that is accepted but printed outside the years of the grammar: the roster
    is within the invariant and is not read back. *)
Definition early : Authorship := or_empty (setAuthor empty_roster ada [home] (lit "0000-01-01T00:00:00+01:00")).

Example early_is_lost : reached early ∧ fromDump json_parse no_zone no_zone (dump_ early) = None.
Proof.
  split; [|vm_compute; reflexivity].
  apply (reach_setAuthor _ _ _ empty_roster ada [home] (lit "0000-01-01T00:00:00+01:00") true);
    [constructor|apply ada_accepted|vm_compute; reflexivity].
Qed.

(** A roster that was read from its text, and changed again. *)
Definition roster4 : Authorship :=
  match fromDump json_parse no_zone no_zone (dump_ roster3) with
  | Some a => match recordChange a (lit "2024-03-03T00:00:00Z") with Ok b => b | Err _ => a end
  | None => roster3
  end.

Lemma roster4_reached : reached roster4.
Proof.
  apply (reach_recordChange _ _ _ (clearActiveAuthor roster3) (lit "2024-03-03T00:00:00Z")).
  - apply (reach_fromDump _ _ _ (dump_ roster3)). vm_compute. reflexivity.
  - vm_compute. reflexivity.
Qed.

Lemma roster_invariant_witness : NoDup (key <$> authors_ roster4) ∧ length (authors_ roster4) = 2%nat ∧ revision_ roster4 = 4.
Proof.
  destruct (roster_invariant json_parse no_zone no_zone roster4 roster4_reached) as (_ & _ & H & _).
  split; [exact H|vm_compute; split; reflexivity].
Defined.

Lemma roster_serializer_witness : dump (roster_json empty_roster []) = Ok (dump_ empty_roster).
Proof.
  apply (roster_serializer empty_roster []).
  - repeat split; try apply Forall_nil_2; try apply utf8_empty. exists [48]. reflexivity.
  - apply Forall2_nil_2.
Defined.


Lemma participants_are_readable_witness : ∃ l,
  participants json_parse no_zone no_zone roster3 = Ok l ∧ toJsonText <$> l = [toJsonText bob].
Proof.
  destruct (participants_are_readable json_parse no_zone no_zone roster3) as (l & E & Hl).
  - apply Forall_forall. intros r Hin. eapply (plain_record_returns json_parse no_zone no_zone json_parse_ok json_parse_dump).
    + pose proof (wf_records _ _ _ _ (reachable_wf json_parse no_zone no_zone roster3 roster3_reached)) as Hrs.
      rewrite Forall_forall in Hrs. by apply Hrs.
    + revert r Hin. apply plain_checks_ok. vm_compute. reflexivity.
  - exists l. split; [exact E|]. rewrite Hl. vm_compute. reflexivity.
Defined.

Lemma links_round_trip_witness : fromString (link_text home) = Some home.
Proof.
  destruct (links_round_trip (lit " home") (lit "https://ada.example/") home) as [E _].
  - vm_compute. reflexivity.
  - exact E.
Defined.

Lemma origin_is_canonical_witness : origin (lit "https://iisacc.example") = Ok (lit "https://iisacc.example").
Proof.
  destruct (origin_is_canonical (lit "https://IISACC.example:443/") (lit "https://iisacc.example")) as [E _].
  - vm_compute. reflexivity.
  - repeat constructor.
  - exact E.
Defined.

(** ** Where the code does not do what it means to *)

(** [fromIisaccAccount] builds the JSON text before its conversion is guarded: an
    account whose text is not UTF-8 makes it throw, where it should return nothing. *)
Theorem fromIisaccAccount_throws :
  fromIisaccAccount json_parse no_zone no_zone [(lit "sub", [Zbyte 255])] (lit "https://iisacc.example")
    (lit "2024-03-01T00:00:00Z") = Err invalid_utf8.
Proof. by vm_compute. Qed.

(** Details of almost 64 KiB: 32 links whose addresses fill what the first reading
    allows.  The canonical form has the empty fields too and exceeds the limit the
    next reading checks, so the author is accepted and its own snapshot refused. *)
Definition long_link (n : nat) : json :=
  json_object [(lit "relation", JString (lit "r"));
    (lit "url", JString (lit "https://a/" ++ replicate n "a"%char))].
Definition long_json : json :=
  json_object [(lit "schemaVersion", JInt 1);
    (lit "account", json_object [(lit "sub", JString (lit "ada")); (lit "email", JString (lit "ada@example.org"))]);
    (lit "details", json_object [(lit "links", JArray (long_link <$> replicate 32 (N.to_nat 2009)))]);
    (lit "serviceOrigin", JString (lit "https://iisacc.example"));
    (lit "capturedAt", JString (lit "2024-03-01T00:00:00Z"))].

(** An accepted author whose own snapshot is refused. *)
Definition lost (j : json) : bool :=
  match read_one (snapshot_of j) with
  | Some a => match read_one (toJsonText a) with Some _ => false | None => true end
  | None => false
  end.

(** The canonical form of the long details is refused, so an author with them
    would be accepted by [setAuthor] and lost by [fromDump]. *)
Theorem long_details_are_lost : lost long_json = true.
Proof. vm_compute. reflexivity. Qed.
