(* ===== verification/Table.v ===== *)
(** Tables of the object package in primary-key order.

    SQLite keeps a table with an INTEGER PRIMARY KEY, and the rows of one prefix
    of a composite primary key, in ascending key order; [ORDER BY] on that key
    reads them in this order.  A table is the list of its rows with their keys,
    and inserting keeps the list ascending or reports the UNIQUE violation. *)
From S2P Require Import Prelude.
Local Open Scope Z_scope.

Abbreviation table A := (list (Z * A)).

Fixpoint row_lookup {A} (k : Z) (t : table A) : option A :=
  match t with
  | [] => None
  | (k', a) :: t => if k =? k' then Some a else row_lookup k t
  end.

(** [INSERT INTO]: [None] is the violation of the primary key. *)
Fixpoint row_insert {A} (k : Z) (a : A) (t : table A) : option (table A) :=
  match t with
  | [] => Some [(k, a)]
  | (k', a') :: t' =>
      if k <? k' then Some ((k, a) :: t) else
      if k =? k' then None else
      t' ← row_insert k a t'; Some ((k', a') :: t')
  end.

(** [INSERT OR REPLACE INTO]. *)
Fixpoint row_replace {A} (k : Z) (a : A) (t : table A) : table A :=
  match t with
  | [] => [(k, a)]
  | (k', a') :: t' =>
      if k <? k' then (k, a) :: t else
      if k =? k' then (k, a) :: t' else (k', a') :: row_replace k a t'
  end.

(** [WHERE key > ? ... ORDER BY key LIMIT ?]: the first [limit] rows that follow
    the cursor and satisfy [p]. *)
Definition page {A} (p : A → bool) (after limit : Z) (t : table A) : table A :=
  take (Z.to_nat limit) (filter (λ r, after < r.1 ∧ p r.2) t).

(** Keys strictly ascend. *)
Definition ordered {A} (t : table A) : Prop := StronglySorted Z.lt t.*1.

(** ** Lemmas *)
Section lemmas.
Context {A : Type}.
Implicit Types (t : table A).

Lemma ordered_cons k a t : ordered ((k, a) :: t) ↔ Forall (λ r, k < r.1) t ∧ ordered t.
Proof.
  unfold ordered. simpl. split.
  - intros H. apply StronglySorted_inv in H as [H1 H2]. split; [|done].
    by rewrite Forall_fmap in H2.
  - intros [H1 H2]. constructor; [done|]. by rewrite Forall_fmap.
Qed.

Lemma row_lookup_Some_in k a t : row_lookup k t = Some a → (k, a) ∈ t.
Proof.
  induction t as [|[k' a'] t IH]; simpl; [done|].
  destruct (Z.eqb_spec k k') as [->|]; [|right; by apply IH].
  intros [= ->]. by left.
Qed.

Lemma row_lookup_in k a t : ordered t → (k, a) ∈ t → row_lookup k t = Some a.
Proof.
  induction t as [|[k' a'] t IH]; simpl; [by intros _ ?%not_elem_of_nil|].
  intros [H1 H2]%ordered_cons [[= -> ->]|Hin]%elem_of_cons; [by rewrite Z.eqb_refl|].
  rewrite Forall_forall in H1. specialize (H1 _ Hin). simpl in H1.
  destruct (Z.eqb_spec k k'); [lia|]. by apply IH.
Qed.

Lemma row_lookup_above k b t : Forall (λ r, b < r.1) t → k ≤ b → row_lookup k t = None.
Proof.
  intros H Hk. destruct (row_lookup k t) eqn:E; [|done].
  apply row_lookup_Some_in in E. rewrite Forall_forall in H. specialize (H _ E). simpl in H. lia.
Qed.

Lemma row_insert_lookup k a t t' :
  row_insert k a t = Some t' →
  ∀ k', row_lookup k' t' = if k' =? k then Some a else row_lookup k' t.
Proof.
  intros H. revert t' H. induction t as [|[k0 a0] t IH]; intros t' H k'; simpl in *.
  - injection H as <-. simpl. done.
  - destruct (Z.ltb_spec k k0).
    + injection H as <-. simpl. done.
    + destruct (Z.eqb_spec k k0); [done|].
      destruct (row_insert k a t) as [t1|] eqn:E; simplify_option_eq.
      rewrite (IH _ eq_refl). destruct (Z.eqb_spec k' k0), (Z.eqb_spec k' k); congruence || lia.
Qed.

Lemma row_insert_in k a t t' r :
  row_insert k a t = Some t' → r ∈ t' ↔ r = (k, a) ∨ r ∈ t.
Proof.
  revert t'. induction t as [|[k0 a0] t IH]; intros t'; simpl.
  - intros [= <-]. set_solver.
  - destruct (k <? k0); [intros [= <-]; set_solver|]. destruct (k =? k0); [done|].
    destruct (row_insert k a t) as [t1|] eqn:E; [|done]. intros [= <-].
    specialize (IH _ eq_refl). set_solver.
Qed.

Lemma row_insert_ordered k a t t' : ordered t → row_insert k a t = Some t' → ordered t'.
Proof.
  revert t'. induction t as [|[k0 a0] t IH]; intros t' Hs H; simpl in *.
  - injection H as <-. by repeat constructor.
  - apply ordered_cons in Hs as [H1 H2]. destruct (Z.ltb_spec k k0).
    + injection H as <-. apply ordered_cons. split; [|by apply ordered_cons].
      constructor; [done|]. eapply Forall_impl; [done|]. simpl. lia.
    + destruct (Z.eqb_spec k k0); [done|].
      destruct (row_insert k a t) as [t1|] eqn:E; [|done]. injection H as <-.
      apply ordered_cons. split; [|by apply IH].
      apply Forall_forall. intros r Hr. apply (row_insert_in _ _ _ _ _ E) in Hr as [->|Hr].
      * simpl. lia.
      * by rewrite Forall_forall in H1; apply H1.
Qed.

(** A key above every other is inserted at the end. *)
Lemma row_insert_last k a t : Forall (λ r, r.1 < k) t → row_insert k a t = Some (t ++ [(k, a)]).
Proof.
  induction 1 as [|[k0 a0] t H _ IH]; simpl in *; [done|].
  destruct (Z.ltb_spec k k0); [lia|]. destruct (Z.eqb_spec k k0); [lia|]. by rewrite IH.
Qed.

Lemma row_replace_lookup k a t k' :
  ordered t → row_lookup k' (row_replace k a t) = if k' =? k then Some a else row_lookup k' t.
Proof.
  induction t as [|[k0 a0] t IH]; simpl; [done|]. intros [H1 H2]%ordered_cons.
  destruct (Z.ltb_spec k k0); simpl; [done|].
  destruct (Z.eqb_spec k k0); simpl.
  - subst. destruct (Z.eqb_spec k' k0); done.
  - rewrite IH by done. destruct (Z.eqb_spec k' k0), (Z.eqb_spec k' k); congruence || lia.
Qed.

Lemma row_replace_in k a t r : r ∈ row_replace k a t → r = (k, a) ∨ r ∈ t.
Proof.
  induction t as [|[k0 a0] t IH]; simpl; [set_solver|].
  destruct (k <? k0); [set_solver|]. destruct (k =? k0); set_solver.
Qed.

Lemma row_replace_ordered k a t : ordered t → ordered (row_replace k a t).
Proof.
  induction t as [|[k0 a0] t IH]; simpl; [intros; by repeat constructor|].
  intros [H1 H2]%ordered_cons. destruct (Z.ltb_spec k k0).
  - apply ordered_cons. split; [|by apply ordered_cons].
    constructor; [done|]. eapply Forall_impl; [done|]. simpl. lia.
  - destruct (Z.eqb_spec k k0) as [->|]; apply ordered_cons; [done|].
    split; [|by apply IH]. apply Forall_forall. intros r [->|Hr]%row_replace_in; simpl; [lia|].
    by rewrite Forall_forall in H1; apply H1.
Qed.

Lemma ordered_filter (p : Z * A → Prop) `{∀ r, Decision (p r)} t : ordered t → ordered (filter p t).
Proof.
  induction t as [|[k a] t IH]; [done|]. intros [H1 H2]%ordered_cons.
  rewrite filter_cons. destruct (decide _); [|by apply IH].
  apply ordered_cons. split; [|by apply IH].
  apply Forall_forall. intros r [_ Hr]%list_elem_of_filter. by rewrite Forall_forall in H1; apply H1.
Qed.

Lemma ordered_app t1 t2 : ordered (t1 ++ t2) ↔
  ordered t1 ∧ ordered t2 ∧ ∀ r1 r2, r1 ∈ t1 → r2 ∈ t2 → r1.1 < r2.1.
Proof.
  induction t1 as [|[k a] t1 IH]; simpl.
  - split; [|by intros (_ & ? & _)]. intros ?. split_and!; [by constructor|done|].
    by intros r1 r2 ?%not_elem_of_nil.
  - rewrite !ordered_cons, IH, Forall_app, !Forall_forall. split.
    + intros [[H1 H2] (H3 & H4 & H5)]. split_and!; try done.
      intros r1 r2 [->|Hr]%elem_of_cons Hr2; simpl; [by apply H2|by apply H5].
    + intros ([H1 H2] & H3 & H4). split_and!; try done.
      * intros r Hr. by apply (H4 (k, a) r); [left|].
      * intros r1 r2 Hr1 Hr2. apply H4; [by right|done].
Qed.

(** ** Searching a table by another column *)

Lemma find_in (f : Z * A → bool) t r : List.find f t = Some r → r ∈ t ∧ f r = true.
Proof. intros H. apply List.find_some in H as [H1 H2]. by apply list_elem_of_In in H1. Qed.

Lemma find_none (f : Z * A → bool) t r : List.find f t = None → r ∈ t → f r = false.
Proof. intros H Hr. apply (List.find_none _ _ H). by apply list_elem_of_In. Qed.

Lemma find_is_Some (f : Z * A → bool) t r : r ∈ t → f r = true → is_Some (List.find f t).
Proof.
  intros Hr Hf. destruct (List.find f t) eqn:E; [done|].
  by rewrite (find_none _ _ _ E Hr) in Hf.
Qed.

Lemma find_insert_other (f : Z * A → bool) n x t t' :
  row_insert n x t = Some t' → f (n, x) = false → List.find f t' = List.find f t.
Proof.
  intros H Hf. revert t' H. induction t as [|[k a] t IH]; intros t' H; simpl in *.
  - injection H as <-. simpl. by rewrite Hf.
  - destruct (n <? k); [injection H as <-; simpl; by rewrite Hf|]. destruct (n =? k); [done|].
    destruct (row_insert n x t) as [t1|]; [|done]. injection H as <-. simpl.
    destruct (f (k, a)); [done|]. by apply IH.
Qed.

Lemma find_insert_new (f : Z * A → bool) n x t t' :
  row_insert n x t = Some t' → f (n, x) = true → List.find f t = None →
  List.find f t' = Some (n, x).
Proof.
  intros H Hf. revert t' H. induction t as [|[k a] t IH]; intros t' H Hn; simpl in *.
  - injection H as <-. simpl. by rewrite Hf.
  - destruct (f (k, a)) eqn:E; [done|].
    destruct (n <? k); [injection H as <-; simpl; by rewrite Hf|]. destruct (n =? k); [done|].
    destruct (row_insert n x t) as [t1|]; [|done]. injection H as <-. simpl.
    rewrite E. by apply IH.
Qed.

Lemma row_replace_split k a a' t : ordered t → (k, a) ∈ t →
  ∃ t1 t2, t = t1 ++ (k, a) :: t2 ∧ row_replace k a' t = t1 ++ (k, a') :: t2.
Proof.
  induction t as [|[k0 a0] t IH]; [by intros _ ?%not_elem_of_nil|].
  intros [H1 H2]%ordered_cons Hin. simpl. apply elem_of_cons in Hin as [[= -> ->]|Hin].
  - rewrite Z.ltb_irrefl, Z.eqb_refl. by exists [], t.
  - rewrite Forall_forall in H1. specialize (H1 _ Hin). simpl in H1.
    destruct (Z.ltb_spec k k0); [lia|]. destruct (Z.eqb_spec k k0); [lia|].
    destruct (IH H2 Hin) as (t1 & t2 & -> & ->). by exists ((k0, a0) :: t1), t2.
Qed.

Lemma find_replace_other (f : Z * A → bool) k a a' t : ordered t → (k, a) ∈ t →
  f (k, a) = false → f (k, a') = false → List.find f (row_replace k a' t) = List.find f t.
Proof.
  intros Ht Hin Ha Ha'. destruct (row_replace_split k a a' t Ht Hin) as (t1 & t2 & -> & ->).
  induction t1 as [|r t1 IH]; simpl; [by rewrite Ha, Ha'|].
  destruct (f r); [done|]. apply IH.
  - apply elem_of_app. right. by left.
  - destruct r as [k0 a0]. exact (proj2 (proj1 (ordered_cons k0 a0 _) Ht)).
Qed.

Lemma find_replace_same (f : Z * A → bool) k a a' t : ordered t → List.find f t = Some (k, a) →
  f (k, a') = true → List.find f (row_replace k a' t) = Some (k, a').
Proof.
  induction t as [|[k0 a0] t IH]; simpl; [done|]. intros [H1 H2]%ordered_cons.
  destruct (f (k0, a0)) eqn:E.
  - intros [= -> ->] Hf. rewrite Z.ltb_irrefl, Z.eqb_refl. simpl. by rewrite Hf.
  - intros Hfind Hf. destruct (find_in _ _ _ Hfind) as [Hin _].
    rewrite Forall_forall in H1. specialize (H1 _ Hin). simpl in H1.
    destruct (Z.ltb_spec k k0); [lia|]. destruct (Z.eqb_spec k k0); [lia|].
    simpl. rewrite E. by apply IH.
Qed.

Lemma in_replace k a a' t r : ordered t → (k, a) ∈ t →
  r ∈ row_replace k a' t ↔ r = (k, a') ∨ (r ∈ t ∧ r.1 ≠ k).
Proof.
  intros Ht Hin. destruct (row_replace_split k a a' t Ht Hin) as (t1 & t2 & -> & ->).
  apply ordered_app in Ht as (H1 & [H2 _]%ordered_cons & H3). rewrite Forall_forall in H2.
  rewrite !elem_of_app, !elem_of_cons. split.
  - intros [Hr|[->|Hr]]; [right|by left|right].
    + specialize (H3 r (k, a) Hr ltac:(by left)). simpl in H3. split; [by left|lia].
    + specialize (H2 r Hr). split; [by right; right|lia].
  - intros [->|[[Hr|[->|Hr]] Hne]]; [by right; left|by left|done|by right; right].
Qed.

Lemma ordered_fun k a a' t : ordered t → (k, a) ∈ t → (k, a') ∈ t → a = a'.
Proof. intros Ht H1 H2. apply (row_lookup_in _ _ _ Ht) in H1, H2. congruence. Qed.

(** ** Keyset pagination

    Reading pages of [limit] rows from a cursor, each page starting after the
    last key of the one before, until a page comes back short. *)
Fixpoint read_pages (fuel : nat) (p : A → bool) (after limit : Z) (t : table A) : table A :=
  match fuel with
  | O => []
  | S fuel =>
      let rows := page p after limit t in
      match last rows with
      | Some r => if len rows <? limit then rows
                  else rows ++ read_pages fuel p r.1 limit t
      | None => []
      end
  end.

Lemma filter_above (l1 : table A) r l2 :
  ordered (l1 ++ r :: l2) → filter (λ x, r.1 < x.1) (l1 ++ r :: l2) = l2.
Proof.
  destruct r as [k a].
  intros (H1 & [H2 H2']%ordered_cons & H3)%ordered_app.
  rewrite filter_app, filter_cons, decide_False by (simpl; lia).
  replace (filter _ l1) with (@nil (Z * A)).
  - simpl. clear H3 H2'. induction H2 as [|x l2 Hx _ IH]; [done|].
    rewrite filter_cons, decide_True by done. by rewrite IH.
  - symmetry. induction l1 as [|x l1 IH]; [done|]. rewrite filter_cons, decide_False.
    + apply IH; [by destruct x; apply ordered_cons in H1 as [_ ?]|].
      intros; apply H3; [by right|done].
    + specialize (H3 x (k, a) ltac:(by left) ltac:(by left)). simpl in *. lia.
Qed.

Lemma filter_next (p : Z * A → bool) after k t : after ≤ k →
  filter (λ r, k < r.1 ∧ p r) t = filter (λ r, k < r.1) (filter (λ r, after < r.1 ∧ p r) t).
Proof.
  intros ?. rewrite list_filter_filter. apply list_filter_iff. intros r. split.
  - intros [??]. split_and!; (lia || done).
  - intros (? & ? & ?). done.
Qed.

(** What follows the last row of a page is what the page left out. *)
Lemma page_rest_at (p : Z * A → bool) after n t r : ordered t →
  last (take n (filter (λ r, after < r.1 ∧ p r) t)) = Some r →
  filter (λ x, r.1 < x.1 ∧ p x) t = drop n (filter (λ r, after < r.1 ∧ p r) t).
Proof.
  intros Ho E. set (F := filter _ t) in *. assert (ordered F) as HF by by apply ordered_filter.
  apply last_Some in E as [l1 E].
  assert (F = l1 ++ r :: drop n F) as HF'.
  { rewrite <-(take_drop n F) at 1. rewrite E. by rewrite <-app_assoc. }
  assert (r ∈ F) as [[Hr _] _]%list_elem_of_filter.
  { rewrite HF'. apply elem_of_app. right. by left. }
  rewrite (filter_next _ after) by lia. fold F. rewrite HF' at 1. rewrite filter_above; [done|]. by rewrite <-HF'.
Qed.

Lemma page_rest (p : A → bool) after n t r : ordered t →
  last (take n (filter (λ r, after < r.1 ∧ p r.2) t)) = Some r →
  filter (λ x, r.1 < x.1 ∧ p x.2) t = drop n (filter (λ r, after < r.1 ∧ p r.2) t).
Proof. apply (page_rest_at (λ r, p r.2)). Qed.

(** Reading by pages reads every row that follows the cursor, once, in order. *)
Lemma read_pages_complete fuel p after limit t :
  ordered t → 0 < limit → (length t < fuel)%nat →
  read_pages fuel p after limit t = filter (λ r, after < r.1 ∧ p r.2) t.
Proof.
  intros Ht Hl Hf.
  assert (length (filter (λ r, (after < r.1)%Z ∧ p r.2) t) < fuel)%nat as Hf'.
  { pose proof (length_filter (λ r : Z * A, (after < r.1)%Z ∧ p r.2) t). lia. }
  clear Hf. revert after Hf'. induction fuel as [|fuel IH]; intros after Hf'; [lia|].
  simpl. unfold page. set (F := filter _ t) in *.
  assert (ordered F) as HF by by apply ordered_filter.
  destruct (last (take (Z.to_nat limit) F)) as [r|] eqn:E.
  - destruct (Z.ltb_spec (len (take (Z.to_nat limit) F)) limit) as [Hlt|Hge].
    + rewrite length_take in Hlt. rewrite take_ge; [done|lia].
    + assert (filter (λ r0, r.1 < r0.1 ∧ p r0.2) t = drop (Z.to_nat limit) F) as Hd by by apply (page_rest p after).
      rewrite IH.
      * rewrite Hd. apply take_drop.
      * rewrite Hd, length_drop. destruct F; [by rewrite take_nil in E|simpl in *; lia].
  - apply last_None in E. destruct F; [done|].
    destruct (Z.to_nat limit) eqn:?; [lia|done].
Qed.
End lemmas.
