(* ===== verification/ObjectData.v ===== *)
(** The records of the object package (src/Objects/ObjectStore.h) and the checks
    made on the values that enter it (src/Objects/ObjectStore.cpp, lines 44-104):
    text fields, provenance documents, actors and logical paths. *)
From S2P Require Import Prelude Json MetadataCodec.
Local Open Scope Z_scope.

(** ** Records *)

Record ObjectMetadata := { format : bytes; payload : bytes }.

Record ObjectAuthor := {
  origin : bytes;
  subject : bytes;
  displayName : bytes;
  profile : ObjectMetadata
}.

Record ObjectRecord := {
  key : bytes;
  indexKey : Z;
  version : Z;
  path : bytes;
  sha256 : bytes;
  size : Z;
  author : ObjectAuthor;
  sessionKey : bytes;
  recordedAtNs : Z;
  operation : bytes;
  deleted : bool;
  parentValidationKey : bytes;
  validationKey : bytes;
  authorship : ObjectMetadata;
  sourceStamp : bytes;
  schemaVersion : Z
}.

Record ObjectSession := {
  session_key : bytes;
  session_author : ObjectAuthor;
  device : bytes;
  session_description : bytes;
  startedAtNs : Z;
  endedAtNs : Z
}.

Record ObjectIndexEntry := {
  entry_key : bytes;
  entry_indexKey : Z;
  entry_version : Z;
  entry_path : bytes;
  entry_sha256 : bytes;
  entry_size : Z;
  entry_validationKey : bytes;
  entry_sessionKey : bytes;
  entry_deleted : bool;
  entry_authorOrigin : bytes;
  entry_authorSubject : bytes
}.

Record ObjectChange := {
  offset : Z;
  beforeHash : bytes;
  afterHash : bytes;
  beforeSize : Z;
  afterSize : Z
}.

Record WorkSessionRecord := {
  work_sequence : Z;
  work_session : ObjectSession;
  work_context : ObjectSessionContext
}.

Record ObjectJournalEntry := {
  journal_sequence : Z;
  journal_objectKey : bytes;
  journal_version : Z;
  journal_sessionKey : bytes;
  journal_recordedAtNs : Z;
  journal_operation : bytes;
  journal_path : bytes;
  journal_sha256 : bytes;
  journal_size : Z;
  journal_deleted : bool;
  journal_validationKey : bytes
}.

Record RawEnvelope := { envelope_record : ObjectRecord; envelope_metadata : RawMetadata }.

Record ObjectDocument := { document_file : ObjectRecord; document_original : RawEnvelope }.

#[export] Instance ObjectMetadata_eq_dec : EqDecision ObjectMetadata.
Proof. solve_decision. Defined.
#[export] Instance ObjectAuthor_eq_dec : EqDecision ObjectAuthor.
Proof. solve_decision. Defined.
#[export] Instance ObjectRecord_eq_dec : EqDecision ObjectRecord.
Proof. solve_decision. Defined.
#[export] Instance ObjectSession_eq_dec : EqDecision ObjectSession.
Proof. solve_decision. Defined.
#[export] Instance ObjectIndexEntry_eq_dec : EqDecision ObjectIndexEntry.
Proof. solve_decision. Defined.

(** [ObjectMetadata{}]: unknown provenance. *)
Definition no_document : ObjectMetadata := {| format := []; payload := [] |}.

(** ** Text fields *)

(** [field(s, max, required)]. *)
Definition field (s : bytes) (max : Z) (required : bool) : result string unit :=
  check (negb ((required && bool_decide (s = [])) || (max <? len s) || has_byte NUL s))
    "invalid object metadata".

Definition fileAuthor1 : bytes := lit "iiFileProvider.FileAuthor/1".
Definition authorship3 : bytes := lit "iiFileProvider.Authorship/3".

Definition metadataValid (document : ObjectMetadata) : result string unit :=
  _ ← field (format document) 128 false;
  _ ← field (payload document) (2 * 1024 * 1024) false;
  _ ← check (Bool.eqb (bool_decide (format document = [])) (bool_decide (payload document = [])))
        "incomplete object metadata document";
  check (bool_decide (format document = []) || bool_decide (format document = fileAuthor1)
         || bool_decide (format document = authorship3))
    "unsupported object metadata document format".

Definition authorValid (a : ObjectAuthor) : result string unit :=
  _ ← field (origin a) 2048 true;
  _ ← field (subject a) 1024 true;
  _ ← field (displayName a) 4096 false;
  _ ← metadataValid (profile a);
  check (bool_decide (format (profile a) = []) || bool_decide (format (profile a) = fileAuthor1))
    "actor profile requires FileAuthor metadata".

Definition authorshipValid (document : ObjectMetadata) : result string unit :=
  _ ← metadataValid document;
  check (bool_decide (format document = []) || bool_decide (format document = authorship3))
    "original authorship requires an Authorship roster".

(** ** Logical paths *)

(** The pieces between separators: [path.find('/', offset)] repeatedly. *)
Fixpoint split_path (s : bytes) : list bytes :=
  match s with
  | [] => [[]]
  | c :: s =>
      if decide (c = "/"%char) then [] :: split_path s else
      match split_path s with
      | p :: ps => (c :: p) :: ps
      | [] => [[c]]
      end
  end.

Definition traversal (part : bytes) : bool :=
  bool_decide (part = []) || bool_decide (part = lit ".") || bool_decide (part = lit "..").

Definition pathValid (p : bytes) : result string unit :=
  _ ← field p 32768 true;
  _ ← check (negb (bool_decide (head p = Some "/"%char) || bool_decide (last p = Some "/"%char)
        || has_byte "\"%char p || has_byte ":"%char p)) "logical object path must be relative";
  check (forallb (λ part, negb (traversal part)) (split_path p))
    "logical object path contains traversal".

(** ** Provenance documents

    SQLite's JSON functions parse the stored documents.  Their parser is a
    parameter: [json_tree text] is [None] when [json_valid(text)] is 0, and
    otherwise the value, with the members of objects in document order and
    repeated keys kept, which is what [json_each] and [json_tree] list. *)
Inductive sql_json :=
  | SNull
  | STrue
  | SFalse
  | SInteger (z : Z)
  | SReal (token : bytes)
  | SText (s : bytes)
  | SArray (l : list sql_json)
  | SObject (l : list (bytes * sql_json)).

Class SqliteJson := {
  json_tree : bytes → option sql_json;
  (** The value [json_extract] reads from a text argument, which may also be
      written with the JSON5 extensions. *)
  json_value : bytes → option sql_json;
  (** The text [json_extract] returns for an array or an object. *)
  json_minify : sql_json → bytes
}.

(** A step [.key] of a path. *)
Definition json_get (k : bytes) (j : sql_json) : option sql_json :=
  match j with SObject l => assoc k l | _ => None end.

(** [json_extract] as [Query::text] reads it: only TEXT is accepted. *)
Definition extract_text `{SqliteJson} (j : option sql_json) : result string bytes :=
  match j with
  | Some (SText s) => Ok s
  | Some ((SArray _ | SObject _) as c) => Ok (json_minify c)
  | _ => Err "invalid object text field"
  end.

(** Every object of the tree satisfies [p] on its members. *)
Fixpoint every_object (p : list (bytes * sql_json) → bool) (j : sql_json) : bool :=
  match j with
  | SArray l => forallb (every_object p) l
  | SObject l => p l && forallb (λ kv, every_object p kv.2) l
  | _ => true
  end.

Definition credential_keys : list bytes :=
  lit <$> ["token"; "secret"; "authenticationtoken"; "accesstoken"; "refreshtoken";
    "access_token"; "refresh_token"; "password"; "authorization"].

(** [lower(key) IN (...)] for a member of an object; array positions and the
    root have no text key. *)
Definition credential_key (k : bytes) : bool := bool_decide (tolower <$> k ∈ credential_keys).

Definition no_credentials : sql_json → bool :=
  every_object (λ l, forallb (λ kv, negb (credential_key kv.1)) l).

(** [GROUP BY parent,key HAVING count > 1] has no row. *)
Definition no_duplicates : sql_json → bool :=
  every_object (λ l, bool_decide (NoDup l.*1)).

Definition is_sobject (j : option sql_json) : bool :=
  match j with Some (SObject _) => true | _ => false end.
Definition is_sarray (j : option sql_json) : bool :=
  match j with Some (SArray _) => true | _ => false end.

Definition allowed_fields (authorship : bool) : list bytes :=
  lit <$> (if authorship
    then ["schemaVersion"; "revision"; "modifiedAt"; "authors"; "lastAuthor"; "firstEditor";
          "participants"; "links"]
    else ["schemaVersion"; "account"; "details"; "attribution"; "serviceOrigin"; "capturedAt";
          "device"]).

Definition shape (authorship : bool) (j : sql_json) : bool :=
  if authorship
  then is_sarray (json_get (lit "authors") j) && is_sarray (json_get (lit "participants") j)
       && is_sarray (json_get (lit "links") j)
  else is_sobject (json_get (lit "account") j) && is_sobject (json_get (lit "details") j)
       && is_sobject (json_get (lit "attribution") j).

(** The checks of one document, without the authors a roster holds; the parsed
    document. *)
Definition validateOne `{SqliteJson} (document : ObjectMetadata) : result string (option sql_json) :=
  _ ← metadataValid document;
  if bool_decide (payload document = []) then Ok None else
  j ← of_option "invalid object metadata JSON" (json_tree (payload document));
  let authorship := bool_decide (format document = authorship3) in
  _ ← check (is_sobject (Some j) &&
        match json_get (lit "schemaVersion") j with
        | Some (SInteger z) => z =? (if authorship then 3 else 1)
        | _ => false
        end) "invalid object metadata schema";
  _ ← check (match j with
        | SObject l => forallb (λ kv, bool_decide (kv.1 ∈ allowed_fields authorship)) l
        | _ => true
        end) "unknown object metadata field";
  _ ← check (no_credentials j) "runtime credentials are forbidden in object metadata";
  _ ← check (no_duplicates j) "duplicate object metadata key";
  _ ← check (shape authorship j) "incomplete object metadata document";
  Ok (Some j).

(** The elements of an array, as [json_each] lists them. *)
Definition array_items (j : option sql_json) : list sql_json :=
  match j with Some (SArray l) => l | _ => [] end.

(** [json_extract(value,'$.author')] of an element: a string is itself parsed. *)
Definition element_author `{SqliteJson} (a : sql_json) : result string (option sql_json) :=
  match a with
  | SText s => j ← of_option "malformed JSON" (json_value s); Ok (json_get (lit "author") j)
  | _ => Ok (json_get (lit "author") a)
  end.

(** [SELECT json_extract(value,'$.author') FROM json_each(?,'$.authors')] with
    the count before each validation.  An author is a FileAuthor document, so
    its validation does not recurse again. *)
Definition validateDocument `{SqliteJson} (document : ObjectMetadata) : result string unit :=
  j ← validateOne document;
  match j with
  | Some j =>
      if bool_decide (format document = authorship3) then
        _ ← fold_res (λ count a,
              j ← element_author a;
              _ ← check (negb (256 <? count + 1)) "too many object authors";
              text ← extract_text j;
              _ ← validateOne {| format := fileAuthor1; payload := text |};
              Ok (count + 1)) 0 (array_items (json_get (lit "authors") j));
        Ok tt
      else Ok tt
  | None => Ok tt
  end.

Definition validateActor `{SqliteJson} (a : ObjectAuthor) : result string unit :=
  _ ← validateDocument (profile a);
  if bool_decide (payload (profile a) = []) then Ok tt else
  j ← of_option "malformed JSON" (json_tree (payload (profile a)));
  s ← extract_text (json_get (lit "account") j ≫= json_get (lit "sub"));
  _ ← check (bool_decide (s = subject a)) "object actor profile identity mismatch";
  o ← extract_text (json_get (lit "serviceOrigin") j);
  check (bool_decide (o = origin a)) "object actor profile identity mismatch".
