(* ===== verification/ObjectPackage.v ===== *)
(** The object package: the tables of [objects.sqlite3] (schema 5), the SQL
    statements the store runs on them with their constraints and triggers, and
    the private reads of [ObjectStore::Impl] (src/Objects/ObjectStore.cpp,
    src/Objects/ObjectSqlite_p.h).

    A statement is a function of the tables; an SQLite error or a C++ exception
    is [Err].  The schema's PRIMARY KEY, UNIQUE, CHECK and REFERENCES clauses
    are the checks of the writing statements. *)
From S2P Require Import Prelude Json MetadataCodec Sha256 Table ObjectData.
Local Open Scope Z_scope.

(** ** Tables *)

Record ObjectRow := {
  object_key : bytes;
  head_ : Z;
  object_path : bytes;
  object_deleted : bool
}.

Record RevisionRow := {
  revision_path : bytes;
  revision_sha256 : bytes;
  revision_size : Z;
  author_origin : bytes;
  author_subject : bytes;
  author_name : bytes;
  revision_session : bytes;
  at_ns : Z;
  revision_operation : bytes;
  revision_deleted : bool;
  parent_key : bytes;
  validation_key : bytes;
  metadata_format : bytes;
  metadata_payload : bytes;
  source_stamp : bytes;
  record_format : Z
}.

Record Chunk := { hash : bytes; chunk_size : Z }.

#[export] Instance ObjectRow_eq_dec : EqDecision ObjectRow.
Proof. solve_decision. Defined.
#[export] Instance RevisionRow_eq_dec : EqDecision RevisionRow.
Proof. solve_decision. Defined.
#[export] Instance Chunk_eq_dec : EqDecision Chunk.
Proof. solve_decision. Defined.

Record Package := {
  container_key : bytes;
  sessions : gmap bytes ObjectSession;
  work_sessions : table (bytes * bytes);          (* sequence, session_key, context *)
  work_sequence_ : Z;                             (* AUTOINCREMENT counters *)
  objects : table ObjectRow;                      (* index_key *)
  object_sequence : Z;
  revisions : gmap bytes (table RevisionRow);     (* object_key, version *)
  raw_revisions : gmap (bytes * Z) bytes;
  chunk_data : gmap bytes bytes;
  revision_chunks : gmap (bytes * Z) (table Chunk);
  current_index : table ObjectIndexEntry;         (* index_key *)
  object_journal : table (bytes * Z * bytes);     (* sequence *)
  journal_counter : Z
}.

(** A package opened by a process. *)
Record Store := {
  db : Package;
  container : bytes;
  schema : Z;
  readOnly : bool
}.

Definition set_db (f : Package → Package) (st : Store) : Store :=
  {| db := f (db st); container := container st; schema := schema st; readOnly := readOnly st |}.

(** ** Writing one table *)

Definition set_sessions (x : gmap bytes ObjectSession) (p : Package) : Package :=
  {| container_key := container_key p; sessions := x; work_sessions := work_sessions p;
     work_sequence_ := work_sequence_ p; objects := objects p; object_sequence :=
     object_sequence p; revisions := revisions p; raw_revisions := raw_revisions p;
     chunk_data := chunk_data p; revision_chunks := revision_chunks p; current_index :=
     current_index p; object_journal := object_journal p; journal_counter :=
     journal_counter p |}.
Definition set_work_sessions (x : table (bytes * bytes)) (n : Z) (p : Package) : Package :=
  {| container_key := container_key p; sessions := sessions p; work_sessions := x;
     work_sequence_ := n; objects := objects p; object_sequence := object_sequence p;
     revisions := revisions p; raw_revisions := raw_revisions p; chunk_data := chunk_data
     p; revision_chunks := revision_chunks p; current_index := current_index p;
     object_journal := object_journal p; journal_counter := journal_counter p |}.
Definition set_objects (x : table ObjectRow) (n : Z) (p : Package) : Package :=
  {| container_key := container_key p; sessions := sessions p; work_sessions :=
     work_sessions p; work_sequence_ := work_sequence_ p; objects := x; object_sequence :=
     n; revisions := revisions p; raw_revisions := raw_revisions p; chunk_data :=
     chunk_data p; revision_chunks := revision_chunks p; current_index := current_index p;
     object_journal := object_journal p; journal_counter := journal_counter p |}.
Definition set_revisions (x : gmap bytes (table RevisionRow)) (p : Package) : Package :=
  {| container_key := container_key p; sessions := sessions p; work_sessions :=
     work_sessions p; work_sequence_ := work_sequence_ p; objects := objects p;
     object_sequence := object_sequence p; revisions := x; raw_revisions := raw_revisions
     p; chunk_data := chunk_data p; revision_chunks := revision_chunks p; current_index :=
     current_index p; object_journal := object_journal p; journal_counter :=
     journal_counter p |}.
Definition set_raw_revisions (x : gmap (bytes * Z) bytes) (p : Package) : Package :=
  {| container_key := container_key p; sessions := sessions p; work_sessions :=
     work_sessions p; work_sequence_ := work_sequence_ p; objects := objects p;
     object_sequence := object_sequence p; revisions := revisions p; raw_revisions := x;
     chunk_data := chunk_data p; revision_chunks := revision_chunks p; current_index :=
     current_index p; object_journal := object_journal p; journal_counter :=
     journal_counter p |}.
Definition set_chunk_data (x : gmap bytes bytes) (p : Package) : Package :=
  {| container_key := container_key p; sessions := sessions p; work_sessions :=
     work_sessions p; work_sequence_ := work_sequence_ p; objects := objects p;
     object_sequence := object_sequence p; revisions := revisions p; raw_revisions :=
     raw_revisions p; chunk_data := x; revision_chunks := revision_chunks p; current_index
     := current_index p; object_journal := object_journal p; journal_counter :=
     journal_counter p |}.
Definition set_revision_chunks (x : gmap (bytes * Z) (table Chunk)) (p : Package) : Package :=
  {| container_key := container_key p; sessions := sessions p; work_sessions :=
     work_sessions p; work_sequence_ := work_sequence_ p; objects := objects p;
     object_sequence := object_sequence p; revisions := revisions p; raw_revisions :=
     raw_revisions p; chunk_data := chunk_data p; revision_chunks := x; current_index :=
     current_index p; object_journal := object_journal p; journal_counter :=
     journal_counter p |}.
Definition set_current_index (x : table ObjectIndexEntry) (p : Package) : Package :=
  {| container_key := container_key p; sessions := sessions p; work_sessions :=
     work_sessions p; work_sequence_ := work_sequence_ p; objects := objects p;
     object_sequence := object_sequence p; revisions := revisions p; raw_revisions :=
     raw_revisions p; chunk_data := chunk_data p; revision_chunks := revision_chunks p;
     current_index := x; object_journal := object_journal p; journal_counter :=
     journal_counter p |}.
Definition set_object_journal (x : table (bytes * Z * bytes)) (n : Z) (p : Package) : Package :=
  {| container_key := container_key p; sessions := sessions p; work_sessions :=
     work_sessions p; work_sequence_ := work_sequence_ p; objects := objects p;
     object_sequence := object_sequence p; revisions := revisions p; raw_revisions :=
     raw_revisions p; chunk_data := chunk_data p; revision_chunks := revision_chunks p;
     current_index := current_index p; object_journal := x; journal_counter := n |}.

Definition chunkBytes : Z := 1024 * 1024.

(** [static_cast<std::int64_t>] of a 64-bit unsigned value. *)
Definition i64 (z : Z) : Z := if z <=? INT64_MAX then z else z - 2 ^ 64.

(** ** Statements *)

(** [Query::bind] of a text. *)
Definition bind_limit : Z := 2 * 1024 * 1024.
Definition bindable (s : bytes) : bool := negb (bind_limit <? len s).
Definition bind (s : bytes) : result string unit :=
  check (bindable s) "object metadata field exceeds limit".

(** [Query::done] of a writing statement. *)
Definition writable (st : Store) : result string unit :=
  check (negb (readOnly st)) "attempt to write a readonly database".

Definition unique : string := "UNIQUE constraint failed".
Definition foreign_key : string := "FOREIGN KEY constraint failed".
Definition check_failed : string := "CHECK constraint failed".
Definition full : string := "database or disk is full".

(** The row id an AUTOINCREMENT table gives next. *)
Definition next_sequence (n : Z) : result string Z :=
  _ ← check (n <? INT64_MAX) full; Ok (n + 1).

(** [SELECT ... FROM objects WHERE object_key=?]. *)
Definition find_object (p : Package) (k : bytes) : option (Z * ObjectRow) :=
  List.find (λ o, bool_decide (object_key o.2 = k)) (objects p).

Definition revision_of (p : Package) (k : bytes) (v : Z) : option RevisionRow :=
  revisions p !! k ≫= row_lookup v.

(** Another live object has this path: the unique index [live_paths]. *)
Definition path_taken (p : Package) (k path : bytes) : bool :=
  existsb (λ o, negb (object_deleted o.2) && bool_decide (object_path o.2 = path)
                && negb (bool_decide (object_key o.2 = k))) (objects p).

(** [INSERT INTO sessions VALUES(?,?,?,?,?,?,?,0,?,?)] of [beginSession]. *)
Definition insert_session (s : ObjectSession) (st : Store) : result string Store :=
  _ ← bind (session_key s);
  _ ← bind (origin (session_author s));
  _ ← bind (subject (session_author s));
  _ ← bind (displayName (session_author s));
  _ ← bind (device s);
  _ ← bind (session_description s);
  _ ← bind (format (profile (session_author s)));
  _ ← bind (payload (profile (session_author s)));
  _ ← writable st;
  _ ← check (bool_decide (sessions (db st) !! session_key s = None)) unique;
  let row := {| session_key := session_key s; session_author := session_author s;
    device := device s; session_description := session_description s;
    startedAtNs := startedAtNs s; endedAtNs := 0 |} in
  Ok (set_db (λ p, set_sessions (<[session_key s := row]> (sessions p)) p) st).

(** [INSERT INTO work_sessions(session_key,context) VALUES(?,?)]. *)
Definition insert_work_session (k ctx : bytes) (st : Store) : result string Store :=
  _ ← bind k;
  _ ← bind ctx;
  _ ← writable st;
  n ← next_sequence (work_sequence_ (db st));
  _ ← check (negb (existsb (λ w, bool_decide (w.2.1 = k)) (work_sessions (db st)))) unique;
  _ ← check (bool_decide (is_Some (sessions (db st) !! k))) foreign_key;
  t ← of_option unique (row_insert n (k, ctx) (work_sessions (db st)));
  Ok (set_db (set_work_sessions t n) st).

(** [UPDATE sessions SET ended=? WHERE session_key=?]. *)
Definition update_session_ended (k : bytes) (time : Z) (st : Store) : result string Store :=
  _ ← bind k;
  _ ← writable st;
  Ok (set_db (λ p, set_sessions (alter (λ s, {| session_key := session_key s;
    session_author := session_author s; device := device s;
    session_description := session_description s; startedAtNs := startedAtNs s;
    endedAtNs := time |}) k (sessions p)) p) st).

(** [INSERT INTO objects(object_key,head,path,deleted) VALUES(?,0,?,0)] with
    [sqlite3_last_insert_rowid]. *)
Definition insert_object (k path : bytes) (st : Store) : result string (Z * Store) :=
  _ ← bind k;
  _ ← bind path;
  _ ← writable st;
  n ← next_sequence (object_sequence (db st));
  _ ← check (bool_decide (find_object (db st) k = None)) unique;
  _ ← check (negb (path_taken (db st) k path)) unique;
  t ← of_option unique (row_insert n
        {| object_key := k; head_ := 0; object_path := path; object_deleted := false |}
        (objects (db st)));
  Ok (n, set_db (set_objects t n) st).

(** [INSERT INTO revisions VALUES(...)] with the trigger
    [object_journal_append]. *)
Definition insert_revision (k : bytes) (v : Z) (row : RevisionRow) (st : Store) :
    result string Store :=
  _ ← bind k;
  _ ← bind (revision_path row);
  _ ← bind (revision_sha256 row);
  _ ← bind (author_origin row);
  _ ← bind (author_subject row);
  _ ← bind (author_name row);
  _ ← bind (revision_session row);
  _ ← bind (revision_operation row);
  _ ← bind (parent_key row);
  _ ← bind (validation_key row);
  _ ← bind (metadata_format row);
  _ ← bind (metadata_payload row);
  _ ← bind (source_stamp row);
  _ ← writable st;
  let p := db st in
  _ ← check ((0 <? v) && (0 <=? revision_size row)
             && ((record_format row =? 1) || (record_format row =? 2))) check_failed;
  t ← of_option unique (row_insert v row (default [] (revisions p !! k)));
  _ ← check (bool_decide (is_Some (find_object p k))
             && bool_decide (is_Some (sessions p !! revision_session row))) foreign_key;
  n ← next_sequence (journal_counter p);
  _ ← check (negb (existsb (λ j, bool_decide (j.2.1 = (k, v))) (object_journal p))) unique;
  j ← of_option unique (row_insert n ((k, v), revision_session row) (object_journal p));
  Ok (set_db (λ p, set_object_journal j n (set_revisions (<[k := t]> (revisions p)) p)) st).

(** [INSERT INTO raw_revisions VALUES(?,?,?)]. *)
Definition insert_raw_revision (k : bytes) (v : Z) (document : bytes) (st : Store) :
    result string Store :=
  _ ← bind k;
  _ ← bind document;
  _ ← writable st;
  _ ← check (bool_decide (raw_revisions (db st) !! (k, v) = None)) unique;
  _ ← check (bool_decide (is_Some (revision_of (db st) k v))) foreign_key;
  Ok (set_db (λ p, set_raw_revisions (<[(k, v) := document]> (raw_revisions p)) p) st).

(** [INSERT INTO chunks(sha256,data) VALUES(?,?)]. *)
Definition insert_chunk (digest data : bytes) (st : Store) : result string Store :=
  _ ← bind digest;
  _ ← check (negb (chunkBytes <? len data)) "object chunk exceeds limit";
  _ ← writable st;
  _ ← check (bool_decide (chunk_data (db st) !! digest = None)) unique;
  Ok (set_db (λ p, set_chunk_data (<[digest := data]> (chunk_data p)) p) st).

(** [INSERT INTO revision_chunks VALUES(?,?,?,?,?)]. *)
Definition insert_revision_chunk (k : bytes) (v ordinal : Z) (part : Chunk) (st : Store) :
    result string Store :=
  _ ← bind k;
  _ ← bind (hash part);
  _ ← writable st;
  _ ← check ((0 <=? ordinal) && (0 <? chunk_size part)) check_failed;
  t ← of_option unique (row_insert ordinal part (default [] (revision_chunks (db st) !! (k, v))));
  _ ← check (bool_decide (is_Some (chunk_data (db st) !! hash part))
             && bool_decide (is_Some (revision_of (db st) k v))) foreign_key;
  Ok (set_db (λ p, set_revision_chunks (<[(k, v) := t]> (revision_chunks p)) p) st).

(** The row the trigger [current_index_publish] selects. *)
Definition index_entry (i : Z) (o : ObjectRow) (r : RevisionRow) : ObjectIndexEntry :=
  {| entry_key := object_key o; entry_indexKey := i; entry_version := head_ o;
     entry_path := object_path o; entry_sha256 := revision_sha256 r;
     entry_size := revision_size r; entry_validationKey := validation_key r;
     entry_sessionKey := revision_session r; entry_deleted := object_deleted o;
     entry_authorOrigin := author_origin r; entry_authorSubject := author_subject r |}.

(** [UPDATE objects SET head=?,path=?,deleted=? WHERE object_key=?] with the
    trigger [current_index_publish]. *)
Definition update_object (k : bytes) (head : Z) (path : bytes) (deleted : bool) (st : Store) :
    result string Store :=
  _ ← bind path;
  _ ← bind k;
  _ ← writable st;
  match find_object (db st) k with
  | None => Ok st
  | Some (i, _) =>
      let o := {| object_key := k; head_ := head; object_path := path;
                  object_deleted := deleted |} in
      _ ← check (deleted || negb (path_taken (db st) k path)) unique;
      Ok (set_db (λ p,
        let p := set_objects (row_replace i o (objects p)) (object_sequence p) p in
        match (if 0 <? head then revision_of p k head else None) with
        | Some r => set_current_index (row_replace i (index_entry i o r) (current_index p)) p
        | None => p
        end) st)
  end.

(** ** Private reads of [ObjectStore::Impl] *)

Definition requireJournal (st : Store) : result string unit :=
  check (negb (schema st <? 4))
    "journal/RAW APIs require schema 4 or newer; open with a writer to migrate first".

Definition context_of (st : Store) (k : bytes) : result string bytes :=
  if schema st <? 4 then Ok [] else
  _ ← bind k;
  of_option "work-session context is missing"
    (snd ∘ snd <$> List.find (λ w, bool_decide (w.2.1 = k)) (work_sessions (db st))).

Definition rawDocument (st : Store) (k : bytes) (v : Z) : result string bytes :=
  if schema st <? 4 then Ok [] else
  _ ← bind k;
  Ok (default [] (raw_revisions (db st) !! (k, i64 v))).

Definition getSession (st : Store) (k : bytes) (active : bool) : result string ObjectSession :=
  _ ← bind k;
  s ← of_option "object work session not found" (sessions (db st) !! k);
  _ ← check (negb (active && negb (endedAtNs s =? 0))) "object work session is closed";
  Ok s.

(** [record(q)]: a row of [revisions] joined with its object and session. *)
Definition record (k : bytes) (i v : Z) (r : RevisionRow) (s : ObjectSession) : ObjectRecord :=
  {| key := k; indexKey := i; version := u64 v; path := revision_path r;
     sha256 := revision_sha256 r; size := u64 (revision_size r);
     author := {| origin := author_origin r; subject := author_subject r;
                  displayName := author_name r; profile := profile (session_author s) |};
     sessionKey := revision_session r; recordedAtNs := at_ns r;
     operation := revision_operation r; deleted := revision_deleted r;
     parentValidationKey := parent_key r; validationKey := validation_key r;
     authorship := {| format := metadata_format r; payload := metadata_payload r |};
     sourceStamp := source_stamp r; schemaVersion := u32 (record_format r) |}.

(** The inner joins of one revision. *)
Definition join_row (p : Package) (k : bytes) (v : Z) : option ObjectRecord :=
  o ← find_object p k;
  r ← revision_of p k v;
  s ← sessions p !! revision_session r;
  Some (record k o.1 v r s).

Definition get (st : Store) (k : bytes) (v : Z) : result string (option ObjectRecord) :=
  _ ← bind k;
  Ok (o ← find_object (db st) k;
      join_row (db st) k (if v =? 0 then head_ o.2 else i64 v)).

(** [chunks]: the ordinals must count from zero. *)
Fixpoint contiguous (n : Z) (t : table Chunk) : result string (list Chunk) :=
  match t with
  | [] => Ok []
  | (ordinal, c) :: t =>
      _ ← check (ordinal =? n) "non-contiguous object chunks";
      rest ← contiguous (n + 1) t;
      Ok ({| hash := hash c; chunk_size := u64 (chunk_size c) |} :: rest)
  end.

Definition chunks (st : Store) (k : bytes) (v : Z) : result string (list Chunk) :=
  _ ← bind k;
  contiguous 0 (default [] (revision_chunks (db st) !! (k, i64 v))).

(** [SELECT data FROM chunks WHERE sha256=?]. *)
Definition read_chunk (st : Store) (digest : bytes) : result string (option bytes) :=
  _ ← bind digest;
  Ok (chunk_data (db st) !! digest).
