(* ===== verification/ObjectStore.v ===== *)
(** The object store (src/Objects/ObjectStore.cpp): the private steps of
    [ObjectStore::Impl] and the public operations.

    An operation takes what the outside answers as inputs: the random bytes of
    new keys and the clock ([Env]), the source file as the filesystem shows it
    while it is read ([SourceFile]), and the answers of a stop token at each
    place where it is polled ([Poll]).  It returns the store after it; an
    operation that throws leaves the store as it was, because every write is
    inside a [Transaction] that rolls back. *)
From S2P Require Import Prelude Json MetadataCodec Sha256 Table ObjectData ObjectPackage.
Local Open Scope Z_scope.

(** ** The outside *)

Record Env := {
  random : nat → bytes;          (* the n-th [randomblob(16)] of the operation *)
  clock : nat → Z;               (* what [now()] answers, in the order of the index *)
  commit_error : option string   (* what [COMMIT] reports *)
}.

Record SourceFile := {
  direct : result string bytes;        (* [directPath(input,true)] *)
  regular : bool;                      (* [fs::is_regular_file] *)
  file_size : Z;                       (* [fs::file_size] before and ... *)
  last_write : Z;                      (* [fs::last_write_time] before and ... *)
  opens : bool;
  content : bytes;                     (* what the stream delivers until it ends *)
  bad : bool;                          (* [stream.bad()] at the end *)
  direct_after : result string bytes;
  file_size_after : Z;                 (* ... after reading *)
  last_write_after : Z
}.

(** [PreparedObjectSource] of a batch, with [ObjectSource::inspect] at
    publication. *)
Record PreparedSource := {
  prepared_bytes : bytes;
  identity_unchanged : result string bool
}.

(** Where an operation polls its stop token. *)
Inductive Poll :=
  | Preflight              (* before anything is read *)
  | BeforeImport           (* a batch, before each file *)
  | Turn (n : nat)         (* the n-th turn of a read loop *)
  | AfterRead
  | BeforeCommit.

Record ObjectWriteOptions := {
  opt_authorship : option ObjectMetadata;
  opt_sourceStamp : bytes;
  cancellation : Poll → bool
}.

(** [ObjectSource captured(...)]: the private snapshot and its stamp. *)
Record CapturedSource := { captured_file : SourceFile; captured_stamp : bytes }.

(** [Transaction transaction(db); body; transaction.commit();].  That SQLite
    rolls back what the body wrote when the [Transaction] is destroyed without
    a commit is a property of the library: it is taken here, not proved. *)
Definition transaction {A} (e : Env) (body : Store → result string (A * Store)) (st : Store) :
    result string A * Store :=
  match body st with
  | Err m => (Err m, st)
  | Ok (a, st') =>
      match commit_error e with
      | Some m => (Err m, st)
      | None => (Ok a, st')
      end
  end.

(** [Transaction snapshot(db,false); ...; snapshot.commit();]. *)
Definition snapshot {A} (e : Env) (body : result string A) : result string A :=
  a ← body;
  match commit_error e with Some m => Err m | None => Ok a end.

(** [uniqueKey(db, prefix)]. *)
Definition uniqueKey (e : Env) (n : nat) (prefix : string) : bytes :=
  lit prefix ++ (random e n ≫= Sha256.hex_byte).

(** ** Validation keys *)

(** What [add] feeds to the hash for one value. *)
Definition add_pieces (value : bytes) : list bytes := [to_string (len value); lit ":"; value].

Definition key_format (r : ObjectRecord) : bytes :=
  if schemaVersion r =? 1 then lit "society-object-v1" else lit "society-object-v2".

(** The values added, in order. *)
Definition key_values (r : ObjectRecord) (s : ObjectSession) (container context raw : bytes) :
    list bytes :=
  [key_format r; container; key r; to_string (indexKey r); to_string (version r);
   path r; sha256 r; to_string (size r); origin (author r); subject (author r);
   displayName (author r); sessionKey r; to_string (recordedAtNs r); operation r;
   if deleted r then lit "deleted" else lit "live"; parentValidationKey r;
   device s; session_description s; to_string (startedAtNs s)] ++
  (if schemaVersion r =? 2
   then [format (profile (author r)); payload (profile (author r)); format (authorship r);
         payload (authorship r); sourceStamp r] else []) ++
  (if bool_decide (context = []) then [] else [lit "iiFileProvider.WorkSession/1"; context]) ++
  (if bool_decide (raw = []) then [] else [lit "iiFileProvider.RawEnvelope/1"; raw]).

(** ** Creation

    The tables of a package the constructor creates, and the store it opens on
    them for writing (schema 5). *)
Definition fresh_package (container : bytes) : Package :=
  {| container_key := container; sessions := ∅; work_sessions := []; work_sequence_ := 0;
     objects := []; object_sequence := 0; revisions := ∅; raw_revisions := ∅; chunk_data := ∅;
     revision_chunks := ∅; current_index := []; object_journal := []; journal_counter := 0 |}.

Definition create_store (container : bytes) (walAutoCheckpointPages : Z) : result string Store :=
  _ ← check (negb (walAutoCheckpointPages <? 0)) "WAL auto-checkpoint page limit cannot be negative";
  _ ← field container 1024 true;
  Ok {| db := fresh_package container; container := container; schema := 5; readOnly := false |}.

Section store.
Context {H : Type} {hashing : StreamHash H} {sqlite : SqliteJson}.

Definition validationKey_of (r : ObjectRecord) (s : ObjectSession)
    (container context raw : bytes) : result string bytes :=
  digest ← hash_run (H:=H) (key_values r s container context raw ≫= add_pieces);
  Ok (key_format r ++ lit ":" ++ digest).

(** ** Payload *)

Definition storeChunk (data : bytes) (st : Store) : result string (Chunk * Store) :=
  digest ← hash_run (H:=H) [data];
  existing ← read_chunk st digest;
  match existing with
  | Some previous =>
      _ ← check (bool_decide (previous = data)) "corrupt existing object chunk";
      Ok ({| hash := digest; chunk_size := len data |}, st)
  | None =>
      st ← insert_chunk digest data st;
      Ok ({| hash := digest; chunk_size := len data |}, st)
  end.

(** The first [n] bytes and the rest. *)
Fixpoint split_at (n : Z) (s : bytes) : bytes * bytes :=
  match s with
  | [] => ([], [])
  | c :: s' => if n <=? 0 then ([], s) else
      let '(a, b) := split_at (n - 1) s' in (c :: a, b)
  end.

Definition cancelled : string := "object packaging cancelled".
Definition changed : string := "object source changed during packaging".

(** [while(stream) {...}]: each turn polls the token and reads up to one chunk;
    a short read ends the stream.  [h], [total] and [parts] are the local
    variables; [rest] is what the stream has left. *)
Fixpoint read_loop (fuel : nat) (stop : Poll → bool) (turn : nat) (limit : Z) (rest : bytes)
    (h : H) (total : Z) (parts : list Chunk) (st : Store) :
    result string (H * Z * list Chunk * Store) :=
  match fuel with
  | O => Err "unreachable"
  | S fuel =>
      _ ← check (negb (stop (Turn turn))) cancelled;
      let '(data, rest) := split_at chunkBytes rest in
      if bool_decide (data = []) then Ok (h, total, parts, st) else
      h ← hash_update h data;
      let total := total + len data in
      _ ← check (negb (limit <? total)) changed;
      '(part, st) ← storeChunk data st;
      if len data <? chunkBytes
      then Ok (h, total, parts ++ [part], st)
      else read_loop fuel stop (S turn) limit rest h total (parts ++ [part]) st
  end.

(** [r.sha256=...;r.size=...]. *)
Definition with_content (r : ObjectRecord) (digest : bytes) (n : Z) : ObjectRecord :=
  {| key := key r; indexKey := indexKey r; version := version r; path := path r;
     sha256 := digest; size := n; author := author r; sessionKey := sessionKey r;
     recordedAtNs := recordedAtNs r; operation := operation r; deleted := deleted r;
     parentValidationKey := parentValidationKey r; validationKey := validationKey r;
     authorship := authorship r; sourceStamp := sourceStamp r;
     schemaVersion := schemaVersion r |}.

Definition ingest_file (input : SourceFile) (r : ObjectRecord) (stop : Poll → bool)
    (st : Store) : result string (list Chunk * ObjectRecord * Store) :=
  source ← direct input;
  _ ← check (regular input) "object source is not a regular file";
  _ ← check (negb (INT64_MAX <? file_size input)) "object source exceeds format size";
  _ ← check (opens input) "cannot read object source";
  '(h, total, parts, st) ←
    read_loop (S (length (content input))) stop 0 (file_size input) (content input)
      hash_init 0 [] st;
  _ ← check (negb (stop AfterRead)) cancelled;
  _ ← check (negb (bad input) && (total =? file_size input)) changed;
  again ← direct_after input;
  _ ← check (bool_decide (again = source) && (file_size_after input =? file_size input)
             && (last_write_after input =? last_write input)) changed;
  Ok (parts, with_content r (hash_finish h) total, st).

(** The loop over a prepared payload, [offset += chunkBytes]. *)
Fixpoint prepared_loop (fuel : nat) (stop : Poll → bool) (turn : nat) (rest : bytes)
    (h : H) (parts : list Chunk) (st : Store) :
    result string (H * list Chunk * Store) :=
  match fuel with
  | O => Err "unreachable"
  | S fuel =>
      if bool_decide (rest = []) then Ok (h, parts, st) else
      _ ← check (negb (stop (Turn turn))) cancelled;
      let '(data, rest) := split_at chunkBytes rest in
      h ← hash_update h data;
      '(part, st) ← storeChunk data st;
      prepared_loop fuel stop (S turn) rest h (parts ++ [part]) st
  end.

Definition ingest_prepared (input : PreparedSource) (r : ObjectRecord) (stop : Poll → bool)
    (st : Store) : result string (list Chunk * ObjectRecord * Store) :=
  '(h, parts, st) ←
    prepared_loop (S (length (prepared_bytes input))) stop 0 (prepared_bytes input)
      hash_init [] st;
  _ ← check (negb (stop AfterRead)) cancelled;
  same ← identity_unchanged input;
  _ ← check same "object batch source changed before publication";
  Ok (parts, with_content r (hash_finish h) (len (prepared_bytes input)), st).

(** The two overloads: from a file or from a prepared batch entry. *)
Definition ingest (input : SourceFile + PreparedSource) (r : ObjectRecord) (stop : Poll → bool)
    (st : Store) : result string (list Chunk * ObjectRecord * Store) :=
  match input with
  | inl file => ingest_file file r stop st
  | inr prepared => ingest_prepared prepared r stop st
  end.

(** ** Publication *)

(** [for(const auto &part:parts) INSERT INTO revision_chunks ...]. *)
Fixpoint insert_parts (k : bytes) (v ordinal : Z) (parts : list Chunk) (st : Store) :
    result string Store :=
  match parts with
  | [] => Ok st
  | part :: parts =>
      st ← insert_revision_chunk k v ordinal
             {| hash := hash part; chunk_size := i64 (chunk_size part) |} st;
      insert_parts k v (ordinal + 1) parts st
  end.

Definition revision_row (r : ObjectRecord) : RevisionRow :=
  {| revision_path := path r; revision_sha256 := sha256 r; revision_size := i64 (size r);
     author_origin := origin (author r); author_subject := subject (author r);
     author_name := displayName (author r); revision_session := sessionKey r;
     at_ns := recordedAtNs r; revision_operation := operation r; revision_deleted := deleted r;
     parent_key := parentValidationKey r; validation_key := validationKey r;
     metadata_format := format (authorship r); metadata_payload := payload (authorship r);
     source_stamp := sourceStamp r; record_format := 2 |}.

(** [r.author=s.author; r.sessionKey=s.key; r.recordedAtNs=now(); r.schemaVersion=2]. *)
Definition stamped (r : ObjectRecord) (s : ObjectSession) (time : Z) : ObjectRecord :=
  {| key := key r; indexKey := indexKey r; version := version r; path := path r;
     sha256 := sha256 r; size := size r; author := session_author s;
     sessionKey := session_key s; recordedAtNs := time; operation := operation r;
     deleted := deleted r; parentValidationKey := parentValidationKey r;
     validationKey := validationKey r; authorship := authorship r;
     sourceStamp := sourceStamp r; schemaVersion := 2 |}.

(** [r.validationKey=...]. *)
Definition with_key (r : ObjectRecord) (vk : bytes) : ObjectRecord :=
  {| key := key r; indexKey := indexKey r; version := version r; path := path r;
     sha256 := sha256 r; size := size r; author := author r; sessionKey := sessionKey r;
     recordedAtNs := recordedAtNs r; operation := operation r; deleted := deleted r;
     parentValidationKey := parentValidationKey r; validationKey := vk;
     authorship := authorship r; sourceStamp := sourceStamp r;
     schemaVersion := schemaVersion r |}.

Definition publish (r : ObjectRecord) (s : ObjectSession) (parts : list Chunk)
    (raw : option bytes) (time : Z) (st : Store) : result string (ObjectRecord * Store) :=
  document ← match raw with
    | Some d => Ok d
    | None => if 1 <? version r then rawDocument st (key r) (version r - 1) else Ok []
    end;
  let r := stamped r s time in
  ctx ← context_of st (session_key s);
  vk ← validationKey_of r s (container st) ctx document;
  let r := with_key r vk in
  st ← insert_revision (key r) (i64 (version r)) (revision_row r) st;
  st ← (if bool_decide (document = []) then Ok st
        else insert_raw_revision (key r) (i64 (version r)) document st);
  st ← insert_parts (key r) (i64 (version r)) 0 parts st;
  st ← update_object (key r) (i64 (version r)) (path r) (deleted r) st;
  Ok (r, st).

(** ** Validation *)

(** [s.author] compared with [operator==], [r->author!=s.author]. *)
Definition chain_ok (r : ObjectRecord) (s : ObjectSession) (v : Z) (previous : bytes) : bool :=
  (version r =? v) && bool_decide (parentValidationKey r = previous)
  && bool_decide (author r = session_author s).

Definition schema_ok (r : ObjectRecord) : bool :=
  ((schemaVersion r =? 1) || (schemaVersion r =? 2))
  && negb ((schemaVersion r =? 1)
           && negb (bool_decide (payload (profile (author r)) = [])
                    && bool_decide (payload (authorship r) = [])
                    && bool_decide (sourceStamp r = []))).

(** [for(v=1;v<=version;++v)], [n] versions from [v] on. *)
Fixpoint validate_chain (st : Store) (k : bytes) (n : nat) (v : Z) (previous : bytes) :
    result string bool :=
  match n with
  | O => Ok true
  | S n =>
      found ← get st k v;
      match found with
      | None => Ok false
      | Some r =>
          s ← getSession st (sessionKey r) false;
          if negb (schema_ok r && chain_ok r s v previous) then Ok false else
          ctx ← context_of st (session_key s);
          raw ← rawDocument st k v;
          vk ← validationKey_of r s (container st) ctx raw;
          if bool_decide (vk = validationKey r)
          then validate_chain st k n (v + 1) (validationKey r)
          else Ok false
      end
  end.

(** The loop over the chunks of a payload: the total, the hash so far, and
    whether a chunk was wrong. *)
Fixpoint validate_parts (st : Store) (parts : list Chunk) (h : H) (total : Z) :
    result string (option (H * Z)) :=
  match parts with
  | [] => Ok (Some (h, total))
  | part :: parts =>
      if negb (bool_decide (parts = [])) && negb (chunk_size part =? chunkBytes) then Ok None else
      found ← read_chunk st (hash part);
      match found with
      | None => Ok None
      | Some data =>
          if negb (len data =? chunk_size part) || bool_decide (data = [])
             || (chunkBytes <? len data) then Ok None else
          digest ← hash_run (H:=H) [data];
          if negb (bool_decide (digest = hash part)) then Ok None else
          h ← hash_update h data;
          validate_parts st parts h (total + len data)
      end
  end.

Definition validate_payload (st : Store) (k : bytes) (v : Z) (r : ObjectRecord) :
    result string bool :=
  parts ← chunks st k v;
  if deleted r then Ok (bool_decide (parts = [])) else
  if negb (len parts =? size r / chunkBytes
             + (if size r mod chunkBytes =? 0 then 0 else 1)) then Ok false else
  checked ← validate_parts st parts hash_init 0;
  match checked with
  | Some (h, total) => Ok ((total =? size r) && bool_decide (hash_finish h = sha256 r))
  | None => Ok false
  end.

Definition validate (st : Store) (k : bytes) (v : Z) (with_payload : bool) : result string bool :=
  if (v =? 0) || (INT64_MAX <? v) then Ok false else
  ok ← validate_chain st k (Z.to_nat v) 1 [];
  if negb ok then Ok false else
  found ← get st k v;
  r ← of_option "bad_optional_access" found;
  if negb with_payload then Ok true else validate_payload st k v r.

(** [require(key, expected)]: the head a caller expects to replace. *)
Definition require (st : Store) (k : bytes) (expected : Z) : result string ObjectRecord :=
  found ← get st k 0;
  r ← of_option "live object not found" found;
  _ ← check (negb (deleted r)) "live object not found";
  _ ← check (negb ((expected =? 0) || negb (version r =? expected) || (INT64_MAX <=? expected)))
        "object version conflict";
  ok ← validate st k (version r) false;
  _ ← check ok "object metadata chain is corrupt";
  Ok r.

(** ** Imports *)

(** [Impl::importFile]; [input] is the file or the prepared batch entry, [n] the
    number of keys the operation used before, which also labels its clock
    reading. *)
Definition import_with (e : Env) (n : nat) (input : SourceFile + PreparedSource) (p : bytes)
    (s : ObjectSession) (options : ObjectWriteOptions) (raw : bytes) (st : Store) :
    result string (ObjectRecord * Store) :=
  _ ← match opt_authorship options with Some d => authorshipValid d | None => Ok tt end;
  _ ← field (opt_sourceStamp options) 32768 false;
  _ ← pathValid p;
  _ ← match opt_authorship options with Some d => validateDocument d | None => Ok tt end;
  let k := uniqueKey e n "object-" in
  '(i, st) ← insert_object k p st;
  let r := {| key := k; indexKey := i; version := 1; path := p; sha256 := []; size := 0;
    author := {| origin := []; subject := []; displayName := []; profile := no_document |};
    sessionKey := []; recordedAtNs := 0;
    operation := if bool_decide (raw = []) then lit "import" else lit "wrap_raw";
    deleted := false; parentValidationKey := []; validationKey := [];
    authorship := default no_document (opt_authorship options);
    sourceStamp := opt_sourceStamp options; schemaVersion := 2 |} in
  '(parts, r, st) ← ingest input r (cancellation options) st;
  publish r s parts (Some raw) (clock e n) st.

(** ** Sessions *)

Definition beginSession (e : Env) (a : ObjectAuthor) (device description : bytes)
    (context : ObjectSessionContext) (st : Store) : result string ObjectSession * Store :=
  match (_ ← authorValid a; _ ← field device 4096 true; _ ← field description 16384 false;
         document ← encodeSessionContext context; _ ← validateActor a; Ok document) with
  | Err m => (Err m, st)
  | Ok document => transaction e (λ st,
      let s := {| session_key := uniqueKey e 0 "session-"; session_author := a;
        device := device; session_description := description; startedAtNs := clock e 0;
        endedAtNs := 0 |} in
      st ← insert_session s st;
      st ← insert_work_session (session_key s) document st;
      Ok (s, st)) st
  end.

Definition endSession (e : Env) (k : bytes) (st : Store) : result string unit * Store :=
  transaction e (λ st,
    _ ← getSession st k true;
    st ← update_session_ended k (clock e 0) st;
    Ok (tt, st)) st.

Definition session (k : bytes) (st : Store) : result string ObjectSession :=
  getSession st k false.

(** ** Objects *)

Definition importFile (e : Env) (source : SourceFile) (p session : bytes)
    (options : ObjectWriteOptions) (st : Store) : result string ObjectRecord * Store :=
  transaction e (λ st,
    s ← getSession st session true;
    import_with e 0 (inl source) p s options [] st) st.

(** The records of a batch, in input order. *)
Fixpoint import_each (e : Env) (n : nat) (files : list (PreparedSource * bytes * ObjectWriteOptions))
    (s : ObjectSession) (st : Store) : result string (list ObjectRecord * Store) :=
  match files with
  | [] => Ok ([], st)
  | (prepared, p, options) :: files =>
      _ ← check (negb (cancellation options BeforeImport)) cancelled;
      '(r, st) ← import_with e n (inr prepared) p s options [] st;
      '(rs, st) ← import_each e (S n) files s st;
      Ok (r :: rs, st)
  end.

Definition maximumBatchFiles : Z := 256.
Definition maximumBatchMetadataBytes : Z := 16 * 1024 * 1024.

(** The preflight loop over one file: what is left of the metadata budget. *)
Definition reserve (s : ObjectSession) (remaining : Z) (options : ObjectWriteOptions) :
    result string Z :=
  let exceeds := "object batch metadata exceeds 16 MiB"%string in
  _ ← check (negb (cancellation options Preflight)) cancelled;
  let actorBytes := len (payload (profile (session_author s))) in
  let provenanceBytes :=
    match opt_authorship options with Some d => len (payload d) | None => 0 end in
  _ ← check (negb (remaining <? actorBytes)) exceeds;
  let remaining := remaining - actorBytes in
  _ ← check (negb (remaining <? provenanceBytes)) exceeds;
  Ok (remaining - provenanceBytes).

(** [importFiles]; [prepared] is what [readObjectBatch] returns. *)
Definition importFiles (e : Env) (files : list (bytes * ObjectWriteOptions))
    (prepared : result string (list PreparedSource)) (session : bytes) (st : Store) :
    result string (list ObjectRecord) * Store :=
  if bool_decide (files = []) || (maximumBatchFiles <? len files)
  then (Err "object batch must contain 1 to 256 files", st) else
  transaction e (λ st,
    s ← getSession st session true;
    _ ← fold_res (reserve s) maximumBatchMetadataBytes files.*2;
    sources ← prepared;
    '(records, st) ← import_each e 0
      (zip_with (λ source file, (source, file.1, file.2)) sources files) s st;
    _ ← for_each (λ file, check (negb (cancellation file.2 BeforeCommit)) cancelled) files;
    Ok (records, st)) st.

(** The record that succeeds [r]: the parent link, [++r.version] and the fields
    an operation changes. *)
Definition successor (r : ObjectRecord) (p : bytes) (op : string) (is_deleted : bool)
    (document : ObjectMetadata) (stamp : bytes) : ObjectRecord :=
  {| key := key r; indexKey := indexKey r; version := u64 (version r + 1); path := p;
     sha256 := sha256 r; size := size r; author := author r; sessionKey := sessionKey r;
     recordedAtNs := recordedAtNs r; operation := lit op; deleted := is_deleted;
     parentValidationKey := validationKey r; validationKey := validationKey r;
     authorship := document; sourceStamp := stamp; schemaVersion := schemaVersion r |}.

Definition reviseFile (e : Env) (k : bytes) (source : SourceFile) (expected : Z) (session : bytes)
    (options : ObjectWriteOptions) (st : Store) : result string ObjectRecord * Store :=
  match (_ ← match opt_authorship options with Some d => authorshipValid d | None => Ok tt end;
         field (opt_sourceStamp options) 32768 false) with
  | Err m => (Err m, st)
  | Ok _ => transaction e (λ st,
      r ← require st k expected;
      s ← getSession st session true;
      raw ← rawDocument st k (version r);
      _ ← check (bool_decide (raw = []))
            "RAW payload is immutable; revise metadata or wrap a new original";
      _ ← match opt_authorship options with Some d => validateDocument d | None => Ok tt end;
      let r := successor r (path r) "revise" (deleted r)
                 (default (authorship r) (opt_authorship options)) (opt_sourceStamp options) in
      '(parts, r, st) ← ingest_file source r (cancellation options) st;
      publish r s parts None (clock e 0) st) st
  end.

Definition move (e : Env) (k p : bytes) (expected : Z) (session : bytes)
    (options : ObjectWriteOptions) (st : Store) : result string ObjectRecord * Store :=
  match (_ ← field (opt_sourceStamp options) 32768 false;
         _ ← check (negb (cancellation options Preflight)) "object move cancelled";
         _ ← check (bool_decide (opt_authorship options = None))
               "move preserves original authorship";
         pathValid p) with
  | Err m => (Err m, st)
  | Ok _ => transaction e (λ st,
      r ← require st k expected;
      s ← getSession st session true;
      let stamp := if bool_decide (opt_sourceStamp options = [])
                   then sourceStamp r else opt_sourceStamp options in
      parts ← chunks st k (version r);
      publish (successor r p "move" (deleted r) (authorship r) stamp) s parts None (clock e 0) st) st
  end.

Definition erase (e : Env) (k : bytes) (expected : Z) (session : bytes) (st : Store) :
    result string ObjectRecord * Store :=
  transaction e (λ st,
    r ← require st k expected;
    s ← getSession st session true;
    publish (successor r (path r) "erase" true (authorship r) (sourceStamp r)) s [] None
      (clock e 0) st) st.

(** ** RAW envelopes and documents *)

(** The checks of [wrapRaw] and [importDocument] before the snapshot is taken. *)
Definition capture_ready (session : bytes) (message : string) (st : Store) : result string unit :=
  _ ← requireJournal st;
  _ ← check (negb (readOnly st)) message;
  _ ← getSession st session true;
  Ok tt.

(** [capturedOptions]. *)
Definition captured_options (captured : CapturedSource) (options : ObjectWriteOptions) :
    ObjectWriteOptions :=
  {| opt_authorship := opt_authorship options;
     opt_sourceStamp := if bool_decide (opt_sourceStamp options = [])
                        then captured_stamp captured else opt_sourceStamp options;
     cancellation := cancellation options |}.

Definition wrapRaw (e : Env) (source : result string CapturedSource) (p : bytes)
    (metadata : RawMetadata) (session : bytes) (options : ObjectWriteOptions) (st : Store) :
    result string ObjectRecord * Store :=
  match (document ← encodeRawMetadata metadata;
         _ ← pathValid p;
         _ ← check (negb (cancellation options Preflight)) "RAW wrapping cancelled";
         _ ← capture_ready session "cannot wrap RAW through a read-only package" st;
         captured ← source;
         Ok (document, captured)) with
  | Err m => (Err m, st)
  | Ok (document, captured) => transaction e (λ st,
      s ← getSession st session true;
      import_with e 0 (inl (captured_file captured)) p s (captured_options captured options)
        document st) st
  end.

Definition originals : bytes := lit ".originals/".

(** A new live object that shares the chunks of [raw]. *)
Definition importDocument (e : Env) (source : result string CapturedSource) (p : bytes)
    (metadata : RawMetadata) (session : bytes) (options : ObjectWriteOptions) (st : Store) :
    result string ObjectDocument * Store :=
  match (document ← encodeRawMetadata metadata;
         _ ← pathValid p;
         _ ← check (negb (starts_with originals p)) "document path uses the original namespace";
         _ ← check (negb (cancellation options Preflight)) "document capture cancelled";
         _ ← capture_ready session "cannot capture through a read-only package" st;
         captured ← source;
         Ok (document, captured)) with
  | Err m => (Err m, st)
  | Ok (document, captured) => transaction e (λ st,
      s ← getSession st session true;
      let k := uniqueKey e 0 "object-" in
      let options' := captured_options captured options in
      '(raw, st) ← import_with e 1 (inl (captured_file captured)) (originals ++ k) s options'
                     document st;
      '(i, st) ← insert_object k p st;
      let working := {| key := k; indexKey := i; version := 1; path := p; sha256 := sha256 raw;
        size := size raw;
        author := {| origin := []; subject := []; displayName := []; profile := no_document |};
        sessionKey := []; recordedAtNs := 0; operation := lit "import"; deleted := false;
        parentValidationKey := []; validationKey := [];
        authorship := default no_document (opt_authorship options);
        sourceStamp := opt_sourceStamp options'; schemaVersion := 2 |} in
      parts ← chunks st (key raw) (version raw);
      '(working, st) ← publish working s parts None (clock e 2) st;
      _ ← check (negb (cancellation options BeforeCommit)) "document capture cancelled";
      Ok ({| document_file := working;
             document_original := {| envelope_record := raw; envelope_metadata := metadata |} |},
          st)) st
  end.

Section decoding.
(** nlohmann's parser, which the codec uses. *)
Context (json_parse : bytes → option json).

Definition rawEnvelope (e : Env) (k : bytes) (v : Z) (st : Store) : result string RawEnvelope :=
  _ ← check (negb (INT64_MAX <? v)) "invalid RAW revision";
  _ ← requireJournal st;
  snapshot e (
    found ← get st k v;
    r ← of_option "RAW envelope not found" found;
    ok ← validate st k (version r) false;
    _ ← check ok "RAW metadata chain is corrupt";
    document ← rawDocument st k (version r);
    _ ← check (negb (bool_decide (document = []))) "object is not a RAW envelope";
    m ← decodeRawMetadata json_parse document;
    Ok {| envelope_record := r; envelope_metadata := m |}).

Definition live_at (p : bytes) (st : Store) : option ObjectRecord :=
  o ← List.find (λ o, negb (object_deleted o.2) && bool_decide (object_path o.2 = p))
        (objects (db st));
  join_row (db st) (object_key o.2) (head_ o.2).

Definition lookupPath (p : bytes) (st : Store) : result string (option ObjectRecord) :=
  _ ← pathValid p;
  _ ← bind p;
  Ok (live_at p st).

Definition original (e : Env) (k : bytes) (st : Store) : result string RawEnvelope :=
  _ ← field k 1024 true;
  _ ← check (negb (has_byte "/"%char k || has_byte "\"%char k)) "invalid document key";
  found ← lookupPath (originals ++ k) st;
  raw ← of_option "document original not found" found;
  rawEnvelope e (key raw) 0 st.

Definition reviseMetadata (e : Env) (k : bytes) (metadata : FileMetadata) (expected : Z)
    (session : bytes) (st : Store) : result string ObjectRecord * Store :=
  match requireJournal st with
  | Err m => (Err m, st)
  | Ok _ => transaction e (λ st,
      r ← require st k expected;
      s ← getSession st session true;
      previous ← rawDocument st k (version r);
      _ ← check (negb (bool_decide (previous = []))) "object is not a RAW envelope";
      raw ← decodeRawMetadata json_parse previous;
      let raw := {| originalName := originalName raw; mediaType := mediaType raw;
                    annotations := metadata |} in
      document ← encodeRawMetadata raw;
      if bool_decide (document = previous) then Ok (r, st) else
      parts ← chunks st k (version r);
      publish (successor r (path r) "metadata" (deleted r) (authorship r) (sourceStamp r)) s parts
        (Some document) (clock e 0) st) st
  end.

Definition metadataDiff (e : Env) (k : bytes) (v : Z) (st : Store) :
    result string (list MetadataChange) :=
  _ ← check (negb ((v =? 0) || (INT64_MAX <? v))) "invalid RAW metadata diff revision";
  _ ← requireJournal st;
  snapshot e (
    ok ← validate st k v false;
    _ ← check ok "RAW metadata chain is corrupt";
    after ← rawDocument st k v;
    _ ← check (negb (bool_decide (after = []))) "object is not a RAW envelope";
    before ← (if 1 <? v then rawDocument st k (v - 1) else Ok []);
    metadataChanges json_parse before after).

(** *** Work sessions *)

Definition workSession (e : Env) (k : bytes) (st : Store) : result string WorkSessionRecord :=
  _ ← field k 1024 true;
  _ ← requireJournal st;
  snapshot e (
    _ ← bind k;
    w ← of_option "work session not found"
          (List.find (λ w, bool_decide (w.2.1 = k)) (work_sessions (db st)));
    s ← getSession st k false;
    c ← decodeSessionContext json_parse w.2.2;
    Ok {| work_sequence := w.1; work_session := s; work_context := c |}).

(** [amount] of one row. *)
Definition session_bytes (s : ObjectSession) (document : bytes) : Z :=
  len document + len (payload (profile (session_author s)))
  + len (displayName (session_author s)) + len (device s) + len (session_description s)
  + len (origin (session_author s)) + len (subject (session_author s)) + len (session_key s).

Definition page_bytes : Z := 16 * 1024 * 1024.

(** [while(q.row())]: the page stops before a row that passes the byte limit. *)
Fixpoint collect_sessions (st : Store) (rows : table (bytes * bytes)) (used : Z) :
    result string (list WorkSessionRecord) :=
  match rows with
  | [] => Ok []
  | (n, (k, document)) :: rows =>
      s ← getSession st k false;
      let used := used + session_bytes s document in
      if page_bytes <? used then Ok [] else
      c ← decodeSessionContext json_parse document;
      rest ← collect_sessions st rows used;
      Ok ({| work_sequence := n; work_session := s; work_context := c |} :: rest)
  end.

Definition sessions_page (e : Env) (after limit : Z) (activeOnly : bool) (st : Store) :
    result string (list WorkSessionRecord) :=
  _ ← check (negb ((after <? 0) || (limit =? 0) || (128 <? limit))) "invalid work-session page";
  _ ← requireJournal st;
  snapshot e (collect_sessions st
    (page (λ w, match sessions (db st) !! w.1 with
                | Some s => negb activeOnly || (endedAtNs s =? 0)
                | None => false
                end) after limit (work_sessions (db st))) 0).
End decoding.

(** ** Queries *)

Definition lookup (k : bytes) (st : Store) : result string (option ObjectRecord) := get st k 0.

Definition scan (after limit : Z) (withDeleted : bool) (st : Store) :
    result string (list ObjectRecord) :=
  _ ← check (negb ((after <? 0) || (limit =? 0) || (10000 <? limit))) "invalid object index page";
  let row := λ o, join_row (db st) (object_key o) (head_ o) in
  Ok (omap (λ o, row o.2)
    (page (λ o, (withDeleted || negb (object_deleted o)) && bool_decide (is_Some (row o)))
       after limit (objects (db st)))).

Definition history (k : bytes) (after limit : Z) (st : Store) : result string (list ObjectRecord) :=
  _ ← check (negb ((INT64_MAX <? after) || (limit =? 0) || (10000 <? limit)))
        "invalid object history page";
  _ ← bind k;
  Ok (omap (λ r, join_row (db st) k r.1)
    (page (λ r, bool_decide (is_Some (find_object (db st) k))
                && bool_decide (is_Some (sessions (db st) !! revision_session r)))
       after limit (default [] (revisions (db st) !! k)))).

(** The unsigned columns of an entry. *)
Definition read_entry (x : ObjectIndexEntry) : ObjectIndexEntry :=
  {| entry_key := entry_key x; entry_indexKey := entry_indexKey x;
     entry_version := u64 (entry_version x); entry_path := entry_path x;
     entry_sha256 := entry_sha256 x; entry_size := u64 (entry_size x);
     entry_validationKey := entry_validationKey x; entry_sessionKey := entry_sessionKey x;
     entry_deleted := entry_deleted x; entry_authorOrigin := entry_authorOrigin x;
     entry_authorSubject := entry_authorSubject x |}.

Definition index (after limit : Z) (withDeleted : bool) (st : Store) :
    result string (list ObjectIndexEntry) :=
  _ ← check (negb ((after <? 0) || (limit =? 0) || (10000 <? limit))) "invalid object index page";
  Ok (read_entry ∘ snd <$>
    page (λ x, withDeleted || negb (entry_deleted x)) after limit (current_index (db st))).

Definition journal_entry (n : Z) (k : bytes) (v : Z) (r : RevisionRow) : ObjectJournalEntry :=
  {| journal_sequence := n; journal_objectKey := k; journal_version := u64 v;
     journal_sessionKey := revision_session r; journal_recordedAtNs := at_ns r;
     journal_operation := revision_operation r; journal_path := revision_path r;
     journal_sha256 := revision_sha256 r; journal_size := u64 (revision_size r);
     journal_deleted := revision_deleted r; journal_validationKey := validation_key r |}.

Definition journal (after limit : Z) (objectKey sessionKey : bytes) (st : Store) :
    result string (list ObjectJournalEntry) :=
  _ ← check (negb ((after <? 0) || (limit =? 0) || (1024 <? limit))) "invalid object journal page";
  _ ← field objectKey 1024 false;
  _ ← field sessionKey 1024 false;
  _ ← requireJournal st;
  Ok (omap (λ j, r ← revision_of (db st) j.2.1.1 j.2.1.2;
                 Some (journal_entry j.1 j.2.1.1 j.2.1.2 r))
    (page (λ j, bool_decide (is_Some (revision_of (db st) j.1.1 j.1.2))
                && (bool_decide (objectKey = []) || bool_decide (j.1.1 = objectKey))
                && (bool_decide (sessionKey = []) || bool_decide (j.2 = sessionKey)))
       after limit (object_journal (db st)))).

Definition no_chunk : Chunk := {| hash := []; chunk_size := 0 |}.

(** One position of the loop of [diff]. *)
Definition change_at (before after : list Chunk) (i : nat) : list ObjectChange :=
  let a := default no_chunk (before !! i) in
  let b := default no_chunk (after !! i) in
  if bool_decide (hash a = hash b) && (chunk_size a =? chunk_size b) then [] else
  [{| offset := Z.of_nat i * chunkBytes; beforeHash := hash a; afterHash := hash b;
      beforeSize := chunk_size a; afterSize := chunk_size b |}].

Definition chunk_changes (before after : list Chunk) : list ObjectChange :=
  seq 0 (length before `max` length after) ≫= change_at before after.

Definition diff (e : Env) (k : bytes) (v : Z) (st : Store) : result string (list ObjectChange) :=
  snapshot e (
    _ ← check (negb ((v =? 0) || (INT64_MAX <? v))) "object version not found";
    found ← get st k v;
    _ ← of_option "object version not found" found;
    before ← (if 1 <? v then chunks st k (v - 1) else Ok []);
    after ← chunks st k v;
    Ok (chunk_changes before after)).

Definition count (withDeleted : bool) (st : Store) : Z :=
  len (filter (λ o, withDeleted || negb (object_deleted o.2)) (objects (db st))).

Definition validate_object (e : Env) (k : bytes) (v : Z) (with_payload : bool) (st : Store) :
    result string bool :=
  snapshot e (validate st k v with_payload).

(** ** Extraction *)

(** What the filesystem answers while a payload is extracted. *)
Record Destination := {
  target : result string bytes;        (* [directPath(destination,false)] *)
  occupied : bool;                     (* [fs::exists(output)] *)
  lease : result string unit;          (* [TemporaryLease] of the parent *)
  staged : bool;                       (* exclusive creation of the temporary file *)
  writes : nat → bool;                 (* the n-th [fwrite] writes everything *)
  flushed : bool;
  synchronized : bool;
  closed : bool;
  link : result string unit            (* [fs::create_hard_link], exclusive *)
}.

Fixpoint extract_parts (st : Store) (d : Destination) (n : nat) (parts : list Chunk)
    (written : bytes) : result string bytes :=
  match parts with
  | [] => Ok written
  | part :: parts =>
      found ← read_chunk st (hash part);
      data ← of_option "missing object chunk" found;
      _ ← check (writes d n) "cannot write object extraction";
      extract_parts st d (S n) parts (written ++ data)
  end.

(** The path that is created and the bytes of the new file. *)
Definition extract (e : Env) (k : bytes) (v : Z) (d : Destination) (st : Store) :
    result string (bytes * bytes) :=
  snapshot e (
    ok ← validate st k v true;
    _ ← check ok "object integrity validation failed";
    found ← get st k v;
    r ← of_option "cannot extract absent object content" found;
    _ ← check (negb (deleted r)) "cannot extract absent object content";
    output ← target d;
    _ ← check (negb (occupied d)) "extraction destination exists";
    _ ← lease d;
    _ ← check (staged d) "cannot stage object extraction";
    parts ← chunks st k v;
    data ← extract_parts st d 0 parts [];
    _ ← check (flushed d) "cannot flush object extraction";
    _ ← check (synchronized d) "cannot synchronize object extraction";
    _ ← check (closed d) "cannot close object extraction";
    _ ← link d;
    Ok (output, data)).
End store.
