(* ===== verification/ObjectInvariant.v ===== *)
(** The invariant of the object package and the order on packages: what a
    consistent package is ([wf]), and what it means that one package only adds
    to another ([extends]). *)
From S2P Require Import Prelude Json MetadataCodec Sha256 Table ObjectData ObjectPackage.
From S2P Require Import ObjectStore.
Local Open Scope Z_scope.

(** ** Adding to a package *)

Definition find_work (p : Package) (k : bytes) : option (Z * (bytes * bytes)) :=
  List.find (λ w, bool_decide (w.2.1 = k)) (work_sessions p).

(** Two states of one work session: it may have ended in between. *)
Definition same_session (s s' : ObjectSession) : Prop :=
  session_key s' = session_key s ∧ session_author s' = session_author s ∧
  device s' = device s ∧ session_description s' = session_description s ∧
  startedAtNs s' = startedAtNs s.

(** Everything recorded stays as it was: sessions, revisions with their RAW
    documents and chunk lists, and chunk bytes; objects keep their index key and
    their heads only grow; the journal is appended to. *)
Record extends (p p' : Package) : Prop := {
  ext_sessions k s : sessions p !! k = Some s →
    ∃ s', sessions p' !! k = Some s' ∧ same_session s s';
  ext_work k w : find_work p k = Some w → find_work p' k = Some w;
  ext_objects k i o : find_object p k = Some (i, o) →
    ∃ o', find_object p' k = Some (i, o') ∧ head_ o <= head_ o';
  ext_revisions k v row : revision_of p k v = Some row →
    revision_of p' k v = Some row ∧
    raw_revisions p' !! (k, v) = raw_revisions p !! (k, v) ∧
    revision_chunks p' !! (k, v) = revision_chunks p !! (k, v);
  ext_chunks d x : chunk_data p !! d = Some x → chunk_data p' !! d = Some x;
  ext_journal : object_journal p `prefix_of` object_journal p'
}.

#[export] Instance extends_preorder : PreOrder extends.
Proof.
  split.
  - intros p. split; try done.
    + intros k s ->. exists s. by repeat split.
    + intros k i o ->. exists o. split; [done|lia].
  - intros p q r Hpq Hqr. split.
    + intros k s Hs. destruct (ext_sessions _ _ Hpq k s Hs) as (s1 & Hs1 & E1).
      destruct (ext_sessions _ _ Hqr k s1 Hs1) as (s2 & Hs2 & E2). exists s2. split; [done|].
      unfold same_session in *. intuition congruence.
    + intros k w Hw. by apply (ext_work _ _ Hqr), (ext_work _ _ Hpq).
    + intros k i o Ho. destruct (ext_objects _ _ Hpq k i o Ho) as (o1 & Ho1 & E1).
      destruct (ext_objects _ _ Hqr k i o1 Ho1) as (o2 & Ho2 & E2). exists o2. split; [done|lia].
    + intros k v row Hr. destruct (ext_revisions _ _ Hpq k v row Hr) as (H1 & H2 & H3).
      destruct (ext_revisions _ _ Hqr k v row H1) as (H4 & H5 & H6). split_and!; congruence.
    + intros d x Hx. by apply (ext_chunks _ _ Hqr), (ext_chunks _ _ Hpq).
    + etrans; [apply (ext_journal _ _ Hpq)|apply (ext_journal _ _ Hqr)].
Qed.

(** ** Consistency *)

(** The rows of a chunk list, numbered from [n]. *)
Fixpoint chunk_rows (n : Z) (parts : list Chunk) : table Chunk :=
  match parts with
  | [] => []
  | part :: parts => (n, part) :: chunk_rows (n + 1) parts
  end.

(** A payload cut into chunks: all full but the last, none empty. *)
Fixpoint well_chunked (datas : list bytes) : Prop :=
  match datas with
  | [] => True
  | [d] => 0 < len d <= chunkBytes
  | d :: datas => len d = chunkBytes ∧ well_chunked datas
  end.

(** The validation key a revision links to. *)
Definition previous_key (p : Package) (k : bytes) (v : Z) : bytes :=
  if v =? 1 then [] else default [] (validation_key <$> revision_of p k (v - 1)).

Section invariant.
Context {H : Type} {hashing : StreamHash H}.
Context (cont : bytes).

(** The stored bytes a part names. *)
Definition part_data (p : Package) (part : Chunk) (data : bytes) : Prop :=
  chunk_data p !! hash part = Some data ∧ chunk_size part = len data.

(** The payload of a revision, as its list of chunk bytes. *)
Definition revision_payload (p : Package) (k : bytes) (v : Z) (datas : list bytes) : Prop :=
  ∃ parts, default [] (revision_chunks p !! (k, v)) = chunk_rows 0 parts ∧
    Forall2 (part_data p) parts datas.

Record revision_valid (p : Package) (k : bytes) (i v : Z) (row : RevisionRow) : Prop := {
  rv_session : ∃ s w, sessions p !! revision_session row = Some s ∧
    find_work p (revision_session row) = Some w ∧
    session_key s = revision_session row ∧ bindable (revision_session row) ∧
    author (record k i v row s) = session_author s ∧
    validationKey_of (H:=H) (record k i v row s) s cont w.2.2 (default [] (raw_revisions p !! (k, v)))
      = Ok (validation_key row);
  rv_format : record_format row = 2;
  rv_size : 0 <= revision_size row <= INT64_MAX;
  rv_parent : parent_key row = previous_key p k v;
  rv_deleted : revision_deleted row = true → default [] (revision_chunks p !! (k, v)) = [];
  rv_payload : revision_deleted row = false → ∃ datas, revision_payload p k v datas ∧
    well_chunked datas ∧ len (concat datas) = revision_size row ∧
    hash_run (H:=H) datas = Ok (revision_sha256 row)
}.

(** The chunk stored under a hash has that hash. *)
Definition chunk_valid (digest data : bytes) : Prop :=
  hash_run (H:=H) [data] = Ok digest ∧ 0 < len data <= chunkBytes ∧ bindable digest.

Record wf (p : Package) : Prop := {
  wf_objects : ordered (objects p);
  wf_object_bound i o : (i, o) ∈ objects p → 0 < i <= object_sequence p;
  wf_sequence : 0 <= object_sequence p <= INT64_MAX;
  wf_counters : 0 <= work_sequence_ p ∧ 0 <= journal_counter p;
  wf_object_unique i o : (i, o) ∈ objects p → find_object p (object_key o) = Some (i, o);
  wf_live i o j o' : (i, o) ∈ objects p → (j, o') ∈ objects p →
    object_deleted o = false → object_deleted o' = false → object_path o = object_path o' → i = j;
  wf_head i o : (i, o) ∈ objects p → bindable (object_key o) ∧ 0 <= head_ o <= INT64_MAX ∧
    (∀ v, is_Some (revision_of p (object_key o) v) ↔ 1 <= v <= head_ o) ∧
    (∀ row, revision_of p (object_key o) (head_ o) = Some row →
       revision_path row = object_path o ∧ revision_deleted row = object_deleted o);
  wf_revision_key k t : revisions p !! k = Some t → ordered t ∧ is_Some (find_object p k);
  wf_revision k i o v row : find_object p k = Some (i, o) → revision_of p k v = Some row →
    revision_valid p k i v row;
  wf_raw k v : is_Some (raw_revisions p !! (k, v)) → is_Some (revision_of p k v);
  wf_parts k v : is_Some (revision_chunks p !! (k, v)) → is_Some (revision_of p k v);
  wf_chunk digest data : chunk_data p !! digest = Some data → chunk_valid digest data;
  wf_session k s : sessions p !! k = Some s → session_key s = k ∧ bindable k ∧
    is_Some (find_work p k);
  wf_work : ordered (work_sessions p);
  wf_work_bound n w : (n, w) ∈ work_sessions p → 0 < n <= work_sequence_ p;
  wf_journal : ordered (object_journal p);
  wf_journal_bound n j : (n, j) ∈ object_journal p → 0 < n <= journal_counter p;
  wf_journal_row n k v s : (n, (k, v, s)) ∈ object_journal p →
    ∃ row, revision_of p k v = Some row ∧ revision_session row = s;
  wf_journal_unique n n' k v s s' : (n, (k, v, s)) ∈ object_journal p →
    (n', (k, v, s')) ∈ object_journal p → n = n';
  wf_journal_all k v row : revision_of p k v = Some row →
    ∃ n, (n, (k, v, revision_session row)) ∈ object_journal p;
  wf_index : ordered (current_index p);
  wf_index_row i x : (i, x) ∈ current_index p → ∃ o row, (i, o) ∈ objects p ∧
    revision_of p (object_key o) (head_ o) = Some row ∧ x = index_entry i o row;
  wf_index_all i o : (i, o) ∈ objects p → 1 <= head_ o → ∃ x, (i, x) ∈ current_index p
}.

(** ** Consistency is kept by additions *)

Lemma same_session_key (r : ObjectRecord) s s' ctx raw : same_session s s' →
  validationKey_of (H:=H) r s cont ctx raw = validationKey_of r s' cont ctx raw.
Proof.
  intros (E1 & E2 & E3 & E4 & E5). unfold validationKey_of, key_values. by rewrite E3, E4, E5.
Qed.

Lemma record_same k i v row s s' : same_session s s' →
  record k i v row s' = record k i v row s.
Proof. intros (_ & E & _). unfold record. by rewrite E. Qed.

Lemma part_data_extends p p' part data :
  extends p p' → part_data p part data → part_data p' part data.
Proof. intros He [H1 H2]. split; [by apply (ext_chunks _ _ He)|done]. Qed.

Lemma revision_valid_extends p p' k i v row :
  extends p p' → revision_of p k v = Some row →
  (v ≠ 1 → is_Some (revision_of p k (v - 1))) →
  revision_valid p k i v row → revision_valid p' k i v row.
Proof.
  intros He Hr Hprev Hv.
  destruct (ext_revisions _ _ He k v row Hr) as (Hr' & Hraw & Hparts).
  destruct Hv as [(s & w & Hs & Hw & Hk & Hb & Ha & Hvk) Hf Hz Hp Hd Hpay]. split; try done.
  - destruct (ext_sessions _ _ He _ _ Hs) as (s' & Hs' & Hsame).
    pose proof Hsame as (E1 & E2 & _). exists s', w.
    split_and!; [done|by apply (ext_work _ _ He)|congruence|done| |].
    + unfold record in *. simpl in *. congruence.
    + rewrite Hraw, <-Hvk, (record_same k i v row s s') by done.
      symmetry. by apply same_session_key.
  - rewrite Hp. unfold previous_key. destruct (Z.eqb_spec v 1) as [|Hne]; [done|].
    destruct (Hprev Hne) as [r0 Hr0]. rewrite Hr0.
    by destruct (ext_revisions _ _ He _ _ _ Hr0) as (-> & _).
  - by rewrite Hparts.
  - intros Hdel. destruct (Hpay Hdel) as (datas & (parts & Hrows & H2) & Hrest).
    exists datas. split; [|done]. exists parts. rewrite Hparts. split; [done|].
    eapply Forall2_impl; [done|]. intros ??. by apply part_data_extends.
Qed.
End invariant.
