(* ===== verification/ObjectSteps.v ===== *)
(** Every statement and every compound step of the object store keeps the
    package consistent and only adds to it. *)
From S2P Require Import Prelude Json MetadataCodec Sha256 Table ObjectData ObjectPackage.
From S2P Require Import ObjectStore ObjectInvariant.
Local Open Scope Z_scope.

(** The store after a step: the same opened package, with more in it. *)
Definition grows (st st' : Store) : Prop :=
  container st' = container st ∧ schema st' = schema st ∧ readOnly st' = readOnly st ∧
  extends (db st) (db st').

#[export] Instance grows_preorder : PreOrder grows.
Proof.
  split.
  - intros st. by split_and!.
  - intros a b c (?&?&?&?) (?&?&?&?). split_and!; [congruence..|by etrans].
Qed.

(** ** Searching by key *)
Section finding.
Implicit Types (p : Package) (k : bytes).

Lemma find_object_in p k i o : find_object p k = Some (i, o) → (i, o) ∈ objects p ∧ object_key o = k.
Proof.
  intros E. apply find_in in E as [? E]. by apply bool_decide_eq_true in E.
Qed.

Lemma find_object_none p k i o : find_object p k = None → (i, o) ∈ objects p → object_key o ≠ k.
Proof. intros E Hin. apply (find_none _ _ _ E) in Hin. by apply bool_decide_eq_false in Hin. Qed.

Lemma find_work_in p k n w : find_work p k = Some (n, w) → (n, w) ∈ work_sessions p ∧ w.1 = k.
Proof. intros E. apply find_in in E as [? E]. by apply bool_decide_eq_true in E. Qed.

Lemma path_free p k path i o : path_taken p k path = false → (i, o) ∈ objects p →
  object_deleted o = false → object_path o = path → object_key o = k.
Proof.
  unfold path_taken. intros E Hin Hd Hp. destruct (decide (object_key o = k)); [done|].
  exfalso. assert (existsb (λ o, negb (object_deleted o.2) && bool_decide (object_path o.2 = path)
    && negb (bool_decide (object_key o.2 = k))) (objects p) = true); [|congruence].
  apply existsb_exists. exists (i, o). split; [by apply list_elem_of_In|]. simpl.
  by rewrite Hd, bool_decide_true, bool_decide_false.
Qed.

Lemma existsb_false {A} (f : A → bool) l x : existsb f l = false → x ∈ l → f x = false.
Proof.
  intros E Hx. destruct (f x) eqn:Hf; [|done].
  assert (existsb f l = true); [|congruence].
  apply existsb_exists. exists x. split; [by apply list_elem_of_In|done].
Qed.
End finding.

Section steps.
Context {H : Type} {hashing : StreamHash H}.
Implicit Types (st : Store) (p : Package).

Abbreviation wf := (wf (H:=H)).

(** ** Reading statements *)

Lemma bind_text_ok s u : bind s = Ok u ↔ bindable s.
Proof. unfold bind. rewrite check_ok. symmetry. apply Is_true_true. Qed.

Lemma next_sequence_ok n m : next_sequence n = Ok m → n < INT64_MAX ∧ m = n + 1.
Proof. unfold next_sequence. intros E. inv_ok. apply Z.ltb_lt in H0. done. Qed.

Lemma row_insert_bound {A} n (x : A) t t' m : row_insert n x t = Some t' →
  (∀ i y, (i, y) ∈ t → 0 < i <= m) → m + 1 = n → 0 <= m → ∀ i y, (i, y) ∈ t' → 0 < i <= n.
Proof.
  intros Hi Hb <- Hm i y Hin. apply (row_insert_in _ _ _ _ _ Hi) in Hin as [[= -> ->]|Hin]; [lia|].
  specialize (Hb _ _ Hin). lia.
Qed.

(** A revision that stays found stays valid. *)
Lemma wf_revision_extends cont p p' k i o v row :
  wf cont p → extends p p' → find_object p k = Some (i, o) → revision_of p k v = Some row →
  revision_valid (H:=H) cont p' k i v row.
Proof.
  intros Hw He Ho Hr. eapply revision_valid_extends; [done|done| |by eapply wf_revision].
  intros Hne. apply find_object_in in Ho as [Hin <-].
  destruct (wf_head _ _ Hw _ _ Hin) as (_ & _ & Hv & _). apply Hv.
  assert (1 <= v <= head_ o) by by (apply Hv; rewrite Hr). lia.
Qed.

(** ** Sessions *)

Lemma new_session_extends p s d n t :
  sessions p !! session_key s = None → find_work p (session_key s) = None →
  row_insert n (session_key s, d) (work_sessions p) = Some t →
  extends p (set_work_sessions t n (set_sessions (<[session_key s := s]> (sessions p)) p)).
Proof.
  intros Hs Hf Ht. split; try done; simpl.
  - intros k s0 Hk. exists s0. split; [|by split_and!]. rewrite lookup_insert_ne; [done|congruence].
  - intros k w Hk. unfold find_work. simpl. erewrite find_insert_other; [done..|].
    simpl. apply bool_decide_eq_false. congruence.
  - intros k i o Ho. exists o. split; [exact Ho|lia].
Qed.

Lemma new_session_wf cont p s d n t :
  wf cont p → sessions p !! session_key s = None → bindable (session_key s) →
  find_work p (session_key s) = None → work_sequence_ p + 1 = n →
  row_insert n (session_key s, d) (work_sessions p) = Some t →
  wf cont (set_work_sessions t n (set_sessions (<[session_key s := s]> (sessions p)) p)).
Proof.
  intros Hw Hs Hb Hf Hn Ht.
  pose proof (new_session_extends p s d n t Hs Hf Ht) as He.
  destruct (Hw). split; try done; simpl.
  - lia.
  - intros k i o v row Ho Hr. by eapply (wf_revision_extends cont p).
  - intros k s0. destruct (decide (session_key s = k)) as [<-|Hne].
    + rewrite lookup_insert_eq. intros [= <-]. split_and!; [done..|].
      unfold find_work. simpl. erewrite find_insert_new; [done..| |done].
      by apply bool_decide_eq_true.
    + rewrite lookup_insert_ne by done. intros Hk.
      destruct (wf_session _ _ Hk) as (? & ? & [w Hw']). split_and!; [done..|].
      by rewrite (ext_work _ _ He _ _ Hw').
  - by eapply row_insert_ordered.
  - eapply row_insert_bound; [done..|]. apply wf_counters.
Qed.

Lemma begin_session_step st st1 st2 s d :
  endedAtNs s = 0 → wf (container st) (db st) →
  insert_session s st = Ok st1 → insert_work_session (session_key s) d st1 = Ok st2 →
  wf (container st2) (db st2) ∧ grows st st2 ∧ sessions (db st2) !! session_key s = Some s ∧
  ∃ n, find_work (db st2) (session_key s) = Some (n, (session_key s, d)).
Proof.
  intros Hend Hw H1 H2. unfold insert_session, insert_work_session in *. inv_ok.
  replace {| session_key := session_key s; session_author := session_author s;
    device := device s; session_description := session_description s;
    startedAtNs := startedAtNs s; endedAtNs := 0 |} with s in * by (destruct s; simpl in *; congruence).
  simpl in *.
  match goal with E : next_sequence _ = Ok _ |- _ => apply next_sequence_ok in E as [_ E] end.
  assert (find_work (db st) (session_key s) = None) as Hf.
  { destruct (find_work (db st) (session_key s)) as [[n w]|] eqn:E; [|done].
    apply find_work_in in E as [Hin E].
    match goal with E : existsb _ _ = false |- _ =>
      apply (existsb_false _ _ _ E), bool_decide_eq_false in Hin end. done. }
  match goal with E : bind (session_key s) = Ok _ |- _ => apply bind_text_ok in E end.
  split_and!; [by eapply new_session_wf| |by rewrite lookup_insert_eq|].
  - split_and!; [done..|]. by apply (new_session_extends _ _ d).
  - eexists. unfold find_work. simpl. erewrite find_insert_new; [done..| |done].
    by apply bool_decide_eq_true.
Qed.

(** Ending a session. *)
Lemma end_session_step st st' k time s :
  wf (container st) (db st) → sessions (db st) !! k = Some s →
  update_session_ended k time st = Ok st' →
  wf (container st') (db st') ∧ grows st st'.
Proof.
  intros Hw Hs E. unfold update_session_ended in E. inv_ok.
  assert (extends (db st) (set_sessions (alter (λ s, {| session_key := session_key s;
    session_author := session_author s; device := device s;
    session_description := session_description s; startedAtNs := startedAtNs s;
    endedAtNs := time |}) k (sessions (db st))) (db st))) as He.
  { split; try done; simpl.
    - intros k' s' Hk'. destruct (decide (k = k')) as [->|Hne].
      + rewrite lookup_alter_eq, Hk'. simpl. eexists. by split.
      + rewrite lookup_alter_ne by done. exists s'. by split_and!.
    - intros k' i o Ho. exists o. split; [exact Ho|lia]. }
  split; [|by split_and!]. destruct (Hw). split; try done; simpl.
  - intros k' i o v row Ho Hr. by eapply (wf_revision_extends _ _ _ _ _ _ _ _ Hw He Ho).
  - intros k' s'. destruct (decide (k = k')) as [->|Hne].
    + rewrite lookup_alter_eq, Hs. intros [= <-]. simpl. by apply wf_session.
    + rewrite lookup_alter_ne by done. apply wf_session.
Qed.

(** ** New objects *)

Definition new_object (k path : bytes) : ObjectRow :=
  {| object_key := k; head_ := 0; object_path := path; object_deleted := false |}.

Lemma new_object_extends p k path n t :
  find_object p k = None → row_insert n (new_object k path) (objects p) = Some t →
  extends p (set_objects t n p).
Proof.
  intros Hf Ht. split; try done; simpl.
  - intros k' s Hs. exists s. by split_and!.
  - intros k' i o Ho. exists o. split; [|lia]. unfold find_object. simpl.
    erewrite find_insert_other; [done..|]. apply bool_decide_eq_false. simpl. congruence.
Qed.

Lemma no_object_no_revision cont p k v row :
  wf cont p → find_object p k = None → revision_of p k v = Some row → False.
Proof.
  intros Hw Hf. unfold revision_of. destruct (revisions p !! k) as [t|] eqn:E; [|done].
  apply (wf_revision_key _ _ Hw) in E as [_ [? E]]. congruence.
Qed.

Lemma new_object_in p k path n t i o :
  row_insert n (new_object k path) (objects p) = Some t →
  (i, o) ∈ objects (set_objects t n p) ↔ (i, o) = (n, new_object k path) ∨ (i, o) ∈ objects p.
Proof. intros Ht. simpl. by apply row_insert_in. Qed.

Lemma new_object_wf cont p k path n t :
  wf cont p → bindable k → object_sequence p < INT64_MAX → object_sequence p + 1 = n →
  find_object p k = None → path_taken p k path = false →
  row_insert n (new_object k path) (objects p) = Some t →
  wf cont (set_objects t n p).
Proof.
  intros Hw Hb Hm Hn Hf Hp Ht.
  pose proof (new_object_extends p k path n t Hf Ht) as He.
  pose proof (λ i o, new_object_in p k path n t i o Ht) as Hin.
  assert (∀ k' i o, find_object (set_objects t n p) k' = Some (i, o) →
    (k' = k ∧ o = new_object k path) ∨ find_object p k' = Some (i, o)) as Hfind.
  { intros k' i o E. destruct (find_object_in _ _ _ _ E) as [E1 E2].
    apply Hin in E1 as [[= -> ->]|E1]; [by left|]. right. subst k'. by apply (wf_object_unique _ _ Hw). }
  destruct (Hw). split; try done.
  - by eapply row_insert_ordered.
  - eapply row_insert_bound; [exact Ht|done|done|lia].
  - simpl. lia.
  - intros i o [[= -> ->]|Ho]%Hin.
    + unfold find_object. simpl. erewrite find_insert_new; [done..| |done].
      by apply bool_decide_eq_true.
    + destruct (ext_objects _ _ He _ _ _ (wf_object_unique _ _ Ho)) as (o' & E & _).
      destruct (Hfind _ _ _ E) as [[E1 ->]|E1].
      * by destruct (find_object_none _ _ _ _ Hf Ho).
      * rewrite (wf_object_unique _ _ Ho) in E1. simplify_eq. exact E.
  - intros i o j o' [[= -> ->]|Ho]%Hin [[= -> ->]|Ho']%Hin Hd Hd' E; [done|..|by eapply wf_live].
    + destruct (find_object_none _ _ _ _ Hf Ho'). by eapply (path_free p k path).
    + destruct (find_object_none _ _ _ _ Hf Ho). by eapply (path_free p k path).
  - intros i o [[= -> ->]|Ho]%Hin; [|by eapply wf_head].
    simpl. split_and!; [done|done|done| |].
    + intros v. split; [|lia]. intros [row E].
      by destruct (no_object_no_revision cont p k v row Hw Hf).
    + intros row E. by destruct (no_object_no_revision cont p k 0 row Hw Hf).
  - intros k' t' E. split; [by apply (wf_revision_key k' t')|].
    destruct (wf_revision_key k' t' E) as [_ [[i o] Ho]].
    by destruct (ext_objects _ _ He _ _ _ Ho) as (? & -> & _).
  - intros k' i o v row Ho Hr. destruct (Hfind _ _ _ Ho) as [[-> ->]|Ho'].
    + by destruct (no_object_no_revision cont p k v row Hw Hf).
    + by eapply (wf_revision_extends cont p).
  - intros i x Hx. destruct (wf_index_row i x Hx) as (o & row & Ho & E).
    exists o, row. split; [|done]. apply Hin. by right.
  - intros i o [[= -> ->]|Ho]%Hin; [simpl; lia|by apply wf_index_all].
Qed.

Lemma insert_object_step st st' k path i :
  wf (container st) (db st) → insert_object k path st = Ok (i, st') →
  wf (container st') (db st') ∧ grows st st' ∧
  find_object (db st) k = None ∧
  find_object (db st') k = Some (i, new_object k path) ∧
  (∀ k', k' ≠ k → find_object (db st') k' = find_object (db st) k') ∧
  sessions (db st') = sessions (db st).
Proof.
  intros Hw E. unfold insert_object in E. inv_ok. simplify_eq. simpl.
  match goal with E : next_sequence _ = Ok _ |- _ => apply next_sequence_ok in E as [Hm ->] end.
  match goal with E : bind k = Ok _ |- _ => apply bind_text_ok in E end.
  pose proof (wf_sequence _ _ Hw).
  split_and!; [by eapply new_object_wf| |done| | |done].
  - split_and!; [done..|]. by eapply new_object_extends.
  - unfold find_object. simpl. erewrite find_insert_new; [done..| |done].
    by apply bool_decide_eq_true.
  - intros k' Hne. unfold find_object. simpl. erewrite find_insert_other; [done..|].
    by apply bool_decide_eq_false.
Qed.

(** ** Chunks *)

Lemma new_chunk_extends p d x :
  chunk_data p !! d = None → extends p (set_chunk_data (<[d := x]> (chunk_data p)) p).
Proof.
  intros Hd. split; try done; simpl.
  - intros k s Hs. exists s. by split_and!.
  - intros k i o Ho. exists o. split; [exact Ho|lia].
  - intros d' y Hy. rewrite lookup_insert_ne; [done|congruence].
Qed.

Lemma new_chunk_wf cont p d x :
  wf cont p → chunk_data p !! d = None → chunk_valid (H:=H) d x →
  wf cont (set_chunk_data (<[d := x]> (chunk_data p)) p).
Proof.
  intros Hw Hd Hx. pose proof (new_chunk_extends p d x Hd) as He.
  destruct (Hw). split; try done; simpl.
  - intros k i o v row Ho Hr. by eapply (wf_revision_extends cont p).
  - intros d' y. destruct (decide (d = d')) as [->|Hne].
    + rewrite lookup_insert_eq. by intros [= <-].
    + rewrite lookup_insert_ne by done. apply wf_chunk.
Qed.

Lemma storeChunk_step st st' data part :
  wf (container st) (db st) → 0 < len data → storeChunk (H:=H) data st = Ok (part, st') →
  wf (container st') (db st') ∧ grows st st' ∧
  (objects (db st') = objects (db st) ∧ sessions (db st') = sessions (db st)) ∧
  part_data (db st') part data ∧ len data <= chunkBytes.
Proof.
  intros Hw Hlen E. unfold storeChunk, read_chunk in E. inv_ok.
  destruct (chunk_data (db st) !! a) as [x|] eqn:Ex.
  - inv_ok. simplify_eq. destruct (wf_chunk _ _ Hw _ _ Ex) as (_ & [_ ?] & _). by split_and!.
  - inv_ok. unfold insert_chunk in *. inv_ok. simplify_eq. simpl.
    match goal with E : bind _ = Ok _ |- _ => apply bind_text_ok in E end.
    match goal with E : (_ <? _) = false |- _ => apply Z.ltb_ge in E end.
    split_and!; try done.
    + apply new_chunk_wf; [done..|]. by split_and!.
    + split_and!; [done..|]. by apply new_chunk_extends.
    + split; [|done]. simpl. by rewrite lookup_insert_eq.
Qed.

Lemma split_at_spec n s a b : 0 <= n → split_at n s = (a, b) →
  s = a ++ b ∧ len a <= n ∧ (b ≠ [] → len a = n).
Proof.
  revert n a b. induction s as [|c s IH]; intros n a b Hn; simpl.
  - intros [= <- <-]. split_and!; simpl; done || lia.
  - destruct (Z.leb_spec n 0).
    + intros [= <- <-]. split_and!; simpl; done || lia.
    + destruct (split_at (n - 1) s) as [a' b'] eqn:E. intros [= <- <-].
      destruct (IH (n - 1) a' b' ltac:(lia) E) as (-> & H1 & H2).
      split_and!; [done|simpl; lia|]. intros Hb. specialize (H2 Hb). simpl. lia.
Qed.

Lemma split_at_empty n s b : 0 < n → split_at n s = ([], b) → s = [].
Proof.
  destruct s as [|c s]; simpl; [done|]. destruct (Z.leb_spec n 0); [lia|].
  by destruct (split_at (n - 1) s).
Qed.

(** What reading a payload into the package achieves: the parts name stored
    chunks with the bytes read, and the hash has seen them. *)
Record ingested (st : Store) (h : H) (rest : bytes) (st' : Store) (h' : H)
    (new : list Chunk) (datas : list bytes) : Prop := {
  ing_wf : wf (container st') (db st');
  ing_grows : grows st st';
  ing_objects : objects (db st') = objects (db st) ∧ sessions (db st') = sessions (db st);
  ing_parts : Forall2 (part_data (db st')) new datas;
  ing_data : concat datas = rest;
  ing_chunked : well_chunked datas;
  ing_hash : fold_res hash_update h datas = Ok h'
}.

Lemma ingested_nil st h : wf (container st) (db st) → ingested st h [] st h [] [].
Proof. intros Hw. by split. Qed.

Lemma well_chunked_pos d ds : well_chunked (d :: ds) → 0 < len d.
Proof. destruct ds; simpl; [lia|]. intros [-> _]. done. Qed.

Lemma ingested_cons st h data rest h1 part st1 st' h' new datas :
  wf (container st) (db st) → 0 < len data → (rest ≠ [] → len data = chunkBytes) →
  hash_update h data = Ok h1 → storeChunk (H:=H) data st = Ok (part, st1) →
  ingested st1 h1 rest st' h' new datas →
  ingested st h (data ++ rest) st' h' (part :: new) (data :: datas).
Proof.
  intros Hw Hlen Hfull Hh Hs Hing.
  destruct (storeChunk_step _ _ _ _ Hw Hlen Hs) as (_ & Hg & Ho & Hp & Hmax).
  destruct Hing as [Hw' Hg' Ho' Hps Hd Hc Hh']. split.
  - done.
  - by etrans.
  - destruct Ho, Ho'. split; congruence.
  - constructor; [|done]. eapply part_data_extends; [|done]. apply Hg'.
  - simpl. by rewrite Hd.
  - simpl. destruct datas as [|d ds]; [done|]. split; [|done]. apply Hfull.
    intros ->. apply app_nil in Hd as [-> _]. apply well_chunked_pos in Hc. simpl in Hc. lia.
  - simpl. by rewrite Hh.
Qed.

Lemma read_loop_step fuel stop turn limit rest h total parts st h' total' parts' st' :
  wf (container st) (db st) →
  read_loop fuel stop turn limit rest h total parts st = Ok (h', total', parts', st') →
  ∃ new datas, parts' = parts ++ new ∧ total' = total + len rest ∧
    ingested st h rest st' h' new datas.
Proof.
  revert turn rest h total parts st. induction fuel as [|fuel IH];
    intros turn rest h total parts st Hw E; simpl in E; [done|]. inv_ok.
  destruct (split_at chunkBytes rest) as [data rest'] eqn:Es.
  destruct (split_at_spec chunkBytes _ _ _ ltac:(done) Es) as (-> & Hle & Hfull).
  case_bool_decide as Hd.
  - subst data. apply split_at_empty in Es; [|done]. simpl in Es. subst rest'. inv_ok. simplify_eq.
    exists [], []. rewrite !app_nil_r, Z.add_0_r. split_and!; [done..|]. by apply ingested_nil.
  - assert (0 < len data) as Hpos by (destruct data; [done|simpl; lia]).
    inv_ok. rename s into st1, c into part.
    match goal with E : storeChunk _ _ = Ok _ |- _ => rename E into Hst end.
    match goal with E : hash_update _ _ = Ok _ |- _ => rename E into Hh end.
    destruct (storeChunk_step _ _ _ _ Hw Hpos Hst) as (Hw1 & _).
    destruct (Z.ltb_spec (len data) chunkBytes) as [Hlt|Hge].
    + assert (rest' = []) as -> by (destruct rest'; [done|specialize (Hfull ltac:(done)); lia]).
      inv_ok. simplify_eq. exists [part], [data].
      split_and!; [done|by rewrite app_nil_r|]. by eapply ingested_cons, ingested_nil.
    + apply IH in E as (new & datas & -> & -> & Hing); [|done].
      exists (part :: new), (data :: datas). rewrite <-app_assoc. split_and!; [done| |].
      * rewrite length_app. lia.
      * by eapply ingested_cons.
Qed.

Lemma prepared_loop_step fuel stop turn rest h parts st h' parts' st' :
  wf (container st) (db st) →
  prepared_loop fuel stop turn rest h parts st = Ok (h', parts', st') →
  ∃ new datas, parts' = parts ++ new ∧ ingested st h rest st' h' new datas.
Proof.
  revert turn rest h parts st. induction fuel as [|fuel IH];
    intros turn rest h parts st Hw E; simpl in E; [done|].
  case_bool_decide as Hr.
  - inv_ok. simplify_eq. exists [], []. rewrite app_nil_r. split; [done|]. by apply ingested_nil.
  - inv_ok. destruct (split_at chunkBytes rest) as [data rest'] eqn:Es.
    destruct (split_at_spec chunkBytes _ _ _ ltac:(done) Es) as (-> & Hle & Hfull).
    inv_ok. rename s into st1, c into part.
    match goal with E : storeChunk _ _ = Ok _ |- _ => rename E into Hst end.
    assert (0 < len data) as Hpos.
    { destruct data; [|simpl; lia]. apply split_at_empty in Es; [|done]. by rewrite Es in Hr. }
    destruct (storeChunk_step _ _ _ _ Hw Hpos Hst) as (Hw1 & _).
    apply IH in E as (new & datas & -> & Hing); [|done].
    exists (part :: new), (data :: datas). rewrite <-app_assoc. split; [done|].
    by eapply ingested_cons.
Qed.
End steps.
