(* ===== verification/ObjectPublish.v ===== *)
(** Publication of one revision: the rows it writes, and that they leave the
    package consistent. *)
From S2P Require Import Prelude Json MetadataCodec Sha256 Table ObjectData ObjectPackage.
From S2P Require Import ObjectStore ObjectInvariant ObjectSteps.
Local Open Scope Z_scope.

(** The version after the head has no revision yet. *)
Lemma fresh_revision {H} `{StreamHash H} cont p k i o v :
  wf (H:=H) cont p → find_object p k = Some (i, o) → v = head_ o + 1 → revision_of p k v = None.
Proof.
  intros Hw Ho ->. destruct (revision_of p k (head_ o + 1)) eqn:E; [|done].
  apply find_object_in in Ho as [Hin <-].
  destruct (wf_head _ _ Hw _ _ Hin) as (_ & _ & Hv & _).
  assert (1 <= head_ o + 1 <= head_ o) by by (apply Hv; rewrite E). lia.
Qed.

Section published.
Context {H : Type} {hashing : StreamHash H}.
Context (cont : bytes) (p : Package).
Context (k : bytes) (i v : Z) (o : ObjectRow) (row : RevisionRow).
Context (document : bytes) (parts : list Chunk).
Context (t : table RevisionRow) (n : Z) (j : table (bytes * Z * bytes)).
Context (raws : gmap (bytes * Z) bytes) (m : gmap (bytes * Z) (table Chunk)).

(** The object's new row. *)
Definition next_row : ObjectRow :=
  {| object_key := k; head_ := v; object_path := revision_path row;
     object_deleted := revision_deleted row |}.

Definition published : Package :=
  set_current_index (row_replace i (index_entry i next_row row) (current_index p))
    (set_objects (row_replace i next_row (objects p)) (object_sequence p)
      (set_revision_chunks m
        (set_raw_revisions raws
          (set_object_journal j n
            (set_revisions (<[k := t]> (revisions p)) p))))).

Context (Hw : wf (H:=H) cont p).
Context (Ho : find_object p k = Some (i, o)).
Context (Hhead : v = head_ o + 1) (Hmax : v <= INT64_MAX).
Context (Ht : row_insert v row (default [] (revisions p !! k)) = Some t).
Context (Hn : journal_counter p + 1 = n).
Context (Hj : row_insert n (k, v, revision_session row) (object_journal p) = Some j).
Context (Hraw : default [] (raws !! (k, v)) = document)
        (Hraws : ∀ kv, kv ≠ (k, v) → raws !! kv = raw_revisions p !! kv).
Context (Hm : default [] (m !! (k, v)) = chunk_rows 0 parts)
        (Hms : ∀ kv, kv ≠ (k, v) → m !! kv = revision_chunks p !! kv).
Context (Hpath : revision_deleted row = false → path_taken p k (revision_path row) = false).

Lemma published_in : (i, o) ∈ objects p ∧ object_key o = k.
Proof. by apply find_object_in. Qed.

Lemma published_objects i' o' :
  (i', o') ∈ objects published ↔ (i' = i ∧ o' = next_row) ∨ ((i', o') ∈ objects p ∧ i' ≠ i).
Proof.
  simpl. rewrite in_replace; [|apply (wf_objects _ _ Hw)|apply published_in].
  simpl. split; (intros [E|E]; [left|by right]).
  - by simplify_eq.
  - by destruct E as [-> ->].
Qed.

Lemma published_other i' o' : (i', o') ∈ objects p → i' ≠ i → object_key o' ≠ k.
Proof.
  intros Hin Hne E. apply (wf_object_unique _ _ Hw) in Hin. rewrite E, Ho in Hin. congruence.
Qed.

Lemma published_find k' :
  find_object published k' = if decide (k' = k) then Some (i, next_row) else find_object p k'.
Proof.
  unfold find_object. simpl. case_decide as E.
  - subst k'. eapply find_replace_same; [apply (wf_objects _ _ Hw)|exact Ho|].
    by apply bool_decide_eq_true.
  - destruct published_in as [Hin Hk].
    eapply find_replace_other; [apply (wf_objects _ _ Hw)|exact Hin|..];
      apply bool_decide_eq_false; simpl; congruence.
Qed.

Lemma published_revision k' v' :
  revision_of published k' v' =
    if decide ((k', v') = (k, v)) then Some row else revision_of p k' v'.
Proof.
  unfold revision_of. simpl. destruct (decide (k = k')) as [<-|Hne].
  - rewrite lookup_insert_eq. simpl. rewrite (row_insert_lookup _ _ _ _ Ht).
    destruct (Z.eqb_spec v' v) as [->|Hne].
    + by rewrite decide_True.
    + rewrite decide_False by congruence. by destruct (revisions p !! k).
  - rewrite lookup_insert_ne by done. by rewrite decide_False by congruence.
Qed.

Lemma published_fresh : revision_of p k v = None.
Proof. exact (fresh_revision _ _ _ _ _ _ Hw Ho Hhead). Qed.

Lemma published_extends : extends p published.
Proof.
  split; simpl.
  - intros k' s Hs. exists s. by split_and!.
  - done.
  - intros k' i' o' E. rewrite published_find. case_decide as Hk; [|by exists o'].
    subst k'. rewrite Ho in E. simplify_eq. eexists. split; [done|]. simpl. lia.
  - intros k' v' row' E.
    assert ((k', v') ≠ (k, v)) by (intros [= -> ->]; by rewrite published_fresh in E).
    rewrite published_revision, decide_False by done. auto.
  - done.
  - rewrite (row_insert_last n (k, v, revision_session row)) in Hj.
    + injection Hj as <-. by apply prefix_app_r.
    + apply Forall_forall. intros [n' x] Hx.
      apply (wf_journal_bound _ _ Hw) in Hx. simpl. lia.
Qed.

(** The hypotheses on the revision itself. *)
Context (s : ObjectSession) (w : Z * (bytes * bytes)).
Context (Hs : sessions p !! revision_session row = Some s).
Context (Hwork : find_work p (revision_session row) = Some w).
Context (Hauthor : author (record k i v row s) = session_author s).
Context (Hkey : validationKey_of (H:=H) (record k i v row s) s cont w.2.2 document
  = Ok (validation_key row)).
Context (Hformat : record_format row = 2) (Hsize : 0 <= revision_size row <= INT64_MAX).
Context (Hparent : parent_key row = previous_key p k v).
Context (Hdeleted : revision_deleted row = true → parts = []).
Context (Hpayload : revision_deleted row = false → ∃ datas,
  Forall2 (part_data p) parts datas ∧ well_chunked datas ∧
  len (concat datas) = revision_size row ∧ hash_run (H:=H) datas = Ok (revision_sha256 row)).

Lemma published_valid : revision_valid (H:=H) cont published k i v row.
Proof.
  destruct (wf_session _ _ Hw _ _ Hs) as (E & Hb & _). split; try done.
  - exists s, w. split_and!; [exact Hs|exact Hwork|exact E|exact Hb|exact Hauthor|].
    simpl. rewrite Hraw. exact Hkey.
  - rewrite Hparent. unfold previous_key. destruct (Z.eqb_spec v 1); [done|].
    rewrite published_revision, decide_False; [done|]. intros [= ?]. lia.
  - intros Hd. simpl. rewrite Hm, (Hdeleted Hd). done.
  - intros Hd. destruct (Hpayload Hd) as (datas & H2 & Hrest). exists datas. split; [|done].
    exists parts. simpl. by rewrite Hm.
Qed.

Lemma published_revision_some k' v' :
  is_Some (revision_of p k' v') ∨ (k', v') = (k, v) ↔ is_Some (revision_of published k' v').
Proof.
  rewrite published_revision. case_decide as E; [split; [by eexists|by right]|].
  split; [by intros [?|?]|by left].
Qed.

Lemma published_wf_head i' o' : (i', o') ∈ objects published →
  bindable (object_key o') ∧ 0 <= head_ o' <= INT64_MAX ∧
  (∀ v', is_Some (revision_of published (object_key o') v') ↔ 1 <= v' <= head_ o') ∧
  (∀ row', revision_of published (object_key o') (head_ o') = Some row' →
     revision_path row' = object_path o' ∧ revision_deleted row' = object_deleted o').
Proof.
  intros [[-> ->]|[Hin Hne]]%published_objects.
  - destruct published_in as [Hin Hk].
    destruct (wf_head _ _ Hw _ _ Hin) as (Hb & Hr & Hv & _). rewrite Hk in *.
    simpl. split_and!; [done|lia|done| |].
    + intros v'. rewrite <-published_revision_some, Hv. split.
      * intros [?|[= ->]]; lia.
      * intros ?. destruct (decide (v' = v)) as [->|]; [by right|left; lia].
    + intros row'. rewrite published_revision, decide_True by done. by intros [= <-].
  - pose proof (published_other _ _ Hin Hne) as Hk.
    destruct (wf_head _ _ Hw _ _ Hin) as (Hb & Hr & Hv & Hrow). split_and!; [done|lia|lia| |].
    + intros v'. rewrite published_revision, decide_False by congruence. apply Hv.
    + intros row'. rewrite published_revision, decide_False by congruence. apply Hrow.
Qed.

Lemma published_wf_live i1 o1 i2 o2 :
  (i1, o1) ∈ objects published → (i2, o2) ∈ objects published →
  object_deleted o1 = false → object_deleted o2 = false → object_path o1 = object_path o2 →
  i1 = i2.
Proof.
  intros [[-> ->]|[H1 N1]]%published_objects [[-> ->]|[H2 N2]]%published_objects D1 D2 E.
  - done.
  - destruct (published_other _ _ H2 N2).
    eapply (path_free p k (revision_path row)); [by apply Hpath|done..].
  - destruct (published_other _ _ H1 N1).
    eapply (path_free p k (revision_path row)); [by apply Hpath|done..].
  - by eapply wf_live.
Qed.

Lemma published_journal_in n' k' v' s' : (n', (k', v', s')) ∈ j ↔
  (n' = n ∧ k' = k ∧ v' = v ∧ s' = revision_session row) ∨ (n', (k', v', s')) ∈ object_journal p.
Proof.
  rewrite (row_insert_in _ _ _ _ _ Hj).
  split; (intros [E|E]; [left|by right]); [by simplify_eq|by destruct E as (-> & -> & -> & ->)].
Qed.

Lemma published_no_journal n' s' : (n', (k, v, s')) ∈ object_journal p → False.
Proof.
  intros (row' & E & _)%(wf_journal_row _ _ Hw). by rewrite published_fresh in E.
Qed.

Lemma published_wf_index i' x : (i', x) ∈ current_index published →
  ∃ o' row', (i', o') ∈ objects published ∧
    revision_of published (object_key o') (head_ o') = Some row' ∧ x = index_entry i' o' row'.
Proof.
  simpl. intros Hx.
  assert ((i', x) = (i, index_entry i next_row row) ∨ ((i', x) ∈ current_index p ∧ i' ≠ i))
    as [[= -> ->]|[Hin Hne]].
  { destruct (decide (i' = i)) as [->|]; [left|right].
    - apply (row_lookup_in _ _ _) in Hx; [|apply row_replace_ordered, (wf_index _ _ Hw)].
      rewrite row_replace_lookup, Z.eqb_refl in Hx by apply (wf_index _ _ Hw). congruence.
    - apply row_replace_in in Hx as [[= ? ?]|?]; done. }
  - exists next_row, row. split_and!; [|by rewrite published_revision, decide_True|done].
    apply published_objects. by left.
  - destruct (wf_index_row _ _ Hw _ _ Hin) as (o' & row' & H1 & H2 & ->).
    exists o', row'. split_and!; [|rewrite published_revision, decide_False; [done|]|done].
    + apply published_objects. by right.
    + intros [= E _]. by apply (published_other _ _ H1 Hne).
Qed.

Lemma published_wf_index_all i' o' : (i', o') ∈ objects published → 1 <= head_ o' →
  ∃ x, (i', x) ∈ current_index published.
Proof.
  intros Hin Hh. simpl.
  assert (row_lookup i' (row_replace i (index_entry i next_row row) (current_index p)) =
    if i' =? i then Some (index_entry i next_row row) else row_lookup i' (current_index p)) as E
    by apply row_replace_lookup, (wf_index _ _ Hw).
  apply published_objects in Hin as [[-> ->]|[Hin Hne]].
  - rewrite Z.eqb_refl in E. eexists. by apply row_lookup_Some_in.
  - destruct (wf_index_all _ _ Hw _ _ Hin Hh) as [x Hx].
    rewrite (proj2 (Z.eqb_neq _ _) Hne), (row_lookup_in _ _ _ (wf_index _ _ Hw) Hx) in E.
    exists x. by apply row_lookup_Some_in.
Qed.

Lemma published_wf_revision k' i' o' v' row' :
  find_object published k' = Some (i', o') → revision_of published k' v' = Some row' →
  revision_valid (H:=H) cont published k' i' v' row'.
Proof.
  rewrite published_find, published_revision. intros Ho' Hr.
  destruct (decide ((k', v') = (k, v))) as [[= E1 E2]|Hne].
  - rewrite decide_True in Ho' by done. injection Ho' as E3 _. injection Hr as E4.
    subst k' v' i' row'. apply published_valid.
  - assert (∃ o0, find_object p k' = Some (i', o0)) as [o0 Ho0].
    { case_decide as E; [|by eexists]. subst k'. simplify_eq. by eexists. }
    eapply (wf_revision_extends cont p); [done|apply published_extends|done..].
Qed.

Theorem published_wf : wf (H:=H) cont published.
Proof.
  destruct (Hw). split; try done.
  - by apply row_replace_ordered.
  - intros i' o' [[-> ->]|[Hin _]]%published_objects; [|by eapply wf_object_bound].
    destruct published_in as [Hin _]. by apply (wf_object_bound _ _ Hin).
  - simpl. lia.
  - intros i' o' [[-> ->]|[Hin Hne]]%published_objects; rewrite published_find.
    + by rewrite decide_True.
    + rewrite decide_False by by eapply published_other. by apply wf_object_unique.
  - intros i1 o1 i2 o2. apply published_wf_live.
  - intros i' o'. apply published_wf_head.
  - intros k' t'. rewrite published_find. simpl. destruct (decide (k' = k)) as [->|Hne].
    + rewrite lookup_insert_eq. intros [= <-]. split; [|done].
      eapply row_insert_ordered; [|exact Ht]. destruct (revisions p !! k) eqn:E; [|by constructor].
      by apply (wf_revision_key k).
    + rewrite lookup_insert_ne by done. apply wf_revision_key.
  - intros k' i' o' v' row'. apply published_wf_revision.
  - intros k' v' Hr. apply published_revision_some.
    destruct (decide ((k', v') = (k, v))) as [|Hne]; [by right|left].
    apply wf_raw. simpl in Hr. by rewrite Hraws in Hr.
  - intros k' v' Hr. apply published_revision_some.
    destruct (decide ((k', v') = (k, v))) as [|Hne]; [by right|left].
    apply wf_parts. simpl in Hr. by rewrite Hms in Hr.
  - by eapply row_insert_ordered.
  - eapply row_insert_bound; [exact Hj|done|done|lia].
  - intros n' k' v' s'. rewrite published_revision. simpl. rewrite published_journal_in.
    intros [(E1 & E2 & E3 & E4)|Hin].
    + subst k' v' s'. rewrite decide_True by done. by exists row.
    + rewrite decide_False; [by eapply wf_journal_row|].
      intros [= E1 E2]. subst k' v'. by eapply published_no_journal.
  - intros n1 n2 k' v' s1 s2. simpl. rewrite !published_journal_in.
    intros [(E1 & E2 & E3 & _)|H1] [(E4 & E5 & E6 & _)|H2]; [congruence|..].
    + subst k' v'. by destruct (published_no_journal _ _ H2).
    + subst k' v'. by destruct (published_no_journal _ _ H1).
    + by eapply wf_journal_unique.
  - intros k' v' row'. rewrite published_revision. case_decide as E.
    + injection E as E1 E2. intros [= E3]. subst k' v' row'. exists n.
      apply published_journal_in. by left.
    + intros Hr. destruct (wf_journal_all _ _ _ Hr) as [n' Hn']. exists n'.
      apply published_journal_in. by right.
  - by apply row_replace_ordered.
  - intros i' x. apply published_wf_index.
  - intros i' o'. apply published_wf_index_all.
Qed.
End published.

(** ** The operation *)
Section publish.
Context {H : Type} {hashing : StreamHash H}.
Implicit Types (st : Store).

Abbreviation wf := (wf (H:=H)).

Lemma i64_id z : 0 <= z <= INT64_MAX → i64 z = z.
Proof. intros Hz. unfold i64. destruct (Z.leb_spec z INT64_MAX); [done|lia]. Qed.

Lemma u64_id z : 0 <= z <= INT64_MAX → u64 z = z.
Proof. intros Hz. apply u64_small. unfold INT64_MAX, UINT64_MAX in *. lia. Qed.

(** A part with its size as SQLite stores it. *)
Definition stored_part (part : Chunk) : Chunk :=
  {| hash := hash part; chunk_size := i64 (chunk_size part) |}.

Lemma stored_parts_id (p : Package) parts datas :
  Forall2 (part_data p) parts datas → well_chunked datas → stored_part <$> parts = parts.
Proof.
  induction 1 as [|part data parts datas [_ Hsize] H2 IH]; [done|]. intros Hc.
  rewrite fmap_cons. assert (0 <= len data <= chunkBytes ∧ well_chunked datas) as [Hlen Hc'].
  { destruct datas; simpl in Hc; [split; [lia|done]|]. destruct Hc as [-> Hc]. by split. }
  rewrite IH by done. f_equal. unfold stored_part. rewrite i64_id.
  - by destruct part.
  - rewrite Hsize. unfold chunkBytes, INT64_MAX in *. lia.
Qed.

Lemma chunk_rows_above n parts r : r ∈ chunk_rows n parts → n <= r.1.
Proof.
  revert n. induction parts as [|part parts IH]; intros n; simpl; [by intros ?%not_elem_of_nil|].
  intros [->|Hin]%elem_of_cons; [simpl; lia|]. apply IH in Hin. lia.
Qed.

Lemma insert_parts_ok k v n parts st st' :
  insert_parts k v n parts st = Ok st' →
  Forall (λ r, r.1 < n) (default [] (revision_chunks (db st) !! (k, v))) →
  ∃ m, st' = set_db (set_revision_chunks m) st ∧
    (∀ kv, kv ≠ (k, v) → m !! kv = revision_chunks (db st) !! kv) ∧
    default [] (m !! (k, v)) =
      default [] (revision_chunks (db st) !! (k, v)) ++ chunk_rows n (stored_part <$> parts).
Proof.
  revert n st. induction parts as [|part parts IH]; intros n st E Hb; simpl in E.
  - inv_ok. exists (revision_chunks (db st)). simpl. rewrite app_nil_r.
    split_and!; [by destruct st as [[] ? ? ?]|done|done].
  - inv_ok. unfold insert_revision_chunk in *. inv_ok.
    match goal with E : row_insert _ _ _ = Some _ |- _ => rename E into Hi end.
    rewrite row_insert_last in Hi by done. injection Hi as Hi.
    apply IH in E as (m & -> & Hother & Hm).
    + exists m. simpl in *. split_and!; [done| |].
      * intros kv Hne. rewrite Hother by done. by rewrite lookup_insert_ne.
      * rewrite Hm, lookup_insert_eq. simpl. rewrite <-Hi, <-app_assoc. done.
    + simpl. rewrite lookup_insert_eq. simpl. rewrite <-Hi. apply Forall_app. split.
      * eapply Forall_impl; [done|]. simpl. lia.
      * constructor; [simpl; lia|done].
Qed.

(** The RAW document a publication carries. *)
Definition carried (st : Store) (r : ObjectRecord) (raw : option bytes) : bytes :=
  match raw with
  | Some d => d
  | None => if 1 <? version r then default [] (raw_revisions (db st) !! (key r, version r - 1))
            else []
  end.

(** What is asked of the record handed to [publish]. *)
Record publishable (st : Store) (r : ObjectRecord) (s : ObjectSession) (parts : list Chunk)
    (i : Z) (o : ObjectRow) : Prop := {
  pub_wf : wf (container st) (db st);
  pub_schema : 4 <= schema st;
  pub_object : find_object (db st) (key r) = Some (i, o);
  pub_index : indexKey r = i;
  pub_version : version r = head_ o + 1;
  pub_max : version r <= INT64_MAX;
  pub_session : sessions (db st) !! session_key s = Some s;
  pub_size : 0 <= size r <= INT64_MAX;
  pub_parent : parentValidationKey r = previous_key (db st) (key r) (version r);
  pub_deleted : deleted r = true → parts = [];
  pub_payload : deleted r = false → ∃ datas, Forall2 (part_data (db st)) parts datas ∧
    well_chunked datas ∧ len (concat datas) = size r ∧ hash_run (H:=H) datas = Ok (sha256 r)
}.

(** What it achieves. *)
Record publication (st : Store) (r : ObjectRecord) (s : ObjectSession) (parts : list Chunk)
    (i : Z) (document : bytes) (time : Z) (r' : ObjectRecord) (st' : Store) : Prop := {
  res_wf : wf (container st') (db st');
  res_grows : grows st st';
  res_record : join_row (db st') (key r) (version r) = Some r';
  res_fields : key r' = key r ∧ indexKey r' = i ∧ version r' = version r ∧ path r' = path r ∧
    sha256 r' = sha256 r ∧ size r' = size r ∧ deleted r' = deleted r ∧
    operation r' = operation r ∧ author r' = session_author s ∧ sessionKey r' = session_key s ∧
    recordedAtNs r' = time ∧ parentValidationKey r' = parentValidationKey r ∧
    authorship r' = authorship r ∧ sourceStamp r' = sourceStamp r;
  res_object : find_object (db st') (key r) =
    Some (i, {| object_key := key r; head_ := version r; object_path := path r;
                object_deleted := deleted r |});
  res_others k : k ≠ key r → find_object (db st') k = find_object (db st) k;
  res_raw : default [] (raw_revisions (db st') !! (key r, version r)) = document;
  res_parts : default [] (revision_chunks (db st') !! (key r, version r)) = chunk_rows 0 parts;
  res_data : chunk_data (db st') = chunk_data (db st) ∧ sessions (db st') = sessions (db st)
}.

Lemma carried_ok st r raw d : 4 <= schema st → 1 <= version r <= INT64_MAX →
  match raw with
  | Some d => Ok d
  | None => if 1 <? version r then rawDocument st (key r) (version r - 1) else Ok []
  end = Ok d → d = carried st r raw.
Proof.
  intros Hs Hv. unfold carried, rawDocument. destruct raw; [congruence|].
  destruct (Z.ltb_spec (schema st) 4); [lia|]. destruct (Z.ltb_spec 1 (version r)); [|congruence].
  intros E. inv_ok. by rewrite i64_id by lia.
Qed.

Lemma context_ok st k c : 4 <= schema st → context_of st k = Ok c →
  ∃ w, find_work (db st) k = Some w ∧ c = w.2.2.
Proof.
  intros Hs. unfold context_of. destruct (Z.ltb_spec (schema st) 4); [lia|]. intros E. inv_ok.
  apply fmap_Some in E as (w & Hw & ->). by exists w.
Qed.

Lemma insert_revision_ok k v row st st' : insert_revision k v row st = Ok st' →
  ∃ t j n, row_insert v row (default [] (revisions (db st) !! k)) = Some t ∧
    journal_counter (db st) + 1 = n ∧
    row_insert n (k, v, revision_session row) (object_journal (db st)) = Some j ∧
    st' = set_db (λ p, set_object_journal j n (set_revisions (<[k := t]> (revisions p)) p)) st.
Proof.
  intros E. unfold insert_revision in E. inv_ok.
  match goal with E : next_sequence _ = Ok _ |- _ => apply next_sequence_ok in E as [_ ->] end.
  eauto 10.
Qed.

Lemma insert_raw_ok k v d st st' :
  (if bool_decide (d = []) then Ok st else insert_raw_revision k v d st) = Ok st' →
  raw_revisions (db st) !! (k, v) = None →
  ∃ raws, default [] (raws !! (k, v)) = d ∧
    (∀ kv, kv ≠ (k, v) → raws !! kv = raw_revisions (db st) !! kv) ∧
    st' = set_db (set_raw_revisions raws) st.
Proof.
  case_bool_decide as Hd.
  - intros [= <-] Hn. exists (raw_revisions (db st)). rewrite Hn. split_and!; [done..|].
    by destruct st as [[] ? ? ?].
  - intros E Hn. unfold insert_raw_revision in E. inv_ok.
    eexists. split_and!; [by rewrite lookup_insert_eq| |done].
    intros kv Hne. by rewrite lookup_insert_ne.
Qed.

Lemma update_object_ok k v path del i o row st st' :
  update_object k v path del st = Ok st' → find_object (db st) k = Some (i, o) →
  0 < v → revision_of (db st) k v = Some row →
  (del = false → path_taken (db st) k path = false) ∧
  st' = set_db (λ p, let o' := {| object_key := k; head_ := v; object_path := path;
                                  object_deleted := del |} in
    set_current_index (row_replace i (index_entry i o' row) (current_index p))
      (set_objects (row_replace i o' (objects p)) (object_sequence p) p)) st.
Proof.
  intros E Ho Hv Hr. unfold update_object in E. inv_ok. rewrite Ho in E. inv_ok. split.
  - intros ->. match goal with E : (_ || _) = true |- _ => simpl in E; by apply negb_true_iff in E end.
  - destruct st as [p c sc ro]. unfold set_db. simpl in *. f_equal.
    destruct (Z.ltb_spec 0 v); [|lia].
    replace (revision_of _ _ _) with (Some row) by (symmetry; exact Hr). done.
Qed.

(** The statements of [publish] together write [published]. *)
Lemma publish_inv st r s parts raw time r' st' i o :
  find_object (db st) (key r) = Some (i, o) → 4 <= schema st → 1 <= version r <= INT64_MAX →
  revision_chunks (db st) !! (key r, version r) = None →
  raw_revisions (db st) !! (key r, version r) = None →
  publish (H:=H) r s parts raw time st = Ok (r', st') →
  ∃ w vk t n j raws m, find_work (db st) (session_key s) = Some w ∧
    validationKey_of (H:=H) (stamped r s time) s (container st) w.2.2 (carried st r raw) = Ok vk ∧
    r' = with_key (stamped r s time) vk ∧
    row_insert (version r) (revision_row r') (default [] (revisions (db st) !! key r)) = Some t ∧
    journal_counter (db st) + 1 = n ∧
    row_insert n (key r, version r, session_key s) (object_journal (db st)) = Some j ∧
    default [] (raws !! (key r, version r)) = carried st r raw ∧
    (∀ kv, kv ≠ (key r, version r) → raws !! kv = raw_revisions (db st) !! kv) ∧
    default [] (m !! (key r, version r)) = chunk_rows 0 (stored_part <$> parts) ∧
    (∀ kv, kv ≠ (key r, version r) → m !! kv = revision_chunks (db st) !! kv) ∧
    (deleted r = false → path_taken (db st) (key r) (path r) = false) ∧
    st' = set_db (λ p, published p (key r) i (version r) (revision_row r') t n j raws m) st.
Proof.
  intros Ho Hschema Hv Hc0 Hr0 E. unfold publish in E. inv_ok.
  match goal with E : _ = Ok ?a |- _ => apply carried_ok in E; [subst a|done..] end.
  match goal with E : context_of _ _ = Ok _ |- _ => apply context_ok in E as (w & Hw & ->); [|done] end.
  match goal with E : validationKey_of _ _ _ _ _ = Ok ?a |- _ => rename E into Hvk, a into vk end.
  set (r1 := with_key (stamped r s time) vk) in *. injection E as <- <-.
  change (key r1) with (key r) in *. change (version r1) with (version r) in *.
  change (path r1) with (path r) in *. change (deleted r1) with (deleted r) in *.
  rewrite !(i64_id (version r)) in * by lia.
  match goal with E : insert_revision _ _ _ _ = Ok _ |- _ =>
    apply insert_revision_ok in E as (t & j & n & Ht & Hn & Hj & ->) end.
  match goal with E : (if _ then _ else _) = Ok _ |- _ =>
    apply insert_raw_ok in E as (raws & Hraw & Hraws & ->); [|exact Hr0] end.
  match goal with E : insert_parts _ _ _ _ _ = Ok _ |- _ =>
    apply insert_parts_ok in E as (m & -> & Hms & Hm); [|simpl; by rewrite Hc0] end.
  simpl in *. rewrite Hc0 in Hm.
  match goal with E : update_object _ _ _ _ _ = Ok _ |- _ =>
    apply (update_object_ok _ _ _ _ i o (revision_row r1)) in E as (Hpath & ->);
    [|exact Ho|lia|] end.
  - exists w, vk, t, n, j, raws, m. split_and!; done.
  - unfold revision_of. simpl. rewrite lookup_insert_eq. simpl.
    by rewrite (row_insert_lookup _ _ _ _ Ht), Z.eqb_refl.
Qed.

Lemma record_revision_row r s time vk i :
  indexKey r = i → 1 <= version r <= INT64_MAX → 0 <= size r <= INT64_MAX →
  record (key r) i (version r) (revision_row (with_key (stamped r s time) vk)) s =
    with_key (stamped r s time) vk.
Proof.
  intros Hi Hv Hz. unfold record, with_key, stamped. simpl.
  rewrite (i64_id (size r)), !u64_id by lia. rewrite Hi.
  destruct (session_author s) as [? ? ? [? ?]], (authorship r). done.
Qed.

Lemma publish_step st r s parts raw time i o r' st' :
  publishable st r s parts i o → publish (H:=H) r s parts raw time st = Ok (r', st') →
  publication st r s parts i (carried st r raw) time r' st'.
Proof.
  intros [Hw Hschema Ho Hi Hv Hmax Hs Hsize Hparent Hdel Hpay] E.
  destruct (find_object_in _ _ _ _ Ho) as [Hin Hk].
  destruct (wf_head _ _ Hw _ _ Hin) as (_ & Hhead & _).
  pose proof (fresh_revision _ _ _ _ _ _ Hw Ho Hv) as Hfresh.
  assert (1 <= version r <= INT64_MAX) as Hv' by lia.
  eapply publish_inv in E as (w & vk & t & n & j & raws & m & Hwork & Hvk & -> & Ht & Hn & Hj &
    Hraw & Hraws & Hm & Hms & Hpath & ->); [|exact Ho|done|done|..].
  2: { destruct (revision_chunks (db st) !! (key r, version r)) eqn:E'; [|done].
       destruct (wf_parts _ _ Hw (key r) (version r) ltac:(by rewrite E')). congruence. }
  2: { destruct (raw_revisions (db st) !! (key r, version r)) eqn:E'; [|done].
       destruct (wf_raw _ _ Hw (key r) (version r) ltac:(by rewrite E')). congruence. }
  pose proof (record_revision_row r s time vk i Hi Hv' Hsize) as Hrec.
  assert (stored_part <$> parts = parts) as Hstored.
  { destruct (deleted r) eqn:Hd; [by rewrite (Hdel eq_refl)|].
    destruct (Hpay eq_refl) as (datas & H2 & Hc & _). by eapply stored_parts_id. }
  rewrite Hstored in Hm.
  set (r' := with_key (stamped r s time) vk) in *. set (row := revision_row r') in *.
  assert (revision_size row = size r) as Hsz by (simpl; by rewrite i64_id).
  assert (wf (container st) (published (db st) (key r) i (version r) row t n j raws m)) as Hw'.
  { eapply (published_wf (container st) (db st) (key r) i (version r) o row (carried st r raw) parts
      t n j raws m Hw Ho Hv Hmax Ht Hn Hj Hraw Hraws Hm Hms Hpath s w); rewrite ?Hsz, ?Hrec;
      [exact Hs|exact Hwork|done|exact Hvk|done|done|exact Hparent|exact Hdel|exact Hpay]. }
  split; [exact Hw'| | |by split_and!| | | | |done].
  - split_and!; [done..|].
    exact (published_extends (container st) _ _ _ _ _ _ _ _ _ _ _ Hw Ho Hv Ht Hn Hj Hraws Hms).
  - unfold join_row. simpl. rewrite (published_find (container st) _ _ _ _ o) by done.
    rewrite decide_True by done. simpl. rewrite published_revision by done.
    rewrite decide_True by done. simpl. rewrite Hs. simpl. by rewrite Hrec.
  - simpl. rewrite (published_find (container st) _ _ _ _ o) by done. by rewrite decide_True.
  - intros k Hne. simpl. rewrite (published_find (container st) _ _ _ _ o) by done.
    by rewrite decide_False.
  - done.
  - done.
Qed.
End publish.
