(* ===== verification/ObjectReach.v ===== *)
(** The public operations keep the package consistent and only add to it;
    reachable stores. *)
From S2P Require Import Prelude Json MetadataCodec Sha256 Table ObjectData ObjectPackage.
From S2P Require Import ObjectStore ObjectInvariant ObjectSteps ObjectPublish.
Local Open Scope Z_scope.

(** ** Transactions *)

Lemma transaction_ok {A} e (body : Store → result string (A * Store)) st a st' :
  transaction e body st = (Ok a, st') → body st = Ok (a, st').
Proof.
  unfold transaction. destruct (body st) as [[b st1]|]; [|done].
  destruct (commit_error e); [done|]. by intros [= -> ->].
Qed.

Lemma transaction_err {A} e (body : Store → result string (A * Store)) st m st' :
  transaction e body st = (Err m, st') → st' = st.
Proof.
  unfold transaction. destruct (body st) as [[b st1]|]; [|congruence].
  destruct (commit_error e); congruence.
Qed.

(** The checks before the transaction passed. *)
Ltac ready E :=
  match type of E with (match ?m with _ => _ end) = _ =>
    let Hready := fresh "Hready" in destruct m as [?|?] eqn:Hready; [|done] end;
  try match type of E with (let (_, _) := ?x in _) = _ => destruct x as [document captured] end;
  apply transaction_ok in E.

Section reach.
Context {H : Type} {hashing : StreamHash H} {sqlite : SqliteJson}.
Implicit Types (st : Store).

Abbreviation wf := (wf (H:=H)).

(** ** Reading consistent packages *)

Lemma join_row_inv p k v r : join_row p k v = Some r →
  ∃ i o row s, find_object p k = Some (i, o) ∧ revision_of p k v = Some row ∧
    sessions p !! revision_session row = Some s ∧ r = record k i v row s.
Proof.
  unfold join_row. intros E.
  destruct (find_object p k) as [[i o]|]; [|done]. simpl in E.
  destruct (revision_of p k v) as [row|] eqn:Er; [|done]. simpl in E.
  destruct (sessions p !! revision_session row) as [s|] eqn:Es; [|done]. simpl in E.
  injection E as <-. eauto 10.
Qed.

Lemma join_row_ok cont p k i o v row :
  wf cont p → find_object p k = Some (i, o) → revision_of p k v = Some row →
  ∃ s, sessions p !! revision_session row = Some s ∧ join_row p k v = Some (record k i v row s).
Proof.
  intros Hw Ho Hr. destruct (rv_session _ _ _ _ _ _ (wf_revision _ _ Hw _ _ _ _ _ Ho Hr))
    as (s & _ & Hs & _). exists s. split; [done|]. unfold join_row. rewrite Ho. simpl.
  rewrite Hr. simpl. by rewrite Hs.
Qed.

(** A recorded revision is read the same from every later package. *)
Lemma join_row_extends p p' k v r :
  extends p p' → join_row p k v = Some r → join_row p' k v = Some r.
Proof.
  intros He (i & o & row & s & Ho & Hr & Hs & ->)%join_row_inv.
  destruct (ext_objects _ _ He _ _ _ Ho) as (o' & Ho' & _).
  destruct (ext_revisions _ _ He _ _ _ Hr) as (Hr' & _).
  destruct (ext_sessions _ _ He _ _ Hs) as (s' & Hs' & Hsame).
  unfold join_row. rewrite Ho'. simpl. rewrite Hr'. simpl. rewrite Hs'. simpl.
  by rewrite (record_same _ _ _ _ s s').
Qed.

Lemma version_range cont p k i o v row :
  wf cont p → find_object p k = Some (i, o) → revision_of p k v = Some row →
  1 <= v <= head_ o ∧ head_ o <= INT64_MAX ∧ bindable k.
Proof.
  intros Hw Ho Hr. apply find_object_in in Ho as [Hin <-].
  destruct (wf_head _ _ Hw _ _ Hin) as (Hb & Hmax & Hv & _).
  split_and!; try done; try (by apply Hv; rewrite Hr); lia.
Qed.

Lemma contiguous_rows n p parts datas :
  Forall2 (part_data p) parts datas → well_chunked datas →
  contiguous n (chunk_rows n parts) = Ok parts.
Proof.
  intros H2. revert n. induction H2 as [|part data parts datas [_ Hsize] H2 IH]; intros n Hc; [done|].
  simpl. rewrite Z.eqb_refl. simpl.
  assert (0 <= len data <= chunkBytes ∧ well_chunked datas) as [Hlen Hc'].
  { destruct datas; simpl in Hc; [split; [lia|done]|]. destruct Hc as [-> Hc]. by split. }
  rewrite IH by done. simpl. rewrite u64_id.
  - by destruct part.
  - rewrite Hsize. unfold chunkBytes, INT64_MAX in *. lia.
Qed.

(** The chunk list and the bytes of a revision that is not a tombstone. *)
Lemma revision_parts cont p k i o v row :
  wf cont p → find_object p k = Some (i, o) → revision_of p k v = Some row →
  revision_deleted row = false → ∃ parts datas,
    contiguous 0 (default [] (revision_chunks p !! (k, v))) = Ok parts ∧
    Forall2 (part_data p) parts datas ∧ well_chunked datas ∧
    len (concat datas) = revision_size row ∧ hash_run (H:=H) datas = Ok (revision_sha256 row).
Proof.
  intros Hw Ho Hr Hd.
  destruct (rv_payload _ _ _ _ _ _ (wf_revision _ _ Hw _ _ _ _ _ Ho Hr) Hd)
    as (datas & (parts & Hrows & H2) & Hc & Hrest).
  exists parts, datas. rewrite Hrows. split; [by eapply contiguous_rows|done].
Qed.

Lemma chunks_inv st k v parts : chunks st k v = Ok parts →
  contiguous 0 (default [] (revision_chunks (db st) !! (k, i64 v))) = Ok parts.
Proof. unfold chunks. intros E. by inv_ok. Qed.

Lemma getSession_ok st k active s : getSession st k active = Ok s →
  sessions (db st) !! k = Some s ∧ bindable k ∧ (active = true → endedAtNs s = 0).
Proof.
  unfold getSession. intros E. inv_ok.
  match goal with E : bind _ = Ok _ |- _ => apply bind_text_ok in E end.
  split_and!; [done..|]. intros ->.
  match goal with E : (_ && _) = false |- _ =>
    simpl in E; by apply negb_false_iff, Z.eqb_eq in E end.
Qed.

(** [require] names the head of a live object. *)
Lemma require_ok st k expected r :
  wf (container st) (db st) → require (H:=H) st k expected = Ok r →
  ∃ i o row s, find_object (db st) k = Some (i, o) ∧ head_ o = expected ∧
    revision_of (db st) k expected = Some row ∧ sessions (db st) !! revision_session row = Some s ∧
    r = record k i expected row s ∧ 1 <= expected < INT64_MAX ∧ revision_deleted row = false.
Proof.
  intros Hw E. unfold require, get in E. inv_ok.
  match goal with E : bind k = Ok _ |- _ => clear E end.
  destruct (find_object (db st) k) as [[i o]|] eqn:Ho; [|done].
  match goal with E : _ ≫= _ = Some a0 |- _ => simpl in E; rename E into Ej end.
  apply join_row_inv in Ej as (i' & o' & row & s & Ho' & Hr & Hs & ->).
  rewrite Ho in Ho'. injection Ho' as <- <-.
  destruct (version_range _ _ _ _ _ _ _ Hw Ho Hr) as (Hv & Hmax & _).
  match goal with E : negb _ = false |- _ => apply negb_false_iff, Z.eqb_eq in E; rename E into Ev end.
  match goal with E : (INT64_MAX <=? _) = false |- _ => apply Z.leb_gt in E; rename E into Em end.
  simpl in Ev. rewrite u64_id in Ev by lia. subst expected.
  exists i, o, row, s. split_and!; done || lia.
Qed.

Lemma previous_key_next p k v row : 1 <= v → revision_of p k v = Some row →
  previous_key p k (v + 1) = validation_key row.
Proof.
  intros Hv Hr. unfold previous_key. destruct (Z.eqb_spec (v + 1) 1); [lia|].
  replace (v + 1 - 1) with v by lia. by rewrite Hr.
Qed.

(** ** Sources *)

Definition source_bytes (input : SourceFile + PreparedSource) : bytes :=
  match input with inl file => content file | inr prepared => prepared_bytes prepared end.

(** What reads a payload within the format's size. *)
Definition representable (input : SourceFile + PreparedSource) : Prop :=
  match input with inl _ => True | inr prepared => len (prepared_bytes prepared) <= INT64_MAX end.

Lemma ingest_step st input r stop parts r' st' :
  wf (container st) (db st) → representable input →
  ingest (H:=H) input r stop st = Ok (parts, r', st') →
  ∃ h datas, ingested st hash_init (source_bytes input) st' h parts datas ∧
    r' = with_content r (hash_finish h) (len (source_bytes input)) ∧
    0 <= len (source_bytes input) <= INT64_MAX.
Proof.
  intros Hw Hrep E. destruct input as [file|prepared]; simpl in *.
  - unfold ingest_file in E. inv_ok. simplify_eq.
    match goal with E : read_loop _ _ _ _ _ _ _ _ _ = _ |- _ =>
      apply read_loop_step in E as (new & datas & -> & -> & Hing); [|done] end.
    match goal with E : (0 + _ =? _) = true |- _ => apply Z.eqb_eq in E; rename E into Etot end.
    match goal with E : (INT64_MAX <? _) = false |- _ => apply Z.ltb_ge in E end.
    eexists _, datas. split_and!; [exact Hing|by rewrite Z.add_0_l|lia|lia].
  - unfold ingest_prepared in E. inv_ok. simplify_eq.
    match goal with E : prepared_loop _ _ _ _ _ _ _ = _ |- _ =>
      apply prepared_loop_step in E as (new & datas & -> & Hing); [|done] end.
    eexists _, datas. split_and!; [exact Hing|done|lia|lia].
Qed.

Lemma ingested_payload st h rest st' h' parts datas :
  h = hash_init → ingested st h rest st' h' parts datas →
  Forall2 (part_data (db st')) parts datas ∧ well_chunked datas ∧
  len (concat datas) = len rest ∧ hash_run (H:=H) datas = Ok (hash_finish h').
Proof.
  intros -> [_ _ _ Hps Hd Hc Hh]. split_and!; [done|done|by rewrite Hd|].
  unfold hash_run. by rewrite Hh.
Qed.

(** ** A revision of a live object *)

(** What an operation that replaces the head [old] of [k] by [new] achieves;
    [st1] is the store once the payload is read. *)
Record revised (st st1 : Store) (k : bytes) (expected : Z) (old new : ObjectRecord)
    (s : ObjectSession) (parts : list Chunk) (document : bytes) (st' : Store) : Prop := {
  rev_old : join_row (db st) k expected = Some old;
  rev_head : ∃ i o, find_object (db st) k = Some (i, o) ∧ head_ o = expected;
  rev_range : 1 <= expected < INT64_MAX;
  rev_live : deleted old = false ∧ version old = expected ∧ key old = k;
  rev_session : sessions (db st) !! session_key s = Some s ∧ endedAtNs s = 0;
  rev_new : key new = k ∧ version new = expected + 1 ∧
    parentValidationKey new = validationKey old;
  rev_grows : grows st st';
  rev_publication : ∃ r1 i time, grows st st1 ∧ objects (db st1) = objects (db st) ∧
    key r1 = k ∧ version r1 = expected + 1 ∧ publication st1 r1 s parts i document time new st'
}.

Lemma successor_publishable st st1 k i o row s0 s p op del doc stamp digest n parts :
  wf (container st1) (db st1) → 4 <= schema st1 →
  find_object (db st1) k = Some (i, o) → revision_of (db st1) k (head_ o) = Some row →
  1 <= head_ o < INT64_MAX → sessions (db st1) !! session_key s = Some s →
  0 <= n <= INT64_MAX → (del = true → parts = []) →
  (del = false → ∃ datas, Forall2 (part_data (db st1)) parts datas ∧ well_chunked datas ∧
    len (concat datas) = n ∧ hash_run (H:=H) datas = Ok digest) →
  publishable st1 (with_content (successor (record k i (head_ o) row s0) p op del doc stamp) digest n)
    s parts i o.
Proof.
  intros Hw Hs Ho Hr Hh Hsess Hn Hdel Hpay.
  assert (version (with_content (successor (record k i (head_ o) row s0) p op del doc stamp) digest n)
    = head_ o + 1) as Hv.
  { simpl. rewrite (u64_id (head_ o)), u64_id by lia. done. }
  split; try done.
  - rewrite Hv. lia.
  - rewrite Hv. simpl. symmetry. by apply previous_key_next; [lia|].
Qed.

Lemma carried_next st1 r raw k v p op del doc stamp digest n :
  key r = k → 1 <= v < INT64_MAX → version r = v →
  carried st1 (with_content (successor r p op del doc stamp) digest n) raw =
    match raw with Some d => d | None => default [] (raw_revisions (db st1) !! (k, v)) end.
Proof.
  intros Hk Hv Hr. unfold carried. destruct raw; [done|]. simpl.
  rewrite Hr, u64_id by lia. destruct (Z.ltb_spec 1 (v + 1)); [|lia].
  rewrite Hk. by replace (v + 1 - 1) with v by lia.
Qed.

Lemma revise_step st st1 k expected r sess s p op del doc stamp digest n parts raw time r' st' :
  wf (container st) (db st) → 4 <= schema st →
  require (H:=H) st k expected = Ok r → getSession st sess true = Ok s →
  wf (container st1) (db st1) → grows st st1 →
  objects (db st1) = objects (db st) ∧ sessions (db st1) = sessions (db st) →
  0 <= n <= INT64_MAX → (del = true → parts = []) →
  (del = false → ∃ datas, Forall2 (part_data (db st1)) parts datas ∧ well_chunked datas ∧
    len (concat datas) = n ∧ hash_run (H:=H) datas = Ok digest) →
  publish (H:=H) (with_content (successor r p op del doc stamp) digest n) s parts raw time st1
    = Ok (r', st') →
  revised st st1 k expected r r' s parts
    match raw with Some d => d | None => default [] (raw_revisions (db st) !! (k, expected)) end
    st' ∧
  (path r' = p ∧ sha256 r' = digest ∧ size r' = n ∧ deleted r' = del ∧ operation r' = lit op ∧
   authorship r' = doc ∧ sourceStamp r' = stamp ∧ author r' = session_author s).
Proof.
  intros Hw Hschema Hreq Hsess Hw1 Hg [Hobj Hses] Hn Hdel Hpay E.
  apply require_ok in Hreq as (i & o & row & s0 & Ho & Hhead & Hr & Hs0 & -> & Hrange & Hlive); [|done].
  apply getSession_ok in Hsess as (Hs & Hb & Hended). subst expected.
  destruct (wf_session _ _ Hw _ _ Hs) as (Hsk & _ & _).
  assert (find_object (db st1) k = Some (i, o)) as Ho1 by (unfold find_object; by rewrite Hobj).
  destruct Hg as (Hc & Hsc & Hro & He).
  destruct (ext_revisions _ _ He _ _ _ Hr) as (Hr1 & Hraw & _).
  eapply publish_step in E; [|eapply successor_publishable; try done; [congruence|]].
  2: { rewrite Hses. congruence. }
  rewrite (carried_next _ _ _ k (head_ o)), Hraw in E by (done || (simpl; by apply u64_id; lia)).
  destruct (join_row_ok _ _ _ _ _ _ _ Hw Ho Hr) as (s1 & Hs1 & Hjoin).
  pose proof (res_fields _ _ _ _ _ _ _ _ _ E) as Hf. simpl in Hf.
  rewrite (u64_id (head_ o)), u64_id in Hf by lia.
  destruct Hf as (F1 & F2 & F3 & F4 & F5 & F6 & F7 & F8 & F9 & F10 & F11 & F12 & F13 & F14).
  split; [|by split_and!]. split; try done.
  - rewrite Hjoin. congruence.
  - by exists i, o.
  - simpl. split_and!; [done|by apply u64_id; lia|done].
  - rewrite Hsk. split; [done|]. by apply Hended.
  - etrans; [|apply (res_grows _ _ _ _ _ _ _ _ _ E)]. by split_and!.
  - match type of E with publication _ ?r1 _ _ _ _ _ _ _ => exists r1, i, time end.
    split_and!; [done..| |exact E]. simpl. by rewrite (u64_id (head_ o)), u64_id by lia.
Qed.

(** The payload of the head, for the operations that keep it. *)
Lemma head_payload st k expected r parts :
  wf (container st) (db st) → require (H:=H) st k expected = Ok r →
  chunks st k (version r) = Ok parts → 0 <= size r <= INT64_MAX ∧
  ∃ datas, Forall2 (part_data (db st)) parts datas ∧ well_chunked datas ∧
    len (concat datas) = size r ∧ hash_run (H:=H) datas = Ok (sha256 r).
Proof.
  intros Hw Hreq Hc.
  apply require_ok in Hreq as (i & o & row & s0 & Ho & Hhead & Hr & Hs0 & -> & Hrange & Hlive); [|done].
  pose proof (rv_size _ _ _ _ _ _ (wf_revision _ _ Hw _ _ _ _ _ Ho Hr)) as Hsize.
  apply chunks_inv in Hc. simpl in *. rewrite u64_id in Hc by lia. rewrite i64_id in Hc by lia.
  rewrite (u64_id (revision_size row)) by done. split; [done|].
  destruct (revision_parts _ _ _ _ _ _ _ Hw Ho Hr Hlive) as (parts' & datas & Hc' & Hrest).
  exists datas. rewrite Hc' in Hc. by injection Hc as <-.
Qed.

Definition kept_document (st : Store) (k : bytes) (v : Z) : bytes :=
  default [] (raw_revisions (db st) !! (k, v)).

Lemma move_ok e k p expected session options st r st' :
  wf (container st) (db st) → 4 <= schema st →
  move (H:=H) e k p expected session options st = (Ok r, st') →
  ∃ old s parts, revised st st k expected old r s parts (kept_document st k expected) st' ∧
    chunks st k expected = Ok parts ∧
    path r = p ∧ sha256 r = sha256 old ∧ size r = size old ∧ deleted r = false ∧
    operation r = lit "move" ∧ authorship r = authorship old ∧ author r = session_author s.
Proof.
  intros Hw Hs E. unfold move in E. ready E. inv_ok.
  match goal with E : require _ _ _ = _ |- _ => rename E into Hreq end.
  match goal with E : chunks _ _ _ = _ |- _ => rename E into Hc end.
  destruct (head_payload _ _ _ _ _ Hw Hreq Hc) as [Hsize Hpay].
  destruct (require_ok _ _ _ _ Hw Hreq) as (i & o & row & s0 & _ & _ & _ & _ & Hrec & Hv & Hlive).
  assert (deleted a0 = false ∧ version a0 = expected) as [Hdel Hver].
  { subst a0. simpl. split; [done|apply u64_id; lia]. }
  rewrite Hver in Hc. rewrite Hdel in E.
  eapply (revise_step st st) in E as (Hrev & ? & ? & ? & ? & ? & ? & ? & ?);
    [|done|done|exact Hreq|done|done|done|done|exact Hsize|done|done].
  eexists _, _, _. split; [exact Hrev|]. by split_and!.
Qed.

Lemma erase_ok e k expected session st r st' :
  wf (container st) (db st) → 4 <= schema st →
  erase (H:=H) e k expected session st = (Ok r, st') →
  ∃ old s, revised st st k expected old r s [] (kept_document st k expected) st' ∧
    path r = path old ∧ deleted r = true ∧ operation r = lit "erase".
Proof.
  intros Hw Hs E. unfold erase in E. apply transaction_ok in E. inv_ok.
  match goal with E : require _ _ _ = _ |- _ => rename E into Hreq end.
  destruct (require_ok _ _ _ _ Hw Hreq) as (i & o & row & s0 & Ho & _ & Hr & _ & Hrec & Hv & Hlive).
  assert (0 <= size a <= INT64_MAX) as Hsize.
  { subst a. simpl. pose proof (rv_size _ _ _ _ _ _ (wf_revision _ _ Hw _ _ _ _ _ Ho Hr)).
    by rewrite u64_id. }
  eapply (revise_step st st) in E as (Hrev & ? & ? & ? & ? & ? & ? & ? & ?);
    [|done|done|exact Hreq|done|done|done|done|exact Hsize|done|done].
  eexists _, _. split; [exact Hrev|]. by split_and!.
Qed.

Lemma rawDocument_ok st k v d : rawDocument st k v = Ok d → 4 <= schema st → 0 <= v <= INT64_MAX →
  d = kept_document st k v.
Proof.
  unfold rawDocument. intros E Hs Hv. destruct (Z.ltb_spec (schema st) 4); [lia|]. inv_ok.
  by rewrite i64_id.
Qed.

Lemma reviseFile_ok e k source expected session options st r st' :
  wf (container st) (db st) → 4 <= schema st →
  reviseFile (H:=H) e k source expected session options st = (Ok r, st') →
  ∃ st1 old s parts datas, revised st st1 k expected old r s parts [] st' ∧
    kept_document st k expected = [] ∧ concat datas = content source ∧
    Forall2 (part_data (db st')) parts datas ∧ well_chunked datas ∧
    path r = path old ∧ size r = len (content source) ∧ deleted r = false ∧
    operation r = lit "revise" ∧ hash_run (H:=H) datas = Ok (sha256 r) ∧
    sourceStamp r = opt_sourceStamp options.
Proof.
  intros Hw Hs E. unfold reviseFile in E. ready E. inv_ok.
  match goal with E : require _ _ _ = _ |- _ => rename E into Hreq end.
  destruct (require_ok _ _ _ _ Hw Hreq) as (i & obj & row & s0 & _ & _ & Hr & _ & Hrec & Hv & Hlive).
  assert (deleted a0 = false ∧ version a0 = expected) as [Hdel Hver].
  { subst a0. simpl. split; [done|apply u64_id; lia]. }
  rewrite Hver, Hdel in *.
  match goal with E : ingest_file _ _ _ _ = _ |- _ =>
    apply (ingest_step _ (inl source)) in E as (h & datas & Hing & -> & Hlen); [|done..] end.
  destruct (ingested_payload _ _ _ _ _ _ _ eq_refl Hing) as (Hparts & Hc & Hl & Hh).
  eapply (revise_step st) in E as (Hrev & ? & ? & ? & ? & ? & ? & ? & ?);
    [|done|done|exact Hreq|done|apply (ing_wf _ _ _ _ _ _ _ Hing)|apply (ing_grows _ _ _ _ _ _ _ Hing)
     |apply (ing_objects _ _ _ _ _ _ _ Hing)|exact Hlen|done|by eauto].
  match goal with E : rawDocument _ _ _ = Ok _, E' : _ = [] |- _ =>
    apply rawDocument_ok in E; [rewrite E in E'|done|lia]; rename E' into Hnone end.
  destruct (ext_revisions _ _ (proj2 (proj2 (proj2 (ing_grows _ _ _ _ _ _ _ Hing)))) k expected row)
    as (_ & Hraw & _); [exact Hr|].
  unfold kept_document in *. rewrite Hnone in *.
  eexists s, _, _, l, datas.
  split_and!; [exact Hrev|done|apply (ing_data _ _ _ _ _ _ _ Hing)| |exact Hc|done..| |done].
  - eapply Forall2_impl; [exact Hparts|]. intros ??. apply part_data_extends.
    destruct (rev_publication _ _ _ _ _ _ _ _ _ _ Hrev) as (r1 & i1 & t1 & _ & _ & _ & _ & Hp).
    apply (res_grows _ _ _ _ _ _ _ _ _ Hp).
  - congruence.
Qed.

Lemma reviseMetadata_ok e json_parse k metadata expected session st r st' :
  wf (container st) (db st) → 4 <= schema st →
  reviseMetadata (H:=H) json_parse e k metadata expected session st = (Ok r, st') →
  ∃ raw document, kept_document st k expected ≠ [] ∧
    decodeRawMetadata json_parse (kept_document st k expected) = Ok raw ∧
    encodeRawMetadata {| originalName := originalName raw; mediaType := mediaType raw;
                         annotations := metadata |} = Ok document ∧
    ((document = kept_document st k expected ∧ st' = st ∧ version r = expected ∧ key r = k) ∨
     ∃ old s parts, revised st st k expected old r s parts document st' ∧
       path r = path old ∧ sha256 r = sha256 old ∧ size r = size old ∧ deleted r = false ∧
       operation r = lit "metadata" ∧ chunks st k expected = Ok parts).
Proof.
  intros Hw Hs E. unfold reviseMetadata in E. ready E. inv_ok.
  match goal with E : require _ _ _ = _ |- _ => rename E into Hreq end.
  match type of Hreq with _ = Ok ?r0 => rename r0 into old end.
  destruct (require_ok _ _ _ _ Hw Hreq) as (i & obj & row & s0 & _ & _ & _ & _ & Hrec & Hv & Hlive).
  assert (deleted old = false ∧ version old = expected ∧ key old = k) as (Hdel & Hver & Hk).
  { subst old. simpl. split_and!; [done|apply u64_id; lia|done]. }
  rewrite Hver in *.
  match goal with E : rawDocument _ _ _ = Ok _ |- _ =>
    apply rawDocument_ok in E; [subst|done|lia] end.
  eexists _, _. split_and!; [done|done|done|].
  case_bool_decide as Hsame.
  - inv_ok. simplify_eq. left. by split_and!.
  - right. inv_ok. match goal with E : chunks _ _ _ = _ |- _ => rename E into Hc end.
    assert (Hc' := Hc). rewrite <-Hver in Hc.
    destruct (head_payload _ _ _ _ _ Hw Hreq Hc) as [Hsize Hpay].
    rewrite Hdel in E. eapply (revise_step st st) in E as (Hrev & ? & ? & ? & ? & ? & ? & ? & ?);
      [|done|done|exact Hreq|done|done|done|done|exact Hsize|done|done].
    eexists _, _, _. split; [exact Hrev|]. by split_and!.
Qed.

(** ** New objects *)

(** What an import achieves: a new live object at version 1 with these bytes. *)
Record created (st st' : Store) (r : ObjectRecord) (s : ObjectSession) (datas : list bytes)
    (document : bytes) : Prop := {
  cre_wf : wf (container st') (db st');
  cre_grows : grows st st';
  cre_fresh : find_object (db st) (key r) = None;
  cre_object : find_object (db st') (key r) =
    Some (indexKey r, {| object_key := key r; head_ := 1; object_path := path r;
                         object_deleted := false |});
  cre_record : join_row (db st') (key r) 1 = Some r;
  cre_fields : version r = 1 ∧ deleted r = false ∧ parentValidationKey r = [] ∧
    author r = session_author s ∧ sessionKey r = session_key s ∧
    size r = len (concat datas) ∧ hash_run (H:=H) datas = Ok (sha256 r);
  cre_raw : kept_document st' (key r) 1 = document;
  cre_parts : ∃ parts, default [] (revision_chunks (db st') !! (key r, 1)) = chunk_rows 0 parts ∧
    Forall2 (part_data (db st')) parts datas ∧ well_chunked datas;
  cre_others k : k ≠ key r → find_object (db st') k = find_object (db st) k;
  cre_sessions : sessions (db st') = sessions (db st)
}.

(** Publishing the first version of a row inserted just before. *)
Lemma create_step st st1 st2 r s parts datas raw time r' st' i p k :
  wf (container st) (db st) → 4 <= schema st →
  sessions (db st) !! session_key s = Some s →
  insert_object k p st = Ok (i, st1) →
  wf (container st2) (db st2) → grows st1 st2 →
  objects (db st2) = objects (db st1) ∧ sessions (db st2) = sessions (db st1) →
  key r = k → indexKey r = i → version r = 1 → path r = p → deleted r = false →
  parentValidationKey r = [] → 0 <= size r <= INT64_MAX →
  Forall2 (part_data (db st2)) parts datas → well_chunked datas →
  len (concat datas) = size r → hash_run (H:=H) datas = Ok (sha256 r) →
  publish (H:=H) r s parts raw time st2 = Ok (r', st') →
  created st st' r' s datas (default [] raw) ∧ key r' = k ∧ path r' = p ∧
  sha256 r' = sha256 r ∧ size r' = size r ∧ operation r' = operation r ∧
  authorship r' = authorship r ∧ sourceStamp r' = sourceStamp r.
Proof.
  intros Hw Hs Hses Hins Hw2 Hg2 [Ho2 Hs2] Hk Hi Hv Hp Hd Hpar Hz Hparts Hc Hl Hh E.
  destruct (insert_object_step _ _ _ _ _ Hw Hins) as (Hw1 & Hg1 & Hfresh & Hfind & Hoth & Hs1).
  assert (find_object (db st2) k = Some (i, new_object k p)) as Hfind2
    by (unfold find_object; by rewrite Ho2).
  destruct Hg1 as (C1 & S1 & R1 & E1), Hg2 as (C2 & S2 & R2 & E2).
  assert (publishable st2 r s parts i (new_object k p)) as Hpub.
  { split; rewrite ?Hv; try done; try congruence. intros _. by exists datas. }
  eapply publish_step in E; [|exact Hpub].
  assert (carried st2 r raw = default [] raw) as Hcar.
  { unfold carried. rewrite Hv. by destruct raw. }
  rewrite Hcar in E.
  destruct E as [Pw Pg Pr Pf Po Poth Praw Pparts [Pd Ps]].
  destruct Pf as (F1 & F2 & F3 & F4 & F5 & F6 & F7 & F8 & F9 & F10 & F11 & F12 & F13 & F14).
  split; [|split_and!; congruence]. split.
  - done.
  - etrans; [|exact Pg]. split_and!; [congruence..|by etrans].
  - congruence.
  - rewrite F1, F2, F4, Po, Hv. by rewrite Hd.
  - by rewrite F1, <-Hv.
  - split_and!; congruence.
  - unfold kept_document. by rewrite F1, <-Hv.
  - exists parts. rewrite F1, <-Hv. split_and!; [done| |done].
    eapply Forall2_impl; [exact Hparts|]. intros ?? [??]. split; [by rewrite Pd|done].
  - intros k' Hne. rewrite Poth by congruence. unfold find_object. rewrite Ho2.
    apply Hoth. congruence.
  - congruence.
Qed.

Lemma session_known st k active s : wf (container st) (db st) →
  getSession st k active = Ok s → sessions (db st) !! session_key s = Some s.
Proof.
  intros Hw E. apply getSession_ok in E as (Hs & _).
  by destruct (wf_session _ _ Hw _ _ Hs) as (-> & _).
Qed.

Lemma import_with_ok e n input p s options raw st r st' :
  wf (container st) (db st) → 4 <= schema st → representable input →
  sessions (db st) !! session_key s = Some s →
  import_with (H:=H) e n input p s options raw st = Ok (r, st') →
  ∃ datas, created st st' r s datas raw ∧ concat datas = source_bytes input ∧
    (key r = uniqueKey e n "object-" ∧ sourceStamp r = opt_sourceStamp options) ∧ path r = p.
Proof.
  intros Hw Hs Hrep Hses E. unfold import_with in E. inv_ok.
  match goal with E : insert_object _ _ _ = _ |- _ => rename E into Hins end.
  match goal with E : ingest _ _ _ _ = _ |- _ => rename E into Hing end.
  destruct (insert_object_step _ _ _ _ _ Hw Hins) as (Hw1 & _).
  apply ingest_step in Hing as (h & datas & Hing & -> & Hlen); [|done|done].
  destruct (ingested_payload _ _ _ _ _ _ _ eq_refl Hing) as (Hparts & Hc & Hl & Hh).
  eapply (create_step st) in E as (Hcre & Hk & Hp & _ & _ & _ & _ & Hst);
    [|done|done|done|exact Hins|apply (ing_wf _ _ _ _ _ _ _ Hing)
     |apply (ing_grows _ _ _ _ _ _ _ Hing)|apply (ing_objects _ _ _ _ _ _ _ Hing)
     |done|done|done|done|done|done|exact Hlen|exact Hparts|exact Hc|exact Hl|exact Hh].
  exists datas. split_and!; [exact Hcre|apply (ing_data _ _ _ _ _ _ _ Hing)|done|done|done].
Qed.

Lemma importFile_ok e source p session options st r st' :
  wf (container st) (db st) → 4 <= schema st →
  importFile (H:=H) e source p session options st = (Ok r, st') →
  ∃ s datas, created st st' r s datas [] ∧ concat datas = content source ∧ path r = p ∧
    sourceStamp r = opt_sourceStamp options.
Proof.
  intros Hw Hs E. unfold importFile in E. apply transaction_ok in E. inv_ok.
  match goal with E : getSession _ _ _ = _ |- _ => apply session_known in E; [|done] end.
  apply import_with_ok in E as (datas & Hc & Hd & [_ ?] & Hp); [|done..]. eauto 10.
Qed.

Lemma wrapRaw_ok e source p metadata session options st r st' :
  wf (container st) (db st) → 4 <= schema st →
  wrapRaw (H:=H) e source p metadata session options st = (Ok r, st') →
  ∃ document captured s datas, encodeRawMetadata metadata = Ok document ∧ source = Ok captured ∧
    created st st' r s datas document ∧ concat datas = content (captured_file captured) ∧
    path r = p.
Proof.
  intros Hw Hs E. unfold wrapRaw in E. ready E. inv_ok. simplify_eq.
  match goal with E : getSession st session true = _, E' : import_with _ _ _ _ ?s _ _ _ = _ |- _ =>
    apply session_known in E; [|done] end.
  apply import_with_ok in E as (datas & Hc & Hd & _ & Hp); [|done..]. eauto 10.
Qed.

(** A sequence of imports keeps the session it uses. *)
Lemma import_each_ok e n files s st rs st' :
  wf (container st) (db st) → 4 <= schema st →
  Forall (λ f, len (prepared_bytes f.1.1) <= INT64_MAX) files →
  sessions (db st) !! session_key s = Some s →
  import_each (H:=H) e n files s st = Ok (rs, st') →
  wf (container st') (db st') ∧ grows st st' ∧ length rs = length files ∧
  Forall2 (λ r f, path r = f.1.2 ∧ join_row (db st') (key r) 1 = Some r ∧
                  size r = len (prepared_bytes f.1.1)) rs files.
Proof.
  intros Hw Hs Hlen Hses E. revert n st rs Hw Hs Hses E.
  induction Hlen as [|[[prepared p] options] files Hl _ IH]; intros n st rs Hw Hs Hses E; simpl in E.
  { inv_ok. simplify_eq. by split_and!. }
  inv_ok. simplify_eq.
  match goal with E : import_with _ _ _ _ _ _ _ _ = _ |- _ =>
    apply import_with_ok in E as (datas & Hc & Hd & _ & Hp); [|done..] end.
  destruct Hc as [Cw Cg _ _ Cr Cf _ _ _ Cs]. pose proof Cg as (C1 & C2 & C3 & C4).
  match goal with E : import_each _ _ _ _ _ = _ |- _ =>
    apply IH in E as (Hw' & Hg' & Hlen & Hall); [|done|lia|by rewrite Cs] end.
  split_and!; [done|by etrans|simpl; lia|]. constructor; [|done]. simpl. split_and!.
  - done.
  - eapply join_row_extends; [apply Hg'|exact Cr].
  - destruct Cf as (_ & _ & _ & _ & _ & -> & _). by rewrite Hd.
Qed.

Lemma batch_Forall (P : PreparedSource → Prop) sources (files : list (bytes * ObjectWriteOptions)) :
  Forall P sources →
  Forall (λ f, P f.1.1) (zip_with (λ source file, (source, file.1, file.2)) sources files).
Proof.
  intros HP. revert files. induction HP as [|x sources Hx _ IH]; intros [|f files]; simpl; by constructor.
Qed.

Lemma importFiles_ok e files prepared session st rs st' :
  wf (container st) (db st) → 4 <= schema st →
  (∀ sources, prepared = Ok sources →
    Forall (λ x, len (prepared_bytes x) <= INT64_MAX) sources ∧ length sources = length files) →
  importFiles (H:=H) e files prepared session st = (Ok rs, st') →
  wf (container st') (db st') ∧ grows st st' ∧ length rs = length files.
Proof.
  intros Hw Hs Hprep E. unfold importFiles in E. case_match; [done|].
  apply transaction_ok in E. inv_ok. simplify_eq.
  match goal with E : getSession _ _ _ = _ |- _ => apply session_known in E; [|done] end.
  destruct (Hprep _ eq_refl) as [Hlen Hl].
  match goal with E : import_each _ _ _ _ _ = _ |- _ =>
    apply import_each_ok in E as (Hw' & Hg & Hn & _); [|done|done| |done] end.
  - split_and!; [done..|]. rewrite Hn, length_zip_with. lia.
  - by apply (batch_Forall (λ x, len (prepared_bytes x) <= INT64_MAX)).
Qed.

(** Capturing a document makes the RAW original and the working object, both
    with the captured bytes. *)
Lemma importDocument_ok e source p metadata session options st d st' :
  wf (container st) (db st) → 4 <= schema st →
  importDocument (H:=H) e source p metadata session options st = (Ok d, st') →
  ∃ document captured s st1 datas datas',
    encodeRawMetadata metadata = Ok document ∧ source = Ok captured ∧
    let raw := envelope_record (document_original d) in
    let working := document_file d in
    created st st1 raw s datas document ∧ created st1 st' working s datas' [] ∧
    concat datas = content (captured_file captured) ∧ datas' = datas ∧
    path raw = originals ++ key working ∧ path working = p ∧
    envelope_metadata (document_original d) = metadata.
Proof.
  intros Hw Hs E. unfold importDocument in E. ready E. inv_ok. simplify_eq.
  match goal with E : getSession st session true = Ok ?s, E' : import_with _ _ _ _ ?s _ _ _ = _ |- _ =>
    apply session_known in E; [|done] end.
  match goal with E : import_with _ _ _ _ _ _ _ _ = _ |- _ =>
    apply import_with_ok in E as (datas & Hc & Hd & [Hk _] & Hp); [|done..] end.
  match goal with E : insert_object _ _ _ = _ |- _ => rename E into Hins end.
  match goal with E : chunks _ _ _ = _ |- _ => rename E into Hch end.
  match goal with E : publish _ _ _ _ _ _ = _ |- _ => rename E into Hpub end.
  pose proof Hc as [Cw Cg _ _ Cr (F1 & F2 & F3 & F4 & F5 & F6 & F7) _ (parts & Hrows & Hparts & Hck) _ Cs].
  destruct (insert_object_step _ _ _ _ _ Cw Hins) as (Iw & Ig & _).
  pose proof Ig as (_ & _ & _ & Ie). pose proof Cg as (C1 & C2 & C3 & _).
  destruct (join_row_inv _ _ _ _ Cr) as (i & ro & row & s1 & Ho & Hr & _ & Er).
  pose proof (rv_size _ _ _ _ _ _ (wf_revision _ _ Cw _ _ _ _ _ Ho Hr)) as Hsize.
  assert (size o = revision_size row) as Hz by (rewrite Er; simpl; by apply u64_id).
  destruct (ext_revisions _ _ Ie _ _ _ Hr) as (_ & _ & Hsame).
  apply chunks_inv in Hch. rewrite F1 in Hch. simpl in Hch.
  rewrite i64_id, Hsame, Hrows in Hch by (unfold INT64_MAX; lia).
  rewrite (contiguous_rows _ _ _ _ Hparts Hck) in Hch. injection Hch as <-.
  eapply (create_step s s0 s0) in Hpub as (Hcre & K1 & K2 & _);
    [|done|lia|by rewrite Cs|exact Hins|done|done|done|done|done|done|done|done|done|simpl; lia| |done|..].
  - exists document, captured, a, s, datas, datas.
    split_and!; [done|done|]. simpl. split_and!; try done. by rewrite K1, Hp.
  - eapply Forall2_impl; [exact Hparts|]. intros ??. by apply part_data_extends.
  - done.
  - done.
Qed.

Lemma beginSession_ok e a device description context st s st' :
  wf (container st) (db st) →
  beginSession e a device description context st = (Ok s, st') →
  wf (container st') (db st') ∧ grows st st' ∧ sessions (db st') !! session_key s = Some s ∧
  session_author s = a ∧ endedAtNs s = 0.
Proof.
  intros Hw E. unfold beginSession in E. ready E. inv_ok. simplify_eq.
  match goal with E : insert_session _ _ = _ |- _ =>
    eapply (begin_session_step st) in E as (? & ? & ? & _); [|done|done|done] end.
  by split_and!.
Qed.

Lemma endSession_ok e k st st' u :
  wf (container st) (db st) → endSession e k st = (Ok u, st') →
  wf (container st') (db st') ∧ grows st st'.
Proof.
  intros Hw E. unfold endSession in E. apply transaction_ok in E. inv_ok. simplify_eq.
  match goal with E : getSession _ _ _ = _ |- _ => apply getSession_ok in E as (Hs & _) end.
  by eapply end_session_step.
Qed.
End reach.
