(* ===== verification/ObjectValidate.v ===== *)
(** A consistent package passes the store's own validation, chain and payload,
    at every version of every object. *)
From S2P Require Import Prelude Json MetadataCodec Sha256 Table ObjectData ObjectPackage.
From S2P Require Import ObjectStore ObjectInvariant ObjectSteps ObjectPublish ObjectReach.
Local Open Scope Z_scope.

Section validate.
Context {H : Type} {hashing : StreamHash H}.
Implicit Types (st : Store).

Abbreviation wf := (wf (H:=H)).

Lemma bind_text s : bindable s → bind s = Ok tt.
Proof. intros Hs. by apply bind_text_ok. Qed.

Lemma get_ok cont st k i o v row :
  wf cont (db st) → find_object (db st) k = Some (i, o) → revision_of (db st) k v = Some row →
  ∃ s, sessions (db st) !! revision_session row = Some s ∧
    get st k v = Ok (Some (record k i v row s)).
Proof.
  intros Hw Ho Hr. destruct (version_range _ _ _ _ _ _ _ Hw Ho Hr) as (Hv & Hm & Hb).
  destruct (join_row_ok _ _ _ _ _ _ _ Hw Ho Hr) as (s & Hs & Hj).
  exists s. split; [done|]. unfold get. rewrite bind_text by done. simpl. rewrite Ho. simpl.
  destruct (Z.eqb_spec v 0); [lia|]. by rewrite i64_id, Hj by lia.
Qed.

Lemma get_head cont st k i o row :
  wf cont (db st) → find_object (db st) k = Some (i, o) →
  revision_of (db st) k (head_ o) = Some row → get st k 0 = get st k (head_ o).
Proof.
  intros Hw Ho Hr. destruct (version_range _ _ _ _ _ _ _ Hw Ho Hr) as (Hv & Hm & Hb).
  unfold get. rewrite bind_text by done. simpl. rewrite Ho. simpl.
  destruct (Z.eqb_spec (head_ o) 0); [lia|]. by rewrite i64_id by lia.
Qed.

Lemma validate_chain_ok st k i o n v :
  wf (container st) (db st) → 4 <= schema st → find_object (db st) k = Some (i, o) →
  1 <= v → v + Z.of_nat n - 1 <= head_ o →
  validate_chain (H:=H) st k n v (previous_key (db st) k v) = Ok true.
Proof.
  intros Hw Hs Ho. revert v. induction n as [|n IH]; intros v Hv Hn; [done|].
  destruct (find_object_in _ _ _ _ Ho) as [Hin Hk].
  destruct (wf_head _ _ Hw _ _ Hin) as (Hb & Hm & Hvers & _). rewrite Hk in *.
  destruct (proj2 (Hvers v)) as [row Hr]; [lia|].
  destruct (wf_revision _ _ Hw _ _ _ _ _ Ho Hr)
    as [(s & w & Hses & Hwork & Hsk & Hsb & Hau & Hvk) Hf Hz Hp _ _].
  cbn [validate_chain]. destruct (get_ok _ _ _ _ _ _ _ Hw Ho Hr) as (s' & Hs' & ->).
  rewrite Hses in Hs'. injection Hs' as <-. cbn [mbind result_bind].
  unfold getSession. cbn [record sessionKey]. rewrite bind_text by done. simpl. rewrite Hses. simpl.
  unfold schema_ok, chain_ok. simpl. rewrite Hf, u64_id by lia. simpl. rewrite Z.eqb_refl. simpl.
  rewrite bool_decide_true by done. rewrite (bool_decide_true _ Hau). simpl.
  unfold context_of, rawDocument. destruct (Z.ltb_spec (schema st) 4); [lia|].
  rewrite Hsk, bind_text by done. simpl.
  change (List.find _ (work_sessions (db st))) with (find_work (db st) (revision_session row)).
  rewrite Hwork. simpl. rewrite bind_text by done. simpl. rewrite i64_id, Hvk by lia. simpl.
  rewrite bool_decide_true by done.
  rewrite <-(previous_key_next _ _ _ _ Hv Hr). apply IH; lia.
Qed.

Lemma well_chunked_count datas : well_chunked datas →
  len datas = len (concat datas) / chunkBytes +
    (if len (concat datas) mod chunkBytes =? 0 then 0 else 1).
Proof.
  induction datas as [|d datas IH]; [done|]. intros Hc. destruct datas as [|d' datas].
  - simpl in *. rewrite app_nil_r. clear IH.
    destruct (Z.eqb_spec (len d mod chunkBytes) 0) as [E|E].
    + assert (len d = chunkBytes) as ->; [|done].
      apply Z.mod_divide in E as [q E]; [|done]. unfold chunkBytes in *. nia.
    + rewrite Z.div_small; [done|]. destruct (decide (len d = chunkBytes)) as [E'|]; [|lia].
      by rewrite E' in E.
  - destruct Hc as [Hd Hc]. specialize (IH Hc).
    change (concat (d :: d' :: datas)) with (d ++ concat (d' :: datas)).
    rewrite length_app, Nat2Z.inj_add, Hd.
    replace (chunkBytes + len (concat (d' :: datas)))
      with (len (concat (d' :: datas)) + 1 * chunkBytes) by lia.
    rewrite Z.div_add, Z.mod_add by done. simpl length in *. lia.
Qed.

Lemma validate_parts_ok cont st parts datas h h' total :
  wf cont (db st) → Forall2 (part_data (db st)) parts datas → well_chunked datas →
  fold_res hash_update h datas = Ok h' →
  validate_parts (H:=H) st parts h total = Ok (Some (h', total + len (concat datas))).
Proof.
  intros Hw H2. revert h total. induction H2 as [|part data parts datas [Hd Hsize] H2 IH];
    intros h total Hc Hh; simpl in *.
  - injection Hh as ->. by rewrite Z.add_0_r.
  - destruct (wf_chunk _ _ Hw _ _ Hd) as (Hhash & Hlen & Hb). apply bind_ok in Hh as (h1 & Hh1 & Hh).
    assert (negb (bool_decide (parts = [])) && negb (chunk_size part =? chunkBytes) = false) as ->.
    { case_bool_decide as Hp; [done|]. simpl. apply negb_false_iff, Z.eqb_eq.
      destruct datas; [by inversion H2; subst|]. destruct Hc as [Hc _]. congruence. }
    unfold read_chunk. rewrite bind_text by done. simpl. rewrite Hd, Hsize, Z.eqb_refl. simpl.
    rewrite bool_decide_false by (intros ->; simpl in Hlen; lia). simpl.
    destruct (Z.ltb_spec chunkBytes (len data)); [lia|]. rewrite Hhash. simpl.
    rewrite bool_decide_true by done. simpl. rewrite Hh1. simpl.
    rewrite IH; [|by destruct datas; [|apply Hc]|done].
    f_equal. f_equal. f_equal. rewrite length_app. lia.
Qed.

Theorem validate_wf st k i o v payload :
  wf (container st) (db st) → 4 <= schema st → find_object (db st) k = Some (i, o) →
  1 <= v <= head_ o → validate (H:=H) st k v payload = Ok true.
Proof.
  intros Hw Hs Ho Hv. destruct (find_object_in _ _ _ _ Ho) as [Hin Hk].
  destruct (wf_head _ _ Hw _ _ Hin) as (Hb & Hm & Hvers & _). rewrite Hk in *.
  destruct (proj2 (Hvers v) Hv) as [row Hr]. unfold validate.
  destruct (Z.eqb_spec v 0); [lia|]. destruct (Z.ltb_spec INT64_MAX v); [lia|]. simpl.
  assert (validate_chain (H:=H) st k (Z.to_nat v) 1 [] = Ok true) as ->.
  { apply (validate_chain_ok st k i o (Z.to_nat v) 1); [done..|lia]. }
  destruct (get_ok _ _ _ _ _ _ _ Hw Ho Hr) as (s & Hses & E). simpl. rewrite E. simpl.
  destruct payload; [|done]. simpl. unfold validate_payload, chunks.
  rewrite bind_text by done. simpl. rewrite i64_id by lia.
  pose proof (wf_revision _ _ Hw _ _ _ _ _ Ho Hr) as Hrv.
  destruct (revision_deleted row) eqn:Hdel.
  - by rewrite (rv_deleted _ _ _ _ _ _ Hrv Hdel).
  - destruct (revision_parts _ _ _ _ _ _ _ Hw Ho Hr Hdel)
      as (parts & datas & -> & H2 & Hc & Hl & Hh). simpl.
    rewrite (u64_id (revision_size row)) by apply (rv_size _ _ _ _ _ _ Hrv).
    rewrite (Forall2_length _ _ _ H2), (well_chunked_count _ Hc), Hl, Z.eqb_refl. simpl.
    unfold hash_run in Hh. apply bind_ok in Hh as (h' & Hh & [= Hsha]).
    rewrite (validate_parts_ok _ _ _ _ _ _ _ Hw H2 Hc Hh). simpl.
    rewrite Hl, Z.eqb_refl, Hsha. simpl. by rewrite bool_decide_true.
Qed.
End validate.
