(* ===== verification/ObjectSpec.v ===== *)
(** What the object store promises, and that it keeps the promise.

    The specification knows nothing of tables, chunks, hashes or sessions: it is
    a map from object keys to the list of their versions, each with its path,
    bytes, annotation document and tombstone flag.  The operations of the store
    refine its five transitions. *)
From S2P Require Import Prelude Json MetadataCodec Sha256 Table ObjectData ObjectPackage.
From S2P Require Import ObjectStore ObjectInvariant ObjectSteps ObjectPublish ObjectReach.
From S2P Require Import ObjectValidate.
Local Open Scope Z_scope.

(** ** The operations of a store, as data *)

Inductive Operation :=
  | BeginSession (e : Env) (a : ObjectAuthor) (device description : bytes)
      (context : ObjectSessionContext)
  | EndSession (e : Env) (k : bytes)
  | ImportFile (e : Env) (source : SourceFile) (p session : bytes) (options : ObjectWriteOptions)
  | ImportFiles (e : Env) (files : list (bytes * ObjectWriteOptions))
      (prepared : result string (list PreparedSource)) (session : bytes)
  | WrapRaw (e : Env) (source : result string CapturedSource) (p : bytes) (metadata : RawMetadata)
      (session : bytes) (options : ObjectWriteOptions)
  | ImportDocument (e : Env) (source : result string CapturedSource) (p : bytes)
      (metadata : RawMetadata) (session : bytes) (options : ObjectWriteOptions)
  | ReviseFile (e : Env) (k : bytes) (source : SourceFile) (expected : Z) (session : bytes)
      (options : ObjectWriteOptions)
  | ReviseMetadata (e : Env) (k : bytes) (metadata : FileMetadata) (expected : Z) (session : bytes)
  | Move (e : Env) (k p : bytes) (expected : Z) (session : bytes) (options : ObjectWriteOptions)
  | Erase (e : Env) (k : bytes) (expected : Z) (session : bytes).

(** What the reader of a batch promises: one payload per file, within the format. *)
Definition batch_read (op : Operation) : Prop :=
  match op with
  | ImportFiles _ files (Ok sources) _ =>
      Forall (λ x, len (prepared_bytes x) <= INT64_MAX) sources ∧ length sources = length files
  | _ => True
  end.

(** ** The specification *)

Record Version := {
  v_path : bytes;
  v_content : bytes;
  v_document : bytes;      (* the RAW annotation document, empty for plain files *)
  v_deleted : bool
}.

Abbreviation Spec := (gmap bytes (list Version)).

(** The live objects at a path can only be [k]. *)
Definition path_free (A : Spec) (p k : bytes) : Prop :=
  ∀ k' vs v, A !! k' = Some vs → last vs = Some v → v_deleted v = false → v_path v = p → k' = k.

Definition live_head (A : Spec) (k : bytes) (vs : list Version) (v : Version) : Prop :=
  A !! k = Some vs ∧ last vs = Some v ∧ v_deleted v = false.

Inductive spec_step : Spec → Spec → Prop :=
  | spec_create A k p c d :
      A !! k = None → path_free A p k →
      spec_step A (<[k := [{| v_path := p; v_content := c; v_document := d; v_deleted := false |}]]> A)
  | spec_revise A k vs v c :
      live_head A k vs v → v_document v = [] →
      spec_step A (<[k := vs ++ [{| v_path := v_path v; v_content := c; v_document := [];
                                    v_deleted := false |}]]> A)
  | spec_move A k vs v p :
      live_head A k vs v → path_free A p k →
      spec_step A (<[k := vs ++ [{| v_path := p; v_content := v_content v;
                                    v_document := v_document v; v_deleted := false |}]]> A)
  | spec_annotate A k vs v d :
      live_head A k vs v → v_document v ≠ [] → d ≠ [] →
      spec_step A (<[k := vs ++ [{| v_path := v_path v; v_content := v_content v; v_document := d;
                                    v_deleted := false |}]]> A)
  | spec_erase A k vs v :
      live_head A k vs v →
      spec_step A (<[k := vs ++ [{| v_path := v_path v; v_content := []; v_document := v_document v;
                                    v_deleted := true |}]]> A).

(** ** What a package shows *)

Definition content_at (p : Package) (k : bytes) (v : Z) : bytes :=
  concat (omap (λ r, chunk_data p !! hash r.2) (default [] (revision_chunks p !! (k, v)))).

Definition version_at (p : Package) (k : bytes) (v : Z) : option Version :=
  row ← revision_of p k v;
  Some {| v_path := revision_path row; v_content := content_at p k v;
          v_document := default [] (raw_revisions p !! (k, v)); v_deleted := revision_deleted row |}.

Definition view (p : Package) (k : bytes) : option (list Version) :=
  o ← find_object p k; Some (omap (version_at p k) (seqZ 1 (head_ o.2))).

Definition models (p : Package) (A : Spec) : Prop := ∀ k, A !! k = view p k.

Section spec.
Context {H : Type} {hashing : StreamHash H} {sqlite : SqliteJson}.
Context (json_parse : bytes → option json).

Abbreviation wf := (wf (H:=H)).

(** The error, when it throws, and the store after it. *)
Definition run (op : Operation) (st : Store) : option string * Store :=
  let outcome {A} (x : result string A * Store) :=
    (match x.1 with Ok _ => None | Err m => Some m end, x.2) in
  match op with
  | BeginSession e a d t c => outcome (beginSession e a d t c st)
  | EndSession e k => outcome (endSession e k st)
  | ImportFile e f p s o => outcome (importFile (H:=H) e f p s o st)
  | ImportFiles e fs b s => outcome (importFiles (H:=H) e fs b s st)
  | WrapRaw e f p m s o => outcome (wrapRaw (H:=H) e f p m s o st)
  | ImportDocument e f p m s o => outcome (importDocument (H:=H) e f p m s o st)
  | ReviseFile e k f v s o => outcome (reviseFile (H:=H) e k f v s o st)
  | ReviseMetadata e k m v s => outcome (reviseMetadata (H:=H) json_parse e k m v s st)
  | Move e k p v s o => outcome (move (H:=H) e k p v s o st)
  | Erase e k v s => outcome (erase (H:=H) e k v s st)
  end.

Inductive step : Store → Store → Prop :=
  | step_run op st st' m : batch_read op → run op st = (m, st') → step st st'.

(** Stores that a process can be in after creating a package. *)
Definition reachable (st : Store) : Prop :=
  ∃ container pages st0, create_store container pages = Ok st0 ∧ rtc step st0 st.

(** ** Failure *)

Lemma run_error op st m st' : run op st = (Some m, st') → st' = st.
Proof.
  destruct op; simpl; intros [= E1 <-];
  match type of E1 with match ?x.1 with _ => _ end = _ =>
    destruct x as [[r|m'] st1] eqn:E; simpl in *; [done|] end;
  unfold beginSession, endSession, importFile, importFiles, wrapRaw, importDocument, reviseFile,
    reviseMetadata, move, erase in E;
  repeat match type of E with
  | (if ?b then _ else _) = _ => destruct b
  | (match ?x with Ok _ => _ | Err _ => _ end) = _ => destruct x
  | (let (_, _) := ?x in _) = _ => destruct x
  | (_, _) = (_, _) => by injection E
  | transaction _ _ _ = _ => by apply transaction_err in E
  end.
Qed.

(** ** The view of a package that grows *)

Lemma content_parts p n parts datas : Forall2 (part_data p) parts datas →
  concat (omap (λ r, chunk_data p !! hash r.2) (chunk_rows n parts)) = concat datas.
Proof.
  intros H2. revert n. induction H2 as [|part data parts datas [E _] _ IH]; intros n; [done|].
  simpl. rewrite E. simpl. by rewrite IH.
Qed.

Lemma content_datas p k v datas : revision_payload p k v datas → content_at p k v = concat datas.
Proof. intros (parts & E & H2). unfold content_at. rewrite E. by apply content_parts. Qed.

Lemma version_at_extends cont p p' k i o v row :
  wf cont p → extends p p' → find_object p k = Some (i, o) → revision_of p k v = Some row →
  version_at p' k v = version_at p k v.
Proof.
  intros Hw He Ho Hr. destruct (ext_revisions _ _ He _ _ _ Hr) as (Hr' & Hraw & Hparts).
  unfold version_at. rewrite Hr, Hr'. simpl. rewrite Hraw. do 2 f_equal.
  pose proof (wf_revision _ _ Hw _ _ _ _ _ Ho Hr) as Hrv.
  destruct (revision_deleted row) eqn:Hd.
  - unfold content_at. by rewrite Hparts, (rv_deleted _ _ _ _ _ _ Hrv Hd).
  - destruct (rv_payload _ _ _ _ _ _ Hrv Hd) as (datas & Hp & _).
    rewrite (content_datas _ _ _ _ Hp). apply content_datas.
    destruct Hp as (parts & E & H2). exists parts. rewrite Hparts. split; [done|].
    eapply Forall2_impl; [exact H2|]. intros ??. by apply part_data_extends.
Qed.

Lemma head_versions cont p k i o v :
  wf cont p → find_object p k = Some (i, o) → v ∈ seqZ 1 (head_ o) → is_Some (revision_of p k v).
Proof.
  intros Hw Ho Hv. apply elem_of_seqZ in Hv. apply find_object_in in Ho as [Hin <-].
  destruct (wf_head _ _ Hw _ _ Hin) as (_ & _ & Hvers & _). apply Hvers. lia.
Qed.

Lemma versions_extends cont p p' k i o :
  wf cont p → extends p p' → find_object p k = Some (i, o) →
  omap (version_at p' k) (seqZ 1 (head_ o)) = omap (version_at p k) (seqZ 1 (head_ o)).
Proof.
  intros Hw He Ho. apply list_omap_ext, Forall2_same_length_lookup. split; [done|].
  intros j v v' E1 E2. assert (v' = v) as -> by congruence.
  apply list_elem_of_lookup_2 in E1. destruct (head_versions _ _ _ _ _ _ Hw Ho E1) as [row Hr].
  by eapply version_at_extends.
Qed.

Lemma view_same cont p p' k :
  wf cont p → extends p p' → find_object p' k = find_object p k → view p' k = view p k.
Proof.
  intros Hw He E. unfold view. rewrite E. destruct (find_object p k) as [[i o]|] eqn:Ho; [|done].
  simpl. f_equal. by eapply versions_extends.
Qed.

Lemma view_none p k : find_object p k = None → view p k = None.
Proof. unfold view. by intros ->. Qed.

Lemma version_at_join p k v r : join_row p k v = Some r →
  version_at p k v = Some {| v_path := path r; v_content := content_at p k v;
    v_document := default [] (raw_revisions p !! (k, v)); v_deleted := deleted r |}.
Proof.
  intros (i & o & row & s & _ & Hr & _ & ->)%join_row_inv. unfold version_at. by rewrite Hr.
Qed.

Lemma seqZ_snoc h : 0 <= h → seqZ 1 (h + 1) = seqZ 1 h ++ [h + 1].
Proof.
  intros Hh. rewrite seqZ_app by lia. f_equal. by rewrite Z.add_comm.
Qed.

Lemma view_inv p k vs : view p k = Some vs → ∃ i o, find_object p k = Some (i, o) ∧
  vs = omap (version_at p k) (seqZ 1 (head_ o)).
Proof.
  unfold view. destruct (find_object p k) as [[i o]|]; [|done]. intros [= <-]. by exists i, o.
Qed.

(** The last version of the view is the head. *)
Lemma view_last cont p k vs v :
  wf cont p → view p k = Some vs → last vs = Some v →
  ∃ i o row, find_object p k = Some (i, o) ∧ revision_of p k (head_ o) = Some row ∧
    version_at p k (head_ o) = Some v ∧ 1 <= head_ o ∧
    v_path v = object_path o ∧ v_deleted v = object_deleted o.
Proof.
  intros Hw (i & o & Ho & ->)%view_inv Hl.
  destruct (find_object_in _ _ _ _ Ho) as [Hin Hk].
  destruct (wf_head _ _ Hw _ _ Hin) as (_ & Hh & Hvers & Hrow). rewrite Hk in *.
  destruct (decide (head_ o = 0)) as [E|Hne]; [by rewrite E in Hl|].
  replace (head_ o) with (head_ o - 1 + 1) in Hl by lia.
  rewrite seqZ_snoc, omap_app in Hl by lia.
  replace (head_ o - 1 + 1) with (head_ o) in Hl by lia.
  destruct (proj2 (Hvers (head_ o))) as [row Hr]; [lia|].
  assert (version_at p k (head_ o) = Some {| v_path := revision_path row;
    v_content := content_at p k (head_ o);
    v_document := default [] (raw_revisions p !! (k, head_ o));
    v_deleted := revision_deleted row |}) as Ev by (unfold version_at; by rewrite Hr).
  simpl in Hl. rewrite Ev in Hl. rewrite last_snoc in Hl. injection Hl as <-.
  destruct (Hrow _ Hr) as [E1 E2]. exists i, o, row. split_and!; done || lia.
Qed.

Lemma live_head_free (cont : bytes) (p : Package) (A : Spec) (k : bytes) vs v :
  wf cont p → models p A → live_head A k vs v → path_free A (v_path v) k.
Proof.
  intros Hw HA (Hk & Hl & Hd) k' vs' v' Hk' Hl' Hd' Hp. rewrite HA in Hk, Hk'.
  destruct (view_last _ _ _ _ _ Hw Hk Hl) as (i & o & row & Ho & _ & _ & _ & E1 & E2).
  destruct (view_last _ _ _ _ _ Hw Hk' Hl') as (i' & o' & row' & Ho' & _ & _ & _ & E1' & E2').
  destruct (find_object_in _ _ _ _ Ho) as [Hin <-], (find_object_in _ _ _ _ Ho') as [Hin' <-].
  assert (i' = i) as -> by (eapply (wf_live _ _ Hw); congruence || done).
  f_equal. by eapply ordered_fun; [apply (wf_objects _ _ Hw)|..].
Qed.

(** A package whose objects other than [k] are untouched. *)
Lemma models_update (cont : bytes) (p p' : Package) (A : Spec) (k : bytes) vs :
  wf cont p → extends p p' → models p A →
  (∀ k', k' ≠ k → find_object p' k' = find_object p k') → view p' k = Some vs →
  models p' (<[k := vs]> A).
Proof.
  intros Hw He HA Hoth Hk k'. destruct (decide (k = k')) as [<-|Hne].
  - by rewrite lookup_insert_eq.
  - rewrite lookup_insert_ne by done. rewrite HA. symmetry. eapply view_same; [done..|].
    by apply Hoth.
Qed.

(** The path of a new head was free before. *)
Lemma path_free_before (cont : bytes) (p' : Package) (A : Spec) (k : bytes) vs v :
  wf cont p' → models p' (<[k := vs]> A) → last vs = Some v → v_deleted v = false →
  path_free A (v_path v) k.
Proof.
  intros Hw HA Hl Hd k' vs' v' Hk' Hl' Hd' Hp. destruct (decide (k' = k)); [done|].
  eapply (live_head_free _ _ _ k vs v Hw HA); [|by rewrite lookup_insert_ne|done..].
  split_and!; [by rewrite lookup_insert_eq|done..].
Qed.

(** ** New objects and new versions *)

Lemma created_refines (st st' : Store) (r : ObjectRecord) (s : ObjectSession) (datas : list bytes) (d : bytes) (A : Spec) :
  wf (container st) (db st) → created st st' r s datas d → models (db st) A →
  ∃ A', spec_step A A' ∧ models (db st') A' ∧
    A' !! key r = Some [{| v_path := path r; v_content := concat datas; v_document := d;
                           v_deleted := false |}].
Proof.
  intros Hw [Cw (Cc & _ & _ & Ce) Cf Co Cr Cfields Craw (parts & Hrows & Hparts & _) Coth _] HA.
  assert (view (db st') (key r) = Some [{| v_path := path r; v_content := concat datas;
    v_document := d; v_deleted := false |}]) as Hv.
  { unfold view. rewrite Co. cbn [mbind option_bind snd head_]. change (seqZ 1 1) with [1].
    cbn [omap list_omap]. rewrite (version_at_join _ _ _ _ Cr).
    rewrite (content_datas _ _ _ datas) by by exists parts.
    unfold kept_document in Craw. rewrite Craw.
    by destruct Cfields as (_ & -> & _). }
  pose proof (models_update _ _ _ _ _ _ Hw Ce HA Coth Hv) as HA'.
  eexists. split_and!; [|exact HA'|by rewrite lookup_insert_eq].
  apply spec_create; [by rewrite HA, view_none|].
  by eapply (path_free_before _ _ _ _ _ {| v_path := path r |}); [exact Cw|exact HA'|done|done].
Qed.

Lemma revised_view (A : Spec) (st st1 : Store) k expected old new s parts d (st' : Store) :
  wf (container st) (db st) → revised (H:=H) st st1 k expected old new s parts d st' →
  models (db st) A →
  wf (container st') (db st') ∧ ∃ vs v, live_head A k vs v ∧ v_path v = path old ∧
    v_content v = content_at (db st) k expected ∧ v_document v = kept_document st k expected ∧
    models (db st') (<[k := vs ++ [{| v_path := path new;
      v_content := content_at (db st') k (expected + 1); v_document := d;
      v_deleted := deleted new |}]]> A).
Proof.
  intros Hw [Hold (i & o & Ho & Hhead) Hrange (Hlive & Hver & Hk) _ _ Hg
    (r1 & i1 & time & Hg1 & Hobj & Hk1 & Hv1 & Hpub)] HA.
  destruct Hpub as [Pw Pg Pr _ Po Poth Praw _ _]. rewrite Hk1, Hv1 in *. split; [done|].
  pose proof (version_at_join _ _ _ _ Hold) as Hvold.
  destruct Hg as (_ & _ & _ & He).
  assert (view (db st) k = Some (omap (version_at (db st) k) (seqZ 1 expected))) as Hview
    by (unfold view; rewrite Ho; simpl; by rewrite Hhead).
  exists (omap (version_at (db st) k) (seqZ 1 expected)),
    {| v_path := path old; v_content := content_at (db st) k expected;
       v_document := default [] (raw_revisions (db st) !! (k, expected));
       v_deleted := deleted old |}.
  split_and!; [|done|done|done|eapply (models_update (container st) (db st));
    [exact Hw|exact He|exact HA| |]].
  - split_and!; [by rewrite HA| |exact Hlive].
    replace expected with (expected - 1 + 1) at 1 by lia.
    rewrite seqZ_snoc, omap_app by lia. replace (expected - 1 + 1) with expected by lia.
    simpl. rewrite Hvold. by rewrite last_snoc.
  - intros k' Hne. rewrite Poth by done. unfold find_object. by rewrite Hobj.
  - unfold view. rewrite Po. cbn [mbind option_bind snd head_].
    rewrite seqZ_snoc, omap_app by lia. f_equal. f_equal.
    + rewrite <-Hhead. by eapply versions_extends.
    + cbn [omap list_omap]. rewrite (version_at_join _ _ _ _ Pr). by rewrite Praw.
Qed.

(** An operation that keeps the chunk list keeps the bytes. *)
Lemma kept_content (st st1 : Store) k expected old new s parts d (st' : Store) :
  wf (container st) (db st) → revised (H:=H) st st1 k expected old new s parts d st' →
  chunks st k expected = Ok parts →
  content_at (db st') k (expected + 1) = content_at (db st) k expected.
Proof.
  intros Hw [Hold _ Hrange (Hlive & _ & _) _ _ (_ & _ & _ & He)
    (r1 & i1 & time & _ & _ & Hk1 & Hv1 & Hpub)] Hc.
  pose proof (res_parts _ _ _ _ _ _ _ _ _ Hpub) as Hparts. rewrite Hk1, Hv1 in Hparts.
  destruct (join_row_inv _ _ _ _ Hold) as (i & o & row & s1 & Ho & Hr & _ & ->).
  destruct (rv_payload _ _ _ _ _ _ (wf_revision _ _ Hw _ _ _ _ _ Ho Hr) Hlive)
    as (datas & (parts' & Hrows & H2) & Hck & _).
  apply chunks_inv in Hc. rewrite i64_id, Hrows, (contiguous_rows _ _ _ _ H2 Hck) in Hc by lia.
  injection Hc as <-. rewrite (content_datas (db st) k expected datas) by by exists parts'.
  apply content_datas. exists parts'. split; [done|].
  eapply Forall2_impl; [exact H2|]. intros ??. by apply part_data_extends.
Qed.

Lemma models_nil c : models (fresh_package c) ∅.
Proof. intros k. by rewrite lookup_empty. Qed.

(** ** Each operation *)

Lemma move_refines (A : Spec) e k p expected session options (st st' : Store) r :
  wf (container st) (db st) → 4 <= schema st → models (db st) A →
  move (H:=H) e k p expected session options st = (Ok r, st') →
  ∃ A', spec_step A A' ∧ models (db st') A' ∧ wf (container st') (db st') ∧ grows st st'.
Proof.
  intros Hw Hs HA E. apply move_ok in E as
    (old & s & parts & Hrev & Hc & Hp & _ & _ & Hd & _); [|done..].
  destruct (revised_view A _ _ _ _ _ _ _ _ _ _ Hw Hrev HA)
    as (Hw' & vs & v & Hl & E1 & E2 & E3 & HA').
  rewrite (kept_content _ _ _ _ _ _ _ _ _ _ Hw Hrev Hc), Hp, Hd, <-E2, <-E3 in HA'.
  eexists. split_and!; [|exact HA'|done|apply (rev_grows _ _ _ _ _ _ _ _ _ _ Hrev)].
  apply spec_move; [done|].
  by eapply (path_free_before _ _ _ _ _ {| v_path := p |}); [exact Hw'|exact HA'|apply last_snoc|].
Qed.

Lemma erase_refines (A : Spec) e k expected session (st st' : Store) r :
  wf (container st) (db st) → 4 <= schema st → models (db st) A →
  erase (H:=H) e k expected session st = (Ok r, st') →
  ∃ A', spec_step A A' ∧ models (db st') A' ∧ wf (container st') (db st') ∧ grows st st'.
Proof.
  intros Hw Hs HA E. apply erase_ok in E as (old & s & Hrev & Hp & Hd & _); [|done..].
  destruct (revised_view A _ _ _ _ _ _ _ _ _ _ Hw Hrev HA)
    as (Hw' & vs & v & Hl & E1 & E2 & E3 & HA').
  assert (content_at (db st') k (expected + 1) = []) as Hempty.
  { destruct (rev_publication _ _ _ _ _ _ _ _ _ _ Hrev) as (r1 & i & t & _ & _ & <- & <- & Hpub).
    unfold content_at. by rewrite (res_parts _ _ _ _ _ _ _ _ _ Hpub). }
  rewrite Hempty, Hp, Hd, <-E1, <-E3 in HA'.
  eexists. split_and!; [|exact HA'|done|apply (rev_grows _ _ _ _ _ _ _ _ _ _ Hrev)].
  by apply spec_erase.
Qed.

Lemma reviseFile_refines (A : Spec) e k source expected session options (st st' : Store) r :
  wf (container st) (db st) → 4 <= schema st → models (db st) A →
  reviseFile (H:=H) e k source expected session options st = (Ok r, st') →
  ∃ A', spec_step A A' ∧ models (db st') A' ∧ wf (container st') (db st') ∧ grows st st'.
Proof.
  intros Hw Hs HA E. apply reviseFile_ok in E as
    (st1 & old & s & parts & datas & Hrev & Hnone & Hd & H2 & _ & Hp & _ & Hdel & _); [|done..].
  destruct (revised_view A _ _ _ _ _ _ _ _ _ _ Hw Hrev HA)
    as (Hw' & vs & v & Hl & E1 & E2 & E3 & HA').
  rewrite Hp, Hdel, <-E1 in HA'.
  eexists. split_and!; [|exact HA'|done|apply (rev_grows _ _ _ _ _ _ _ _ _ _ Hrev)].
  apply spec_revise; [done|]. congruence.
Qed.

Lemma reviseMetadata_refines (A : Spec) e k metadata expected session (st st' : Store) r :
  wf (container st) (db st) → 4 <= schema st → models (db st) A →
  reviseMetadata (H:=H) json_parse e k metadata expected session st = (Ok r, st') →
  ∃ A', rtc spec_step A A' ∧ models (db st') A' ∧ wf (container st') (db st') ∧ grows st st'.
Proof.
  intros Hw Hs HA E. apply reviseMetadata_ok in E as
    (raw & d & Hne & _ & Henc & [(_ & -> & _)|
     (old & s & parts & Hrev & Hp & _ & _ & Hd & _ & Hc)]); [by exists A| |done..].
  apply encodeRawMetadata_nonempty in Henc.
  destruct (revised_view A _ _ _ _ _ _ _ _ _ _ Hw Hrev HA)
    as (Hw' & vs & v & Hl & E1 & E2 & E3 & HA').
  rewrite (kept_content _ _ _ _ _ _ _ _ _ _ Hw Hrev Hc), Hp, Hd, <-E1, <-E2 in HA'.
  eexists. split_and!; [|exact HA'|done|apply (rev_grows _ _ _ _ _ _ _ _ _ _ Hrev)].
  apply rtc_once, spec_annotate; [done|congruence|done].
Qed.

Lemma import_each_refines (A : Spec) e n files s (st st' : Store) rs :
  wf (container st) (db st) → 4 <= schema st → models (db st) A →
  Forall (λ f, len (prepared_bytes f.1.1) <= INT64_MAX) files →
  sessions (db st) !! session_key s = Some s →
  import_each (H:=H) e n files s st = Ok (rs, st') →
  ∃ A', rtc spec_step A A' ∧ models (db st') A'.
Proof.
  intros Hw Hs HA Hlen Hses E. revert n A st rs Hw Hs HA Hses E.
  induction Hlen as [|[[prepared p] options] files Hl _ IH]; intros n A st rs Hw Hs HA Hses E;
    simpl in E; inv_ok; simplify_eq; [by exists A|].
  match goal with E : import_with _ _ _ _ _ _ _ _ = _ |- _ =>
    apply import_with_ok in E as (datas & Hc & _); [|done..] end.
  destruct (created_refines _ _ _ _ _ _ A Hw Hc HA) as (A1 & Hstep & HA1 & _).
  pose proof (cre_grows _ _ _ _ _ _ Hc) as (_ & Hsc & _).
  match goal with E : import_each _ _ _ _ _ = _ |- _ => rename E into Heach end.
  assert (sessions (db s0) !! session_key s = Some s) as Hses1
    by by rewrite (cre_sessions _ _ _ _ _ _ Hc).
  destruct (IH _ A1 _ _ (cre_wf _ _ _ _ _ _ Hc) ltac:(lia) HA1 Hses1 Heach)
    as (A2 & Hsteps & HA2).
  exists A2. split; [|done]. by eapply rtc_l.
Qed.

(** A session or a batch leaves objects alone or adds objects. *)
Lemma models_unchanged (A : Spec) (st st' : Store) :
  wf (container st) (db st) → grows st st' → objects (db st') = objects (db st) →
  models (db st) A → models (db st') A.
Proof.
  intros Hw (_ & _ & _ & He) Ho HA k. rewrite HA. symmetry. eapply view_same; [done..|].
  unfold find_object. by rewrite Ho.
Qed.

Lemma importFiles_refines (A : Spec) e files prepared session (st st' : Store) rs :
  wf (container st) (db st) → 4 <= schema st → models (db st) A →
  batch_read (ImportFiles e files prepared session) →
  importFiles (H:=H) e files prepared session st = (Ok rs, st') →
  ∃ A', rtc spec_step A A' ∧ models (db st') A'.
Proof.
  intros Hw Hs HA Hb E. unfold importFiles in E. case_match; [done|].
  apply transaction_ok in E. inv_ok. simplify_eq. destruct Hb as [Hlen _].
  match goal with E : getSession _ _ _ = _ |- _ => apply session_known in E; [|done] end.
  match goal with E : import_each _ _ _ _ _ = _ |- _ =>
    eapply (import_each_refines A) in E; [exact E|done|done|done| |done] end.
  by apply (batch_Forall (λ x, len (prepared_bytes x) <= INT64_MAX)).
Qed.

(** ** Every operation *)

Record good (st : Store) : Prop := {
  good_wf : wf (container st) (db st);
  good_schema : 4 <= schema st
}.

Lemma grows_good st st' : good st → grows st st' → wf (container st') (db st') → good st'.
Proof. intros [_ Hs] (_ & E & _) Hw. split; [done|lia]. Qed.

Lemma beginSession_objects e a d t c st s st' :
  beginSession e a d t c st = (Ok s, st') → objects (db st') = objects (db st).
Proof.
  intros E. unfold beginSession in E. ready E. unfold insert_session, insert_work_session in E.
  inv_ok. by simplify_eq.
Qed.

Lemma endSession_objects e k st u st' :
  endSession e k st = (Ok u, st') → objects (db st') = objects (db st).
Proof.
  intros E. unfold endSession in E. apply transaction_ok in E. unfold update_session_ended in E.
  inv_ok. by simplify_eq.
Qed.

Lemma run_ok_refines (A : Spec) op (st st' : Store) :
  good st → models (db st) A → batch_read op → run op st = (None, st') →
  wf (container st') (db st') ∧ grows st st' ∧
  ∃ A', rtc spec_step A A' ∧ models (db st') A'.
Proof.
  intros [Hw Hs] HA Hb E. destruct op; simpl in E;
  match type of E with (match ?x.1 with _ => _ end, _) = _ =>
    destruct x as [[r|m'] st1] eqn:E1; simpl in E; [|done]; injection E as -> end.
  - destruct (beginSession_ok _ _ _ _ _ _ _ _ Hw E1) as (Hw' & Hg & _). split_and!; [done..|].
    exists A. split; [done|]. apply (models_unchanged A st); [done..| |done]. by eapply beginSession_objects.
  - destruct (endSession_ok _ _ _ _ _ Hw E1) as (Hw' & Hg). split_and!; [done..|].
    exists A. split; [done|]. apply (models_unchanged A st); [done..| |done]. by eapply endSession_objects.
  - destruct (importFile_ok _ _ _ _ _ _ _ _ Hw Hs E1) as (s & datas & Hc & _).
    destruct (created_refines _ _ _ _ _ _ A Hw Hc HA) as (A' & Hstep & HA' & _).
    split_and!; [apply Hc..|]. exists A'. split; [by apply rtc_once|done].
  - assert (∀ sources, prepared = Ok sources →
      Forall (λ x, len (prepared_bytes x) <= INT64_MAX) sources ∧ length sources = length files)
      as Hb' by (intros sources ->; exact Hb).
    destruct (importFiles_ok _ _ _ _ _ _ _ Hw Hs Hb' E1) as (Hw' & Hg & _).
    split_and!; [done..|]. exact (importFiles_refines A _ _ _ _ _ _ _ Hw Hs HA Hb E1).
  - destruct (wrapRaw_ok _ _ _ _ _ _ _ _ _ Hw Hs E1) as (d & c & s & datas & _ & _ & Hc & _).
    destruct (created_refines _ _ _ _ _ _ A Hw Hc HA) as (A' & Hstep & HA' & _).
    split_and!; [apply Hc..|]. exists A'. split; [by apply rtc_once|done].
  - destruct (importDocument_ok _ _ _ _ _ _ _ _ _ Hw Hs E1)
      as (d & c & s & st2 & datas & datas' & _ & _ & Hc & Hc' & _).
    destruct (created_refines _ _ _ _ _ _ A Hw Hc HA) as (A1 & Hstep & HA1 & _).
    destruct (created_refines _ _ _ _ _ _ A1 (cre_wf _ _ _ _ _ _ Hc) Hc' HA1)
      as (A2 & Hstep' & HA2 & _).
    split_and!; [apply Hc'|etrans; [apply Hc|apply Hc']|].
    exists A2. split; [by eapply rtc_l, rtc_once|done].
  - destruct (reviseFile_refines A _ _ _ _ _ _ _ _ _ Hw Hs HA E1) as (A' & ? & ? & ? & ?).
    split_and!; [done..|]. exists A'. split; [by apply rtc_once|done].
  - destruct (reviseMetadata_refines A _ _ _ _ _ _ _ _ Hw Hs HA E1) as (A' & ? & ? & ? & ?).
    split_and!; [done..|]. by exists A'.
  - destruct (move_refines A _ _ _ _ _ _ _ _ _ Hw Hs HA E1) as (A' & ? & ? & ? & ?).
    split_and!; [done..|]. exists A'. split; [by apply rtc_once|done].
  - destruct (erase_refines A _ _ _ _ _ _ _ Hw Hs HA E1) as (A' & ? & ? & ? & ?).
    split_and!; [done..|]. exists A'. split; [by apply rtc_once|done].
Qed.

Lemma step_refines (A : Spec) (st st' : Store) :
  good st → models (db st) A → step st st' →
  good st' ∧ grows st st' ∧ ∃ A', rtc spec_step A A' ∧ models (db st') A'.
Proof.
  intros Hgood HA Hstep. destruct Hstep as [op st st' [m|] Hb E].
  - apply run_error in E. subst st'. split_and!; [exact Hgood|reflexivity|].
    exists A. by split.
  - destruct (run_ok_refines A op st st' Hgood HA Hb E) as (Hw' & Hg & HA').
    split_and!; [by eapply grows_good|done..].
Qed.

Lemma steps_refine (A : Spec) (st st' : Store) :
  good st → models (db st) A → rtc step st st' →
  good st' ∧ grows st st' ∧ ∃ A', rtc spec_step A A' ∧ models (db st') A'.
Proof.
  intros Hgood HA Hsteps. revert A Hgood HA.
  induction Hsteps as [st|st st1 st' Hstep Hsteps IH]; intros A Hgood HA.
  - split_and!; [done..|]. by exists A.
  - destruct (step_refines A _ _ Hgood HA Hstep) as (Hgood1 & Hg1 & A1 & HA1 & HM1).
    destruct (IH A1 Hgood1 HM1) as (Hgood' & Hg' & A' & HA' & HM').
    split_and!; [done|by etrans|]. exists A'. split; [by etrans|done].
Qed.

(** Models exist for every package of a good store: the view itself. *)
Lemma create_good c pages st : create_store c pages = Ok st → good st ∧ models (db st) ∅.
Proof.
  unfold create_store. intros E. inv_ok. split; [|apply models_nil].
  split; [|simpl; lia]. simpl. split; simpl; try done; try (by intros; set_solver); try lia.
  all: try by (constructor). all: try by intros * [? [=]].
  all: try by intros * ?%not_elem_of_nil.
Qed.
End spec.
