(* ===== verification/ObjectPaths.v ===== *)
(** Live paths of a package: which record a path shows, and how new objects and
    new versions change that. *)
From S2P Require Import Prelude Sha256 Table ObjectData ObjectPackage ObjectStore.
From S2P Require Import ObjectInvariant ObjectSteps ObjectPublish ObjectReach ObjectSpec.
Local Open Scope Z_scope.

Section paths.
Context {H : Type} {hashing : StreamHash H} {sqlite : SqliteJson}.

Abbreviation wf := (wf (H:=H)).
Abbreviation good := (good (H:=H)).

(** The live object at [p] has the head [r]. *)
Definition at_path (st : Store) (p : bytes) (r : ObjectRecord) : Prop :=
  ∃ i o, find_object (db st) (key r) = Some (i, o) ∧ object_path o = p ∧ object_deleted o = false ∧
    join_row (db st) (key r) (head_ o) = Some r.

Lemma join_row_key p k v r : join_row p k v = Some r → key r = k.
Proof. by intros (? & ? & ? & ? & _ & _ & _ & ->)%join_row_inv. Qed.

Lemma pathValid_bind p : pathValid p = Ok tt → bind p = Ok tt.
Proof.
  intros Hp. apply bind_text_ok. unfold pathValid, field in Hp. inv_ok. unfold bindable, bind_limit.
  match goal with E : (32768 <? _) = false |- _ => apply Z.ltb_ge in E end.
  destruct (Z.ltb_spec (2 * 1024 * 1024) (len p)); [lia|done].
Qed.

Lemma live_at_spec st p r : good st → live_at p st = Some r ↔ at_path st p r.
Proof.
  intros Hg. pose proof (good_wf _ Hg) as Hw. unfold live_at. split.
  - intros E. destruct (List.find _ _) as [[i o]|] eqn:Hf; [|done]. apply find_in in Hf as [Hin Hf]. simpl in *. inv_ok.
    pose proof (wf_object_unique _ _ Hw _ _ Hin) as Ho. pose proof (join_row_key _ _ _ _ E) as Hk.
    exists i, o. rewrite Hk. by split_and!.
  - intros (i & o & Ho & Hp & Hd & Hj). destruct (find_object_in _ _ _ _ Ho) as [Hin Hk].
    destruct (List.find _ _) as [[i' o']|] eqn:Hf.
    + apply find_in in Hf as [Hin' Hf]. simpl in *. inv_ok.
      assert (i' = i) as -> by (eapply (wf_live _ _ Hw); congruence || done).
      assert (o' = o) as -> by (by eapply ordered_fun; [apply (wf_objects _ _ Hw)|..]). by rewrite Hk.
    + apply (find_none _ _ _ Hf) in Hin. simpl in Hin. by rewrite bool_decide_true, Hd in Hin.
Qed.

Lemma lookupPath_at st p r : good st → lookupPath p st = Ok (Some r) ↔ pathValid p = Ok tt ∧ at_path st p r.
Proof.
  intros Hg. unfold lookupPath. destruct (pathValid p) as [[]|m] eqn:Hp; [|by split; [|intros [? _]]].
  cbn [mbind result_bind]. rewrite (pathValid_bind p Hp). cbn [mbind result_bind]. rewrite <-live_at_spec by done.
  split; [by intros [= ->]|by intros [_ ->]].
Qed.

Lemma lookupPath_free st p r : good st → lookupPath p st = Ok None → ¬ at_path st p r.
Proof.
  intros Hg E Ha. unfold lookupPath in E. inv_ok. apply (live_at_spec _ _ _ Hg) in Ha. congruence.
Qed.

Lemma at_path_path st p r : wf (container st) (db st) → at_path st p r → path r = p ∧ deleted r = false.
Proof.
  intros Hw (i & o & Ho & Hp & Hd & (i' & o' & row & s & Ho' & Hr & _ & ->)%join_row_inv).
  simpl in *. rewrite Ho in Ho'. injection Ho' as <- <-. destruct (find_object_in _ _ _ _ Ho) as [Hin Hk].
  destruct (wf_head _ _ Hw _ _ Hin) as (_ & _ & _ & Hrow). rewrite Hk in Hrow. destruct (Hrow _ Hr). simpl. by split; congruence.
Qed.

(** ** New objects *)

Lemma created_at_path st st' r s datas d : created (H:=H) st st' r s datas d → at_path st' (path r) r.
Proof.
  intros Hc. exists (indexKey r), {| object_key := key r; head_ := 1; object_path := path r; object_deleted := false |}.
  split_and!; [apply (cre_object _ _ _ _ _ _ Hc)|done|done|apply (cre_record _ _ _ _ _ _ Hc)].
Qed.

Lemma created_keeps st st' r s datas d q r' : created (H:=H) st st' r s datas d →
  at_path st q r' → at_path st' q r'.
Proof.
  intros Hc (i & o & Ho & Hp & Hd & Hj). exists i, o. split_and!; [|done|done|].
  - rewrite (cre_others _ _ _ _ _ _ Hc); [done|]. intros E. pose proof (cre_fresh _ _ _ _ _ _ Hc). congruence.
  - eapply join_row_extends; [apply (cre_grows _ _ _ _ _ _ Hc)|done].
Qed.

(** ** New versions *)

Lemma revised_at_path st st1 k expected old new s parts d st' :
  revised (H:=H) st st1 k expected old new s parts d st' → deleted new = false → at_path st' (path new) new.
Proof.
  intros Hr Hd. destruct (rev_publication _ _ _ _ _ _ _ _ _ _ Hr) as (r1 & i & t & _ & _ & Hk & Hv & Hp).
  destruct (res_fields _ _ _ _ _ _ _ _ _ Hp) as (F1 & _ & F3 & F4 & _ & _ & F7 & _).
  eexists i, _. rewrite F1, (res_object _ _ _ _ _ _ _ _ _ Hp). split_and!; [done|done|by simpl; rewrite <-F7|].
  cbn [head_]. apply (res_record _ _ _ _ _ _ _ _ _ Hp).
Qed.

Lemma revised_keeps st st1 k expected old new s parts d st' q r' : wf (container st) (db st) →
  revised (H:=H) st st1 k expected old new s parts d st' → q ≠ path old → at_path st q r' → at_path st' q r'.
Proof.
  intros Hw Hr Hq Ha. destruct (rev_publication _ _ _ _ _ _ _ _ _ _ Hr) as (r1 & i & t & Hg & Hobj & Hk & Hv & Hp).
  pose proof Ha as (i' & o' & Ho & Hpath & Hd & Hj).
  assert (key r' ≠ k) as Hne.
  { intros Hkey. rewrite Hkey in Ho, Hj. destruct (rev_head _ _ _ _ _ _ _ _ _ _ Hr) as (i2 & o2 & Ho2 & Hh).
    rewrite Ho in Ho2. injection Ho2 as <- <-. rewrite Hh, (rev_old _ _ _ _ _ _ _ _ _ _ Hr) in Hj. injection Hj as ->.
    by apply at_path_path in Ha as [? _]. }
  exists i', o'. split_and!; [|done|done|].
  - rewrite (res_others _ _ _ _ _ _ _ _ _ Hp) by congruence. unfold find_object. by rewrite Hobj.
  - eapply join_row_extends; [apply (rev_grows _ _ _ _ _ _ _ _ _ _ Hr)|done].
Qed.

(** ** The operations *)

Definition has_stamp (st : Store) (p stamp : bytes) : Prop :=
  pathValid p = Ok tt ∧ ∃ r, at_path st p r ∧ sourceStamp r = stamp.

Lemma import_with_valid e n input p s options raw st x : import_with (H:=H) e n input p s options raw st = Ok x →
  pathValid p = Ok tt.
Proof. unfold import_with. intros E. inv_ok. by match goal with E : pathValid p = Ok ?u |- _ => destruct u end. Qed.

Lemma importFile_paths e source p session options st r st' : good st →
  importFile (H:=H) e source p session options st = (Ok r, st') →
  at_path st' p r ∧ sourceStamp r = opt_sourceStamp options ∧ pathValid p = Ok tt ∧
  ∀ q r', at_path st q r' → at_path st' q r'.
Proof.
  intros [Hw Hs] E. assert (pathValid p = Ok tt) as Hv.
  { unfold importFile in E. apply transaction_ok in E. inv_ok. by eapply import_with_valid. }
  apply importFile_ok in E as (s & datas & Hc & _ & <- & Hst); [|done..].
  split_and!; [by eapply created_at_path|done|done|]. intros q r'. by eapply created_keeps.
Qed.

Lemma reviseFile_paths e k source expected session options st r st' p old : good st →
  reviseFile (H:=H) e k source expected session options st = (Ok r, st') →
  at_path st p old → key old = k →
  at_path st' p r ∧ sourceStamp r = opt_sourceStamp options ∧ ∀ q r', q ≠ p → at_path st q r' → at_path st' q r'.
Proof.
  intros [Hw Hs] E Ha Hk.
  apply reviseFile_ok in E as (st1 & old' & s & parts & datas & Hr & _ & _ & _ & _ & Hp & _ & Hd & _ & _ & Hst); [|done..].
  assert (old' = old) as ->.
  { destruct Ha as (i & o & Ho & _ & _ & Hj), (rev_head _ _ _ _ _ _ _ _ _ _ Hr) as (i' & o' & Ho' & Hh).
    rewrite Hk in *. rewrite Ho in Ho'. injection Ho' as <- <-. rewrite Hh, (rev_old _ _ _ _ _ _ _ _ _ _ Hr) in Hj.
    by injection Hj. }
  destruct (at_path_path _ _ _ Hw Ha) as [Hpath _]. rewrite Hpath in Hp.
  split_and!; [rewrite <-Hp; by eapply revised_at_path|done|]. intros q r' Hq. eapply revised_keeps; [done..|congruence].
Qed.

Lemma import_each_paths e n files s st rs st' : good st →
  Forall (λ f, len (prepared_bytes f.1.1) <= INT64_MAX) files →
  sessions (db st) !! session_key s = Some s →
  import_each (H:=H) e n files s st = Ok (rs, st') →
  Forall2 (λ r f, at_path st' f.1.2 r ∧ sourceStamp r = opt_sourceStamp f.2 ∧ pathValid f.1.2 = Ok tt) rs files ∧
  ∀ q r', at_path st q r' → at_path st' q r'.
Proof.
  intros [Hw Hs] Hlen Hses E. revert n st rs Hw Hs Hses E.
  induction Hlen as [|[[prepared p] options] files Hl _ IH]; intros n st rs Hw Hs Hses E; simpl in E.
  { inv_ok. simplify_eq. by split. }
  inv_ok. simplify_eq.
  match goal with E : import_with _ _ _ _ _ _ _ _ = _ |- _ => pose proof (import_with_valid _ _ _ _ _ _ _ _ _ E) as Hv;
    apply import_with_ok in E as (datas & Hc & _ & [_ Hst] & Hp); [|done..] end.
  match goal with E : import_each _ _ _ _ _ = _ |- _ => apply IH in E as [Hall Hkeep] end.
  - split; [|intros q r' ?; by eapply Hkeep, created_keeps]. constructor; [|done]. simpl. split_and!; [|done|done]. rewrite <-Hp.
    by eapply Hkeep, created_at_path.
  - apply (cre_wf _ _ _ _ _ _ Hc).
  - destruct (cre_grows _ _ _ _ _ _ Hc) as (_ & ? & _). lia.
  - by rewrite (cre_sessions _ _ _ _ _ _ Hc).
Qed.

Lemma importFiles_paths e files prepared session st rs st' : good st →
  batch_read (ImportFiles e files prepared session) →
  importFiles (H:=H) e files prepared session st = (Ok rs, st') →
  Forall2 (λ r f, at_path st' f.1 r ∧ sourceStamp r = opt_sourceStamp f.2 ∧ pathValid f.1 = Ok tt) rs files ∧
  ∀ q r', at_path st q r' → at_path st' q r'.
Proof.
  intros [Hw Hs] Hprep E. unfold importFiles in E. case_match; [done|].
  apply transaction_ok in E. inv_ok. simplify_eq.
  match goal with E : getSession _ _ _ = _ |- _ => apply session_known in E; [|done] end.
  match goal with _ : import_each _ _ (zip_with _ ?l _) _ _ = _ |- _ => rename l into sources end.
  destruct Hprep as [Hlen Hl].
  match goal with E : import_each _ _ _ _ _ = _ |- _ => apply import_each_paths in E as [Hall Hkeep]; [|done| |done] end.
  - split; [|done]. clear -Hall Hl. apply Forall2_same_length_lookup. split.
    + apply Forall2_length in Hall. rewrite length_zip_with in Hall. lia.
    + intros i r f Hr Hf. destruct (lookup_lt_is_Some_2 sources i) as [x Hx]; [apply lookup_lt_Some in Hf; lia|].
      eapply (Forall2_lookup_lr _ _ _ i) in Hall; [|exact Hr|rewrite lookup_zip_with, Hx; simpl; by rewrite Hf]. done.
  - by apply (batch_Forall (λ x, len (prepared_bytes x) <= INT64_MAX)).
Qed.
End paths.
