(* ===== verification/ObjectProperties.v ===== *)
(** The correctness of the object store, stated of its public operations. *)
From S2P Require Import Prelude Json MetadataCodec Sha256 Table ObjectData ObjectPackage.
From S2P Require Import ObjectStore ObjectInvariant ObjectSteps ObjectPublish ObjectReach.
From S2P Require Import ObjectValidate ObjectSpec ObjectPaths.
Local Open Scope Z_scope.

Section properties.
Context {H : Type} {hashing : StreamHash H} {sqlite : SqliteJson}.
Context (json_parse : bytes → option json).

Abbreviation step := (step (H:=H) json_parse).
Abbreviation reachable := (reachable (H:=H) json_parse).
Abbreviation wf := (wf (H:=H)).
Abbreviation good := (good (H:=H)).

(** ** Shared lemmas *)

Lemma reachable_good st : reachable st → good st ∧ ∃ A, rtc spec_step ∅ A ∧ models (db st) A.
Proof.
  intros (c & pages & st0 & E & Hsteps). destruct (create_good _ _ _ E) as [Hg HA].
  destruct (steps_refine _ ∅ _ _ Hg HA Hsteps) as (Hg' & _ & A & ? & ?). eauto.
Qed.

Lemma steps_good st st' : good st → (∃ A, models (db st) A) → rtc step st st' →
  good st' ∧ grows st st'.
Proof.
  intros Hg [A HA] Hsteps. by destruct (steps_refine _ A _ _ Hg HA Hsteps) as (? & ? & _).
Qed.

Lemma reachable_steps st st' : reachable st → rtc step st st' → reachable st'.
Proof. intros (c & pages & st0 & E & Hsteps) Hsteps'. exists c, pages, st0. split; [done|]. by etrans. Qed.

Lemma get_inv st k v r : good st → 1 <= v <= UINT64_MAX → get st k v = Ok (Some r) →
  ∃ i o row s, find_object (db st) k = Some (i, o) ∧ revision_of (db st) k v = Some row ∧
    sessions (db st) !! revision_session row = Some s ∧ r = record k i v row s ∧
    1 <= v <= head_ o ∧ head_ o <= INT64_MAX ∧ bindable k.
Proof.
  intros [Hw _] Hv E. unfold get in E. inv_ok.
  match goal with E : bind k = Ok _ |- _ => apply bind_text_ok in E end.
  destruct (find_object (db st) k) as [[i o]|] eqn:Ho; [|done]. simpl in E.
  destruct (Z.eqb_spec v 0); [lia|].
  apply join_row_inv in E as (i' & o' & row & s & Ho' & Hr & Hs & ->).
  rewrite Ho in Ho'. injection Ho' as <- <-.
  destruct (version_range _ _ _ _ _ _ _ Hw Ho Hr) as (Hrange & Hmax & _).
  assert (i64 v = v) as Ev.
  { unfold i64 in *. destruct (Z.leb_spec v INT64_MAX); [done|].
    exfalso. unfold INT64_MAX, UINT64_MAX in *. lia. }
  rewrite Ev in Hr, Hrange |- *. exists i, o, row, s.
  split_and!; [done|done|done|done|lia|lia|done|done].
Qed.

Lemma extract_parts_extends st st' d n parts w x :
  extends (db st) (db st') → extract_parts st d n parts w = Ok x →
  extract_parts st' d n parts w = Ok x.
Proof.
  intros He. revert n w. induction parts as [|part parts IH]; intros n w E; simpl in *; [done|].
  unfold read_chunk in *. inv_ok.
  match goal with E : bind _ = Ok _ |- _ => rewrite E end. simpl.
  match goal with E : chunk_data _ !! _ = Some _ |- _ => rewrite (ext_chunks _ _ He _ _ E) end. simpl.
  match goal with E : writes d n = true |- _ => rewrite E end. simpl. by apply IH.
Qed.

Lemma read_extends st st' k v row :
  grows st st' → 0 <= v <= INT64_MAX → revision_of (db st) k v = Some row →
  chunks st' k v = chunks st k v ∧ rawDocument st' k v = rawDocument st k v.
Proof.
  intros (_ & Hs & _ & He) Hv Hr. destruct (ext_revisions _ _ He _ _ _ Hr) as (_ & Hraw & Hparts).
  unfold chunks, rawDocument. rewrite Hs, i64_id, Hraw, Hparts by done. done.
Qed.

Lemma get_extends st st' k v r :
  good st → grows st st' → 1 <= v <= UINT64_MAX → get st k v = Ok (Some r) →
  get st' k v = Ok (Some r).
Proof.
  intros Hg (_ & _ & _ & He) Hv E.
  destruct (get_inv _ _ _ _ Hg Hv E) as (i & o & row & s & Ho & Hr & Hs & -> & Hv' & Hm & Hb).
  assert (join_row (db st) k v = Some (record k i v row s)) as Hj.
  { unfold join_row. rewrite Ho. simpl. rewrite Hr. simpl. by rewrite Hs. }
  unfold get. rewrite bind_text by done. simpl.
  destruct (ext_objects _ _ He _ _ _ Ho) as (o' & -> & _). simpl.
  destruct (Z.eqb_spec v 0); [lia|]. rewrite i64_id by lia.
  by rewrite (join_row_extends _ _ _ _ _ He Hj).
Qed.

Lemma validate_get st k v r payload :
  good st → 1 <= v <= UINT64_MAX → get st k v = Ok (Some r) →
  validate (H:=H) st k v payload = Ok true.
Proof.
  intros Hg Hv E. destruct (get_inv _ _ _ _ Hg Hv E) as (i & o & row & s & Ho & _ & _ & _ & Hv' & _).
  destruct Hg as [Hw Hs]. by eapply validate_wf.
Qed.

Lemma get_join st k v r : good st → join_row (db st) k v = Some r →
  get st k v = Ok (Some r) ∧ 1 <= v <= INT64_MAX.
Proof.
  intros [Hw _] (i & o & row & s & Ho & Hr & Hs & ->)%join_row_inv.
  destruct (version_range _ _ _ _ _ _ _ Hw Ho Hr) as (Hv & Hm & Hb).
  destruct (get_ok _ _ _ _ _ _ _ Hw Ho Hr) as (s' & Hs' & ->).
  split; [congruence|lia].
Qed.

(** ** Extraction *)

(** A destination at which everything succeeds. *)
Definition accepting (d : Destination) (output : bytes) : Prop :=
  target d = Ok output ∧ occupied d = false ∧ lease d = Ok tt ∧ staged d = true ∧
  (∀ n, writes d n = true) ∧ flushed d = true ∧ synchronized d = true ∧ closed d = true ∧
  link d = Ok tt.

Lemma extract_parts_ok cont st d n parts datas w :
  wf cont (db st) → (∀ n, writes d n = true) → Forall2 (part_data (db st)) parts datas →
  extract_parts st d n parts w = Ok (w ++ concat datas).
Proof.
  intros Hw Hwrites H2. revert n w. induction H2 as [|part data parts datas [Hd _] _ IH]; intros n w.
  - by rewrite app_nil_r.
  - simpl. destruct (wf_chunk _ _ Hw _ _ Hd) as (_ & _ & Hb).
    unfold read_chunk. rewrite bind_text by done. simpl. rewrite Hd. simpl.
    rewrite Hwrites. simpl. by rewrite IH, <-app_assoc.
Qed.

Lemma extract_version e st k v r datas d output :
  good st → join_row (db st) k v = Some r → deleted r = false →
  revision_payload (db st) k v datas → well_chunked datas → accepting d output →
  commit_error e = None → extract (H:=H) e k v d st = Ok (output, concat datas).
Proof.
  intros Hg Hj Hd (parts & Hrows & H2) Hc (T & O & L & S & W & F & Y & C & K) Hcommit.
  destruct (get_join _ _ _ _ Hg Hj) as [E Hv]. pose proof Hg as [Hw Hs].
  assert (validate (H:=H) st k v true = Ok true) as Hvalid
    by (eapply validate_get; [done| |done]; unfold INT64_MAX, UINT64_MAX in *; lia).
  assert (chunks st k v = Ok parts) as Hparts.
  { destruct (join_row_inv _ _ _ _ Hj) as (i & o & row & s & Ho & Hr & _).
    destruct (version_range _ _ _ _ _ _ _ Hw Ho Hr) as (_ & _ & Hb).
    unfold chunks. rewrite bind_text by done. simpl. rewrite i64_id by lia.
    rewrite Hrows. by eapply contiguous_rows. }
  pose proof (extract_parts_ok _ _ d 0 _ _ [] Hw W H2) as Hx.
  unfold extract, snapshot. rewrite Hcommit. by replay_ok.
Qed.

Lemma extract_later e st st' k v r datas d output :
  good st → good st' → grows st st' → join_row (db st) k v = Some r → deleted r = false →
  revision_payload (db st) k v datas → well_chunked datas → accepting d output →
  commit_error e = None → extract (H:=H) e k v d st' = Ok (output, concat datas).
Proof.
  intros Hg Hg' Hgr Hj Hd (parts & Hrows & H2) Hc Ha Hcommit. pose proof Hgr as (_ & _ & _ & He).
  destruct (join_row_inv _ _ _ _ Hj) as (i & o & row & s & Ho & Hr & _).
  destruct (ext_revisions _ _ He _ _ _ Hr) as (_ & _ & Hsame).
  eapply extract_version; try done; [by eapply join_row_extends|].
  exists parts. rewrite Hsame. split; [done|].
  eapply Forall2_impl; [exact H2|]. intros ??. by apply part_data_extends.
Qed.

(** ** Heads *)

Lemma lookup_head st k i o r :
  good st → find_object (db st) k = Some (i, o) → join_row (db st) k (head_ o) = Some r →
  lookup k st = Ok (Some r).
Proof.
  intros Hg Ho Hj. unfold lookup. destruct (join_row_inv _ _ _ _ Hj) as (i' & o' & row & s & _ & Hr & _).
  rewrite (get_head _ _ _ _ _ _ (good_wf _ Hg) Ho Hr). by apply get_join.
Qed.

Lemma lookup_inv st k r : good st → lookup k st = Ok (Some r) →
  ∃ i o row s, find_object (db st) k = Some (i, o) ∧ revision_of (db st) k (head_ o) = Some row ∧
    sessions (db st) !! revision_session row = Some s ∧ r = record k i (head_ o) row s ∧
    1 <= head_ o <= INT64_MAX ∧ revision_path row = object_path o ∧
    revision_deleted row = object_deleted o.
Proof.
  intros [Hw _] E. unfold lookup, get in E. inv_ok.
  destruct (find_object (db st) k) as [[i o]|] eqn:Ho; [|done]. simpl in E.
  apply join_row_inv in E as (i' & o' & row & s & Ho' & Hr & Hs & ->).
  rewrite Ho in Ho'. injection Ho' as <- <-.
  destruct (version_range _ _ _ _ _ _ _ Hw Ho Hr) as (Hv & Hm & _).
  destruct (find_object_in _ _ _ _ Ho) as [Hin Hk].
  destruct (wf_head _ _ Hw _ _ Hin) as (_ & _ & _ & Hrow). rewrite Hk in Hrow.
  destruct (Hrow _ Hr). exists i, o, row, s. split_and!; done || lia.
Qed.

Lemma lookup_at_path st k r : good st → lookup k st = Ok (Some r) → deleted r = false → at_path st (path r) r.
Proof.
  intros Hg Hl Hd. apply lookup_inv in Hl as (i & o & row & s & Ho & Hrow & Hs & -> & _ & E1 & E2); [|done].
  simpl in Hd. exists i, o. simpl. split_and!; [done|congruence..|].
  unfold join_row. rewrite Ho. simpl. rewrite Hrow. simpl. by rewrite Hs.
Qed.

(** An operation that records the next version of [k] in place of [expected]. *)
Inductive replaces (k : bytes) (expected : Z) (st : Store) (r : ObjectRecord) (st' : Store) : Prop :=
  | by_revise e source session options :
      reviseFile (H:=H) e k source expected session options st = (Ok r, st') →
      replaces k expected st r st'
  | by_annotate e metadata session :
      reviseMetadata (H:=H) json_parse e k metadata expected session st = (Ok r, st') →
      version r ≠ expected → replaces k expected st r st'
  | by_move e p session options :
      move (H:=H) e k p expected session options st = (Ok r, st') → replaces k expected st r st'
  | by_erase e session :
      erase (H:=H) e k expected session st = (Ok r, st') → replaces k expected st r st'.

Lemma replaces_revised k expected st r st' : good st → replaces k expected st r st' →
  ∃ st1 old s parts d, revised (H:=H) st st1 k expected old r s parts d st'.
Proof.
  intros [Hw Hs] [e source session options E|e metadata session E Hne|e p session options E|e session E].
  - apply reviseFile_ok in E as (st1 & old & s & parts & datas & Hrev & _); [|done..]. eauto 10.
  - apply reviseMetadata_ok in E as (raw & d & _ & _ & _ & [(_ & _ & Hv & _)|
      (old & s & parts & Hrev & _)]); [done| |done..]. eauto 10.
  - apply move_ok in E as (old & s & parts & Hrev & _); [|done..]. eauto 10.
  - apply erase_ok in E as (old & s & Hrev & _); [|done..]. eauto 10.
Qed.

Lemma replaces_step k expected st r st' : replaces k expected st r st' → step st st'.
Proof.
  intros [e source session options E|e metadata session E Hne|e p session options E|e session E].
  - apply (step_run _ (ReviseFile e k source expected session options) _ _ None); [done|].
    simpl. by rewrite E.
  - apply (step_run _ (ReviseMetadata e k metadata expected session) _ _ None); [done|].
    simpl. by rewrite E.
  - apply (step_run _ (Move e k p expected session options) _ _ None); [done|].
    simpl. by rewrite E.
  - apply (step_run _ (Erase e k expected session) _ _ None); [done|]. simpl. by rewrite E.
Qed.

(** ** RAW objects in the specification *)

(** Every version of [k] carries an annotation document, and every live one the
    bytes [c]. *)
Definition raw_versions (c k : bytes) (A : Spec) : Prop :=
  ∃ vs, A !! k = Some vs ∧
    Forall (λ w, v_document w ≠ [] ∧ (v_deleted w = false → v_content w = c)) vs.

Lemma raw_versions_snoc (c k : bytes) (A : Spec) vs v v' :
  raw_versions c k A → live_head A k vs v →
  (v_document v ≠ [] → v_content v = c →
    v_document v' ≠ [] ∧ (v_deleted v' = false → v_content v' = c)) →
  raw_versions c k (<[k := vs ++ [v']]> A).
Proof.
  intros (ws & E & Hall) (E' & Hl & Hd) Hv. rewrite E in E'. injection E' as ->.
  eexists. split; [by rewrite lookup_insert_eq|]. apply Forall_app. split; [done|].
  constructor; [|done]. apply last_Some_elem_of in Hl. rewrite Forall_forall in Hall.
  destruct (Hall _ Hl) as [H1 H2]. by apply Hv; [|apply H2].
Qed.

Lemma raw_versions_step (c k : bytes) (A A' : Spec) : spec_step A A' → raw_versions c k A → raw_versions c k A'.
Proof.
  intros Hstep Hraw.
  assert (∀ k' vs, k' ≠ k → raw_versions c k (<[k' := vs]> A)) as Hother.
  { intros k' vs Hne. destruct Hraw as (ws & E & Hall). exists ws. by rewrite lookup_insert_ne. }
  destruct Hstep as [A k' p c' d Hn _|A k' vs v c' Hl Hdoc|A k' vs v p Hl _|A k' vs v d Hl _ Hd
                    |A k' vs v Hl];
    (destruct (decide (k' = k)) as [->|]; [|by apply Hother]).
  - destruct Hraw as (ws & E & _). congruence.
  - by eapply raw_versions_snoc.
  - by eapply raw_versions_snoc; [done..|].
  - by eapply raw_versions_snoc; [done..|].
  - by eapply raw_versions_snoc; [done..|].
Qed.

Lemma raw_versions_steps (c k : bytes) (A A' : Spec) :
  rtc spec_step A A' → raw_versions c k A → raw_versions c k A'.
Proof. induction 1; [done|]. intros ?. by apply IHrtc, (raw_versions_step _ _ x). Qed.

Lemma view_version (A : Spec) st (k : bytes) v r :
  good st → models (db st) A → 1 <= v <= UINT64_MAX → get st k v = Ok (Some r) →
  ∃ vs, A !! k = Some vs ∧ {| v_path := path r; v_content := content_at (db st) k v;
    v_document := default [] (raw_revisions (db st) !! (k, v)); v_deleted := deleted r |} ∈ vs.
Proof.
  intros Hg HA Hv E.
  destruct (get_inv _ _ _ _ Hg Hv E) as (i & o & row & s & Ho & Hr & Hs & -> & Hv' & _).
  rewrite HA. unfold view. rewrite Ho. simpl. eexists. split; [done|].
  apply list_elem_of_omap. exists v. split; [apply elem_of_seqZ; lia|].
  unfold version_at. by rewrite Hr.
Qed.

Lemma get_payload st k v r :
  good st → 1 <= v <= UINT64_MAX → get st k v = Ok (Some r) → deleted r = false →
  join_row (db st) k v = Some r ∧ ∃ datas, revision_payload (db st) k v datas ∧ well_chunked datas ∧
    concat datas = content_at (db st) k v.
Proof.
  intros Hg Hv E Hd.
  destruct (get_inv _ _ _ _ Hg Hv E) as (i & o & row & s & Ho & Hr & Hs & -> & Hv' & _).
  split.
  - unfold join_row. rewrite Ho. simpl. rewrite Hr. simpl. by rewrite Hs.
  - destruct (rv_payload _ _ _ _ _ _ (wf_revision _ _ (good_wf _ Hg) _ _ _ _ _ Ho Hr) Hd)
      as (datas & Hp & Hc & _).
    exists datas. split_and!; [done..|]. symmetry. by apply content_datas.
Qed.

(** ** Properties *)

(** C1 The object store implements its specification.  A process that creates a
    package and then calls the public operations in any order, with any answers
    of the clock, the random source, the filesystem and the stop tokens, always
    holds a package whose view is a state of the specification reached by its
    transitions from the empty map; and whatever operation runs next, succeeding
    or failing, moves that view by transitions of the specification. *)
Theorem store_refines_specification st : reachable st →
  ∃ A, rtc spec_step ∅ A ∧ models (db st) A ∧
    ∀ st', step st st' → ∃ A', rtc spec_step A A' ∧ models (db st') A'.
Proof.
  intros Hr. destruct (reachable_good _ Hr) as [Hg (A & HA & HM)].
  exists A. split_and!; [done..|]. intros st' Hstep.
  by destruct (step_refines _ A _ _ Hg HM Hstep) as (_ & _ & ?).
Qed.

(** C2 A package only ever contains what its own validation accepts: in every
    reachable store, every version of every object that can be read passes
    [validate], with the whole chain of validation keys and with the payload
    rehashed chunk by chunk. *)
Theorem reachable_store_validates st k v r payload :
  reachable st → 1 <= v <= UINT64_MAX → get st k v = Ok (Some r) →
  validate (H:=H) st k v payload = Ok true.
Proof. intros Hr. destruct (reachable_good _ Hr) as [Hg _]. by apply validate_get. Qed.

(** C3 History is immutable.  Once a version of an object has been recorded,
    every later operation leaves its record, its RAW document and its payload as
    they were: reading it gives the same record, and extracting it gives the same
    bytes, after the object has been revised, moved or erased, and after its work
    session has ended. *)
Theorem history_is_immutable st st' k v r :
  reachable st → rtc step st st' → 1 <= v <= UINT64_MAX → get st k v = Ok (Some r) →
  get st' k v = Ok (Some r) ∧ rawDocument st' k v = rawDocument st k v ∧
  chunks st' k v = chunks st k v ∧
  ∀ e d x, extract (H:=H) e k v d st = Ok x → extract (H:=H) e k v d st' = Ok x.
Proof.
  intros Hr Hsteps Hv E. destruct (reachable_good _ Hr) as [Hg (A & _ & HA)].
  destruct (steps_good st st' Hg (ex_intro _ A HA) Hsteps) as [Hg' Hgr].
  pose proof (get_extends _ _ _ _ _ Hg Hgr Hv E) as E'.
  destruct (get_inv _ _ _ _ Hg Hv E) as (i & o & row & s & Ho & Hrow & _ & _ & Hv' & Hm & _).
  destruct (read_extends _ _ k v row Hgr ltac:(lia) Hrow) as [Hc Hraw].
  split_and!; [done..|]. intros e d x. unfold extract, snapshot.
  rewrite E, E', (validate_get _ _ _ _ true Hg Hv E), (validate_get _ _ _ _ true Hg' Hv E'), Hc.
  destruct (commit_error e); intros Hx; inv_ok.
  match goal with E : extract_parts _ _ _ _ _ = _ |- _ =>
    apply (extract_parts_extends _ st') in E; [|apply Hgr] end.
  simplify_eq. by replay_ok.
Qed.

(** C4 What is imported can be extracted, for ever.  After a successful import or
    revision from a file, whatever operations follow, extracting the version that
    was recorded to a destination that accepts it creates a file with exactly the
    bytes the source delivered. *)
Theorem stored_bytes_come_back st st1 st2 e e' k source p expected session options r d output :
  reachable st →
  importFile (H:=H) e source p session options st = (Ok r, st1) ∨
  reviseFile (H:=H) e k source expected session options st = (Ok r, st1) →
  rtc step st1 st2 → accepting d output → commit_error e' = None →
  extract (H:=H) e' (key r) (version r) d st2 = Ok (output, content source).
Proof.
  intros Hr Hop Hsteps Ha Hcommit. destruct (reachable_good _ Hr) as [Hg (A & _ & HA)].
  assert (∃ op, batch_read op ∧ run (H:=H) json_parse op st = (None, st1)) as (op & Hb & Hrun).
  { destruct Hop as [E|E]; [exists (ImportFile e source p session options)
                           |exists (ReviseFile e k source expected session options)];
      (split; [done|]); simpl; by rewrite E. }
  destruct (step_refines json_parse A st st1 Hg HA) as (Hg1 & Hgr & A1 & _ & HA1);
    [by econstructor|].
  destruct (steps_good st1 st2 Hg1 (ex_intro _ A1 HA1) Hsteps) as [Hg2 Hgr2].
  destruct Hg as [Hw Hs]. destruct Hop as [E|E].
  - apply importFile_ok in E as (s & datas & Hc & <- & _); [|done..].
    destruct (cre_parts _ _ _ _ _ _ Hc) as (parts & Hrows & H2 & Hck).
    destruct (cre_fields _ _ _ _ _ _ Hc) as (Hv & Hd & _). rewrite Hv.
    eapply extract_later; [exact Hg1|done|done|apply (cre_record _ _ _ _ _ _ Hc)|done| |done|done|done].
    by exists parts.
  - apply reviseFile_ok in E as
      (st0 & old & s & parts & datas & Hrev & _ & <- & H2 & Hck & _ & _ & Hd & _); [|done..].
    destruct (rev_new _ _ _ _ _ _ _ _ _ _ Hrev) as (-> & -> & _).
    destruct (rev_publication _ _ _ _ _ _ _ _ _ _ Hrev) as (r1 & i & t & _ & _ & <- & Hv & Hpub).
    pose proof (res_record _ _ _ _ _ _ _ _ _ Hpub) as Hj.
    pose proof (res_parts _ _ _ _ _ _ _ _ _ Hpub) as Hrows. rewrite Hv in Hj, Hrows.
    eapply extract_later; [exact Hg1|done|done|exact Hj|done| |done|done|done].
    by exists parts.
Qed.

(** C5 No update is lost.  A revision, move, erasure or annotation that names an
    expected version succeeds only when that version is the live head; it then
    records exactly the next version, chained to the head it replaced, and from
    then on no operation that expects the old version ever succeeds again. *)
Theorem no_lost_update st st1 k expected r :
  reachable st → replaces k expected st r st1 →
  (∃ old, lookup k st = Ok (Some old) ∧ version old = expected ∧ deleted old = false ∧
     parentValidationKey r = validationKey old) ∧
  lookup k st1 = Ok (Some r) ∧ version r = expected + 1 ∧
  ∀ st2 r' st3, rtc step st1 st2 → ¬ replaces k expected st2 r' st3.
Proof.
  intros Hr Hrep. destruct (reachable_good _ Hr) as [Hg (A & _ & HA)].
  destruct (step_refines json_parse A st st1 Hg HA (replaces_step _ _ _ _ _ Hrep))
    as (Hg1 & Hgr & A1 & _ & HA1).
  destruct (replaces_revised _ _ _ _ _ Hg Hrep) as (st0 & old & s & parts & d & Hrev).
  destruct Hrev as [Hold (i & o & Ho & Hhead) Hrange (Hl & Hv & Hk) _ (Hkn & Hvn & Hpn) _
    (r1 & j & t & _ & _ & Hk1 & Hv1 & Hpub)].
  pose proof (res_object _ _ _ _ _ _ _ _ _ Hpub) as Ho1. rewrite Hk1, Hv1 in Ho1.
  pose proof (res_record _ _ _ _ _ _ _ _ _ Hpub) as Hj. rewrite Hk1, Hv1 in Hj.
  split_and!.
  - exists old. split_and!; [|done..]. eapply lookup_head; [done|exact Ho|by rewrite Hhead].
  - by eapply lookup_head; [done|exact Ho1|].
  - done.
  - intros st2 r' st3 Hsteps Hrep'.
    destruct (steps_good st1 st2 Hg1 (ex_intro _ A1 HA1) Hsteps) as [Hg2 (_ & _ & _ & He)].
    destruct (replaces_revised _ _ _ _ _ Hg2 Hrep') as (st0' & old' & s' & parts' & d' & Hrev').
    destruct (rev_head _ _ _ _ _ _ _ _ _ _ Hrev') as (i' & o' & Ho' & Hhead').
    destruct (ext_objects _ _ He _ _ _ Ho1) as (o'' & Ho'' & Hle). simpl in Hle.
    rewrite Ho' in Ho''. simplify_eq. lia.
Qed.

(** C15 A path names at most one live object, and [lookupPath] finds it.  What it
    returns is the live head of some object, at that path; and the live head of
    any object is what looking its path up returns, so two live objects never
    share a path. *)
Theorem lookupPath_exact st p :
  reachable st → pathValid p = Ok tt →
  (∀ r, lookupPath p st = Ok (Some r) →
     lookup (key r) st = Ok (Some r) ∧ deleted r = false ∧ path r = p) ∧
  (∀ k r, lookup k st = Ok (Some r) → deleted r = false → path r = p →
     lookupPath p st = Ok (Some r)).
Proof.
  intros Hr Hp. destruct (reachable_good _ Hr) as [Hg _]. pose proof (good_wf _ Hg) as Hw. split.
  - intros r [_ Ha]%lookupPath_at; [|done]. destruct (at_path_path _ _ _ Hw Ha) as [Hpath Hd].
    destruct Ha as (i & o & Ho & _ & _ & Hj). split_and!; [by eapply lookup_head|done..].
  - intros k r Hl Hd <-. apply lookupPath_at; [done|]. split; [done|]. by eapply lookup_at_path.
Qed.

(** C20 A RAW original is immutable.  After [wrapRaw] has captured a source, every
    live version of the object, whatever annotations, moves or other operations
    produced it, holds the captured bytes: it extracts to exactly them.  (A
    payload revision of such an object never succeeds.) *)
Theorem raw_original_is_immutable st st1 st2 e source p metadata session options r v r' :
  reachable st →
  wrapRaw (H:=H) e source p metadata session options st = (Ok r, st1) →
  rtc step st1 st2 → 1 <= v <= UINT64_MAX →
  get st2 (key r) v = Ok (Some r') → deleted r' = false →
  ∃ captured, source = Ok captured ∧
    ∀ e' d output, accepting d output → commit_error e' = None →
      extract (H:=H) e' (key r) v d st2 = Ok (output, content (captured_file captured)).
Proof.
  intros Hr E Hsteps Hv Hget Hd. destruct (reachable_good _ Hr) as [Hg (A & _ & HA)].
  pose proof Hg as [Hw Hs].
  apply wrapRaw_ok in E as (document & captured & s & datas & Henc & -> & Hc & Hdata & _); [|done..].
  destruct (created_refines _ _ _ _ _ _ A Hw Hc HA) as (A1 & _ & HA1 & Hk).
  assert (good st1) as Hg1 by (eapply grows_good; [done|apply Hc..]).
  destruct (steps_refine json_parse A1 _ _ Hg1 HA1 Hsteps) as (Hg2 & _ & A2 & HA2 & HM2).
  assert (raw_versions (concat datas) (key r) A1) as Hraw.
  { eexists. split; [exact Hk|]. constructor; [|done]. simpl. split; [|done].
    by eapply encodeRawMetadata_nonempty. }
  apply (raw_versions_steps _ _ _ _ HA2) in Hraw as (vs & Hvs & Hall).
  destruct (view_version A2 _ _ _ _ Hg2 HM2 Hv Hget) as (vs' & Hvs' & Hin).
  rewrite Hvs in Hvs'. injection Hvs' as <-. rewrite Forall_forall in Hall.
  destruct (Hall _ Hin) as [_ Hcontent]. specialize (Hcontent Hd). simpl in Hcontent.
  destruct (get_payload _ _ _ _ Hg2 Hv Hget Hd) as (Hj & datas' & Hp & Hck & Hdatas').
  exists captured. split; [done|]. intros e' d output Ha Hcommit.
  rewrite <-Hdata, <-Hcontent, <-Hdatas'. by eapply extract_version.
Qed.
End properties.
