(* ===== verification/ObjectKeys.v ===== *)
(** The validation key of a revision as evidence: what is hashed determines the
    record, so a changed record with an unchanged key is a SHA-256 collision. *)
From S2P Require Import Prelude Json MetadataCodec Sha256 Table ObjectData ObjectPackage.
From S2P Require Import ObjectStore.
Local Open Scope Z_scope.

(** ** The framing of values *)

(** What the hash sees of a list of values. *)
Definition frame (values : list bytes) : bytes := concat (values ≫= add_pieces).

Lemma frame_cons v vs : frame (v :: vs) = to_string (len v) ++ lit ":" ++ v ++ frame vs.
Proof. done. Qed.

Lemma colon_not_digit : ¬ is_digit ":"%char.
Proof. by intros Hd; vm_compute in Hd. Qed.

(** A decimal prefix ends where the first non-digit is. *)
Lemma digits_prefix d1 d2 c x y :
  Forall is_digit d1 → Forall is_digit d2 → ¬ is_digit c →
  d1 ++ c :: x = d2 ++ c :: y → d1 = d2 ∧ x = y.
Proof.
  intros H1. revert d2. induction H1 as [|a d1 Ha _ IH]; intros d2 H2 Hc E.
  - destruct H2 as [|b d2 Hb]; simpl in E; [by injection E|]. by injection E as -> _.
  - destruct H2 as [|b d2 Hb H2]; simpl in E; [by injection E as -> _|].
    injection E as -> E. by destruct (IH _ H2 Hc E) as [-> ->].
Qed.

Lemma frame_inj vs ws : frame vs = frame ws → vs = ws.
Proof.
  revert ws. induction vs as [|v vs IH]; intros [|w ws]; [done|..].
  - rewrite frame_cons. intros E. apply (f_equal length) in E. revert E.
    rewrite !length_app. simpl. lia.
  - rewrite frame_cons. intros E. apply (f_equal length) in E. revert E.
    rewrite !length_app. simpl. lia.
  - rewrite !frame_cons. intros E.
    apply digits_prefix in E as [El E];
      [|by apply to_string_digits; lia..|apply colon_not_digit].
    apply (inj to_string) in El. apply Nat2Z.inj in El.
    apply app_inj_1 in E as [-> E]; [|done]. by rewrite (IH _ E).
Qed.

(** ** The values of a record *)

(** Everything a validation key vouches for. *)
Definition evidence (r : ObjectRecord) (s : ObjectSession) (container context raw : bytes) :=
  ((container, key r, indexKey r, version r, path r), (sha256 r, size r, author r),
   (sessionKey r, recordedAtNs r, operation r, deleted r, parentValidationKey r),
   (authorship r, sourceStamp r), (device s, session_description s, startedAtNs s),
   (context, raw)).

Lemma optional_inj tag1 tag2 c c' x x' :
  tag1 ≠ tag2 →
  (if bool_decide (c = []) then [] else [tag1; c]) ++
    (if bool_decide (x = []) then [] else [tag2; x]) =
  (if bool_decide (c' = []) then [] else [tag1; c']) ++
    (if bool_decide (x' = []) then @nil bytes else [tag2; x']) →
  c = c' ∧ x = x'.
Proof. intros Hne E. by repeat case_bool_decide; simpl in *; simplify_eq. Qed.

Lemma key_values_inj r s c x raw r' s' c' x' raw' :
  schemaVersion r = 2 → schemaVersion r' = 2 →
  key_values r s c x raw = key_values r' s' c' x' raw' →
  evidence r s c x raw = evidence r' s' c' x' raw'.
Proof.
  intros Hs Hs'. unfold key_values, key_format. rewrite Hs, Hs'.
  cbn [Z.eqb Pos.eqb app].
  intros [= E1 E2 E3 E4 E5 E6 E7 E8 E9 E10 E11 E12 E13 E14 E15 E16 E17 E18 E19 E20 E21 E22 E23 E].
  apply optional_inj in E as [-> ->]; [|done].
  apply (inj to_string) in E3, E4, E7, E12, E18.
  assert (deleted r = deleted r') as Ed.
  { clear - E14. by destruct (deleted r), (deleted r'). }
  unfold evidence.
  destruct (author r) as [? ? ? [? ?]], (author r') as [? ? ? [? ?]].
  destruct (authorship r), (authorship r'). simpl in *. congruence.
Qed.

(** ** Keys *)
Section keys.
Context {H : Type} {hashing : StreamHash H} {laws : StreamHashLaws H}.

Lemma validationKey_digest r s c x raw k :
  schemaVersion r = 2 → validationKey_of (H:=H) r s c x raw = Ok k →
  k = lit "society-object-v2:" ++ hash_digest (H:=H) (frame (key_values r s c x raw)).
Proof.
  intros Hs E. unfold validationKey_of in E. inv_ok. unfold key_format. rewrite Hs.
  match goal with E : hash_run _ = Ok _ |- _ => rewrite hash_run_spec in E;
    destruct (_ <=? _); [injection E as <-|done] end.
  done.
Qed.

(** C19 A validation key vouches for everything recorded.  If two current records
    have the same validation key, then they agree on the container, the key, the
    index key, the version, the path, the digest and size of the payload, the
    author with the profile, the session, the time, the operation, the tombstone
    flag, the parent key, the provenance document, the source stamp, the session's
    device, description and start, the session context and the RAW document; or
    else the two framed texts are an explicit collision of the hash. *)
Theorem validation_key_is_evidence r s c x raw r' s' c' x' raw' k :
  schemaVersion r = 2 → schemaVersion r' = 2 →
  validationKey_of (H:=H) r s c x raw = Ok k →
  validationKey_of (H:=H) r' s' c' x' raw' = Ok k →
  evidence r s c x raw = evidence r' s' c' x' raw' ∨
  (frame (key_values r s c x raw) ≠ frame (key_values r' s' c' x' raw') ∧
   hash_digest (H:=H) (frame (key_values r s c x raw)) =
     hash_digest (H:=H) (frame (key_values r' s' c' x' raw'))).
Proof.
  intros Hs Hs' E E'. apply validationKey_digest in E, E'; [|done..].
  destruct (decide (frame (key_values r s c x raw) = frame (key_values r' s' c' x' raw')))
    as [Hf|Hne].
  - left. by apply key_values_inj, frame_inj.
  - right. split; [done|]. rewrite E in E'. by apply app_inv_head in E'.
Qed.
End keys.
