(* ===== verification/ObjectQueries.v ===== *)
(** The paged queries, the compact index, the journal and the binary diff. *)
From S2P Require Import Prelude Json MetadataCodec Sha256 Table ObjectData ObjectPackage.
From S2P Require Import ObjectStore ObjectInvariant ObjectSteps ObjectPublish ObjectReach.
From S2P Require Import ObjectValidate ObjectSpec ObjectProperties.
Local Open Scope Z_scope.

(** ** Projections of tables *)
Section tables.
Context {A B : Type} (g : Z * A → option B).

Lemma omap_Forall2 (l : list (Z * A)) : Forall (λ r, is_Some (g r)) l →
  Forall2 (λ r b, g r = Some b) l (omap g l).
Proof. induction 1 as [|r l [b E] _ IH]; [constructor|]. simpl. rewrite E. by constructor. Qed.

Lemma omap_all (l : list (Z * A)) : Forall (λ r, is_Some (g r)) l →
  length (omap g l) = length l ∧ last (omap g l) = last l ≫= g.
Proof.
  intros Hl%omap_Forall2. pose proof (Forall2_length _ _ _ Hl) as Hlen. split; [done|].
  rewrite !last_lookup, <-Hlen. rewrite Forall2_lookup in Hl. specialize (Hl (pred (length l))).
  destruct Hl as [r b E|]; [|done]. by rewrite <-E.
Qed.

Lemma page_Forall (p : A → bool) after limit (t : table A) :
  Forall (λ r, after < r.1 ∧ p r.2 = true ∧ r ∈ t) (page p after limit t).
Proof.
  apply Forall_forall. intros r Hr. unfold page in Hr.
  apply elem_of_take in Hr as (i & Hr & _). apply list_elem_of_lookup_2 in Hr.
  apply list_elem_of_filter in Hr as [[H1 H2] H3]. split_and!; [done|by apply Is_true_eq_true|done].
Qed.

(** Two tables in key order with the same rows are the same. *)
Lemma ordered_eq (t1 t2 : table A) :
  ordered t1 → ordered t2 → (∀ r, r ∈ t1 ↔ r ∈ t2) → t1 = t2.
Proof.
  revert t2. induction t1 as [|[k a] t1 IH]; intros [|[k' a'] t2] H1 H2 Hin.
  - done.
  - exfalso. apply (not_elem_of_nil (k', a')), Hin. by left.
  - exfalso. apply (not_elem_of_nil (k, a)), Hin. by left.
  - apply ordered_cons in H1 as [F1 O1]. apply ordered_cons in H2 as [F2 O2]. rewrite Forall_forall in F1, F2.
    assert ((k, a) = (k', a')) as Ehead.
    { pose proof (proj1 (Hin (k, a)) ltac:(by left)) as E1.
      pose proof (proj2 (Hin (k', a')) ltac:(by left)) as E2.
      apply elem_of_cons in E1 as [|E1]; [done|]. apply elem_of_cons in E2 as [|E2]; [done|].
      specialize (F1 _ E2). specialize (F2 _ E1). simpl in *. lia. }
    injection Ehead as -> ->. f_equal. apply IH; [done..|]. intros r. specialize (Hin r).
    rewrite !elem_of_cons in Hin.
    split; intros Hr.
    + destruct (proj1 Hin (or_intror Hr)) as [->|]; [|done]. apply F1 in Hr. simpl in Hr. lia.
    + destruct (proj2 Hin (or_intror Hr)) as [->|]; [|done]. apply F2 in Hr. simpl in Hr. lia.
Qed.
End tables.

(** Selecting from a projected table is projecting the selection. *)
Lemma page_omap {A B} (f : Z → A → option B) (p : B → bool) (q : A → bool) after limit (t : table A) :
  (∀ i a, (i, a) ∈ t → q a = match f i a with Some b => p b | None => false end) →
  page p after limit (omap (λ r, b ← f r.1 r.2; Some (r.1, b)) t) =
    omap (λ r, b ← f r.1 r.2; Some (r.1, b)) (page q after limit t).
Proof.
  intros Hq. unfold page.
  assert (filter (λ r, after < r.1 ∧ p r.2) (omap (λ r, b ← f r.1 r.2; Some (r.1, b)) t) =
    omap (λ r, b ← f r.1 r.2; Some (r.1, b)) (filter (λ r, after < r.1 ∧ q r.2) t)) as Efilter.
  { induction t as [|[i a] t IH]; [done|].
    assert (∀ i a, (i, a) ∈ t → q a = match f i a with Some b => p b | None => false end) as Hq'
      by (intros; apply Hq; by right).
    specialize (IH Hq'). pose proof (Hq i a ltac:(by left)) as Ha.
    rewrite (filter_cons _ (i, a)). simpl. destruct (f i a) as [b|] eqn:Ef; simpl.
    - rewrite filter_cons. simpl. rewrite <-Ha.
      destruct (decide (after < i ∧ q a)) as [Hd|Hd].
      + simpl. rewrite Ef. simpl. f_equal. exact IH.
      + exact IH.
    - rewrite decide_False; [exact IH|]. rewrite Ha. by intros [_ []]. }
  assert (Forall (λ r, is_Some (b ← f r.1 r.2; Some (r.1, b)))
    (filter (λ r, after < r.1 ∧ q r.2) t)) as Hall.
  { apply Forall_forall. intros [i a] [[_ Hqa] Hin]%list_elem_of_filter. simpl in *.
    rewrite (Hq i a Hin) in Hqa. destruct (f i a); [|done]. simpl. by eexists. }
  etrans; [exact (f_equal (take (Z.to_nat limit)) Efilter)|].
  clear Efilter. generalize (Z.to_nat limit). induction Hall as [|r l [b E] _ IH]; intros n; simpl.
  { by rewrite !take_nil. }
  rewrite E. simpl. destruct n; [done|]. simpl. rewrite E. simpl. f_equal. apply IH.
Qed.

(** ** Reading page after page *)

(** The loop a caller writes: each page starts after the cursor of the last
    entry, until a page is not full. *)
Fixpoint read_all {B} (fetch : Z → result string (list B)) (cursor : B → Z) (limit : Z)
    (fuel : nat) (after : Z) : result string (list B) :=
  match fuel with
  | O => Ok []
  | S fuel =>
      bs ← fetch after;
      match last bs with
      | Some b =>
          if len bs <? limit then Ok bs else
          rest ← read_all fetch cursor limit fuel (cursor b);
          Ok (bs ++ rest)
      | None => Ok []
      end
  end.

Lemma filter_agree {A} (P Q : A → Prop) `{∀ x, Decision (P x)} `{∀ x, Decision (Q x)} (l : list A) :
  (∀ x, x ∈ l → P x ↔ Q x) → filter P l = filter Q l.
Proof.
  induction l as [|x l IH]; intros Hl; [done|]. rewrite !filter_cons.
  rewrite IH by (intros; apply Hl; by right). specialize (Hl x ltac:(by left)).
  destruct (decide (P x)), (decide (Q x)); tauto || done.
Qed.

Lemma filter_everything {A} (P : A → Prop) `{∀ x, Decision (P x)} (l : list A) :
  Forall P l → filter P l = l.
Proof. induction 1 as [|x l Hx _ IH]; [done|]. by rewrite filter_cons, decide_True, IH. Qed.

Lemma sorted_NoDup (l : list Z) : StronglySorted Z.lt l → NoDup l.
Proof.
  induction 1 as [|x l _ IH Hx]; constructor; [|done]. intros Hin.
  rewrite Forall_forall in Hx. specialize (Hx _ Hin). lia.
Qed.

Section paging.
Context {A B : Type} (f : Z * A → option B) (cursor : B → Z) (p : A → bool) (limit : Z) (t : table A).
Context (fetch : Z → result string (list B)) (legal : Z → Prop).
Hypothesis fetch_page : ∀ after, legal after → fetch after = Ok (omap f (page p after limit t)).
Hypothesis row_some : ∀ i a, (i, a) ∈ t → p a = true → ∃ b, f (i, a) = Some b ∧ cursor b = i ∧ legal i.

Lemma read_all_pages fuel after : legal after →
  read_all fetch cursor limit fuel after = Ok (omap f (read_pages fuel p after limit t)).
Proof.
  revert after. induction fuel as [|fuel IH]; intros after Ha; [done|].
  cbn [read_all read_pages]. rewrite fetch_page by done. cbn [mbind result_bind].
  set (rows := page p after limit t).
  assert (Forall (λ r, is_Some (f r)) rows) as Hsome.
  { eapply Forall_impl; [apply page_Forall|]. intros [i a] (_ & Hp & Hin).
    destruct (row_some i a Hin Hp) as (b & -> & _). by eexists. }
  destruct (omap_all f rows Hsome) as [Hlen Hlast]. rewrite Hlast, Hlen.
  destruct (last rows) as [[i a]|] eqn:El; [|done]. apply last_Some_elem_of in El.
  pose proof (proj1 (Forall_forall _ _) (page_Forall p after limit t) _ El) as (Hi & Hp & Hin).
  destruct (row_some i a Hin Hp) as (b & Eb & <- & Hlegal). simpl in Hi. simpl. rewrite Eb.
  destruct (len rows <? limit); [done|]. rewrite IH by done. simpl. by rewrite omap_app.
Qed.

(** With enough pages every selected row is read once, in key order. *)
Lemma read_all_complete fuel :
  legal 0 → ordered t → (∀ i a, (i, a) ∈ t → 0 < i) → 0 < limit → (length t < fuel)%nat →
  ∃ bs, read_all fetch cursor limit fuel 0 = Ok bs ∧
    bs = omap f (filter (λ r, Is_true (p r.2)) t) ∧ StronglySorted Z.lt (cursor <$> bs) ∧
    ∀ b, b ∈ bs ↔ ∃ i a, (i, a) ∈ t ∧ p a = true ∧ f (i, a) = Some b.
Proof.
  intros H0 Ht Hpos Hl Hf. rewrite read_all_pages, read_pages_complete by (done || lia).
  assert (filter (λ r, 0 < r.1 ∧ p r.2) t = filter (λ r, Is_true (p r.2)) t) as ->.
  { apply filter_agree. intros [i a] Hin. simpl. specialize (Hpos i a Hin). tauto. }
  eexists. split_and!; [done|done| |].
  - assert (∀ rows, ordered rows → (∀ r, r ∈ rows → r ∈ t ∧ p r.2 = true) →
      cursor <$> omap f rows = rows.*1) as Hcursor.
    { induction rows as [|[i a] rows IH]; [done|]. intros [_ Ho]%ordered_cons Hsub.
      destruct (Hsub (i, a) ltac:(by left)) as [Hin Hp].
      destruct (row_some i a Hin Hp) as (b & Eb & Ec & _). simpl in *. rewrite Eb. simpl.
      rewrite Ec. f_equal. apply IH; [done|]. intros r Hr. apply Hsub. by right. }
    rewrite Hcursor.
    + by apply ordered_filter.
    + by apply ordered_filter.
    + intros r [Hp Hin]%list_elem_of_filter. split; [done|by apply Is_true_true].
  - intros b. rewrite list_elem_of_omap. split.
    + intros ([i a] & [Hp Hin]%list_elem_of_filter & E). exists i, a.
      split_and!; [done|by apply Is_true_true|done].
    + intros (i & a & Hin & Hp & E). exists (i, a). split; [|done]. apply list_elem_of_filter.
      split; [by apply Is_true_true|done].
Qed.
End paging.

(** ** Applying a binary diff *)

Definition slot (l : list Chunk) (i : nat) : Chunk := default no_chunk (l !! i).

Definition change_for (i : nat) (cs : list ObjectChange) : option ObjectChange :=
  List.find (λ c, offset c =? Z.of_nat i * chunkBytes) cs.

(** Replace the chunks a diff names by [side] of it; absent chunks disappear. *)
Definition patch (side : ObjectChange → Chunk) (cs : list ObjectChange) (l : list Chunk) :
    list Chunk :=
  filter (λ c, c ≠ no_chunk)
    ((λ i, match change_for i cs with Some c => side c | None => slot l i end)
       <$> seq 0 (length l + length cs)).

Definition after_side (c : ObjectChange) : Chunk := {| hash := afterHash c; chunk_size := afterSize c |}.
Definition before_side (c : ObjectChange) : Chunk := {| hash := beforeHash c; chunk_size := beforeSize c |}.

Lemma change_at_spec a b i :
  match change_at a b i with
  | [] => slot a i = slot b i
  | [c] => offset c = Z.of_nat i * chunkBytes ∧ before_side c = slot a i ∧ after_side c = slot b i ∧
           slot a i ≠ slot b i
  | _ => False
  end.
Proof.
  unfold change_at. fold (slot a i) (slot b i). destruct (slot a i) as [h n], (slot b i) as [h' n'].
  simpl. case_bool_decide; simpl.
  - destruct (Z.eqb_spec n n'); simpl; [congruence|]. split_and!; [done..|congruence].
  - split_and!; [done..|congruence].
Qed.

Lemma change_at_offset a b i c : c ∈ change_at a b i → offset c = Z.of_nat i * chunkBytes.
Proof.
  pose proof (change_at_spec a b i) as Hs. destruct (change_at a b i) as [|c' [|]]; try done.
  - by intros ?%not_elem_of_nil.
  - intros ->%list_elem_of_singleton. apply Hs.
Qed.

Lemma change_for_app i cs cs' : change_for i (cs ++ cs') =
  match change_for i cs with Some c => Some c | None => change_for i cs' end.
Proof. unfold change_for. induction cs as [|c cs IH]; [done|]. simpl. by destruct (_ =? _). Qed.

Lemma change_for_here a b i : change_for i (change_at a b i) = head (change_at a b i).
Proof.
  pose proof (change_at_spec a b i) as Hs. destruct (change_at a b i) as [|c [|]]; try done.
  destruct Hs as [E _]. unfold change_for. simpl. by rewrite E, Z.eqb_refl.
Qed.

Lemma change_for_other a b i j : i ≠ j → change_for i (change_at a b j) = None.
Proof.
  intros Hne. pose proof (change_at_spec a b j) as Hs. destruct (change_at a b j) as [|c [|]]; try done.
  destruct Hs as [E _]. unfold change_for. simpl. rewrite E.
  destruct (Z.eqb_spec (Z.of_nat j * chunkBytes) (Z.of_nat i * chunkBytes)); [|done].
  unfold chunkBytes in *. lia.
Qed.

Lemma change_for_seq a b i n m : change_for i (seq n m ≫= change_at a b) =
  if bool_decide (n <= i < n + m)%nat then head (change_at a b i) else None.
Proof.
  revert n. induction m as [|m IH]; intros n; simpl.
  { rewrite bool_decide_false by lia. done. }
  rewrite change_for_app. destruct (decide (n = i)) as [->|Hne].
  - rewrite change_for_here, bool_decide_true by lia.
    destruct (change_at a b i) as [|c l] eqn:E; simpl; [|done].
    etrans; [apply IH|]. by rewrite bool_decide_false by lia.
  - rewrite change_for_other by done. etrans; [apply IH|]. by rewrite (bool_decide_ext _ (n <= i < n + S m)%nat) by lia.
Qed.

Lemma slot_beyond l i : (length l <= i)%nat → slot l i = no_chunk.
Proof. intros Hi. unfold slot. by rewrite lookup_ge_None_2. Qed.

Lemma change_for_changes a b i : change_for i (chunk_changes a b) = head (change_at a b i).
Proof.
  unfold chunk_changes. rewrite change_for_seq. case_bool_decide as Hi; [done|].
  pose proof (change_at_spec a b i) as Hs. destruct (change_at a b i) as [|c [|]]; try done.
  destruct Hs as (_ & _ & _ & Hne). destruct Hne. rewrite !slot_beyond by lia. done.
Qed.

(** The chunks of a list without absent chunks are its slots. *)
Lemma slots_all l n : Forall (λ c, c ≠ no_chunk) l → (length l <= n)%nat →
  filter (λ c, c ≠ no_chunk) (slot l <$> seq 0 n) = l.
Proof.
  revert n. induction l as [|c l IH]; intros n Hl Hn.
  - induction (seq 0 n) as [|i ns IH']; [done|]. rewrite fmap_cons, filter_cons.
    rewrite (slot_beyond [] i) by (simpl; lia). rewrite decide_False by tauto. exact IH'.
  - apply Forall_cons in Hl as [Hc Hl]. destruct n as [|n]; [simpl in Hn; lia|].
    assert (slot (c :: l) <$> seq 0 (S n) = c :: (slot l <$> seq 0 n)) as ->.
    { simpl. f_equal. rewrite <-fmap_S_seq, <-list_fmap_compose. done. }
    rewrite filter_cons, decide_True by done. f_equal. apply IH; [done|]. simpl in Hn. lia.
Qed.

Lemma changes_beyond a b n m : (∀ i, (n <= i < n + m)%nat → slot a i ≠ slot b i) →
  length (seq n m ≫= change_at a b) = m.
Proof.
  revert n. induction m as [|m IH]; intros n Hne; [done|]. simpl.
  rewrite length_app. etrans; [apply (f_equal (Nat.add _)), IH; intros; apply Hne; lia|].
  pose proof (change_at_spec a b n) as Hs. specialize (Hne n ltac:(lia)).
  destruct (change_at a b n) as [|c [|]]; simpl in *; congruence || done || lia.
Qed.

Lemma slot_inside l i : Forall (λ c, c ≠ no_chunk) l → (i < length l)%nat → slot l i ≠ no_chunk.
Proof.
  intros Hl [c Hc]%lookup_lt_is_Some_2. unfold slot. rewrite Hc. simpl.
  rewrite Forall_lookup in Hl. by eapply Hl.
Qed.

Lemma length_changes a b : Forall (λ c, c ≠ no_chunk) a → Forall (λ c, c ≠ no_chunk) b →
  (length a `max` length b <= length a `min` length b + length (chunk_changes a b))%nat.
Proof.
  intros Ha Hb. unfold chunk_changes.
  set (m := (length a `min` length b)%nat). set (x := (length a `max` length b)%nat).
  replace x with (m + (x - m))%nat at 2 by lia. rewrite seq_app, bind_app, length_app.
  rewrite (changes_beyond _ _ (0 + m)); [lia|]. intros i Hi.
  destruct (decide (i < length a)%nat) as [Hia|].
  - rewrite (slot_beyond b) by lia. by apply slot_inside.
  - rewrite (slot_beyond a) by lia. apply not_eq_sym, slot_inside; [done|lia].
Qed.

(** The diff turns each side into the other. *)
Lemma patch_after a b : Forall (λ c, c ≠ no_chunk) a → Forall (λ c, c ≠ no_chunk) b →
  patch after_side (chunk_changes a b) a = b.
Proof.
  intros Ha Hb. unfold patch.
  rewrite (list_fmap_ext _ (slot b)).
  - apply slots_all; [done|]. pose proof (length_changes _ _ Ha Hb). lia.
  - intros _ i _. rewrite change_for_changes. pose proof (change_at_spec a b i) as Hs.
    destruct (change_at a b i) as [|c [|]]; try done. apply Hs.
Qed.

Lemma patch_before a b : Forall (λ c, c ≠ no_chunk) a → Forall (λ c, c ≠ no_chunk) b →
  patch before_side (chunk_changes a b) b = a.
Proof.
  intros Ha Hb. unfold patch.
  rewrite (list_fmap_ext _ (slot a)).
  - apply slots_all; [done|]. pose proof (length_changes _ _ Ha Hb). lia.
  - intros _ i _. rewrite change_for_changes. pose proof (change_at_spec a b i) as Hs.
    destruct (change_at a b i) as [|c [|]]; try done. apply Hs.
Qed.

Lemma changes_sorted a b n m :
  StronglySorted Z.lt (offset <$> (seq n m ≫= change_at a b)).
Proof.
  revert n. induction m as [|m IH]; intros n; [constructor|]. simpl. rewrite fmap_app.
  specialize (IH (S n)).
  assert (∀ c, c ∈ (seq (S n) m ≫= change_at a b) → Z.of_nat n * chunkBytes < offset c) as Hlt.
  { intros c (i & Hc & Hi)%list_elem_of_bind. apply elem_of_seq in Hi.
    rewrite (change_at_offset _ _ _ _ Hc). unfold chunkBytes. lia. }
  pose proof (change_at_spec a b n) as Hs. destruct (change_at a b n) as [|c [|]]; try done.
  simpl. constructor; [exact IH|]. apply Forall_forall. intros x (c' & -> & Hc')%list_elem_of_fmap.
  destruct Hs as [-> _]. by apply Hlt.
Qed.

Lemma changes_differ a b c : c ∈ chunk_changes a b → before_side c ≠ after_side c.
Proof.
  intros (i & Hc & _)%list_elem_of_bind. pose proof (change_at_spec a b i) as Hs.
  destruct (change_at a b i) as [|c' [|]]; try done; [by apply not_elem_of_nil in Hc|].
  apply list_elem_of_singleton in Hc as ->. destruct Hs as (_ & -> & -> & ?). done.
Qed.

Section queries.
Context {H : Type} {hashing : StreamHash H} {sqlite : SqliteJson}.
Context (json_parse : bytes → option json).

Abbreviation reachable := (reachable (H:=H) json_parse).
Abbreviation good := (good (H:=H)).

(** ** Scanning *)

(** Every object, in pages of [limit]. *)
Definition scan_all (fuel : nat) (after limit : Z) (withDeleted : bool) (st : Store) :
    result string (list ObjectRecord) :=
  read_all (λ after, scan after limit withDeleted st) indexKey limit fuel after.

Definition scan_row (p : Package) (o : ObjectRow) : option ObjectRecord :=
  join_row p (object_key o) (head_ o).

Definition scan_filter (p : Package) (withDeleted : bool) (o : ObjectRow) : bool :=
  (withDeleted || negb (object_deleted o)) && bool_decide (is_Some (scan_row p o)).

Lemma scan_unfold after limit wd st : 0 <= after → 0 < limit <= 10000 →
  scan after limit wd st =
    Ok (omap (λ o, scan_row (db st) o.2) (page (scan_filter (db st) wd) after limit (objects (db st)))).
Proof.
  intros Ha Hl. unfold scan. destruct (Z.ltb_spec after 0); [lia|].
  destruct (Z.eqb_spec limit 0); [lia|]. destruct (Z.ltb_spec 10000 limit); [lia|]. done.
Qed.

Lemma scan_filter_some p wd i o : scan_filter p wd o = true → (i, o) ∈ objects p →
  is_Some (scan_row p o).
Proof. unfold scan_filter. intros E _. apply andb_true_iff in E as [_ E]. by apply bool_decide_eq_true in E. Qed.

Lemma scan_row_index st i o r : good st → (i, o) ∈ objects (db st) → scan_row (db st) o = Some r →
  indexKey r = i ∧ key r = object_key o ∧ lookup (object_key o) st = Ok (Some r) ∧
  deleted r = object_deleted o.
Proof.
  intros Hg Hin E. pose proof (good_wf _ Hg) as Hw.
  pose proof (wf_object_unique _ _ Hw _ _ Hin) as Ho.
  destruct (join_row_inv _ _ _ _ E) as (i' & o' & row & s & Ho' & Hr & _ & Er).
  rewrite Ho in Ho'. injection Ho' as <- <-.
  destruct (wf_head _ _ Hw _ _ Hin) as (_ & _ & _ & Hrow). destruct (Hrow _ Hr) as [_ Hd].
  split_and!; [by subst r|by subst r|by eapply lookup_head|subst r; exact Hd].
Qed.

(** Which records a scan selects. *)
Lemma scan_member st wd k r : good st → wf (H:=H) (container st) (db st) →
  (∃ i o, (i, o) ∈ objects (db st) ∧ scan_filter (db st) wd o = true ∧
     scan_row (db st) o = Some r) ∧ key r = k ↔
  lookup k st = Ok (Some r) ∧ (wd = true ∨ deleted r = false).
Proof.
  intros Hg Hw. split.
  - intros [(i & o & Hin & Hf & E) <-].
    destruct (scan_row_index _ _ _ _ Hg Hin E) as (_ & K & L & D). rewrite K, D.
    split; [done|]. unfold scan_filter in Hf. inv_ok. destruct wd; [by left|right].
    match goal with E : (false || _) = true |- _ => simpl in E; by apply negb_true_iff in E end.
  - intros [L Hd]. apply lookup_inv in L as (i & o & row & s & Ho & Hrow & Hs & -> & _ & _ & E2); [|done].
    destruct (find_object_in _ _ _ _ Ho) as [Hin Hk]. split; [|done].
    assert (scan_row (db st) o = Some (record k i (head_ o) row s)) as E.
    { unfold scan_row, join_row. rewrite Hk, Ho. simpl. rewrite Hrow. simpl. by rewrite Hs. }
    exists i, o. split_and!; [done| |done]. unfold scan_filter.
    rewrite E, (bool_decide_true (is_Some (Some _))) by by eexists.
    rewrite andb_true_r. destruct Hd as [->|Hd]; [done|]. simpl in Hd. rewrite <-E2, Hd.
    by rewrite orb_true_r.
Qed.

(** C32 Paging through the objects visits every object exactly once.  Starting
    from the beginning and resuming each page after the last index key, with any
    legal page size and enough pages for the number of objects, [scan] returns
    the live heads (or all heads, tombstones included, when asked to), each once,
    in index order. *)
Theorem scan_visits_every_object_once st fuel limit wd :
  reachable st → 0 < limit <= 10000 → count true st < Z.of_nat fuel →
  ∃ rs, scan_all fuel 0 limit wd st = Ok rs ∧ NoDup (key <$> rs) ∧
    StronglySorted Z.lt (indexKey <$> rs) ∧
    ∀ k r, r ∈ rs ∧ key r = k ↔ lookup k st = Ok (Some r) ∧ (wd = true ∨ deleted r = false).
Proof.
  intros Hr Hl Hf. destruct (reachable_good _ _ Hr) as [Hg _]. pose proof (good_wf _ Hg) as Hw.
  assert (length (objects (db st)) < fuel)%nat as Hfuel.
  { unfold count in Hf. rewrite filter_everything in Hf; [lia|]. by apply Forall_forall. }
  destruct (read_all_complete (λ o, scan_row (db st) o.2) indexKey (scan_filter (db st) wd) limit
    (objects (db st)) (λ after, scan after limit wd st) (λ after, 0 <= after)) with (fuel := fuel)
    as (rs & E & _ & Hsorted & Hrs); [| |lia|apply (wf_objects _ _ Hw)| |lia|done|].
  - intros after Ha. by apply scan_unfold.
  - intros i o Hin Hp. destruct (scan_filter_some _ _ _ _ Hp Hin) as [r Er]. exists r.
    destruct (wf_object_bound _ _ Hw _ _ Hin).
    destruct (scan_row_index _ _ _ _ Hg Hin Er). split_and!; [done..|lia].
  - intros i o Hin. by destruct (wf_object_bound _ _ Hw _ _ Hin).
  - exists rs. split_and!; [done| |done|].
    + apply NoDup_fmap_2_strong; [|by eapply NoDup_fmap_1, sorted_NoDup].
      intros r r' (i & o & Hin & _ & Er)%Hrs (i' & o' & Hin' & _ & Er')%Hrs Hk.
      destruct (scan_row_index _ _ _ _ Hg Hin Er) as (_ & K & L & _).
      destruct (scan_row_index _ _ _ _ Hg Hin' Er') as (_ & K' & L' & _).
      rewrite K, K' in Hk. rewrite Hk in L. congruence.
    + intros k r. rewrite Hrs. apply scan_member; [done|exact Hw].
Qed.

(** ** The compact index *)

(** The entry of the index that a record projects to. *)
Definition index_of (r : ObjectRecord) : ObjectIndexEntry :=
  {| entry_key := key r; entry_indexKey := indexKey r; entry_version := version r;
     entry_path := path r; entry_sha256 := sha256 r; entry_size := size r;
     entry_validationKey := validationKey r; entry_sessionKey := sessionKey r;
     entry_deleted := deleted r; entry_authorOrigin := origin (author r);
     entry_authorSubject := subject (author r) |}.

(** The row of [current_index] an object has. *)
Definition index_row (p : Package) (i : Z) (o : ObjectRow) : option ObjectIndexEntry :=
  r ← revision_of p (object_key o) (head_ o); Some (index_entry i o r).

Lemma index_rows st : good st →
  current_index (db st) =
    omap (λ r, b ← index_row (db st) r.1 r.2; Some (r.1, b)) (objects (db st)).
Proof.
  intros Hg. pose proof (good_wf _ Hg) as Hw. apply ordered_eq.
  - apply (wf_index _ _ Hw).
  - assert (∀ t : table ObjectRow, ordered t →
      ordered (omap (λ r, b ← index_row (db st) r.1 r.2; Some (r.1, b)) t)) as Hord.
    { induction t as [|[i o] t IH]; [done|]. intros [F O]%ordered_cons. simpl.
      destruct (index_row (db st) i o) as [x|]; simpl; [|by apply IH].
      apply ordered_cons. split; [|by apply IH]. apply Forall_forall.
      intros [j y] ([j' o'] & Hin & E)%list_elem_of_omap. simpl in E.
      rewrite Forall_forall in F. specialize (F _ Hin). simpl in *.
      destruct (index_row (db st) j' o'); simpl in E; [|done]. by injection E as <- _. }
    apply Hord, (wf_objects _ _ Hw).
  - intros [i x]. split.
    + intros Hin. destruct (wf_index_row _ _ Hw _ _ Hin) as (o & row & Ho & Hr & ->).
      apply list_elem_of_omap. exists (i, o). split; [done|]. unfold index_row. simpl. by rewrite Hr.
    + intros ([j o] & Hin & E)%list_elem_of_omap. unfold index_row in E. simpl in E.
      destruct (revision_of _ _ _) as [row|] eqn:Hr; simpl in E; [|done]. injection E as <- <-.
      destruct (wf_head _ _ Hw _ _ Hin) as (_ & _ & Hv & _).
      assert (1 <= head_ o) as Hhead by (apply (Hv (head_ o)); by exists row).
      destruct (wf_index_all _ _ Hw _ _ Hin Hhead) as [x Hx].
      destruct (wf_index_row _ _ Hw _ _ Hx) as (o' & row' & Ho' & Hr' & ->).
      pose proof (ordered_fun _ _ _ _ (wf_objects _ _ Hw) Ho' Hin) as ->.
      rewrite Hr in Hr'. by injection Hr' as <-.
Qed.

(** An object is in the scan exactly when it is in the index, with the same
    projection. *)
Lemma scan_row_entry st i o : good st → (i, o) ∈ objects (db st) →
  match index_row (db st) i o, scan_row (db st) o with
  | Some x, Some r => read_entry x = index_of r ∧ entry_deleted x = object_deleted o
  | None, None => True
  | _, _ => False
  end.
Proof.
  intros Hg Hin. pose proof (good_wf _ Hg) as Hw. pose proof (wf_object_unique _ _ Hw _ _ Hin) as Ho.
  unfold index_row, scan_row, join_row. rewrite Ho. simpl.
  destruct (revision_of _ _ _) as [row|] eqn:Hr; simpl; [|done].
  destruct (rv_session _ _ _ _ _ _ (wf_revision _ _ Hw _ _ _ _ _ Ho Hr)) as (s & w & -> & _).
  simpl. split; [|done]. unfold read_entry, index_of, index_entry, record. simpl.
  destruct (wf_head _ _ Hw _ _ Hin) as (_ & _ & _ & Hrow). destruct (Hrow _ Hr) as [-> ->]. done.
Qed.

Lemma index_scan_rows st (rows : table ObjectRow) : good st →
  (∀ r, r ∈ rows → r ∈ objects (db st)) →
  read_entry ∘ snd <$> omap (λ r, b ← index_row (db st) r.1 r.2; Some (r.1, b)) rows =
    index_of <$> omap (λ o, scan_row (db st) o.2) rows.
Proof.
  intros Hg Hsub. induction rows as [|[i o] rows IH]; [done|]. simpl.
  pose proof (scan_row_entry st i o Hg (Hsub _ ltac:(by left))) as He.
  assert (∀ r, r ∈ rows → r ∈ objects (db st)) as Hsub' by (intros; apply Hsub; by right).
  destruct (index_row (db st) i o) as [x|], (scan_row (db st) o) as [r|]; simpl; try done.
  - destruct He as [-> _]. f_equal. by apply IH.
  - by apply IH.
Qed.

(** C35 The compact index is the projection of the heads.  For every page, with
    or without tombstones, [index] returns exactly the projections of the records
    [scan] returns for that page, in the same order, and fails exactly when [scan]
    does: the trigger that maintains the index never lets it go stale. *)
Theorem index_is_the_projection_of_scan st after limit wd :
  reachable st → index after limit wd st =
    match scan after limit wd st with Ok rs => Ok (index_of <$> rs) | Err m => Err m end.
Proof.
  intros Hr. destruct (reachable_good _ _ Hr) as [Hg _]. unfold index, scan.
  destruct (check _ _) as [[]|m]; [|done]. cbn [mbind result_bind]. f_equal.
  rewrite (index_rows _ Hg).
  rewrite (page_omap _ _ (scan_filter (db st) wd)).
  - rewrite index_scan_rows; [done|done|]. intros [i o] Hin.
    pose proof (proj1 (Forall_forall _ _) (page_Forall _ _ _ _) _ Hin) as (_ & _ & Ho). exact Ho.
  - intros i o Hin. pose proof (scan_row_entry st i o Hg Hin) as He. unfold scan_filter.
    destruct (index_row (db st) i o) as [x|], (scan_row (db st) o) as [r|]; try done.
    + destruct He as [_ ->]. rewrite bool_decide_true by by eexists. by rewrite andb_true_r.
    + rewrite bool_decide_false by by intros [? [=]]. by rewrite andb_false_r.
Qed.

(** ** The history of one object *)

Lemma ordered_length {A} (t : table A) (h : Z) :
  ordered t → 0 <= h → (∀ i a, (i, a) ∈ t → 1 <= i <= h) → len t <= h.
Proof.
  intros Ht Hh Hin. assert (t.*1 ⊆+ seqZ 1 h) as Hsub.
  { apply NoDup_submseteq; [by apply sorted_NoDup|]. intros i ([j a] & -> & Hj)%list_elem_of_fmap.
    apply elem_of_seqZ. specialize (Hin _ _ Hj). simpl. lia. }
  apply submseteq_length in Hsub. rewrite length_fmap, length_seqZ in Hsub. lia.
Qed.

(** The rows of an object's revisions. *)
Definition rows_of (p : Package) (k : bytes) : table RevisionRow := default [] (revisions p !! k).

Lemma rows_of_revision cont p k : wf (H:=H) cont p → ordered (rows_of p k) ∧
  ∀ v row, (v, row) ∈ rows_of p k ↔ revision_of p k v = Some row.
Proof.
  intros Hw. unfold rows_of, revision_of. destruct (revisions p !! k) as [t|] eqn:E; simpl.
  - destruct (wf_revision_key _ _ Hw _ _ E) as [Ho _]. split; [done|]. intros v row. split.
    + by apply row_lookup_in.
    + by apply row_lookup_Some_in.
  - split; [constructor|]. intros v row. split; [by intros ?%not_elem_of_nil|done].
Qed.

Definition history_filter (p : Package) (k : bytes) (row : RevisionRow) : bool :=
  bool_decide (is_Some (find_object p k)) &&
  bool_decide (is_Some (sessions p !! revision_session row)).

Lemma history_unfold k after limit st : bindable k → 0 <= after <= INT64_MAX → 0 < limit <= 10000 →
  history k after limit st = Ok (omap (λ r, join_row (db st) k r.1)
    (page (history_filter (db st) k) after limit (rows_of (db st) k))).
Proof.
  intros Hb Ha Hl. unfold history. destruct (Z.ltb_spec INT64_MAX after); [lia|].
  destruct (Z.eqb_spec limit 0); [lia|]. destruct (Z.ltb_spec 10000 limit); [lia|].
  rewrite bind_text by done. done.
Qed.

Definition history_all (k : bytes) (fuel : nat) (after limit : Z) (st : Store) :
    result string (list ObjectRecord) :=
  read_all (λ after, history k after limit st) version limit fuel after.

(** The history of an object lists every version once, from the first to the
    head: reading it page by page, with any legal page size and enough pages,
    gives exactly what [get] gives for the versions 1, 2, ... up to the head. *)
Theorem history_is_complete st fuel limit k r :
  reachable st → 0 < limit <= 10000 → lookup k st = Ok (Some r) → version r < Z.of_nat fuel →
  ∃ rs, history_all k fuel 0 limit st = Ok rs ∧ StronglySorted Z.lt (version <$> rs) ∧
    (∀ v, v ∈ version <$> rs ↔ 1 <= v <= version r) ∧
    ∀ r', r' ∈ rs ↔ key r' = k ∧ 1 <= version r' <= INT64_MAX ∧ get st k (version r') = Ok (Some r').
Proof.
  intros Hr Hl Hlook Hf. destruct (reachable_good _ _ Hr) as [Hg _]. pose proof (good_wf _ Hg) as Hw.
  destruct (lookup_inv _ _ _ Hg Hlook) as (i & o & row & s & Ho & Hrow & Hs & -> & Hhead & _).
  destruct (version_range _ _ _ _ _ _ _ Hw Ho Hrow) as (_ & _ & Hb).
  simpl in Hf |- *. rewrite u64_id in Hf |- * by lia.
  destruct (rows_of_revision _ _ k Hw) as [Hord Hrows].
  assert (∀ v x, (v, x) ∈ rows_of (db st) k → 1 <= v <= head_ o) as Hrange.
  { intros v x Hx%Hrows. by destruct (version_range _ _ _ _ _ _ _ Hw Ho Hx). }
  assert (∀ v x, revision_of (db st) k v = Some x → ∃ s',
    history_filter (db st) k x = true ∧ join_row (db st) k v = Some (record k i v x s') ∧
    get st k v = Ok (Some (record k i v x s'))) as Hrec.
  { intros v x Hx. destruct (get_ok _ _ _ _ _ _ _ Hw Ho Hx) as (s' & Hs' & Hget). exists s'.
    unfold history_filter, join_row. rewrite Ho, Hx. simpl. rewrite Hs'.
    rewrite !bool_decide_true by by eexists. done. }
  pose proof (ordered_length _ (head_ o) Hord ltac:(lia) Hrange) as Hlen.
  destruct (read_all_complete (λ r, join_row (db st) k r.1) version (history_filter (db st) k) limit
    (rows_of (db st) k) (λ after, history k after limit st) (λ after, 0 <= after <= INT64_MAX))
    with (fuel := fuel) as (rs & E & _ & Hsorted & Hrs); [| |unfold INT64_MAX; lia|done| |lia|lia|].
  - intros after Ha. by apply history_unfold.
  - intros v x Hx _. pose proof (Hrange _ _ Hx). apply Hrows in Hx.
    destruct (Hrec _ _ Hx) as (s' & _ & E & _). simpl. rewrite E. eexists. split; [done|].
    simpl. rewrite u64_id by lia. lia.
  - intros v x Hx. specialize (Hrange _ _ Hx). lia.
  - assert (∀ r', r' ∈ rs ↔ ∃ v x s', revision_of (db st) k v = Some x ∧ 1 <= v <= head_ o ∧
      get st k v = Ok (Some r') ∧ r' = record k i v x s') as Hmem.
    { intros r'. rewrite Hrs. split.
      - intros (v & x & Hx & _ & E'). pose proof (Hrange _ _ Hx). apply Hrows in Hx.
        destruct (Hrec _ _ Hx) as (s' & _ & E'' & Hget). simpl in E'. exists v, x, s'.
        split_and!; try (done || lia); congruence.
      - intros (v & x & s' & Hx & _ & Hget & _). exists v, x.
        destruct (Hrec _ _ Hx) as (s'' & Hfil & E'' & Hget'). apply Hrows in Hx.
        split_and!; [done..|]. simpl. congruence. }
    exists rs. split_and!; [done..| |].
    + intros v. rewrite list_elem_of_fmap. split.
      * intros (r' & -> & (w & x & s' & _ & Hv & _ & ->)%Hmem). simpl. rewrite u64_id; lia.
      * intros Hv. destruct (wf_head _ _ Hw i o) as (_ & _ & Hall & _); [by apply find_object_in in Ho as []|].
        destruct (find_object_in _ _ _ _ Ho) as [_ Hk]. rewrite Hk in Hall.
        destruct (proj2 (Hall v) Hv) as [x Hx]. destruct (Hrec _ _ Hx) as (s' & _ & _ & Hget).
        eexists. split; [|apply Hmem; exists v, x, s'; split_and!; done || lia].
        simpl. rewrite u64_id; lia.
    + intros r'. rewrite Hmem. split.
      * intros (v & x & s' & Hx & Hv & Hget & ->). simpl. rewrite u64_id by lia. split_and!; done || lia.
      * intros (Hk & Hv & Hget).
        destruct (get_inv st k (version r') r' Hg ltac:(unfold INT64_MAX, UINT64_MAX in *; lia) Hget)
          as (i' & o' & x & s' & Ho' & Hx & Hs' & E' & Hv' & _).
        rewrite Ho in Ho'. injection Ho' as <- <-. exists (version r'), x, s'. split_and!; done || lia.
Qed.

(** ** The journal *)

Definition journal_all (objectKey sessionKey : bytes) (fuel : nat) (after limit : Z) (st : Store) :
    result string (list ObjectJournalEntry) :=
  read_all (λ after, journal after limit objectKey sessionKey st) journal_sequence limit fuel after.

(** The entry of a recorded version. *)
Definition journal_of (n : Z) (r : ObjectRecord) : ObjectJournalEntry :=
  {| journal_sequence := n; journal_objectKey := key r; journal_version := version r;
     journal_sessionKey := sessionKey r; journal_recordedAtNs := recordedAtNs r;
     journal_operation := operation r; journal_path := path r; journal_sha256 := sha256 r;
     journal_size := size r; journal_deleted := deleted r;
     journal_validationKey := validationKey r |}.

(** What a query selects: an empty key selects everything. *)
Definition selects (wanted actual : bytes) : Prop := wanted = [] ∨ actual = wanted.

Definition journal_row (p : Package) (j : Z * (bytes * Z * bytes)) : option ObjectJournalEntry :=
  r ← revision_of p j.2.1.1 j.2.1.2; Some (journal_entry j.1 j.2.1.1 j.2.1.2 r).

Definition journal_filter (p : Package) (ok sk : bytes) (j : bytes * Z * bytes) : bool :=
  bool_decide (is_Some (revision_of p j.1.1 j.1.2))
  && (bool_decide (ok = []) || bool_decide (j.1.1 = ok))
  && (bool_decide (sk = []) || bool_decide (j.2 = sk)).

Lemma journal_filter_true p ok sk k v s : journal_filter p ok sk (k, v, s) = true ↔
  is_Some (revision_of p k v) ∧ selects ok k ∧ selects sk s.
Proof.
  unfold journal_filter, selects. simpl.
  rewrite !andb_true_iff, !orb_true_iff, !bool_decide_eq_true. tauto.
Qed.

Lemma journal_unfold st after limit ok sk : good st → 0 <= after → 0 < limit <= 1024 →
  field ok 1024 false = Ok tt → field sk 1024 false = Ok tt →
  journal after limit ok sk st = Ok (omap (journal_row (db st))
    (page (journal_filter (db st) ok sk) after limit (object_journal (db st)))).
Proof.
  intros [_ Hs] Ha Hl Eo Es. unfold journal, requireJournal.
  destruct (Z.ltb_spec after 0); [lia|]. destruct (Z.eqb_spec limit 0); [lia|].
  destruct (Z.ltb_spec 1024 limit); [lia|]. destruct (Z.ltb_spec (schema st) 4); [lia|].
  by rewrite Eo, Es.
Qed.

(** A row of the journal and the record it stands for. *)
Lemma journal_row_record st n k v s : good st → (n, (k, v, s)) ∈ object_journal (db st) →
  ∃ r, get st k v = Ok (Some r) ∧ key r = k ∧ version r = v ∧ sessionKey r = s ∧
    1 <= v <= INT64_MAX ∧ journal_row (db st) (n, (k, v, s)) = Some (journal_of n r) ∧
    is_Some (revision_of (db st) k v).
Proof.
  intros Hg Hin. pose proof (good_wf _ Hg) as Hw.
  destruct (wf_journal_row _ _ Hw _ _ _ _ Hin) as (row & Hrow & <-).
  assert (is_Some (find_object (db st) k)) as [[i o] Ho].
  { pose proof Hrow as Hrow'. unfold revision_of in Hrow'.
    destruct (revisions (db st) !! k) as [t|] eqn:E; [|done].
    by destruct (wf_revision_key _ _ Hw _ _ E). }
  destruct (version_range _ _ _ _ _ _ _ Hw Ho Hrow) as (Hv & Hm & _).
  destruct (get_ok _ _ _ _ _ _ _ Hw Ho Hrow) as (s & Hs & Hget).
  eexists. split_and!; [exact Hget|done| |done|lia|lia| |by eexists].
  - simpl. by apply u64_id; lia.
  - unfold journal_row. simpl. by rewrite Hrow.
Qed.

Lemma journal_read st fuel limit ok sk : good st → 0 < limit <= 1024 →
  field ok 1024 false = Ok tt → field sk 1024 false = Ok tt →
  len (object_journal (db st)) < Z.of_nat fuel →
  ∃ es, journal_all ok sk fuel 0 limit st = Ok es ∧
    es = omap (journal_row (db st))
           (filter (λ j, Is_true (journal_filter (db st) ok sk j.2)) (object_journal (db st))) ∧
    StronglySorted Z.lt (journal_sequence <$> es) ∧
    ∀ e, e ∈ es ↔ ∃ n j, (n, j) ∈ object_journal (db st) ∧
      journal_filter (db st) ok sk j = true ∧ journal_row (db st) (n, j) = Some e.
Proof.
  intros Hg Hl Eo Es Hf. pose proof (good_wf _ Hg) as Hw.
  apply (read_all_complete (journal_row (db st)) journal_sequence (journal_filter (db st) ok sk) limit
    (object_journal (db st)) (λ after, journal after limit ok sk st) (λ after, 0 <= after)).
  - intros after Ha. by apply journal_unfold.
  - intros n [[k v] s] Hin _. destruct (journal_row_record _ _ _ _ _ Hg Hin)
      as (r & _ & _ & _ & _ & _ & -> & _). eexists. split_and!; [done..|].
    pose proof (wf_journal_bound _ _ Hw _ _ Hin). lia.
  - lia.
  - apply (wf_journal _ _ Hw).
  - intros n j Hin. pose proof (wf_journal_bound _ _ Hw _ _ Hin). lia.
  - lia.
  - lia.
Qed.

(** The journal accounts for every revision exactly once.  Reading it page by
    page, with any legal page size, object filter and session filter and enough
    pages, gives entries in sequence order, at most one per version; each is the
    projection of the recorded version it names and satisfies the filters; and
    every recorded version that satisfies the filters has its entry. *)
Theorem journal_is_complete st fuel limit ok sk :
  reachable st → 0 < limit <= 1024 →
  field ok 1024 false = Ok tt → field sk 1024 false = Ok tt →
  len (object_journal (db st)) < Z.of_nat fuel →
  ∃ es, journal_all ok sk fuel 0 limit st = Ok es ∧
    StronglySorted Z.lt (journal_sequence <$> es) ∧
    NoDup ((λ e, (journal_objectKey e, journal_version e)) <$> es) ∧
    (∀ e, e ∈ es → selects ok (journal_objectKey e) ∧ selects sk (journal_sessionKey e) ∧
       ∃ r, get st (journal_objectKey e) (journal_version e) = Ok (Some r) ∧
         e = journal_of (journal_sequence e) r) ∧
    ∀ k v r, 1 <= v <= INT64_MAX → get st k v = Ok (Some r) → selects ok k →
      selects sk (sessionKey r) → ∃ n, journal_of n r ∈ es.
Proof.
  intros Hr Hl Eo Es Hf. destruct (reachable_good _ _ Hr) as [Hg _]. pose proof (good_wf _ Hg) as Hw.
  destruct (journal_read st fuel limit ok sk Hg Hl Eo Es Hf) as (es & E & _ & Hsorted & Hes).
  exists es. split_and!; [done..| | |].
  - apply NoDup_fmap_2_strong; [|by eapply NoDup_fmap_1, sorted_NoDup].
    intros e e' (n & [[k v] s] & Hin & _ & Ee)%Hes (n' & [[k' v'] s'] & Hin' & _ & Ee')%Hes [=].
    destruct (journal_row_record _ _ _ _ _ Hg Hin) as (r & Hget & Hk & Hv & _ & _ & Er & _).
    destruct (journal_row_record _ _ _ _ _ Hg Hin') as (r' & Hget' & Hk' & Hv' & _ & _ & Er' & _).
    rewrite Ee in Er. rewrite Ee' in Er'. injection Er as ->. injection Er' as ->.
    simpl in *. assert (k' = k) as -> by congruence. assert (v' = v) as -> by congruence.
    rewrite (wf_journal_unique _ _ Hw _ _ _ _ _ _ Hin Hin'). congruence.
  - intros e (n & [[k v] s] & Hin & Hfil & Ee)%Hes.
    destruct (journal_row_record _ _ _ _ _ Hg Hin) as (r & Hget & <- & <- & <- & _ & Er & _).
    rewrite Ee in Er. injection Er as ->. apply journal_filter_true in Hfil as (_ & ? & ?).
    split_and!; [done..|]. by exists r.
  - intros k v r Hv Hget Hok Hsk.
    destruct (get_inv st k v r Hg ltac:(unfold INT64_MAX, UINT64_MAX in *; lia) Hget)
      as (i & o & row & s & Ho & Hrow & Hs & E' & _).
    destruct (wf_journal_all _ _ Hw _ _ _ Hrow) as (n & Hin). exists n. apply Hes.
    destruct (journal_row_record _ _ _ _ _ Hg Hin) as (r' & Hget' & _ & _ & Hses & _ & Er & Hsome).
    assert (r' = r) as -> by congruence.
    exists n, (k, v, revision_session row). split_and!; [done| |done].
    apply journal_filter_true. split_and!; [done..|]. by rewrite <-Hses.
Qed.

Lemma journal_legal ok sk fuel limit st es : len (object_journal (db st)) < Z.of_nat fuel →
  journal_all ok sk fuel 0 limit st = Ok es →
  field ok 1024 false = Ok tt ∧ field sk 1024 false = Ok tt.
Proof.
  intros Hf E. destruct fuel as [|fuel]; [lia|]. unfold journal_all in E. simpl in E.
  apply bind_ok in E as (bs & E & _). unfold journal in E.
  destruct (field ok 1024 false) as [[]|], (field sk 1024 false) as [[]|]; inv_ok; done.
Qed.

(** The rows that were there select and read as before. *)
Lemma journal_rows_kept st st' ok sk : good st → extends (db st) (db st') →
  omap (journal_row (db st'))
    (filter (λ j, Is_true (journal_filter (db st') ok sk j.2)) (object_journal (db st))) =
  omap (journal_row (db st))
    (filter (λ j, Is_true (journal_filter (db st) ok sk j.2)) (object_journal (db st))).
Proof.
  intros Hg He. pose proof (good_wf _ Hg) as Hw.
  assert (∀ j, j ∈ object_journal (db st) →
    journal_filter (db st') ok sk j.2 = journal_filter (db st) ok sk j.2 ∧
    journal_row (db st') j = journal_row (db st) j) as Hsame.
  { intros [n [[k v] s]] Hin. destruct (wf_journal_row _ _ Hw _ _ _ _ Hin) as (row & Hrow & _).
    destruct (ext_revisions _ _ He _ _ _ Hrow) as (Hrow' & _).
    unfold journal_filter, journal_row. simpl. by rewrite Hrow, Hrow'. }
  revert Hsame. generalize (object_journal (db st)) as t. induction t as [|j t IH]; intros Hsame; [done|].
  destruct (Hsame j ltac:(by left)) as [Ef Er]. rewrite !filter_cons, Ef.
  specialize (IH (λ j Hj, Hsame j (list_elem_of_further j _ _ Hj))).
  destruct (decide _); simpl; [|done]. rewrite Er.
  destruct (journal_row (db st) j); [f_equal|]; exact IH.
Qed.

(** The journal is append-only: after any further operations, reading it from
    the beginning with the same filters gives the entries it gave before,
    followed by new ones.  A consumer that remembers its last sequence number
    misses nothing. *)
Theorem journal_is_append_only st st' fuel fuel' limit limit' ok sk es es' :
  reachable st → rtc (step (H:=H) json_parse) st st' → 0 < limit <= 1024 → 0 < limit' <= 1024 →
  len (object_journal (db st)) < Z.of_nat fuel → len (object_journal (db st')) < Z.of_nat fuel' →
  journal_all ok sk fuel 0 limit st = Ok es → journal_all ok sk fuel' 0 limit' st' = Ok es' →
  es `prefix_of` es'.
Proof.
  intros Hr Hsteps Hl Hl' Hf Hf' E E'.
  destruct (reachable_good _ _ Hr) as [Hg (A & _ & HA)].
  destruct (steps_good json_parse st st' Hg (ex_intro _ A HA) Hsteps) as [Hg' (_ & _ & _ & He)].
  destruct (journal_legal _ _ _ _ _ _ Hf E) as [Eo Es].
  destruct (journal_read st fuel limit ok sk Hg Hl Eo Es Hf) as (es1 & E1 & -> & _).
  destruct (journal_read st' fuel' limit' ok sk Hg' Hl' Eo Es Hf') as (es2 & E2 & -> & _).
  rewrite E in E1. rewrite E' in E2. injection E1 as ->. injection E2 as ->.
  destruct (ext_journal _ _ He) as [new ->].
  rewrite filter_app, omap_app, (journal_rows_kept st st') by done. by eexists.
Qed.

(** ** The binary diff *)

Lemma chunks_present st k i o v row parts : good st → find_object (db st) k = Some (i, o) →
  revision_of (db st) k v = Some row → chunks st k v = Ok parts →
  Forall (λ c, c ≠ no_chunk) parts.
Proof.
  intros Hg Ho Hr E. pose proof (good_wf _ Hg) as Hw.
  destruct (version_range _ _ _ _ _ _ _ Hw Ho Hr) as (Hv & Hm & _).
  apply chunks_inv in E. rewrite i64_id in E by lia.
  destruct (revision_deleted row) eqn:Hd.
  - rewrite (rv_deleted _ _ _ _ _ _ (wf_revision _ _ Hw _ _ _ _ _ Ho Hr) Hd) in E.
    by injection E as <-.
  - destruct (revision_parts _ _ _ _ _ _ _ Hw Ho Hr Hd) as (parts' & datas & E' & H2 & _).
    rewrite E' in E. injection E as <-. clear E'.
    induction H2 as [|part data parts' datas [Hd' Hsz] _ IH]; constructor; [|done].
    intros ->. destruct (wf_chunk _ _ Hw _ _ Hd') as (_ & Hlen & _). simpl in Hsz. lia.
Qed.

(** C38 A diff is exact and reversible.  The changes [diff] reports for a version
    turn the chunk list of the version before it into the chunk list of the
    version, and back; their offsets ascend, and each one really changes its
    chunk.  The version before the first has no chunks. *)
Theorem diff_is_reversible st e k v cs :
  reachable st → 0 <= v → diff e k v st = Ok cs →
  ∃ before after,
    (if v =? 1 then before = [] else chunks st k (v - 1) = Ok before) ∧ chunks st k v = Ok after ∧
    patch after_side cs before = after ∧ patch before_side cs after = before ∧
    StronglySorted Z.lt (offset <$> cs) ∧ ∀ c, c ∈ cs → before_side c ≠ after_side c.
Proof.
  intros Hr Hv0 E. destruct (reachable_good _ _ Hr) as [Hg _]. pose proof (good_wf _ Hg) as Hw.
  unfold diff, snapshot in E. inv_ok. destruct (commit_error e); inv_ok.
  apply Z.eqb_neq in H0. apply Z.ltb_ge in H1. subst a1.
  destruct (get_inv st k v a2 Hg ltac:(unfold INT64_MAX, UINT64_MAX in *; lia) H2)
    as (i & o & row & s & Ho & Hrow & _ & _ & Hv & _).
  pose proof (chunks_present _ _ _ _ _ _ _ Hg Ho Hrow H5) as Hafter.
  assert ((if v =? 1 then a3 = [] else chunks st k (v - 1) = Ok a3) ∧
    Forall (λ c, c ≠ no_chunk) a3) as [Hbefore Hpresent].
  { destruct (Z.ltb_spec 1 v), (Z.eqb_spec v 1); try lia; [|by injection H4 as <-].
    split; [done|]. destruct (find_object_in _ _ _ _ Ho) as [Hin Hk].
    destruct (wf_head _ _ Hw _ _ Hin) as (_ & _ & Hall & _). rewrite Hk in Hall.
    destruct (proj2 (Hall (v - 1)) ltac:(lia)) as [row' Hrow'].
    by eapply chunks_present. }
  exists a3, a4. split_and!; [done|done|by apply patch_after|by apply patch_before| |].
  - apply changes_sorted.
  - intros c. apply changes_differ.
Qed.
End queries.
