(* ===== verification/WorkerPool.v ===== *)
(** Threads that share an atomic cursor and a failure flag, as
    [readObjectBatch] (src/Objects/ObjectBatchRead.cpp) and [ObjectSnapshotBatch]
    (src/Objects/ObjectSnapshotBatch.cpp) run them: every interleaving ends, no
    index is handled twice, and the result is that of the jobs in order. *)
From stdpp Require Import relations list gmap.
From S2P Require Import Prelude.

Section pool.
Context {A : Type} (job : nat → result string A → Prop) (n : nat).

(** Where a worker is in its loop. *)
Inductive worker :=
  | Ready                 (* before [failed.load()] *)
  | Claiming              (* before [cursor.fetch_add(1)] *)
  | Busy (i : nat)        (* inside the try block of index i *)
  | Failing               (* before [failed.store(true)] *)
  | Stopped.

Record Pool := {
  cursor : nat;
  failed : bool;
  workers : list worker;
  outcome : gmap nat (result string A)     (* results and [errors] by index *)
}.

Definition start (k : nat) : Pool :=
  {| cursor := 0; failed := false; workers := replicate k Ready; outcome := ∅ |}.

Definition set_worker (w : nat) (x : worker) (p : Pool) : Pool :=
  {| cursor := cursor p; failed := failed p; workers := <[w := x]> (workers p); outcome := outcome p |}.

Inductive pool_step : Pool → Pool → Prop :=
  | step_stop p w : workers p !! w = Some Ready → failed p = true →
      pool_step p (set_worker w Stopped p)
  | step_go p w : workers p !! w = Some Ready → failed p = false →
      pool_step p (set_worker w Claiming p)
  | step_claim p w : workers p !! w = Some Claiming →
      pool_step p (set_worker w (if (cursor p <? n)%nat then Busy (cursor p) else Stopped)
        {| cursor := S (cursor p); failed := failed p; workers := workers p; outcome := outcome p |})
  | step_done p w i a : workers p !! w = Some (Busy i) → job i (Ok a) →
      pool_step p (set_worker w Ready
        {| cursor := cursor p; failed := failed p; workers := workers p; outcome := <[i := Ok a]> (outcome p) |})
  | step_throw p w i m : workers p !! w = Some (Busy i) → job i (Err m) →
      pool_step p (set_worker w Failing
        {| cursor := cursor p; failed := failed p; workers := workers p; outcome := <[i := Err m]> (outcome p) |})
  | step_flag p w : workers p !! w = Some Failing →
      pool_step p (set_worker w Ready
        {| cursor := cursor p; failed := true; workers := workers p; outcome := outcome p |}).

Definition joined (p : Pool) : Prop := Forall (λ w, w = Stopped) (workers p).

(** What is rethrown or returned after the join: the first error by index, or the
    items, which start as [blank]. *)
Fixpoint first_error (is_ : list nat) (o : gmap nat (result string A)) : option string :=
  match is_ with
  | [] => None
  | i :: is_ => match o !! i with Some (Err m) => Some m | _ => first_error is_ o end
  end.

Definition collect (blank : nat → A) (p : Pool) : result string (list A) :=
  match first_error (seq 0 n) (outcome p) with
  | Some m => Err m
  | None => Ok ((λ i, match outcome p !! i with Some (Ok a) => a | _ => blank i end) <$> seq 0 n)
  end.

(** ** Termination *)

Definition weight (w : worker) : nat :=
  match w with Stopped => 0 | Claiming => 1 | Ready => 2 | Failing => 3 | Busy _ => 4 end.

Definition work_left (p : Pool) : nat := 4 * (n - cursor p) + sum_list_with weight (workers p).

Lemma sum_insert ws w x y : ws !! w = Some x →
  sum_list_with weight (<[w := y]> ws) + weight x = sum_list_with weight ws + weight y.
Proof.
  revert w. induction ws as [|z ws IH]; intros [|w]; simpl; try done; intros E.
  - injection E as ->. lia.
  - specialize (IH w E). lia.
Qed.

Lemma step_measure p p' : pool_step p p' → work_left p' < work_left p.
Proof.
  unfold work_left. destruct 1 as [p w E _|p w E _|p w E|p w i a E _|p w i m E _|p w E]; cbn [set_worker workers cursor];
    match goal with |- context [<[_ := ?y]> _] => pose proof (sum_insert _ _ _ y E) as Hs end;
    [simpl in *; lia|simpl in *; lia| |simpl in *; lia|simpl in *; lia|simpl in *; lia].
  destruct (Nat.ltb_spec (cursor p) n); simpl in *; lia.
Qed.

Lemma steps_bounded k p p' : nsteps pool_step k p p' → k + work_left p' ≤ work_left p.
Proof. induction 1 as [|k x y z Hxy _ IH]; [lia|]. apply step_measure in Hxy. lia. Qed.

Lemma start_work k : work_left (start k) = 4 * n + 2 * k.
Proof.
  unfold work_left, start. simpl. assert (sum_list_with weight (replicate k Ready) = 2 * k); [|lia].
  induction k as [|k IH]; simpl; lia.
Qed.

(** Nothing waits for anything. *)
Lemma pool_progress p : (∀ w i, workers p !! w = Some (Busy i) → ∃ r, job i r) → joined p ∨ ∃ p', pool_step p p'.
Proof.
  intros Hjobs. destruct (decide (Forall (λ w, weight w = 0) (workers p))) as [Hs|Hn].
  - left. eapply Forall_impl; [exact Hs|]. by intros [].
  - right. apply not_Forall_Exists in Hn; [|apply _]. apply Exists_exists in Hn as (x & Hx & Hw).
    apply list_elem_of_lookup in Hx as [w Hw']. destruct x as [| |i| |]; [| | | |by simpl in Hw].
    + destruct (failed p) eqn:Ef; eexists; [by apply (step_stop p w)|by apply (step_go p w)].
    + eexists. by apply (step_claim p w).
    + destruct (Hjobs w i Hw') as [[a|m] Hj]; eexists; [by apply (step_done p w i a)|by apply (step_throw p w i m)].
    + eexists. by apply (step_flag p w).
Qed.

(** ** Each index once *)

Record pool_inv (p : Pool) : Prop := {
  inv_busy w i : workers p !! w = Some (Busy i) → i < cursor p ∧ i < n ∧ outcome p !! i = None;
  inv_once w w' i : workers p !! w = Some (Busy i) → workers p !! w' = Some (Busy i) → w = w';
  inv_done i r : outcome p !! i = Some r → i < cursor p ∧ i < n ∧ job i r;
  inv_claimed i : i < cursor p → i < n →
    is_Some (outcome p !! i) ∨ ∃ w, workers p !! w = Some (Busy i);
  inv_failed : failed p = true ∨ (∃ w, workers p !! w = Some Failing) → ∃ i m, outcome p !! i = Some (Err m);
  inv_error i m : outcome p !! i = Some (Err m) → failed p = true ∨ ∃ w, workers p !! w = Some Failing;
  inv_stopped w : workers p !! w = Some Stopped → failed p = true ∨ n ≤ cursor p
}.

Lemma start_inv k : pool_inv (start k).
Proof.
  split; simpl; try (intros ? ? [E _]%lookup_replicate || intros ? [E _]%lookup_replicate); try done; try lia.
  - by intros w w' i [E _]%lookup_replicate.
  - by intros [?|[w [E _]%lookup_replicate]].
Qed.

(** The place of one worker after another one moved. *)
Lemma moved (ws : list worker) w x y w' z : ws !! w = Some x →
  <[w := y]> ws !! w' = Some z ↔ (w' = w ∧ z = y) ∨ (w' ≠ w ∧ ws !! w' = Some z).
Proof.
  intros E. pose proof (lookup_lt_Some _ _ _ E) as Hl. destruct (decide (w' = w)) as [->|Hne].
  - rewrite list_lookup_insert_eq by done. naive_solver.
  - rewrite list_lookup_insert_ne by done. naive_solver.
Qed.


Ltac places E := repeat match goal with
  | H : <[_ := _]> _ !! _ = Some _ |- _ => rewrite (moved _ _ _ _ _ _ E) in H; destruct H as [[? ?]|[? H]]
  end; subst.

(** A worker that is not busy moves to a place where it is not busy. *)
Lemma idle_inv p w x y f : pool_inv p → workers p !! w = Some x → (∀ i, x ≠ Busy i) → (∀ i, y ≠ Busy i) →
  y ≠ Failing →
  (f = failed p ∧ x ≠ Failing ∨ f = true ∧ x = Failing) → (y = Stopped → f = true ∨ n ≤ cursor p) →
  pool_inv (set_worker w y {| cursor := cursor p; failed := f; workers := workers p; outcome := outcome p |}).
Proof.
  intros [Hbusy Honce Hdone Hclaimed Hfailed Herror Hstopped] E Hx Hy Hyf Hf Hs. split; cbn [set_worker workers cursor failed outcome].
  - intros w' i H1. places E; [by destruct (Hy i)|by apply (Hbusy w')].
  - intros w' w2 i H1 H2. places E; [done|by destruct (Hy i)|by destruct (Hy i)|by apply (Honce _ _ i)].
  - done.
  - intros i H1 H2. destruct (Hclaimed i H1 H2) as [?|[w' H3]]; [by left|right]. exists w'. apply (moved _ _ _ _ _ _ E).
    right. split; [|done]. intros ->. destruct (Hx i). congruence.
  - intros H1. apply Hfailed. destruct Hf as [[-> _]|[_ ->]]; [|right; by exists w].
    destruct H1 as [?|[w' H1]]; [by left|]. places E; [done|right; by exists w'].
  - intros i m H1. destruct (Herror i m H1) as [H2|[w' H2]]; [|].
    + destruct Hf as [[-> _]|[-> _]]; by left.
    + destruct Hf as [[-> Hne]|[-> _]]; [right|by left]. exists w'. apply (moved _ _ _ _ _ _ E).
      right. split; [|done]. intros ->. congruence.
  - intros w' H1. places E; [by apply Hs|].
    destruct (Hstopped w' H1) as [H2|]; [|by right]. destruct Hf as [[-> _]|[-> _]]; by left.
Qed.

Lemma claim_inv p w : pool_inv p → workers p !! w = Some Claiming →
  pool_inv (set_worker w (if (cursor p <? n)%nat then Busy (cursor p) else Stopped)
    {| cursor := S (cursor p); failed := failed p; workers := workers p; outcome := outcome p |}).
Proof.
  intros [Hbusy Honce Hdone Hclaimed Hfailed Herror Hstopped] E.
  assert (∀ w' i, <[w := if (cursor p <? n)%nat then Busy (cursor p) else Stopped]> (workers p) !! w' = Some (Busy i) →
    (w' = w ∧ i = cursor p ∧ i < n) ∨ (w' ≠ w ∧ workers p !! w' = Some (Busy i) ∧ i < cursor p)) as Hb.
  { intros w' i H1. places E; [|right; split_and!; [done..|by apply (Hbusy w')]].
    destruct (Nat.ltb_spec (cursor p) n); [|done]. left. by match goal with H : Busy _ = Busy _ |- _ => injection H as -> end. }
  split; cbn [set_worker workers cursor failed outcome].
  - intros w' i [(-> & -> & Hi)|(Hne & H1 & Hi)]%Hb.
    + split_and!; [lia|done|]. destruct (outcome p !! cursor p) eqn:Eo; [|done]. apply Hdone in Eo as [? _]. lia.
    + destruct (Hbusy _ _ H1) as (? & ? & ?). split_and!; [lia|done..].
  - intros w' w2 i [(-> & -> & _)|(Hne & H1 & Hi)]%Hb [(-> & ? & _)|(Hne2 & H2 & Hi2)]%Hb; [done|lia|lia|by apply (Honce _ _ i)].
  - intros i r Ho. destruct (Hdone _ _ Ho) as (? & ? & ?). split_and!; [lia|done..].
  - intros i H1 H2. destruct (decide (i = cursor p)) as [->|Hne].
    + right. exists w. apply (moved _ _ _ _ _ _ E). left. by rewrite (proj2 (Nat.ltb_lt _ _) H2).
    + destruct (Hclaimed i ltac:(lia) H2) as [?|[w' H3]]; [by left|right]. exists w'. apply (moved _ _ _ _ _ _ E).
      right. split; [|done]. intros ->. congruence.
  - intros H1. apply Hfailed. destruct H1 as [?|[w' H1]]; [by left|right]. places E; [by destruct (_ <? _)|by exists w'].
  - intros i m Ho. destruct (Herror i m Ho) as [?|[w' H1]]; [by left|right]. exists w'. apply (moved _ _ _ _ _ _ E).
    right. split; [|done]. intros ->. congruence.
  - intros w' H1. places E.
    + destruct (Nat.ltb_spec (cursor p) n); [done|]. right. lia.
    + destruct (Hstopped w' H1); [by left|right; lia].
Qed.

Lemma finish_inv p w i r : pool_inv p → workers p !! w = Some (Busy i) → job i r →
  pool_inv (set_worker w (match r with Ok _ => Ready | Err _ => Failing end)
    {| cursor := cursor p; failed := failed p; workers := workers p; outcome := <[i := r]> (outcome p) |}).
Proof.
  intros [Hbusy Honce Hdone Hclaimed Hfailed Herror Hstopped] E Hj. destruct (Hbusy _ _ E) as (Hic & Hin & Hfree).
  split; cbn [set_worker workers cursor failed outcome].
  - intros w' j H1. places E; [by destruct r|]. destruct (Hbusy w' j) as (? & ? & ?); [done|].
    split_and!; [done..|]. rewrite lookup_insert_ne; [done|]. intros <-. by apply H, (Honce _ _ i).
  - intros w' w2 j H1 H2. places E; [done|by destruct r|by destruct r|by apply (Honce _ _ j)].
  - intros j r' [[<- <-]|[_ Ho]]%lookup_insert_Some; [done|by apply Hdone].
  - intros j H1 H2. destruct (decide (j = i)) as [->|Hne]; [left; by rewrite lookup_insert_eq|].
    rewrite lookup_insert_ne by done. destruct (Hclaimed j H1 H2) as [?|[w' H3]]; [by left|right].
    exists w'. apply (moved _ _ _ _ _ _ E). right. split; [|done]. intros ->. congruence.
  - intros H1. assert ((∃ i m, outcome p !! i = Some (Err m)) ∨ ∃ m, r = Err m) as [(j & m & Ho)|[m ->]].
    + destruct H1 as [H1|[w' H1]]; [left; apply Hfailed; by left|]. places E; [|left; apply Hfailed; right; by exists w'].
      destruct r; [done|]. right. by eexists.
    + exists j, m. rewrite lookup_insert_ne; [done|]. intros <-. congruence.
    + exists i, m. by rewrite lookup_insert_eq.
  - intros j m [[<- ->]|[_ Ho]]%lookup_insert_Some.
    + right. exists w. apply (moved _ _ _ _ _ _ E). by left.
    + destruct (Herror j m Ho) as [?|[w' H1]]; [by left|right]. exists w'. apply (moved _ _ _ _ _ _ E).
      right. split; [|done]. intros ->. congruence.
  - intros w' H1. places E; [by destruct r|by apply (Hstopped w')].
Qed.

Lemma step_inv p p' : pool_inv p → pool_step p p' → pool_inv p'.
Proof.
  intros Hinv Hs. revert Hinv. destruct Hs as [q w E Ef|q w E Ef|q w E|q w i a E Hj|q w i m E Hj|q w E]; intros Hinv.
  - apply (idle_inv q w Ready Stopped (failed q)); naive_solver.
  - apply (idle_inv q w Ready Claiming (failed q)); naive_solver.
  - by apply claim_inv.
  - by apply (finish_inv q w i (Ok a)).
  - by apply (finish_inv q w i (Err m)).
  - apply (idle_inv q w Failing Ready true); naive_solver.
Qed.

(** ** The result *)

(** Every worker has stopped: either an index failed, or each index is done. *)
Lemma joined_all p : pool_inv p → workers p ≠ [] → joined p →
  (∃ i m, i < n ∧ outcome p !! i = Some (Err m) ∧ job i (Err m)) ∨
  ∀ i, i < n → ∃ a, outcome p !! i = Some (Ok a) ∧ job i (Ok a).
Proof.
  intros Hinv Hne Hj. unfold joined in Hj. rewrite Forall_forall in Hj.
  destruct (workers p) as [|x ws] eqn:Ew; [done|].
  assert (x = Stopped) as -> by (apply Hj; by left).
  destruct (inv_stopped _ Hinv 0) as [Hf|Hn]; [by rewrite Ew| |].
  - left. destruct (inv_failed _ Hinv (or_introl Hf)) as (i & m & Ho). exists i, m.
    by destruct (inv_done _ Hinv _ _ Ho) as (_ & ? & ?).
  - destruct (decide (failed p = true)) as [Hf|Hf].
    { left. destruct (inv_failed _ Hinv (or_introl Hf)) as (i & m & Ho). exists i, m.
      by destruct (inv_done _ Hinv _ _ Ho) as (_ & ? & ?). }
    right. intros i Hi. destruct (inv_claimed _ Hinv i ltac:(lia) Hi) as [[[a|m] Ho]|[w Hw]].
    + exists a. by destruct (inv_done _ Hinv _ _ Ho) as (_ & _ & ?).
    + destruct (inv_error _ Hinv _ _ Ho) as [|[w Hw]]; [done|]. rewrite Ew in Hw.
      apply list_elem_of_lookup_2, Hj in Hw. done.
    + rewrite Ew in Hw. apply list_elem_of_lookup_2, Hj in Hw. done.
Qed.

Lemma first_error_spec is_ o : match first_error is_ o with
  | Some m => ∃ i, i ∈ is_ ∧ o !! i = Some (Err m)
  | None => ∀ i m, i ∈ is_ → o !! i ≠ Some (Err m)
  end.
Proof.
  induction is_ as [|i is_ IH]; simpl; [by intros i m ?%not_elem_of_nil|].
  destruct (o !! i) as [[a|m]|] eqn:Eo.
  2: { exists i. split; [by left|done]. }
  all: destruct (first_error is_ o) as [m'|]; [destruct IH as (j & Hj & Ho); exists j; split; [by right|done]|];
    intros j m' [->|Hj]%elem_of_cons; [congruence|by apply IH].
Qed.

Lemma collect_spec blank p : pool_inv p → workers p ≠ [] → joined p →
  match collect blank p with
  | Ok xs => Forall2 (λ i a, job i (Ok a)) (seq 0 n) xs
  | Err m => ∃ i, i < n ∧ job i (Err m)
  end.
Proof.
  intros Hinv Hne Hj. unfold collect. pose proof (first_error_spec (seq 0 n) (outcome p)) as He.
  destruct (first_error _ _) as [m|].
  - destruct He as (i & _ & Ho). exists i. by destruct (inv_done _ Hinv _ _ Ho) as (_ & ? & ?).
  - destruct (joined_all p Hinv Hne Hj) as [(i & m & Hi & Ho & _)|Hall].
    + destruct (He i m); [|done]. apply elem_of_seq. lia.
    + apply Forall2_fmap_r, Forall_Forall2_diag, Forall_forall. intros i [_ Hi]%elem_of_seq.
      destruct (Hall i) as (a & Ho & Hja); [lia|]. simpl. by rewrite Ho.
Qed.

Lemma reachable_inv k p : rtc pool_step (start k) p → pool_inv p.
Proof.
  intros Hs. assert (∀ x, rtc pool_step x p → pool_inv x → pool_inv p) as Hgen.
  { induction 1 as [|x y z Hxy _ IH]; [done|]. intros Hx. by apply IH, (step_inv x). }
  by apply (Hgen _ Hs), start_inv.
Qed.

Lemma steps_workers p p' : rtc pool_step p p' → length (workers p') = length (workers p).
Proof.
  induction 1 as [|x y z Hxy _ IH]; [done|]. rewrite IH. by destruct Hxy; cbn; rewrite length_insert.
Qed.
End pool.
