(* ===== verification/ObjectSource.v ===== *)
(** Private snapshots of source files (src/Objects/ObjectSource.cpp, the POSIX
    branch): the identity of a file, and a copy that is only kept when the file was
    the same before, during and after.

    What the operating system answers is an input: the metadata it shows at each
    look, the blocks that [read] delivers and how much of each [write] it takes. *)
From S2P Require Import Prelude Text Sha256 JsonParser.
Local Open Scope Z_scope.

(** ** Identities *)

(** [struct stat], the fields that are used. *)
Record Stat := {
  st_regular : bool;
  st_size : Z;
  st_dev : Z;
  st_ino : Z;
  m_sec : Z;
  m_nsec : Z;
  c_sec : Z;
  c_nsec : Z
}.

Record ObjectSourceIdentity := { stamp : bytes; identity_size : Z }.

#[export] Instance ObjectSourceIdentity_eq_dec : EqDecision ObjectSourceIdentity.
Proof. solve_decision. Defined.

(** What is hashed into the stamp: the path, then the numbers. *)
Definition stamp_pieces (path : bytes) (file : Stat) : list bytes :=
  [path;
   lit ":" ++ to_string (st_dev file) ++ lit ":" ++ to_string (st_ino file) ++ lit ":" ++ to_string (st_size file);
   lit ":" ++ to_string (m_sec file) ++ lit ":" ++ to_string (m_nsec file) ++ lit ":" ++
   to_string (c_sec file) ++ lit ":" ++ to_string (c_nsec file)].

(** [openDirect]: the ancestors are opened one by one, none through a link. *)
Fixpoint open_ancestors (opens : list bytes → bool) (above rest : list bytes) : result string unit :=
  match rest with
  | [] => Ok tt
  | part :: rest =>
      _ ← check (opens (above ++ [part])) "redirected or unavailable source ancestor";
      open_ancestors opens (above ++ [part]) rest
  end.

Definition openDirect (root_opens : bool) (opens : list bytes → bool) (file_opens : bool)
    (ancestors : list bytes) (is_root : bool) : result string unit :=
  _ ← check root_opens "cannot open source root";
  if is_root then Ok tt else
  _ ← open_ancestors opens [] ancestors;
  check file_opens "cannot open direct object source".

(** One look at a path. *)
Record Inspection := {
  seen_path : result string bytes;      (* [direct(input)] *)
  parent_opens : result string unit;    (* [openDirect(path.parent_path(), ...)] *)
  metadata : option Stat                (* [fstatat(..., AT_SYMLINK_NOFOLLOW)] *)
}.

Section source.
Context {H : Type} {hashing : StreamHash H}.

Definition statIdentity (file : Stat) (path : bytes) : result string ObjectSourceIdentity :=
  _ ← check (st_regular file && (0 <=? st_size file)) "invalid object source handle";
  h ← hash_run (H:=H) (stamp_pieces path file);
  Ok {| stamp := h; identity_size := u64 (st_size file) |}.

(** [handleIdentity]: [fstat] of the open descriptor. *)
Definition handleIdentity (file : option Stat) (path : bytes) : result string ObjectSourceIdentity :=
  file ← of_option "cannot inspect object source handle" file; statIdentity file path.

Definition inspect (i : Inspection) : result string ObjectSourceIdentity :=
  path ← seen_path i;
  _ ← parent_opens i;
  file ← of_option "cannot inspect object source metadata" (metadata i);
  statIdentity file path.

(** ** The copy *)

Inductive ReadOutcome := ReadInterrupted | ReadFailed | ReadBytes (data : bytes).
Inductive WriteOutcome := WriteInterrupted | WriteFailed | Wrote (n : Z).

(** The loop that writes a block; after the listed outcomes [write] takes all it is
    given. *)
Fixpoint write_block (data out : bytes) (writes : list WriteOutcome) : result string (bytes * list WriteOutcome) :=
  match data, writes with
  | [], _ => Ok (out, writes)
  | _, [] => Ok (out ++ data, [])
  | _, WriteInterrupted :: writes => write_block data out writes
  | _, WriteFailed :: _ => Err "cannot write source snapshot"
  | _, Wrote n :: writes =>
      _ ← check (negb (n <=? 0)) "cannot write source snapshot";
      write_block (drop (Z.to_nat n) data) (out ++ take (Z.to_nat n) data) writes
  end.

(** The loop over [read]; an empty block is the end of the file, and so is the end of
    the list. *)
Fixpoint copy_loop (stop : nat → bool) (poll : nat) (size copied : Z) (out : bytes) (reads : list ReadOutcome)
    (writes : list WriteOutcome) : result string bytes :=
  _ ← check (negb (stop poll)) "object snapshot cancelled";
  match reads with
  | [] => Ok out
  | ReadInterrupted :: reads => copy_loop stop (S poll) size copied out reads writes
  | ReadFailed :: _ => Err "cannot read snapshot source"
  | ReadBytes data :: reads =>
      if bool_decide (data = []) then Ok out else
      _ ← check (negb (u64 (size - copied) <? len data)) "source grew while capturing object snapshot";
      '(out, writes) ← write_block data out writes;
      copy_loop stop (S poll) size (u64 (copied + len data)) out reads writes
  end.

(** [create_directory] on up to 64 fresh names. *)
Fixpoint unique_directory (created : nat → result string bool) (attempt left_ : nat) : result string nat :=
  match left_ with
  | O => Err "cannot create unique snapshot directory"
  | S left_ =>
      made ← created attempt;
      if (made : bool) then Ok attempt else unique_directory created (S attempt) left_
  end.

(** What the operating system answers while a snapshot is taken. *)
Record Capture := {
  capture_stop : nat → bool;
  source_path : result string bytes;
  staging_path : result string bytes;
  staging_is_directory : bool;
  source_opens : result string unit;
  opened : option Stat;
  capture_lease : result string unit;
  created : nat → result string bool;
  prepared_directory : result string unit;   (* [fs::permissions] of the directory *)
  output_opens : bool;
  reads : list ReadOutcome;
  writes : list WriteOutcome;
  prepared_file : result string unit;        (* [fs::permissions] of the payload *)
  reopened : option Stat;
  inspected : Inspection
}.

Record Snapshot := { payload_file : bytes; original : ObjectSourceIdentity }.

(** [ObjectSource(input, staging, cancellation, expectedIdentity)]. *)
Definition capture (c : Capture) (expected : option ObjectSourceIdentity) : result string Snapshot :=
  _ ← check (negb (capture_stop c 0%nat)) "object snapshot cancelled";
  path ← source_path c;
  _ ← staging_path c;
  _ ← check (staging_is_directory c) "invalid snapshot staging directory";
  _ ← source_opens c;
  first ← handleIdentity (opened c) path;
  _ ← check (match expected with Some e => bool_decide (first = e) | None => true end)
        "source changed before snapshot; rescan required";
  _ ← capture_lease c;
  _ ← unique_directory (created c) 0 64;
  _ ← prepared_directory c;
  _ ← check (output_opens c) "cannot create snapshot payload";
  out ← copy_loop (capture_stop c) 1 (identity_size first) 0 [] (reads c) (writes c);
  _ ← prepared_file c;
  _ ← check (negb (capture_stop c (2 + length (reads c))%nat)) "object snapshot cancelled";
  again ← handleIdentity (reopened c) path;
  now ← (if bool_decide (again = first) then i ← inspect (inspected c); Ok (Some i) else Ok None);
  _ ← check (bool_decide (now = Some first) && (len out =? identity_size first))
        "source changed while capturing object snapshot";
  Ok {| payload_file := out; original := first |}.

(** ** A snapshot is what was read *)

(** What the reads deliver up to the end of the file. *)
Fixpoint delivered (reads : list ReadOutcome) : bytes :=
  match reads with
  | ReadBytes data :: reads => if bool_decide (data = []) then [] else data ++ delivered reads
  | ReadInterrupted :: reads => delivered reads
  | _ => []
  end.

Lemma write_block_all data out writes out' writes' :
  write_block data out writes = Ok (out', writes') → out' = out ++ data.
Proof.
  revert data out. induction writes as [|w writes IH]; intros data out E.
  - destruct data; simpl in E; injection E as <- _; by rewrite ?app_nil_r.
  - destruct data as [|b data]; [simpl in E; injection E as <- _; by rewrite app_nil_r|].
    set (block := b :: data) in *. assert (write_block block out (w :: writes) = match w with
      | WriteInterrupted => write_block block out writes
      | WriteFailed => Err "cannot write source snapshot"%string
      | Wrote n => _ ← check (negb (n <=? 0)) "cannot write source snapshot"%string;
          write_block (drop (Z.to_nat n) block) (out ++ take (Z.to_nat n) block) writes
      end) as E2 by (by destruct w). rewrite E2 in E. destruct w as [| |n]; [by apply IH|done|].
    apply bind_ok in E as ([] & _ & E). apply IH in E. by rewrite E, <-app_assoc, take_drop.
Qed.

Lemma copy_loop_all stop poll size copied out reads writes out' :
  copy_loop stop poll size copied out reads writes = Ok out' → out' = out ++ delivered reads.
Proof.
  revert poll copied out writes. induction reads as [|r reads IH]; intros poll copied out writes E.
  - simpl in E. apply bind_ok in E as ([] & _ & [= <-]). by rewrite app_nil_r.
  - simpl in E. apply bind_ok in E as ([] & _ & E). destruct r as [| |data]; [by apply IH in E|done|].
    cbn [delivered]. case_bool_decide; [injection E as <-; by rewrite app_nil_r|].
    apply bind_ok in E as ([] & _ & E). apply bind_ok in E as ([out2 writes2] & Hw & E).
    apply write_block_all in Hw. apply IH in E. by rewrite E, Hw, <-app_assoc.
Qed.

Lemma capture_spec c expected s : capture c expected = Ok s →
  payload_file s = delivered (reads c) ∧ len (payload_file s) = identity_size (original s) ∧
  (∀ e, expected = Some e → original s = e) ∧
  (∃ path, source_path c = Ok path ∧ handleIdentity (opened c) path = Ok (original s) ∧
     handleIdentity (reopened c) path = Ok (original s)) ∧
  inspect (inspected c) = Ok (original s).
Proof.
  intros E. unfold capture in E. apply bind_ok in E as ([] & _ & E). apply bind_ok in E as (path & Hpath & E).
  do 3 (apply bind_ok in E as (? & _ & E)). apply bind_ok in E as (first & Hfirst & E).
  apply bind_ok in E as ([] & Hexp & E). apply check_ok in Hexp. do 4 (apply bind_ok in E as (? & _ & E)).
  apply bind_ok in E as (out & Hout & E). do 2 (apply bind_ok in E as (? & _ & E)).
  apply bind_ok in E as (again & Hagain & E). apply bind_ok in E as (now & Hnow & E).
  apply bind_ok in E as ([] & Hsame & E). apply check_ok, andb_true_iff in Hsame as [Hsame Hlen].
  apply bool_decide_eq_true in Hsame. apply Z.eqb_eq in Hlen. injection E as <-. cbn.
  apply copy_loop_all in Hout. case_bool_decide as Ha; [|congruence]. subst again now.
  destruct (inspect (inspected c)) as [i|] eqn:Ei; [|done]. injection Hnow as ->.
  split_and!; [done|done| |by exists path|done].
  intros e ->. by apply bool_decide_eq_true in Hexp.
Qed.

(** ** Equal stamps *)

Lemma number_no_colon z : ":"%char ∉ to_string z.
Proof.
  assert (∀ n, 0 <= n → ":"%char ∉ to_string n) as Hpos.
  { intros n Hn Hin. pose proof (to_string_digits n Hn) as Hd. rewrite Forall_forall in Hd.
    specialize (Hd _ Hin). by vm_compute in Hd. }
  destruct (Z.ltb_spec z 0) as [Hneg|Hz]; [|by apply Hpos]. rewrite to_string_neg by done.
  intros [|Hin]%elem_of_cons; [done|]. by apply (Hpos (- z)); [lia|].
Qed.

(** Text is cut in one way at the last colon. *)
Lemma last_colon x y d e : ":"%char ∉ d → ":"%char ∉ e →
  x ++ lit ":" ++ d = y ++ lit ":" ++ e → x = y ∧ d = e.
Proof.
  intros Hd He E. change (lit ":") with [":"%char] in E.
  revert y E. induction x as [|a x IH]; intros [|b y] E; simpl in E.
  - by injection E.
  - injection E as <- ->. exfalso. apply Hd, elem_of_app. right. by left.
  - injection E as -> <-. exfalso. apply He, elem_of_app. right. by left.
  - injection E as -> E. by destruct (IH y E) as [-> ->].
Qed.

Lemma stamp_inj path path' f f' : concat (stamp_pieces path f) = concat (stamp_pieces path' f') →
  path = path' ∧ st_dev f = st_dev f' ∧ st_ino f = st_ino f' ∧ st_size f = st_size f' ∧
  m_sec f = m_sec f' ∧ m_nsec f = m_nsec f' ∧ c_sec f = c_sec f' ∧ c_nsec f = c_nsec f'.
Proof.
  assert (∀ path f, concat (stamp_pieces path f) =
    ((((((path ++ lit ":" ++ to_string (st_dev f)) ++ lit ":" ++ to_string (st_ino f)) ++ lit ":" ++ to_string (st_size f))
    ++ lit ":" ++ to_string (m_sec f)) ++ lit ":" ++ to_string (m_nsec f)) ++ lit ":" ++ to_string (c_sec f))
    ++ lit ":" ++ to_string (c_nsec f)) as Hcat.
  { intros. unfold stamp_pieces. cbn [concat]. rewrite app_nil_r, <-!app_assoc. done. }
  rewrite !Hcat. intros E.
  do 7 (apply last_colon in E as [E ?%(inj to_string)]; [|apply number_no_colon..]). by split_and!.
Qed.

Context {laws : StreamHashLaws H}.

Lemma statIdentity_ok f path i : statIdentity f path = Ok i → st_regular f = true ∧ 0 <= st_size f ∧
  stamp i = hash_digest (H:=H) (concat (stamp_pieces path f)).
Proof.
  unfold statIdentity. intros E. apply bind_ok in E as ([] & Hc & E). apply check_ok, andb_true_iff in Hc as [? Hz].
  apply bind_ok in E as (h & Hh & [= <-]). rewrite hash_run_spec in Hh.
  destruct (len (concat _) <=? _); [|done]. injection Hh as <-. apply Z.leb_le in Hz. done.
Qed.
End source.
