(* ===== verification/ObjectBatchRead.v ===== *)
(** The two stages that feed a batch of the object store from many threads:
    [ObjectSnapshotBatch] (src/Objects/ObjectSnapshotBatch.cpp) captures the sources
    and [readObjectBatch] (src/Objects/ObjectBatchRead.cpp) reads them, both within
    16 MiB and with the worker pool of WorkerPool.v. *)
From stdpp Require Import relations list gmap.
From S2P Require Import Prelude Sha256 Table ObjectData ObjectPackage ObjectStore ObjectSource WorkerPool.
Local Open Scope Z_scope.

Definition maximumBatchBytes : Z := 16 * 1024 * 1024.

(** [std::min({concurrency, files, 64})], where zero asks for one worker per
    processor. *)
Definition concurrency (requested hardware files : nat) : nat :=
  Nat.min (Nat.min (if Nat.eqb requested 0 then Nat.max 1 hardware else requested) files) 64.

Lemma concurrency_positive requested hardware files : (0 < files)%nat → (0 < concurrency requested hardware files)%nat.
Proof. unfold concurrency. destruct (Nat.eqb_spec requested 0); lia. Qed.

(** The sizes fit in the budget, each taken from what the ones before left. *)
Fixpoint within_budget (error : string) (remaining : Z) (sizes : list Z) : result string unit :=
  match sizes with
  | [] => Ok tt
  | size :: sizes => _ ← check (negb (remaining <? size)) error; within_budget error (remaining - size) sizes
  end.

(** ** Jobs by index *)
Section jobs.
Context {A : Type} (job : nat → result string A).

(** The jobs one after the other, up to the first that fails. *)
Fixpoint in_order (is_ : list nat) : result string (list A) :=
  match is_ with
  | [] => Ok []
  | i :: is_ => a ← job i; rest ← in_order is_; Ok (a :: rest)
  end.

Definition job_rel (i : nat) (r : result string A) : Prop := r = job i.

Lemma in_order_ok is_ xs : in_order is_ = Ok xs ↔ Forall2 (λ i a, job i = Ok a) is_ xs.
Proof.
  revert xs. induction is_ as [|i is_ IH]; intros xs; simpl.
  - split; [by intros [= <-]|by intros ->%Forall2_nil_inv_l].
  - rewrite bind_ok. split.
    + intros (a & Ha & E). apply bind_ok in E as (rest & Hr & [= <-]). constructor; [done|]. by apply IH.
    + intros (a & rest & Ha & Hr & ->)%Forall2_cons_inv_l. exists a. split; [done|].
      apply IH in Hr. by rewrite Hr.
Qed.

Lemma in_order_err is_ i m : i ∈ is_ → job i = Err m → ∃ m', in_order is_ = Err m'.
Proof.
  intros Hi E. destruct (in_order is_) as [xs|m'] eqn:Ex; [exfalso|by eexists].
  apply in_order_ok in Ex. apply list_elem_of_lookup in Hi as [k Hk].
  destruct (Forall2_lookup_l _ _ _ _ _ Ex Hk) as (a & _ & Ha). congruence.
Qed.

Lemma in_order_seq {B} (l : list B) (f : B → A) : (∀ i x, l !! i = Some x → job i = Ok (f x)) →
  in_order (seq 0 (length l)) = Ok (f <$> l).
Proof.
  intros Hjob. apply in_order_ok, Forall2_same_length_lookup. split; [by rewrite length_seq, length_fmap|].
  intros i j a [-> Hi]%lookup_seq (x & -> & Hx)%list_lookup_fmap_Some. by apply Hjob.
Qed.

(** What the pool can return is what the jobs in order return, up to which of
    several errors is reported. *)
Lemma pool_in_order n k blank p : (0 < k)%nat → rtc (pool_step job_rel n) (start k) p → joined p →
  match collect n blank p with
  | Ok xs => in_order (seq 0 n) = Ok xs
  | Err m => ∃ i, (i < n)%nat ∧ job i = Err m
  end.
Proof.
  intros Hk Hs Hj. pose proof (reachable_inv _ _ _ _ Hs) as Hinv.
  assert (workers p ≠ []) as Hne.
  { intros E. pose proof (steps_workers _ _ _ _ Hs) as Hl. rewrite E in Hl. simpl in Hl.
    rewrite length_replicate in Hl. lia. }
  pose proof (collect_spec _ _ blank p Hinv Hne Hj) as Hc. destruct (collect n blank p) as [xs|m].
  - apply in_order_ok. eapply Forall2_impl; [exact Hc|]. by intros i a ->.
  - destruct Hc as (i & Hi & Hji). exists i. by split.
Qed.

Lemma pool_alone n k blank p : (0 < k)%nat → rtc (pool_step job_rel n) (start k) p → joined p →
  match collect n blank p with
  | Ok xs => in_order (seq 0 n) = Ok xs
  | Err m => is_ok (in_order (seq 0 n)) = false
  end.
Proof.
  intros Hk Hs Hj. pose proof (pool_in_order n k blank p Hk Hs Hj) as Hp. destruct (collect n blank p); [done|].
  destruct Hp as (i & Hi & E). destruct (in_order_err (seq 0 n) i _ ltac:(apply elem_of_seq; lia) E) as [m' ->]. done.
Qed.

(** The pool always ends. *)
Lemma pool_ends n k : ∃ p, rtc (pool_step job_rel n) (start k) p ∧ joined p.
Proof.
  assert (∀ m p, (work_left n p <= m)%nat → ∃ p', rtc (pool_step job_rel n) p p' ∧ joined p') as Hgen; [|by eapply Hgen].
  induction m as [|m IH]; intros p Hm; destruct (pool_progress job_rel n p) as [Hj|[p' Hp]];
    try (by exists p; split); try (by intros w i _; eexists); pose proof (step_measure _ _ _ _ Hp).
  - lia.
  - destruct (IH p') as (q & Hq & Hj); [lia|]. exists q. split; [|done]. by eapply rtc_l.
Qed.
End jobs.

(** ** Reading *)

(** What the outside shows of one file of a batch. *)
Record BatchInput := {
  input_stop : nat → bool;       (* the polls of its stop token *)
  seen : Inspection;             (* before anything is read *)
  stream_opens : bool;
  stream : bytes;                (* what the stream can deliver *)
  seen_again : Inspection        (* after its payload was read *)
}.

Record PreparedObjectSource := { prepared_identity : ObjectSourceIdentity; payload_bytes : bytes }.

Definition packaging_cancelled : string := "object packaging cancelled".

(** The loop that fills [item.bytes], in chunks. *)
Fixpoint fill (fuel : nat) (stop : nat → bool) (poll : nat) (left_ : Z) (stream : bytes) (acc : bytes) :
    result string bytes :=
  match fuel with
  | O => Err "unreachable"
  | S fuel =>
      if left_ <=? 0 then Ok acc else
      _ ← check (negb (stop poll)) packaging_cancelled;
      let length_ := Z.min chunkBytes left_ in
      let data := take (Z.to_nat length_) stream in
      _ ← check (len data =? length_) "object batch source changed or read failed";
      fill fuel stop (S poll) (left_ - length_) (drop (Z.to_nat length_) stream) (acc ++ data)
  end.

Section batch.
Context {H : Type} {hashing : StreamHash H}.

(** The sizes of all files, before anything is read. *)
Fixpoint preflight (remaining : Z) (files : list BatchInput) : result string (list ObjectSourceIdentity) :=
  match files with
  | [] => Ok []
  | x :: files =>
      _ ← check (negb (input_stop x 0%nat)) packaging_cancelled;
      i ← inspect (H:=H) (seen x);
      _ ← check (negb (remaining <? identity_size i)) "object batch exceeds 16 MiB";
      rest ← preflight (remaining - identity_size i) files;
      Ok (i :: rest)
  end.

(** The try block of a worker. *)
Definition read_one (x : BatchInput) (i : ObjectSourceIdentity) : result string PreparedObjectSource :=
  _ ← check (negb (input_stop x 1%nat)) packaging_cancelled;
  _ ← check (stream_opens x) "cannot read object batch source";
  data ← fill (S (Z.to_nat (identity_size i))) (input_stop x) 2 (identity_size i) (stream x) [];
  _ ← check (negb (input_stop x (3 + Z.to_nat (identity_size i))%nat)) packaging_cancelled;
  again ← inspect (H:=H) (seen_again x);
  _ ← check (bool_decide (again = i)) "object batch source changed during read";
  Ok {| prepared_identity := i; payload_bytes := data |}.

Definition read_job (files : list BatchInput) (ids : list ObjectSourceIdentity) (n : nat) :
    result string PreparedObjectSource :=
  match files !! n, ids !! n with
  | Some x, Some i => read_one x i
  | _, _ => Err "std::out_of_range"
  end.

(** An item before its payload is read. *)
Definition unread (ids : list ObjectSourceIdentity) (n : nat) : PreparedObjectSource :=
  {| prepared_identity := default {| stamp := []; identity_size := 0 |} (ids !! n); payload_bytes := [] |}.

(** What [readObjectBatch] can return. *)
Definition readObjectBatch (requested hardware : nat) (files : list BatchInput)
    (r : result string (list PreparedObjectSource)) : Prop :=
  match
    _ ← check (negb (bool_decide (files = []) || (maximumBatchFiles <? len files))) "invalid object batch read count";
    preflight maximumBatchBytes files
  with
  | Err m => r = Err m
  | Ok ids => ∃ p,
      rtc (pool_step (job_rel (read_job files ids)) (length files)) (start (concurrency requested hardware (length files))) p ∧
      joined p ∧ r = collect (length files) (unread ids) p
  end.

(** The same on one thread. *)
Definition read_in_order (files : list BatchInput) : result string (list PreparedObjectSource) :=
  _ ← check (negb (bool_decide (files = []) || (maximumBatchFiles <? len files))) "invalid object batch read count";
  ids ← preflight maximumBatchBytes files;
  in_order (read_job files ids) (seq 0 (length files)).

(** ** Capturing *)

(** One request of a snapshot batch and what the outside shows of it. *)
Record SnapshotRequest := {
  requested_identity : ObjectSourceIdentity;
  request_stop : bool;
  before_capture : Inspection;
  capturing : Capture
}.

Definition snapshot_cancelled : string := "object snapshot cancelled".
Definition rescan : string := "source changed before snapshot; rescan required".

(** The try block of a worker. *)
Definition capture_one (x : SnapshotRequest) : result string Snapshot :=
  _ ← check (negb (request_stop x)) snapshot_cancelled;
  i ← inspect (H:=H) (before_capture x);
  _ ← check (bool_decide (i = requested_identity x)) rescan;
  s ← capture (H:=H) (capturing x) (Some (requested_identity x));
  _ ← check (bool_decide (original s = requested_identity x)) rescan;
  Ok s.

Definition capture_job (requests : list SnapshotRequest) (n : nat) : result string Snapshot :=
  match requests !! n with Some x => capture_one x | None => Err "std::out_of_range" end.

Definition no_snapshot (requests : list SnapshotRequest) (n : nat) : Snapshot :=
  {| payload_file := []; original := {| stamp := []; identity_size := 0 |} |}.

Definition snapshot_preflight (requests : list SnapshotRequest) (stop : bool) : result string unit :=
  _ ← check (negb (bool_decide (requests = []) || (maximumBatchFiles <? len requests))) "invalid snapshot batch count";
  _ ← check (negb stop) snapshot_cancelled;
  within_budget "snapshot batch exceeds 16 MiB" maximumBatchBytes (identity_size ∘ requested_identity <$> requests).

(** What the constructor can give: the captured sources, or an error after
    everything captured was released; [stop] are the looks at the stop token before
    and after the workers. *)
Definition ObjectSnapshotBatch (requested hardware : nat) (requests : list SnapshotRequest) (stop : nat → bool)
    (r : result string (list Snapshot)) : Prop :=
  match snapshot_preflight requests (stop 0%nat) with
  | Err m => r = Err m
  | Ok _ => ∃ p,
      rtc (pool_step (job_rel (capture_job requests)) (length requests))
        (start (concurrency requested hardware (length requests))) p ∧
      joined p ∧
      r = (xs ← collect (length requests) (no_snapshot requests) p;
           _ ← check (negb (stop 1%nat)) snapshot_cancelled; Ok xs)
  end.

(** The same on one thread. *)
Definition capture_in_order (requests : list SnapshotRequest) (stop : nat → bool) : result string (list Snapshot) :=
  _ ← snapshot_preflight requests (stop 0%nat);
  xs ← in_order (capture_job requests) (seq 0 (length requests));
  _ ← check (negb (stop 1%nat)) snapshot_cancelled;
  Ok xs.
End batch.

(** [clear]: the workers that could be started and the caller claim the sources and
    release them. *)
Definition clear (workers sources : nat) (released : list nat) : Prop := ∃ p : Pool (A:=unit),
  rtc (pool_step (λ _ r, r = Ok tt) sources) (start (S workers)) p ∧ joined p ∧
  released = filter (λ i, is_Some (outcome p !! i)) (seq 0 sources).

(** ** Threads do not matter *)
Section alone.
Context {H : Type} {hashing : StreamHash H}.

Lemma files_positive {A} (files : list A) b e u : check (E:=string) (negb (bool_decide (files = []) || b)) e = Ok u → (0 < length files)%nat.
Proof.
  rewrite check_ok, negb_true_iff, orb_false_iff. intros [Hf _]. apply bool_decide_eq_false in Hf.
  destruct files; [done|simpl; lia].
Qed.

Lemma readObjectBatch_alone requested hardware files :
  (∃ r, readObjectBatch (H:=H) requested hardware files r) ∧
  ∀ r, readObjectBatch (H:=H) requested hardware files r →
    match r with
    | Ok xs => read_in_order (H:=H) files = Ok xs
    | Err _ => is_ok (read_in_order (H:=H) files) = false
    end.
Proof.
  unfold readObjectBatch, read_in_order. destruct (check _ _) as [[]|m] eqn:Hc; cbn [mbind result_bind].
  2: { split; [by eexists|]. by intros r ->. }
  destruct (preflight _ _) as [ids|m]; cbn [mbind result_bind]; [|split; [by eexists|]; by intros r ->].
  pose proof (files_positive _ _ _ _ Hc) as Hn. split.
  - destruct (pool_ends (read_job files ids) (length files) (concurrency requested hardware (length files))) as (p & Hs & Hj).
    by exists (collect (length files) (unread ids) p), p.
  - intros r (p & Hs & Hj & ->). apply (pool_alone _ _ _ (unread ids) p (concurrency_positive requested hardware _ Hn) Hs Hj).
Qed.

Lemma ObjectSnapshotBatch_alone requested hardware requests stop :
  (∃ r, ObjectSnapshotBatch (H:=H) requested hardware requests stop r) ∧
  ∀ r, ObjectSnapshotBatch (H:=H) requested hardware requests stop r →
    match r with
    | Ok xs => capture_in_order (H:=H) requests stop = Ok xs
    | Err _ => is_ok (capture_in_order (H:=H) requests stop) = false
    end.
Proof.
  unfold ObjectSnapshotBatch, capture_in_order.
  destruct (snapshot_preflight _ _) as [[]|m] eqn:Hc; cbn [mbind result_bind]; [|split; [by eexists|]; by intros r ->].
  assert (0 < length requests)%nat as Hn.
  { unfold snapshot_preflight in Hc. apply bind_ok in Hc as (? & Hc & _). by apply files_positive in Hc. }
  split.
  - destruct (pool_ends (capture_job requests) (length requests) (concurrency requested hardware (length requests))) as (p & Hs & Hj).
    eexists _, p. by split_and!.
  - intros r (p & Hs & Hj & ->).
    pose proof (pool_alone _ _ _ (no_snapshot requests) p (concurrency_positive requested hardware _ Hn) Hs Hj) as Ha.
    destruct (collect _ _ _) as [xs|m].
    + rewrite Ha. cbn [mbind result_bind]. by destruct (stop 1%nat).
    + cbn [mbind result_bind]. destruct (in_order _ _); [done|]. done.
Qed.

Lemma captured_length_of requests stop xs : capture_in_order (H:=H) requests stop = Ok xs → length xs = length requests.
Proof.
  unfold capture_in_order. intros E. apply bind_ok in E as (? & _ & E). apply bind_ok in E as (ys & Ho & E).
  apply bind_ok in E as (? & _ & [= <-]). apply in_order_ok, Forall2_length in Ho. by rewrite length_seq in Ho.
Qed.

(** ** What is read *)

Lemma fill_ok fuel stop poll left_ s acc data : fill fuel stop poll left_ s acc = Ok data → 0 <= left_ →
  data = acc ++ take (Z.to_nat left_) s ∧ len data = len acc + left_.
Proof.
  revert poll left_ s acc. induction fuel as [|fuel IH]; intros poll left_ s acc E Hl; [done|]. cbn [fill] in E.
  destruct (Z.leb_spec left_ 0).
  { injection E as <-. replace left_ with 0 by lia. rewrite app_nil_r. split; [done|lia]. }
  apply bind_ok in E as ([] & _ & E). apply bind_ok in E as ([] & Hc & E). apply check_ok, Z.eqb_eq in Hc.
  assert (0 < chunkBytes) as Hchunk by done. apply IH in E as [-> Hlen]; [|lia]. split.
  - rewrite <-app_assoc. f_equal. rewrite <-(take_drop (Z.to_nat (Z.min chunkBytes left_)) s) at 3.
    rewrite take_app, length_take. f_equal.
    + symmetry. apply take_ge. rewrite length_take. lia.
    + rewrite length_take in Hc. f_equal. lia.
  - rewrite Hlen, length_app. lia.
Qed.

Lemma inspect_size i x : inspect (H:=H) i = Ok x → 0 <= identity_size x <= UINT64_MAX.
Proof.
  unfold inspect, statIdentity. intros E. repeat (apply bind_ok in E as (? & _ & E)). injection E as <-. simpl.
  rewrite u64_mod. unfold UINT64_MAX. pose proof (Z.mod_pos_bound (st_size x2) (2 ^ 64)). lia.
Qed.

(** The chunks are never empty, so the fuel is enough. *)
Lemma fill_total fuel stop poll left_ s acc : (∀ n, stop n = false) → 0 <= left_ <= len s → left_ < Z.of_nat fuel →
  fill fuel stop poll left_ s acc = Ok (acc ++ take (Z.to_nat left_) s).
Proof.
  intros Hstop. revert poll left_ s acc. induction fuel as [|fuel IH]; intros poll left_ s acc Hs Hf; cbn [fill]; [lia|].
  destruct (Z.leb_spec left_ 0).
  { replace left_ with 0 by lia. by rewrite app_nil_r. }
  assert (0 < chunkBytes) as Hchunk by done. rewrite Hstop. cbn [negb check mbind result_bind].
  rewrite length_take, (proj2 (Z.eqb_eq _ _)) by lia. cbn [check mbind result_bind].
  rewrite IH; [|rewrite length_drop; lia|lia]. rewrite <-app_assoc, take_take_drop. do 3 f_equal. lia.
Qed.

Lemma preflight_ok remaining files ids : preflight (H:=H) remaining files = Ok ids → 0 <= remaining →
  Forall2 (λ f i, inspect (H:=H) (seen f) = Ok i ∧ 0 <= identity_size i) files ids ∧
  foldr Z.add 0 (identity_size <$> ids) <= remaining.
Proof.
  revert remaining ids. induction files as [|f files IH]; intros remaining ids E Hr; cbn [preflight] in E.
  { injection E as <-. by split. }
  apply bind_ok in E as ([] & _ & E). apply bind_ok in E as (i & Hi & E). apply bind_ok in E as ([] & Hc & E).
  apply check_ok, negb_true_iff, Z.ltb_ge in Hc. apply bind_ok in E as (rest & Hrest & [= <-]).
  pose proof (inspect_size _ _ Hi). apply IH in Hrest as [Hall Hsum]; [|lia]. split; [|change (identity_size i + foldr Z.add 0 (identity_size <$> rest) <= remaining); lia]. constructor; [split; [done|lia]|done].
Qed.

Lemma read_one_ok f i x : read_one (H:=H) f i = Ok x → 0 <= identity_size i →
  prepared_identity x = i ∧ payload_bytes x = take (Z.to_nat (identity_size i)) (stream f) ∧
  len (payload_bytes x) = identity_size i ∧ inspect (H:=H) (seen_again f) = Ok i.
Proof.
  unfold read_one. intros E Hi. apply bind_ok in E as (? & _ & E). apply bind_ok in E as (? & _ & E).
  apply bind_ok in E as (data & Hd & E). apply bind_ok in E as (? & _ & E). apply bind_ok in E as (again & Ha & E).
  apply bind_ok in E as (? & Hc & [= <-]). apply check_ok, bool_decide_eq_true in Hc. subst again.
  apply fill_ok in Hd as [-> Hlen]; [|done]. simpl in *. split_and!; [done|done|lia|done].
Qed.

(** A batch that is read: each payload is the file's bytes, of the size both looks
    agree on, and together they fit in the budget. *)
Lemma read_in_order_ok files xs : read_in_order (H:=H) files = Ok xs →
  Forall2 (λ f x, inspect (H:=H) (seen f) = Ok (prepared_identity x) ∧
     inspect (H:=H) (seen_again f) = Ok (prepared_identity x) ∧
     payload_bytes x = take (Z.to_nat (identity_size (prepared_identity x))) (stream f) ∧
     len (payload_bytes x) = identity_size (prepared_identity x)) files xs ∧
  foldr Z.add 0 (identity_size ∘ prepared_identity <$> xs) <= maximumBatchBytes ∧ len files <= maximumBatchFiles.
Proof.
  unfold read_in_order. intros E. apply bind_ok in E as ([] & Hc & E). apply bind_ok in E as (ids & Hp & E).
  apply preflight_ok in Hp as [Hids Hsum]; [|done]. apply check_ok, negb_true_iff, orb_false_iff in Hc as [_ Hc].
  apply Z.ltb_ge in Hc.
  apply in_order_ok in E. pose proof (Forall2_length _ _ _ Hids) as Hl. pose proof (Forall2_length _ _ _ E) as Hlx.
  rewrite length_seq in Hlx.
  assert (∀ n f x, files !! n = Some f → xs !! n = Some x → ∃ i, ids !! n = Some i ∧ prepared_identity x = i ∧
    inspect (H:=H) (seen f) = Ok i ∧ inspect (H:=H) (seen_again f) = Ok i ∧
    payload_bytes x = take (Z.to_nat (identity_size i)) (stream f) ∧ len (payload_bytes x) = identity_size i) as Hx.
  { intros n f x Hf Hx. destruct (lookup_lt_is_Some_2 ids n) as [i Hi]; [rewrite <-Hl; by eapply lookup_lt_Some|].
    destruct (Forall2_lookup_lr _ _ _ _ _ _ Hids Hf Hi) as [Hs Hz].
    pose proof (Forall2_lookup_lr _ _ _ n n x E) as Hj. rewrite lookup_seq in Hj.
    unfold read_job in Hj. rewrite Hf, Hi in Hj.
    apply read_one_ok in Hj as (? & ? & ? & ?); [|split; [done|by eapply lookup_lt_Some]|done|done]. by exists i. }
  split_and!; [| |done].
  - apply Forall2_same_length_lookup. split; [lia|]. intros n f x Hf Hx'.
    destruct (Hx n f x Hf Hx') as (i & _ & -> & ? & ? & ? & ?). by split_and!.
  - replace (identity_size ∘ prepared_identity <$> xs) with (identity_size <$> ids); [done|].
    apply list_eq. intros n. rewrite !list_lookup_fmap. destruct (xs !! n) as [x|] eqn:Hxn.
    + destruct (lookup_lt_is_Some_2 files n) as [f Hf]; [rewrite Hlx; by eapply lookup_lt_Some|].
      destruct (Hx n f x Hf Hxn) as (i & -> & <- & _). done.
    + apply lookup_ge_None in Hxn. rewrite (proj2 (lookup_ge_None ids n)) by lia. done.
Qed.
End alone.
