(* ===== verification/ObjectInventory.v ===== *)
(** The inventory of the trees that are to be packaged
    (src/Objects/ObjectPackager.cpp, [inventory]): the mapped trees are walked in the
    order of their directories, every regular file becomes an entry under its logical
    path, and the entries are inspected by worker threads.

    A tree is what [recursive_directory_iterator] shows of it: the entries of each
    directory in the order the file system gives them, and the error that ends the
    iteration where there is one. *)
From stdpp Require Import relations list gmap sorting.
From S2P Require Import Prelude Text Sha256 ObjectSource WorkerPool ObjectBatchRead.
Local Open Scope Z_scope.

(** ** Data *)

Record ObjectTreeMapping := {
  prefix : bytes;
  root : list bytes;                  (* the absolute, normal path, component by component *)
  excludedTopLevel : list bytes
}.

Record ObjectPackagingEntry := {
  logicalPath : bytes;
  entry_source : list bytes;
  entry_identity : ObjectSourceIdentity
}.

Record ObjectPackagingIssue := { issue_path : bytes; issue_message : string }.

Record ObjectInventory := {
  inventory_entries : list ObjectPackagingEntry;
  inventory_issues : list ObjectPackagingIssue;
  totalBytes : Z
}.

(** [symlink_status] of an entry. *)
Inductive FileKind := RegularFile | SymbolicLink | DirectoryKind | OtherFile.

#[export] Instance FileKind_eq_dec : EqDecision FileKind.
Proof. solve_decision. Defined.

(** An entry, what the iterator finds when it recurses into it, and the error
    [increment] reports after that. *)
Inductive Tree := Node (name : bytes) (status : result string FileKind) (inside : list Tree) (failure : option string).

Record MappedTree := {
  mapping : ObjectTreeMapping;
  root_available : bool;              (* a directory, and its own canonical path *)
  root_failure : option string;       (* the error of opening it *)
  contents : list Tree;
  root_ends : option string           (* the error [increment] reports after them *)
}.

(** ** Names *)

Definition nameValid (name : bytes) : result string unit :=
  check (negb (bool_decide (name = []) || bool_decide (name = lit ".") || bool_decide (name = lit "..")
               || has_byte "/"%char name || has_byte "\"%char name || has_byte ":"%char name
               || has_byte (Zbyte 0) name)) "invalid object-tree namespace".

(** [below]: the relative path from one absolute path to another does not climb. *)
Fixpoint below (child parent : list bytes) : bool :=
  match parent, child with
  | [], _ => true
  | p :: parent, c :: child => bool_decide (p = c) && below child parent
  | _, [] => false
  end.

Definition ascii_lower (c : ascii) : ascii :=
  if (65 <=? byteZ c) && (byteZ c <=? 90) then Zbyte (byteZ c - 65 + 97) else c.

(** The files the provider keeps for itself. *)
Definition providerControl (name : bytes) : bool :=
  let name := ascii_lower <$> name in
  bool_decide (name = lit ".iisacc-temporary.lock") || bool_decide (name = lit ".iisacc-file-provider")
  || starts_with (lit ".iifile-stage-") name || starts_with (lit ".society-extract-") name.

(** [utf8(relative)]: the components with slashes. *)
Definition logical (m : ObjectTreeMapping) (relative : list bytes) : bytes :=
  prefix m ++ lit "/" ++ join (lit "/") relative.

(** An entry the walk does not look at or into. *)
Definition left_out (m : ObjectTreeMapping) (relative : list bytes) (name : bytes) : bool :=
  providerControl name || bool_decide (hd name relative ∈ excludedTopLevel m).

(** ** The walk *)

Record Found := {
  polled : nat;                                     (* looks at the stop token *)
  found : list (bytes * list bytes);                (* logical path and source *)
  walk_issues : list ObjectPackagingIssue
}.

Definition inventory_cancelled : string := "object inventory cancelled".

(** The result of a part of the walk: it throws, or the state after it and whether
    the iterator goes on. *)
Definition walked : Type := result string (Found * bool).

Definition add_found (p : bytes) (source : list bytes) (s : Found) : Found :=
  {| polled := polled s; found := found s ++ [(p, source)]; walk_issues := walk_issues s |}.
Definition add_walk_issue (p : bytes) (m : string) (s : Found) : Found :=
  {| polled := polled s; found := found s; walk_issues := walk_issues s ++ [{| issue_path := p; issue_message := m |}] |}.

Section walk.
Context (stop : nat → bool) (m : ObjectTreeMapping).

Definition walk_poll (s : Found) : result string Found :=
  if stop (polled s) then Err inventory_cancelled
  else Ok {| polled := S (polled s); found := found s; walk_issues := walk_issues s |}.

(** The try block for an entry, and whether the iterator may recurse into it. *)
Definition visit (relative : list bytes) (status : result string FileKind) (s : Found) : Found * bool :=
  let p := logical m relative in
  match status with
  | Err e => (add_walk_issue p e s, true)
  | Ok SymbolicLink => (add_walk_issue p "symbolic link is not a package payload" s, false)
  | Ok RegularFile => (add_found p (root m ++ relative) s, true)
  | Ok DirectoryKind => (s, true)
  | Ok OtherFile => (add_walk_issue p "unsupported special file" s, true)
  end.

(** What follows each entry of a list, as long as the iterator goes on. *)
Definition walk_list (walk : Tree → Found → walked) : list Tree → Found → walked :=
  fix go ts s :=
    match ts with
    | [] => Ok (s, true)
    | t :: ts =>
        '(s, more) ← walk t s;
        if (more : bool) then go ts s else Ok (s, false)
    end.

(** One turn of the loop for an entry, and the turns inside it. *)
Fixpoint walk_tree (above : list bytes) (t : Tree) (s : Found) : walked :=
  match t with
  | Node name status inside failure =>
      s ← walk_poll s;
      let relative := above ++ [name] in
      let '(s, recurse) := if left_out m relative name then (s, false) else visit relative status s in
      '(s, more) ← (if recurse then walk_list (walk_tree relative) inside s else Ok (s, true));
      if negb more then Ok (s, false) else
      match (if recurse then failure else None) with
      | Some e => Ok (add_walk_issue (prefix m) e s, false)
      | None => Ok (s, true)
      end
  end.
End walk.

(** One turn of the loop over the mappings; the prefixes and roots of those before
    are kept. *)
Definition map_tree (stop : nat → bool) (state : list bytes * list (list bytes) * Found) (x : MappedTree) :
    result string (list bytes * list (list bytes) * Found) :=
  let '(prefixes, roots, s) := state in
  let m := mapping x in
  _ ← nameValid (prefix m);
  _ ← check (bool_decide (prefix m ∉ prefixes)) "duplicate logical tree";
  _ ← fold_res (λ _ name, nameValid name) tt (excludedTopLevel m);
  _ ← check (root_available x) "unavailable or redirected object tree";
  _ ← check (forallb (λ other, negb (below (root m) other || below other (root m))) roots) "overlapping object trees";
  let kept := (prefixes ++ [prefix m], roots ++ [root m]) in
  match root_failure x with
  | Some e => Ok (kept, add_walk_issue (prefix m) e s)
  | None =>
      '(s, more) ← walk_list (walk_tree stop m []) (contents x) s;
      Ok (kept, if (more : bool) then match root_ends x with Some e => add_walk_issue (prefix m) e s | None => s end else s)
  end.

(** ** The inspection of the entries *)
Section inspect.
Context {H : Type} {hashing : StreamHash H}.

(** The try block of a worker: [failures[index]] or the identity. *)
Definition inspect_job (looks : list bytes → Inspection) (files : list (bytes * list bytes)) (n : nat) :
    result string (string + ObjectSourceIdentity) :=
  match files !! n with
  | Some x => Ok (match inspect (H:=H) (looks x.2) with Ok i => inr i | Err m => inl m end)
  | None => Err "std::out_of_range"
  end.

Definition default_identity : ObjectSourceIdentity := {| stamp := []; identity_size := 0 |}.

(** What stands in [identity] and [failures] before an entry is inspected. *)
Definition not_inspected (n : nat) : string + ObjectSourceIdentity := inr default_identity.

(** The last loop: the issues and the total size. *)
Fixpoint tally (xs : list (bytes * list bytes * (string + ObjectSourceIdentity))) (issues : list ObjectPackagingIssue)
    (total : Z) : result string (list ObjectPackagingIssue * Z) :=
  match xs with
  | [] => Ok (issues, total)
  | (p, _, seen) :: xs =>
      match seen with
      | inl m => if bool_decide (m = EmptyString) then tally xs issues total
                 else tally xs (issues ++ [{| issue_path := p; issue_message := m |}]) total
      | inr i =>
          _ ← check (negb (UINT64_MAX - total <? identity_size i)) "inventory size overflow";
          tally xs issues (total + identity_size i)
      end
  end.

Definition entry_of (x : bytes * list bytes * (string + ObjectSourceIdentity)) : ObjectPackagingEntry :=
  {| logicalPath := x.1.1; entry_source := x.1.2;
     entry_identity := match x.2 with inr i => i | inl _ => default_identity end |}.

Definition entry_le (a b : ObjectPackagingEntry) : Prop := bytes_leb (logicalPath a) (logicalPath b) = true.

#[export] Instance entry_le_dec : RelDecision entry_le.
Proof. intros a b. unfold entry_le. apply _. Defined.

(** [std::clamp(concurrency?concurrency:hardware_concurrency(), 1, 64)]. *)
Definition inspectors (requested hardware files : nat) : nat :=
  Nat.min files (Nat.max 1 (Nat.min 64 (if Nat.eqb requested 0 then hardware else requested))).

(** After the join. *)
Definition finish_inventory (s : Found) (seen : list (string + ObjectSourceIdentity)) : result string ObjectInventory :=
  let xs := zip (found s) seen in
  '(issues, total) ← tally xs (walk_issues s) 0;
  Ok {| inventory_entries := merge_sort entry_le (entry_of <$> xs); inventory_issues := issues; totalBytes := total |}.

(** [ObjectPackager::inventory]: what it can return.  A stop token that was asked for
    stays so: when the look after the join sees nothing, the workers saw nothing and
    ran until the entries were exhausted. *)
Definition inventory (mappings : list MappedTree) (stop : nat → bool) (stopped_after : bool)
    (requested hardware : nat) (looks : list bytes → Inspection) (r : result string ObjectInventory) : Prop :=
  match
    _ ← check (negb (bool_decide (mappings = []))) "at least one object tree is required";
    fold_res (map_tree stop) ([], [], {| polled := 0; found := []; walk_issues := [] |}) mappings
  with
  | Err m => r = Err m
  | Ok (_, s) =>
      if stopped_after then r = Err inventory_cancelled else
      ∃ p : Pool (A:=string + ObjectSourceIdentity),
        rtc (pool_step (job_rel (inspect_job looks (found s))) (length (found s)))
          (start (inspectors requested hardware (length (found s)))) p ∧
        joined p ∧
        r = (seen ← collect (length (found s)) not_inspected p; finish_inventory s seen)
  end.

(** The same on one thread. *)
Definition inventory_in_order (mappings : list MappedTree) (stop : nat → bool) (stopped_after : bool)
    (looks : list bytes → Inspection) : result string ObjectInventory :=
  _ ← check (negb (bool_decide (mappings = []))) "at least one object tree is required";
  '(_, s) ← fold_res (map_tree stop) ([], [], {| polled := 0; found := []; walk_issues := [] |}) mappings;
  if stopped_after then Err inventory_cancelled else
  finish_inventory s ((λ x, match inspect (H:=H) (looks x.2) with Ok i => inr i | Err m => inl m end) <$> found s).
End inspect.

(** ** What is found *)

(** The regular files of a list of entries that no rule leaves out. *)
Inductive shown (m : ObjectTreeMapping) (above : list bytes) (ts : list Tree) : list bytes → Prop :=
  | shown_here name inside failure : Node name (Ok RegularFile) inside failure ∈ ts →
      left_out m (above ++ [name]) name = false → shown m above ts (above ++ [name])
  | shown_below name status inside failure relative : Node name status inside failure ∈ ts →
      left_out m (above ++ [name]) name = false → status ≠ Ok SymbolicLink →
      shown m (above ++ [name]) inside relative → shown m above ts relative.

Definition tree_ind' (P : Tree → Prop)
    (step : ∀ name status inside failure, Forall P inside → P (Node name status inside failure)) :
    ∀ t, P t :=
  fix go t :=
    match t with
    | Node name status inside failure =>
        step name status inside failure ((fix all ts : Forall P ts :=
          match ts with [] => @List.Forall_nil Tree P | t :: ts => @List.Forall_cons Tree P t ts (go t) (all ts) end) inside)
    end.

Lemma shown_cons m above t ts rel : shown m above (t :: ts) rel ↔ shown m above [t] rel ∨ shown m above ts rel.
Proof.
  split.
  - destruct 1 as [name inside failure Hin Hl|name status inside failure rel Hin Hl Hs Hb];
      (apply elem_of_cons in Hin as [<-|Hin]; [left|right]);
      first [by eapply shown_here; [|done]; eauto using list_elem_of_here|eapply shown_below; eauto using list_elem_of_here].
  - intros [Hs|Hs]; destruct Hs as [name inside failure Hin Hl|name status inside failure rel Hin Hl Hs Hb];
      try apply list_elem_of_singleton in Hin as <-;
      first [by eapply shown_here; [|done]; eauto using list_elem_of_here, list_elem_of_further
            |by eapply shown_below; [|done|done|done]; eauto using list_elem_of_here, list_elem_of_further].
Qed.

Lemma shown_nil m above rel : ¬ shown m above [] rel.
Proof. by destruct 1 as [??? []%not_elem_of_nil|????? []%not_elem_of_nil]. Qed.

Lemma shown_node m above name status inside failure rel :
  shown m above [Node name status inside failure] rel ↔
  left_out m (above ++ [name]) name = false ∧
  (status = Ok RegularFile ∧ rel = above ++ [name] ∨
   status ≠ Ok SymbolicLink ∧ shown m (above ++ [name]) inside rel).
Proof.
  split.
  - destruct 1 as [name' inside' failure' Hin Hl|name' status' inside' failure' rel Hin Hl Hs Hb];
      apply list_elem_of_singleton in Hin as [= -> -> -> ->]; [by split; [|left]|by split; [|right]].
  - intros [Hl [[-> ->]|[Hs Hb]]]; [by eapply shown_here; [left|]|by eapply shown_below; [left| | |]].
Qed.

Lemma visit_adds m rel status s s' recurse : visit m rel status s = (s', recurse) →
  ∃ files issues, found s' = found s ++ files ∧ walk_issues s' = walk_issues s ++ issues ∧
    (issues = [] → recurse = true ∧ status ≠ Ok SymbolicLink ∧
     files = if bool_decide (status = Ok RegularFile) then [(logical m rel, root m ++ rel)] else []).
Proof.
  unfold visit. intros E. destruct status as [[]|e]; injection E as <- <-.
  all: cbn [add_found add_walk_issue found walk_issues].
  - exists [(logical m rel, root m ++ rel)], []. by rewrite app_nil_r.
  - eexists [], [_]. by rewrite app_nil_r.
  - exists [], []. by rewrite !app_nil_r.
  - eexists [], [_]. by rewrite app_nil_r.
  - eexists [], [_]. by rewrite app_nil_r.
Qed.

Section exact.
Context (stop : nat → bool) (m : ObjectTreeMapping).

(** What a part of the walk adds: when it adds no issue it ends, and its files are
    exactly those shown. *)
Definition adds (above : list bytes) (ts : list Tree) (s s' : Found) (more : bool) : Prop :=
  ∃ files issues, found s' = found s ++ files ∧ walk_issues s' = walk_issues s ++ issues ∧
    (issues = [] → more = true ∧ ∀ x, x ∈ files ↔ ∃ rel, shown m above ts rel ∧ x = (logical m rel, root m ++ rel)).

Lemma walk_list_adds above ts s s' more :
  Forall (λ t, ∀ s s' more, walk_tree stop m above t s = Ok (s', more) → adds above [t] s s' more) ts →
  walk_list (walk_tree stop m above) ts s = Ok (s', more) → adds above ts s s' more.
Proof.
  intros Hall. revert s. induction Hall as [|t ts Ht _ IH]; intros s E; simpl in E.
  - injection E as <- <-. exists [], []. rewrite !app_nil_r. split_and!; [done..|]. intros _. split; [done|].
    intros x. split; [by intros ?%not_elem_of_nil|]. by intros (rel & []%shown_nil & _).
  - apply bind_ok in E as ([s1 more1] & E1 & E). destruct (Ht _ _ _ E1) as (f1 & i1 & Hf1 & Hi1 & H1). destruct more1.
    + destruct (IH _ E) as (f2 & i2 & Hf2 & Hi2 & H2). exists (f1 ++ f2), (i1 ++ i2).
      rewrite Hf2, Hi2, Hf1, Hi1, <-!app_assoc. split_and!; [done..|]. intros [-> ->]%app_nil.
      destruct (H1 eq_refl) as [_ Hx1], (H2 eq_refl) as [-> Hx2]. split; [done|]. intros x.
      rewrite elem_of_app, Hx1, Hx2. setoid_rewrite (shown_cons m above t ts). naive_solver.
    + injection E as <- <-. exists f1, i1. split_and!; [done..|]. intros ->. by destruct (H1 eq_refl).
Qed.

Lemma walk_tree_adds t : ∀ above s s' more, walk_tree stop m above t s = Ok (s', more) → adds above [t] s s' more.
Proof.
  induction t as [name status inside failure IH] using tree_ind'. intros above s s' more E. cbn [walk_tree] in E.
  apply bind_ok in E as (s0 & Hpoll & E).
  assert (found s0 = found s ∧ walk_issues s0 = walk_issues s) as [Hf0 Hi0].
  { unfold walk_poll in Hpoll. destruct (stop _); [done|]. by injection Hpoll as <-. }
  unfold adds. rewrite <-Hf0, <-Hi0. setoid_rewrite shown_node. clear Hpoll Hf0 Hi0 s.
  destruct (left_out m (above ++ [name]) name) eqn:El.
  { simpl in E. injection E as <- <-. exists [], []. rewrite !app_nil_r. split_and!; [done..|]. intros _.
    split; [done|]. intros x. split; [by intros ?%not_elem_of_nil|]. by intros (rel & [? _] & _). }
  destruct (visit m (above ++ [name]) status s0) as [s1 recurse] eqn:Ev.
  assert (∃ f1 i1, found s1 = found s0 ++ f1 ∧ walk_issues s1 = walk_issues s0 ++ i1 ∧
    (i1 = [] → recurse = true ∧ status ≠ Ok SymbolicLink ∧
     f1 = if bool_decide (status = Ok RegularFile) then [(logical m (above ++ [name]), root m ++ (above ++ [name]))] else []))
    as (f1 & i1 & Hf1 & Hi1 & H1).
  { by apply (visit_adds m (above ++ [name]) status s0). }
  apply bind_ok in E as ([s2 more2] & E2 & E).
  assert (adds (above ++ [name]) (if recurse then inside else []) s1 s2 more2) as (f2 & i2 & Hf2 & Hi2 & H2).
  { destruct recurse.
    - apply walk_list_adds; [|done]. eapply Forall_impl; [exact IH|]. intros t Ht s3 s4 more4 E4. by apply Ht.
    - injection E2 as <- <-. by apply (walk_list_adds (above ++ [name]) [] s1 s1 true); [constructor|]. }
  assert (∃ i3, found s' = found s2 ∧ walk_issues s' = walk_issues s2 ++ i3 ∧ (i3 = [] → more = more2)) as (i3 & Hf3 & Hi3 & H3).
  { destruct more2; simpl in E; [|injection E as <- <-; exists []; by rewrite app_nil_r].
    destruct (if recurse then failure else None) as [e|]; injection E as <- <-; [by eexists|].
    exists []. by rewrite app_nil_r. }
  exists (f1 ++ f2), (i1 ++ i2 ++ i3). rewrite Hf3, Hi3, Hf2, Hi2, Hf1, Hi1, <-!app_assoc. split_and!; [done..|].
  intros (-> & (-> & ->)%app_nil)%app_nil. rewrite (H3 eq_refl). destruct (H1 eq_refl) as (-> & Hs & ->), (H2 eq_refl) as [-> Hx].
  split; [done|]. intros x. rewrite elem_of_app, Hx. case_bool_decide as Hr.
  - rewrite list_elem_of_singleton. naive_solver.
  - rewrite elem_of_nil. naive_solver.
Qed.
End exact.

Lemma map_trees_add stop xs k k' s s' : fold_res (map_tree stop) (k, s) xs = Ok (k', s') →
  ∃ files issues, found s' = found s ++ files ∧ walk_issues s' = walk_issues s ++ issues ∧
    (issues = [] → ∀ x, x ∈ files ↔ ∃ y rel, y ∈ xs ∧ shown (mapping y) [] (contents y) rel ∧
       x = (logical (mapping y) rel, root (mapping y) ++ rel)).
Proof.
  revert k s. induction xs as [|y xs IH]; intros k s E; cbn [fold_res] in E.
  - injection E as <- <-. exists [], []. rewrite !app_nil_r. split_and!; [done..|]. intros _ x.
    split; [by intros ?%not_elem_of_nil|]. by intros (? & ? & ?%not_elem_of_nil & _).
  - apply bind_ok in E as ([k1 s1] & E1 & E). destruct (IH _ _ E) as (f2 & i2 & Hf2 & Hi2 & H2).
    assert (∃ f1 i1, found s1 = found s ++ f1 ∧ walk_issues s1 = walk_issues s ++ i1 ∧
      (i1 = [] → ∀ x, x ∈ f1 ↔ ∃ rel, shown (mapping y) [] (contents y) rel ∧
         x = (logical (mapping y) rel, root (mapping y) ++ rel))) as (f1 & i1 & Hf1 & Hi1 & H1).
    { destruct k as [prefixes roots]. unfold map_tree in E1. do 5 (apply bind_ok in E1 as (? & _ & E1)).
      destruct (root_failure y) as [e|].
      - injection E1 as <- <-. exists []. eexists [_]. by rewrite app_nil_r.
      - apply bind_ok in E1 as ([s2 more] & Ew & E1). injection E1 as <- <-.
        apply (walk_list_adds stop) in Ew as (f & i & Hf & Hi & Hx); [|apply Forall_forall; intros t _; exact (walk_tree_adds stop _ t [])].
        destruct more; [destruct (root_ends y) as [e|]|].
        + exists f, (i ++ [{| issue_path := prefix (mapping y); issue_message := e |}]).
          cbn [add_walk_issue found walk_issues]. rewrite Hf, Hi, <-app_assoc. split_and!; [done..|]. by intros [_ ?]%app_nil.
        + exists f, i. split_and!; [done..|]. intros ->. by apply Hx.
        + exists f, i. split_and!; [done..|]. intros ->. by apply Hx. }
    exists (f1 ++ f2), (i1 ++ i2). rewrite Hf2, Hi2, Hf1, Hi1, <-!app_assoc. split_and!; [done..|].
    intros [-> ->]%app_nil x. rewrite elem_of_app, (H1 eq_refl), (H2 eq_refl). setoid_rewrite elem_of_cons. naive_solver.
Qed.

Section exactness.
Context {H : Type} {hashing : StreamHash H}.

Definition look (looks : list bytes → Inspection) (x : bytes * list bytes) : string + ObjectSourceIdentity :=
  match inspect (H:=H) (looks x.2) with Ok i => inr i | Err m => inl m end.

Lemma inspectors_positive requested hardware files : files ≠ 0%nat → (0 < inspectors requested hardware files)%nat.
Proof. unfold inspectors. intros Hf. destruct (Nat.eqb requested 0); lia. Qed.

Lemma inventory_alone mappings stop stopped_after requested hardware looks r :
  inventory (H:=H) mappings stop stopped_after requested hardware looks r ↔
  r = inventory_in_order (H:=H) mappings stop stopped_after looks.
Proof.
  unfold inventory, inventory_in_order. destruct (check _ _) as [[]|]; [|done]. cbn [mbind result_bind].
  destruct (fold_res _ _ _) as [[k s]|]; [|done]. cbn [mbind result_bind]. destruct stopped_after; [done|].
  set (n := length (found s)). set (job := inspect_job looks (found s)).
  assert (in_order job (seq 0 n) = Ok (look looks <$> found s)) as Hall.
  { apply in_order_seq. intros i x Hx. unfold job, inspect_job. by rewrite Hx. }
  assert (∀ p, rtc (pool_step (job_rel job) n) (start (inspectors requested hardware n)) p → joined p →
    collect n not_inspected p = Ok (look looks <$> found s)) as Hcol.
  { intros p Hs Hj. destruct (decide (n = 0%nat)) as [Hn|Hn].
    - unfold collect. rewrite Hn. simpl. by rewrite (nil_length_inv _ Hn).
    - pose proof (pool_in_order job n _ not_inspected p (inspectors_positive _ _ _ Hn) Hs Hj) as Hp.
      destruct (collect _ _ p) as [xs|m]; [congruence|]. destruct Hp as (i & Hi & He).
      apply lookup_lt_is_Some in Hi as [x Hx]. unfold job, inspect_job in He. by rewrite Hx in He. }
  split.
  - intros (p & Hs & Hj & ->). by rewrite (Hcol p Hs Hj).
  - intros ->. destruct (pool_ends job n (inspectors requested hardware n)) as (p & Hs & Hj).
    exists p. split_and!; [done..|]. by rewrite (Hcol p Hs Hj).
Qed.

Definition seen_size (x : bytes * list bytes * (string + ObjectSourceIdentity)) : Z := identity_size (entry_identity (entry_of x)).

Lemma tally_spec xs issues total issues' total' : tally xs issues total = Ok (issues', total') →
  (∀ x, x ∈ xs → x.2 ≠ inl EmptyString) → total <= UINT64_MAX → ∃ new, issues' = issues ++ new ∧
  (new = [] → total' = foldl Z.add total (seen_size <$> xs) ∧ total' <= UINT64_MAX ∧ ∀ x, x ∈ xs → ∃ i, x.2 = inr i).
Proof.
  revert issues total. induction xs as [|[[p src] seen] xs IH]; intros issues total E Hm Ht; cbn [tally] in E.
  - injection E as <- <-. exists []. rewrite app_nil_r. split; [done|]. intros _. split_and!; [done|lia|].
    by intros x ?%not_elem_of_nil.
  - assert (∀ x, x ∈ xs → x.2 ≠ inl EmptyString) as Hm' by (intros x ?; apply Hm; by right).
    destruct seen as [msg|i].
    + rewrite bool_decide_eq_false_2 in E by (intros ->; by apply (Hm (p, src, inl EmptyString)); [left|]).
      apply IH in E as (new & -> & _); [|done..]. rewrite <-app_assoc. by eexists.
    + apply bind_ok in E as ([] & Hc & E). apply check_ok, negb_true_iff, Z.ltb_ge in Hc.
      apply IH in E as (new & -> & Hnew); [|done|lia]. exists new. split; [done|]. intros Hn.
      destruct (Hnew Hn) as (-> & ? & Hx). split_and!; [done|done|].
      intros x [->|Hin]%elem_of_cons; [by exists i|by apply Hx].
Qed.

(** The inventory without issues: every regular file that no rule leaves out, once
    inspected, in the order of the logical paths. *)
Lemma inventory_spec mappings stop stopped_after looks inv :
  inventory_in_order (H:=H) mappings stop stopped_after looks = Ok inv → inventory_issues inv = [] →
  (∀ p, inspect (H:=H) (looks p) ≠ Err EmptyString) →
  StronglySorted entry_le (inventory_entries inv) ∧
  (∀ e, e ∈ inventory_entries inv ↔ ∃ y rel, y ∈ mappings ∧ shown (mapping y) [] (contents y) rel ∧
     logicalPath e = logical (mapping y) rel ∧ entry_source e = root (mapping y) ++ rel ∧
     inspect (H:=H) (looks (entry_source e)) = Ok (entry_identity e)) ∧
  totalBytes inv <= UINT64_MAX ∧
  ∃ l, Permutation l (inventory_entries inv) ∧
    totalBytes inv = foldl Z.add 0 (identity_size ∘ entry_identity <$> l).
Proof.
  unfold inventory_in_order. intros E Hno Hm. apply bind_ok in E as ([] & _ & E).
  apply bind_ok in E as ([k s] & Ew & E). destruct stopped_after; [done|].
  destruct (map_trees_add _ _ _ _ _ _ Ew) as (files & issues & Hf & Hi & Hx). cbn [found walk_issues app] in Hf, Hi.
  unfold finish_inventory in E. apply bind_ok in E as ([iss total] & Et & E). injection E as <-.
  cbn [inventory_issues inventory_entries totalBytes] in *. subst iss.
  set (xs := zip (found s) (look looks <$> found s)) in *. change (tally xs (walk_issues s) 0 = Ok ([], total)) in Et.
  assert (∀ x, x ∈ xs ↔ x.1 ∈ files ∧ x.2 = look looks x.1) as Hxs.
  { intros [a b]. unfold xs. rewrite <-Hf, zip_with_fmap_r, zip_with_diag, list_elem_of_fmap. naive_solver. }
  apply tally_spec in Et as (new & Hnew & Hall); [| |done].
  - symmetry in Hnew. apply app_nil in Hnew as [Hw ->]. rewrite Hi in Hw. destruct (Hall eq_refl) as (-> & Hmax & Hok).
    split_and!; [|intros e|done|].
    + apply StronglySorted_merge_sort; [|intros a b; unfold entry_le; apply bytes_leb_total].
      intros a b c. apply bytes_leb_trans.
    + rewrite merge_sort_Permutation, list_elem_of_fmap. split.
      * intros (x & -> & Hin). destruct (Hok _ Hin) as [i Hxi]. apply Hxs in Hin as [Hin Hl]. unfold look in Hl.
        apply (Hx Hw) in Hin as (y & rel & Hy & Hs & E1). exists y, rel. unfold entry_of. cbn [logicalPath entry_source entry_identity].
        rewrite Hxi in Hl. rewrite Hxi, E1 in *. cbn [fst snd] in *. split_and!; [done..|].
        destruct (inspect _) as [j|]; [congruence|done].
      * intros (y & rel & Hy & Hs & Hp & Hsrc & Hins). exists (logicalPath e, entry_source e, inr (entry_identity e)). split.
        { by destruct e. }
        apply Hxs. cbn [fst snd]. split; [|unfold look; cbn [snd]; by rewrite Hins].
        apply (Hx Hw). exists y, rel. by rewrite Hp, Hsrc.
    + exists (entry_of <$> xs). split; [by rewrite merge_sort_Permutation|]. by rewrite <-list_fmap_compose.
  - intros x Hin He. apply Hxs in Hin as [_ Hl]. rewrite He in Hl. unfold look in Hl.
    destruct (inspect _) as [|msg] eqn:Ei; [done|]. injection Hl as <-. by apply (Hm (x.1.2)).
Qed.
End exactness.
