(* ===== verification/TemporaryLease.v ===== *)
(** Leases on directories (src/Temporary/TemporaryLease.cpp, the POSIX branch): who writes
    temporary files in a directory holds it shared, who removes orphans holds it alone.

    Each system call of a constructor is one step of one lease; other leases, and whoever
    changes files, act between the steps.  An open file keeps its inode; [flock] locks
    inodes, so its holders are the leases that are past it.  An inode number stands for
    the device and the number. *)
From stdpp Require Import list gmap relations.
From S2P Require Import Prelude Text Paths MetadataCodec.
Local Open Scope Z_scope.

(** ** Files *)

Inductive Inode :=
  | Dir (entries : gmap bytes nat)
  | Reg (size links : Z)
  | Other.

Abbreviation Inodes := (gmap nat Inode).

Definition entry (fs : Inodes) (directory : nat) (name : bytes) : option nat :=
  match fs !! directory with Some (Dir es) => es !! name | _ => None end.

Definition is_dir (fs : Inodes) (i : nat) : bool := match fs !! i with Some (Dir _) => true | _ => false end.

Definition sentinel : bytes := lit ".iisacc-temporary.lock".

(** ** Admission *)

Inductive Mode := Shared | TryExclusive.

#[export] Instance Mode_eq_dec : EqDecision Mode.
Proof. solve_decision. Defined.

(** A value of the enumeration that names no mode is no [Mode] here. *)
Definition validate (directory : bytes) : result string unit :=
  _ ← check (bool_decide (head directory = Some "/"%char) && bool_decide (root_normal directory = directory))
        "temporary lease requires an absolute normalized directory";
  check (negb (has_byte NUL directory)) "temporary lease path contains a null character".

(** [inspect]: the open file is the empty regular file that the directory names. *)
Definition inspect (fs : Inodes) (directory lock : nat) : result string unit :=
  entry ← of_option "cannot inspect temporary lease sentinel" (entry fs directory sentinel);
  match fs !! lock, fs !! entry with
  | Some (Reg size links), Some (Reg _ _) =>
      check ((size =? 0) && (links =? 1) && (lock =? entry)%nat)
        "temporary lease sentinel is redirected or not an empty regular file"
  | _, _ => Err "temporary lease sentinel is redirected or not an empty regular file"
  end.

(** ** A lease *)

(** Where a constructor is, and what is left of it. *)
Inductive Phase :=
  | Opening (at_ : nat) (rest : list bytes)      (* [openRelative] *)
  | Creating (directory attempt : nat)           (* the loop over [openat] *)
  | Inspecting (directory file : nat)
  | Locking (directory file : nat)
  | Confirming (directory file : nat)            (* [acquired] *)
  | Held (directory file : nat)
  | Busy (directory file : nat)                  (* contention: not [acquired] *)
  | Failed (why : string).

Record Lease := { mode : Mode; phase : Phase }.

Definition locked (l : Lease) : bool := match phase l with Held _ _ => true | _ => false end.

(** The inode whose lock a lease has. *)
Definition lock_of (l : Lease) : option nat :=
  match phase l with Confirming _ f | Held _ f => Some f | _ => None end.

Record World := { inodes : Inodes; leases : gmap nat Lease }.

Definition set_phase (i : nat) (p : Phase) (w : World) : World :=
  {| inodes := inodes w; leases := alter (λ l, {| mode := mode l; phase := p |}) i (leases w) |}.

(** What the system answers a call: it is done, interrupted, refused, or the file has
    vanished; then [lstat] of the path shows an inode. *)
Inductive Answer := Done | Interrupted | Denied | Vanished (current : option nat).

(** [flock]: a lock is refused while another lease has one that excludes it. *)
Definition excludes (m : Mode) (l : Lease) : bool := bool_decide (m = TryExclusive) || bool_decide (mode l = TryExclusive).
Definition contended (w : World) (i f : nat) (m : Mode) : bool :=
  existsb (λ l : nat * Lease, negb (l.1 =? i)%nat && bool_decide (lock_of l.2 = Some f) && excludes m l.2)
    (map_to_list (leases w)).

(** [openat] of the sentinel with [O_CREAT | O_NOFOLLOW]: what it opens, and the files
    after it; a directory cannot be opened for writing. *)
Definition open_sentinel (fs : Inodes) (directory new : nat) : option (nat * Inodes) :=
  match fs !! directory with
  | Some (Dir es) =>
      match es !! sentinel with
      | Some f => match fs !! f with Some (Dir _) | None => None | Some _ => Some (f, fs) end
      | None => Some (new, <[new := Reg 0 1]> (<[directory := Dir (<[sentinel := new]> es)]> fs))
      end
  | _ => None
  end.

Definition unavailable : string := "temporary lease directory is unavailable or redirected".
Definition unopened : string := "cannot open temporary lease sentinel".

(** One step of a constructor; [None] when it has ended, or waits for a lock. *)
Definition advance (answer : Answer) (new i : nat) (l : Lease) (w : World) : option World :=
  match phase l with
  | Opening at_ [] => Some (set_phase i (Creating at_ 0) w)
  | Opening at_ (part :: rest) =>
      if bool_decide (part = []) || bool_decide (part = lit ".") then Some (set_phase i (Opening at_ rest) w) else
      Some (set_phase i (match answer, entry (inodes w) at_ part with
                         | Done, Some next => if is_dir (inodes w) next then Opening next rest else Failed unavailable
                         | _, _ => Failed unavailable
                         end) w)
  | Creating directory attempt =>
      if (attempt =? 8)%nat then Some (set_phase i (Failed unopened) w) else
      match answer with
      | Done =>
          match open_sentinel (inodes w) directory new with
          | Some (f, fs) => Some (set_phase i (Inspecting directory f) {| inodes := fs; leases := leases w |})
          | None => Some (set_phase i (Failed unopened) w)
          end
      | Interrupted => Some (set_phase i (Creating directory (S attempt)) w)
      | Denied => Some (set_phase i (Failed unopened) w)
      | Vanished current =>
          if bool_decide (current = Some directory) && is_dir (inodes w) directory
          then Some (set_phase i (Creating directory (S attempt)) w)
          else Some (set_phase i (Failed unopened) w)
      end
  | Inspecting directory f =>
      Some (set_phase i (match answer, inspect (inodes w) directory f with
                         | Done, Ok _ => Locking directory f
                         | Done, Err e => Failed e
                         | _, _ => Failed "cannot inspect temporary lease sentinel"
                         end) w)
  | Locking directory f =>
      match answer with
      | Done =>
          if contended w i f (mode l) then
            match mode l with TryExclusive => Some (set_phase i (Busy directory f) w) | Shared => None end
          else Some (set_phase i (Confirming directory f) w)
      | Interrupted => Some w
      | _ => Some (set_phase i (Failed "cannot acquire temporary lease") w)
      end
  | Confirming directory f =>
      Some (set_phase i (match answer, inspect (inodes w) directory f with
                         | Done, Ok _ => Held directory f
                         | Done, Err e => Failed e
                         | _, _ => Failed "cannot inspect temporary lease sentinel"
                         end) w)
  | Held _ _ | Busy _ _ | Failed _ => None
  end.

(** The constructor: the path is checked and its root opened. *)
Definition start (root : nat) (directory : bytes) (m : Mode) (fs : Inodes) : Lease :=
  {| mode := m;
     phase := match validate directory with
              | Err e => Failed e
              | Ok _ => if is_dir fs root then Opening root (path_names (drop 1 directory))
                        else Failed "cannot open temporary lease root"
              end |}.
