(* ===== verification/LeaseProperties.v ===== *)
(** What a lease on a directory promises: a cleaner is alone. *)
From stdpp Require Import list gmap relations.
From S2P Require Import Prelude Text Paths TemporaryLease.
Local Open Scope Z_scope.

(** ** Histories *)

(** While a lease is held, its sentinel stays where it is; everything else about the
    files can change. *)
Definition sentinels_stay (w : World) (fs : Inodes) : Prop :=
  ∀ i l d f, leases w !! i = Some l → phase l = Held d f → entry fs d sentinel = entry (inodes w) d sentinel.

Inductive step : World → World → Prop :=
  | step_start i root directory m w : leases w !! i = None →
      step w {| inodes := inodes w; leases := <[i := start root directory m (inodes w)]> (leases w) |}
  | step_advance answer new i l w w' : leases w !! i = Some l → inodes w !! new = None →
      advance answer new i l w = Some w' → step w w'
  | step_release i w : step w {| inodes := inodes w; leases := delete i (leases w) |}
  | step_files fs w : sentinels_stay w fs → step w {| inodes := fs; leases := leases w |}.

(** Every held lease locks the file its directory names, and no lock is shared that is
    not for sharing. *)
Record sound (w : World) : Prop := {
  on_sentinel : ∀ i l d f, leases w !! i = Some l → phase l = Held d f → entry (inodes w) d sentinel = Some f;
  compatible : ∀ i j l k f, i ≠ j → leases w !! i = Some l → leases w !! j = Some k →
    lock_of l = Some f → lock_of k = Some f → mode l = Shared ∧ mode k = Shared
}.

(** ** What steps keep *)

Lemma lookup_phase i p w j : leases (set_phase i p w) !! j =
  if decide (j = i) then (λ l, {| mode := mode l; phase := p |}) <$> leases w !! i else leases w !! j.
Proof. cbn. destruct (decide (j = i)) as [->|]; [by rewrite lookup_alter_eq|by rewrite lookup_alter_ne]. Qed.

(** A phase that claims no more than the one before. *)
Lemma phase_sound i l p w : sound w → leases w !! i = Some l →
  (∀ f, lock_of {| mode := mode l; phase := p |} = Some f → lock_of l = Some f) →
  (∀ d f, p = Held d f → entry (inodes w) d sentinel = Some f) → sound (set_phase i p w).
Proof.
  intros [H1 H2] Hl Hlock Hheld. split.
  - intros j k d f. rewrite lookup_phase. case_decide as Hj; [|by apply H1]. rewrite Hl. intros [= <-]. apply Hheld.
  - intros a b la lb f Hab. rewrite !lookup_phase. rewrite Hl. case_decide as Ha; case_decide as Hb; subst; [done|..].
    + intros [= <-] Eb Ka Kb. apply Hlock in Ka. by apply (H2 i b l lb f).
    + intros Ea [= <-] Ka Kb. apply Hlock in Kb. by apply (H2 a i la l f).
    + by apply H2.
Qed.

Lemma contended_false w i f m : contended w i f m = false →
  ∀ j k, j ≠ i → leases w !! j = Some k → lock_of k = Some f → m = Shared ∧ mode k = Shared.
Proof.
  intros Hc j k Hj Hk Hf. unfold contended in Hc.
  assert (excludes m k = false) as He.
  { apply not_true_is_false. intros He. apply Is_true_false in Hc. apply Hc, Is_true_true, existsb_exists.
    exists (j, k). split; [by apply list_elem_of_In, elem_of_map_to_list|].
    cbn. rewrite He, bool_decide_true by done. by destruct (Nat.eqb_spec j i). }
  unfold excludes in He. apply orb_false_iff in He as [E1%bool_decide_eq_false E2%bool_decide_eq_false].
  destruct m, (mode k); done.
Qed.

(** A lock that nobody contends. *)
Lemma lock_sound i l d f w : sound w → leases w !! i = Some l → contended w i f (mode l) = false →
  sound (set_phase i (Confirming d f) w).
Proof.
  intros [H1 H2] Hl Hc. split.
  - intros j k d' f'. rewrite lookup_phase. case_decide; [|by apply H1]. rewrite Hl. by intros [= <-].
  - intros a b la lb g Hab. rewrite !lookup_phase, Hl. case_decide as Ha; case_decide as Hb; subst; [done|..].
    + intros [= <-] Eb [= <-] Kb. cbn. by apply (contended_false w i f (mode l) Hc b lb).
    + intros Ea [= <-] Ka [= <-]. cbn. destruct (contended_false w i f (mode l) Hc a la) as [? ?]; done.
    + by apply H2.
Qed.

(** New files do not hide a sentinel. *)
Lemma open_sentinel_keeps fs d new f fs' : fs !! new = None → open_sentinel fs d new = Some (f, fs') →
  ∀ d' g, entry fs d' sentinel = Some g → entry fs' d' sentinel = Some g.
Proof.
  unfold open_sentinel, entry. destruct (fs !! d) as [[es| |]|] eqn:Ed; try done.
  intros Hnew. destruct (es !! sentinel) as [g|] eqn:Ee.
  - destruct (fs !! g) as [[]|]; try done; by intros [= <- <-].
  - intros [= <- <-] d' g. destruct (decide (d' = new)) as [->|]; [by rewrite Hnew|].
    rewrite lookup_insert_ne by done. destruct (decide (d' = d)) as [->|]; [|by rewrite lookup_insert_ne].
    by rewrite Ed, Ee.
Qed.

Lemma files_sound fs w : sound w → (∀ i l d f, leases w !! i = Some l → phase l = Held d f →
  entry (inodes w) d sentinel = Some f → entry fs d sentinel = Some f) → sound {| inodes := fs; leases := leases w |}.
Proof. intros [H1 H2] Hfs. split; [|done]. intros i l d f Hl Hp. eapply Hfs; [done..|by eapply H1]. Qed.

Lemma inspect_entry fs d f u : inspect fs d f = Ok u → entry fs d sentinel = Some f.
Proof.
  unfold inspect. intros (e & He%of_option_ok & Hc)%bind_ok. destruct (fs !! f) as [[]|]; try done.
  destruct (fs !! e) as [[]|]; try done. apply check_ok in Hc. rewrite !andb_true_iff in Hc.
  destruct Hc as [_ Hc%Nat.eqb_eq]. by subst.
Qed.

Lemma advance_sound answer new i l w w' : sound w → leases w !! i = Some l → inodes w !! new = None →
  advance answer new i l w = Some w' → sound w'.
Proof.
  intros Hs Hl Hnew. pose proof (phase_sound i l) as Hp. unfold advance.
  destruct (phase l) as [at_ [|part rest]|d n|d f|d f|d f|d f|d f|why] eqn:Ep.
  - intros [= <-]. by apply Hp.
  - destruct (_ || _); intros [= <-]; [by apply Hp|]. destruct answer; try by apply Hp.
    destruct (entry _ _ _); [|by apply Hp]. destruct (is_dir _ _); by apply Hp.
  - destruct (n =? 8)%nat; [intros [= <-]; by apply Hp|]. destruct answer as [| | |current]; try (intros [= <-]; by apply Hp).
    + destruct (open_sentinel _ _ _) as [[f fs]|] eqn:Eo; intros [= <-]; [|by apply Hp].
      apply (phase_sound i l); [|done..]. apply files_sound; [done|]. intros j k d' f' _ _. by apply (open_sentinel_keeps _ _ _ _ _ Hnew Eo).
    + destruct (_ && _); intros [= <-]; by apply Hp.
  - intros [= <-]. destruct answer; try by apply Hp. destruct (inspect _ _ _); by apply Hp.
  - destruct answer; try (intros [= <-]; by apply Hp || done). destruct (contended _ _ _ _) eqn:Ec.
    + destruct (mode l); [done|]. intros [= <-]. by apply Hp.
    + intros [= <-]. by apply (lock_sound i l).
  - intros [= <-]. destruct answer; try by apply Hp. destruct (inspect _ _ _) eqn:Ei; [|by apply Hp].
    apply Hp; [done..| |].
    + intros f'. cbn. unfold lock_of. by rewrite Ep.
    + intros d' f' [= <- <-]. by eapply inspect_entry.
  - done.
  - done.
  - done.
Qed.

Lemma step_sound w w' : step w w' → sound w → sound w'.
Proof.
  intros [i root directory m w1 Hi|answer new i l w1 w1' Hl Hnew E|i w1|fs w1 Hfs] Hs.
  - destruct Hs as [H1 H2]. assert (lock_of (start root directory m (inodes w1)) = None ∧
      ∀ d f, phase (start root directory m (inodes w1)) ≠ Held d f) as [Hn Hp].
    { unfold start, lock_of. cbn. destruct (validate directory); [destruct (is_dir _ _)|]; done. }
    split; cbn.
    + intros j k d f [[<- <-]|[_ Hk]]%lookup_insert_Some Hph; [by apply Hp in Hph|by eapply H1].
    + intros a b la lb f Hab [[<- <-]|[_ Ea]]%lookup_insert_Some [[<- <-]|[_ Eb]]%lookup_insert_Some Ka Kb; try congruence.
      by apply (H2 a b la lb f).
  - by eapply advance_sound.
  - destruct Hs as [H1 H2]. split; cbn.
    + intros j k d f [_ Hk]%lookup_delete_Some. by eapply H1.
    + intros a b la lb f Hab [_ Ea]%lookup_delete_Some [_ Eb]%lookup_delete_Some. by eapply H2.
  - apply files_sound; [done|]. intros i l d f Hl Hp Hd. by rewrite (Hfs i l d f).
Qed.

(** C18 However constructors and destructors of leases interleave, and whatever others
    do to the files, provided that they leave the sentinel of a held lease in place: a
    locked lease holds the file that its directory names as the sentinel, and of two
    locked leases on a directory neither is a cleaner's. *)
Theorem leases_exclude fs w : rtc step {| inodes := fs; leases := ∅ |} w →
  (∀ i l d f, leases w !! i = Some l → phase l = Held d f → entry (inodes w) d sentinel = Some f) ∧
  (∀ i j l k d f g, i ≠ j → leases w !! i = Some l → leases w !! j = Some k →
     phase l = Held d f → phase k = Held d g → f = g ∧ mode l = Shared ∧ mode k = Shared).
Proof.
  intros Hr. assert (sound w) as Hs.
  { apply (rtc_ind_r sound {| inodes := fs; leases := ∅ |}) in Hr; [done|by split|]. intros x y _ Hxy Hx. by eapply step_sound. }
  split; [apply (on_sentinel _ Hs)|]. intros i j l k d f g Hij Hl Hk Pl Pk.
  pose proof (on_sentinel _ Hs _ _ _ _ Hl Pl) as E1. pose proof (on_sentinel _ Hs _ _ _ _ Hk Pk) as E2.
  rewrite E1 in E2. injection E2 as <-. split; [done|]. apply (compatible _ Hs i j l k f Hij Hl Hk); unfold lock_of; by rewrite ?Pl, ?Pk.
Qed.

(** ** Writers and a cleaner on a small tree *)

(** A history as a list: leases that start, calls that are answered. *)
Inductive Event := Start (i : nat) (directory : bytes) (m : Mode) | Call (answer : Answer) (i : nat) | Release (i : nat).

Definition happen (e : Event) (w : World) : option World :=
  match e with
  | Start i directory m =>
      match leases w !! i with
      | None => Some {| inodes := inodes w; leases := <[i := start 0 directory m (inodes w)]> (leases w) |}
      | Some _ => None
      end
  | Call answer i =>
      let new := size (inodes w) in
      match leases w !! i, inodes w !! new with Some l, None => advance answer new i l w | _, _ => None end
  | Release i => Some {| inodes := inodes w; leases := delete i (leases w) |}
  end.

Fixpoint history (l : list Event) (w : World) : option World :=
  match l with [] => Some w | e :: l => match happen e w with Some w => history l w | None => None end end.

Lemma history_steps l w w' : history l w = Some w' → rtc step w w'.
Proof.
  revert w. induction l as [|e l IH]; cbn; intros w; [intros [= <-]; constructor|].
  destruct (happen e w) as [w1|] eqn:E; [|done]. intros Hl. econstructor; [|by apply IH].
  destruct e as [i d m|answer i|i]; cbn in E.
  - destruct (leases w !! i) eqn:Ei; [done|]. injection E as <-. by constructor.
  - destruct (leases w !! i) eqn:Ei; [|done]. destruct (inodes w !! size (inodes w)) eqn:En; [done|]. by econstructor.
  - injection E as <-. constructor.
Qed.

Definition tree : Inodes := <[0%nat := Dir {[lit "home" := 1%nat]}]> {[1%nat := Dir ∅]}.
Definition nobody : World := {| inodes := tree; leases := ∅ |}.

Definition constructed (i : nat) (m : Mode) : list Event :=
  Start i (lit "/home") m :: replicate 6 (Call Done i).

Definition phase_of (i : nat) (w : option World) : option Phase := w ← w; phase <$> leases w !! i.

(** Writers share the directory, and a cleaner does not get it. *)
Definition writers : list Event := constructed 0 Shared ++ constructed 1 Shared.

Example cleaner_is_busy :
  phase_of 2 (history (writers ++ Start 2 (lit "/home") TryExclusive :: replicate 5 (Call Done 2)) nobody) = Some (Busy 1 2).
Proof. vm_compute. reflexivity. Qed.

(** After the writers the cleaner gets it, and a writer waits. *)
Example cleaner_gets_it :
  let l := writers ++ [Release 0; Release 1] ++ constructed 2 TryExclusive in
  phase_of 2 (history l nobody) = Some (Held 1 2) ∧
  history (l ++ constructed 3 Shared) nobody = None ∧
  phase_of 3 (history (l ++ Start 3 (lit "/home") Shared :: replicate 4 (Call Done 3)) nobody) = Some (Locking 1 2).
Proof. split_and!; vm_compute; reflexivity. Qed.

Example redirected_directories_are_refused :
  phase_of 0 (history [Start 0 (lit "/home/../home") Shared] nobody) =
    Some (Failed "temporary lease requires an absolute normalized directory").
Proof. vm_compute. reflexivity. Qed.

Lemma leases_exclude_witness : ∃ w l k, rtc step nobody w ∧
  leases w !! 0%nat = Some l ∧ leases w !! 1%nat = Some k ∧ phase l = Held 1 2 ∧ phase k = Held 1 2 ∧
  mode l = Shared ∧ mode k = Shared.
Proof.
  destruct (history writers nobody) as [w|] eqn:E; [|exfalso; revert E; vm_compute; discriminate].
  assert (phase_of 0 (Some w) = Some (Held 1 2)) as H0 by (rewrite <-E; vm_compute; reflexivity).
  assert (phase_of 1 (Some w) = Some (Held 1 2)) as H1 by (rewrite <-E; vm_compute; reflexivity).
  pose proof (history_steps _ _ _ E) as Hr. cbn in H0, H1.
  destruct (leases w !! 0%nat) as [l|] eqn:E0; [|discriminate]. destruct (leases w !! 1%nat) as [k|] eqn:E1; [|discriminate].
  injection H0 as H0. injection H1 as H1. exists w, l, k.
  destruct (leases_exclude tree w Hr) as [_ Hx]. destruct (Hx 0%nat 1%nat l k 1%nat 2%nat 2%nat ltac:(discriminate) E0 E1 H0 H1) as (_ & Hl & Hk).
  split_and!; done.
Defined.
