(* ===== verification/Proc.v ===== *)
(** Procedures that change a state and can throw: an exception keeps what was done
    before it, as in C++.  The packager, the audit of a package, the catalog and the
    native file operations are written in this monad; the lemmas here invert and
    compose their runs.  [X] is what is thrown: the message of an exception in [proc],
    a code and a message in the native files. *)
From stdpp Require Import relations list.
From S2P Require Import Prelude.

Section proc.
Context {S X : Type}.

Definition fallible (A : Type) : Type := S → result X A * S.
#[local] Abbreviation proc := fallible.

Definition ret {A} (a : A) : proc A := λ s, (Ok a, s).
Definition throw {A} (m : X) : proc A := λ s, (Err m, s).
Definition and_then {A B} (p : proc A) (f : A → proc B) : proc B := λ s,
  match p s with (Ok a, s') => f a s' | (Err m, s') => (Err m, s') end.
(** [try { p } catch(const std::exception &e) { handler }]. *)
Definition catch {A} (p : proc A) (handler : X → proc A) : proc A := λ s,
  match p s with (Err m, s') => handler m s' | r => r end.

Definition lift {A} (r : result X A) : proc A := λ s, (r, s).
Definition guard (b : bool) (m : X) : proc unit := lift (check b m).
Definition state : proc S := λ s, (Ok s, s).
Definition modify (f : S → S) : proc unit := λ s, (Ok tt, f s).

(** ** Runs that end well *)

Lemma and_then_ok {A B} (p : proc A) (f : A → proc B) s b s' :
  and_then p f s = (Ok b, s') ↔ ∃ a s1, p s = (Ok a, s1) ∧ f a s1 = (Ok b, s').
Proof. unfold and_then. destruct (p s) as [[a|m] s1]; naive_solver. Qed.

Lemma catch_ok {A} (p : proc A) h s a s' :
  catch p h s = (Ok a, s') ↔ p s = (Ok a, s') ∨ ∃ m s1, p s = (Err m, s1) ∧ h m s1 = (Ok a, s').
Proof. unfold catch. destruct (p s) as [[b|m] s1]; naive_solver. Qed.

Lemma ret_ok {A} (a b : A) s s' : ret a s = (Ok b, s') ↔ a = b ∧ s = s'.
Proof. unfold ret. naive_solver. Qed.

Lemma lift_ok {A} (r : result X A) a s s' : lift r s = (Ok a, s') ↔ r = Ok a ∧ s = s'.
Proof. unfold lift. naive_solver. Qed.

Lemma guard_ok b m u s s' : guard b m s = (Ok u, s') ↔ b = true ∧ s = s'.
Proof. unfold guard. rewrite lift_ok, check_ok. done. Qed.

Lemma modify_ok f u s s' : modify f s = (Ok u, s') ↔ s' = f s.
Proof. unfold modify. destruct u. naive_solver. Qed.

(** ** Runs that end badly *)

Lemma and_then_err {A B} (p : proc A) (f : A → proc B) s m s' : and_then p f s = (Err m, s') →
  p s = (Err m, s') ∨ ∃ a s1, p s = (Ok a, s1) ∧ f a s1 = (Err m, s').
Proof. unfold and_then. destruct (p s) as [[a|e] s1]; [|intros [= -> ->]; by left]. intros E. right. by exists a, s1. Qed.

Lemma lift_err {A} (r : result X A) m (s s' : S) : lift r s = (Err m, s') → s' = s.
Proof. by intros [= _ ->]. Qed.

Lemma guard_err b e m (s s' : S) : guard b e s = (Err m, s') → s' = s.
Proof. apply lift_err. Qed.

(** ** Procedures that never throw *)

Definition ends {A} (p : proc A) : Prop := ∀ s, ∃ a s', p s = (Ok a, s').

Lemma ends_ret {A} (a : A) : ends (ret a).
Proof. intros s. by eexists _, _. Qed.

Lemma ends_modify f : ends (modify f).
Proof. intros s. by eexists _, _. Qed.

Lemma ends_and_then {A B} (p : proc A) (f : A → proc B) : ends p → (∀ a, ends (f a)) → ends (and_then p f).
Proof. intros Hp Hf s. unfold and_then. destruct (Hp s) as (a & s1 & ->). apply Hf. Qed.

Lemma ends_catch {A} (p : proc A) h : (∀ m, ends (h m)) → ends (catch p h).
Proof. intros Hh s. unfold catch. destruct (p s) as [[a|m] s1]; [by eexists _, _|apply Hh]. Qed.

(** ** What every run keeps *)

Definition keeps (R : S → S → Prop) {A} (p : proc A) : Prop := ∀ s, R s (p s).2.

Context (R : S → S → Prop) `{!PreOrder R}.

Lemma keeps_ret {A} (a : A) : keeps R (ret a).
Proof. intros s. reflexivity. Qed.

Lemma keeps_throw {A} m : keeps R (throw (A:=A) m).
Proof. intros s. reflexivity. Qed.

Lemma keeps_lift {A} (r : result X A) : keeps R (lift r).
Proof. intros s. reflexivity. Qed.

Lemma keeps_guard b m : keeps R (guard b m).
Proof. apply keeps_lift. Qed.

Lemma keeps_state : keeps R state.
Proof. intros s. reflexivity. Qed.

Lemma keeps_and_then {A B} (p : proc A) (f : A → proc B) : keeps R p → (∀ a, keeps R (f a)) → keeps R (and_then p f).
Proof.
  intros Hp Hf s. unfold and_then. pose proof (Hp s) as H1. destruct (p s) as [[a|m] s1]; [|done].
  etrans; [exact H1|apply Hf].
Qed.

Lemma keeps_catch {A} (p : proc A) h : keeps R p → (∀ m, keeps R (h m)) → keeps R (catch p h).
Proof.
  intros Hp Hh s. unfold catch. pose proof (Hp s) as H1. destruct (p s) as [[a|m] s1]; [done|].
  etrans; [exact H1|apply Hh].
Qed.

Lemma keeps_modify f : (∀ s, R s (f s)) → keeps R (modify f).
Proof. intros Hf s. apply Hf. Qed.

Lemma keeps_run {A} (p : proc A) s r s' : keeps R p → p s = (r, s') → R s s'.
Proof. intros Hp E. pose proof (Hp s) as H1. by rewrite E in H1. Qed.
End proc.

Arguments fallible : clear implicits.

(** What is thrown is a message. *)
Abbreviation proc S := (fallible S string).

Declare Scope proc_scope.
Delimit Scope proc_scope with proc.
Notation "x <- p ; q" := (and_then p (λ x, q)) (at level 100, p at next level, right associativity) : proc_scope.
Notation "p ;; q" := (and_then p (λ _ : unit, q)) (at level 100, right associativity) : proc_scope.

Create HintDb ends.
#[export] Hint Resolve ends_ret ends_modify : ends.

Create HintDb keeps.
#[export] Hint Resolve keeps_ret keeps_throw keeps_lift keeps_guard keeps_state : keeps.

(** Takes a run that ended well apart. *)
Ltac run_ok := repeat match goal with
  | H : and_then _ _ _ = (Ok _, _) |- _ => let a := fresh "a" in let s := fresh "s" in let E := fresh "E" in
      apply and_then_ok in H as (a & s & E & H)
  | H : ret _ _ = (Ok _, _) |- _ => apply ret_ok in H as [? ?]; subst
  | H : throw _ _ = (Ok _, _) |- _ => discriminate H
  | H : guard _ _ _ = (Ok _, _) |- _ => apply guard_ok in H as [? ?]; subst
  | H : lift _ _ = (Ok _, _) |- _ => apply lift_ok in H as [? ?]; subst
  | H : modify _ _ = (Ok _, _) |- _ => apply modify_ok in H; subst
  | H : state _ = (Ok _, _) |- _ => injection H as <- <-
  end.
