(* ===== verification/ObjectPackager.v ===== *)
(** Packaging the entries of an inventory into the object store
    (src/Objects/ObjectPackager.cpp, [package]): the loop that imports, revises or
    skips each of them, alone or in batches.

    The loop runs in a state that counts the questions it has asked so far; the
    outside ([Outside]) answers the n-th question. *)
From S2P Require Import Prelude Text Sha256 Table ObjectData ObjectPackage ObjectStore.
From S2P Require Import ObjectSource WorkerPool ObjectBatchRead ObjectInventory Proc.
Local Open Scope Z_scope.
Local Open Scope proc_scope.

Record ObjectPackagingReport := {
  report_imported : Z;
  report_revised : Z;
  report_skipped : Z;
  report_issues : list ObjectPackagingIssue;
  report_cancelled : bool
}.

(** ** What the outside answers *)

Inductive Progress := Imported | Revised | Skipped.

Record Outside := {
  stops : nat → bool;                                    (* [cancellation.stop_requested()] *)
  looks : nat → list bytes → Inspection;                 (* [ObjectSource::inspect] *)
  captures : nat → list bytes → Capture;                 (* [ObjectSource snapshot(...)] *)
  spaces : nat → Z;                                      (* [fs::space(...).available] *)
  authors : nat → ObjectPackagingEntry → result string (option ObjectMetadata);
  told : nat → ObjectPackagingEntry → Progress → result string unit;   (* [progress(...)] *)
  envs : nat → Env;                                      (* of a store operation *)
  polls : nat → Poll → bool;                             (* the token inside one *)
  snapshot_files : nat → Snapshot → SourceFile;          (* a snapshot as the store reads it *)
  snapshot_reads : nat → Snapshot → BatchInput;          (* ... and as the batch reader does *)
  published : nat → Snapshot → Inspection                (* ... and before publication *)
}.

(** ** Steps *)
Section packager.
Context {H : Type} {hashing : StreamHash H} {sqlite : SqliteJson}.
Context (W : Outside) (directory : list bytes) (work : bytes).
Context (has_authorship : bool) (maximum : Z).

Record Run := {
  asked : nat;
  package_store : Store;
  report : ObjectPackagingReport;
  pending : list ObjectPackagingEntry        (* the entries from [cursor] on *)
}.

Definition ask {A} (question : nat → A) : proc Run A := λ s,
  (Ok (question (asked s)),
   {| asked := S (asked s); package_store := package_store s; report := report s; pending := pending s |}).
Definition ask_or_throw {A} (question : nat → result string A) : proc Run A := r <- ask question; lift r.
Definition query {A} (f : Store → result string A) : proc Run A := λ s, (f (package_store s), s).
Definition operate {A} (f : Store → result string A * Store) : proc Run A := λ s,
  let '(r, st) := f (package_store s) in
  (r, {| asked := asked s; package_store := st; report := report s; pending := pending s |}).
Definition get_pending : proc Run (list ObjectPackagingEntry) := s <- state; ret (pending s).
Definition set_pending (l : list ObjectPackagingEntry) : proc Run unit := modify (λ s,
  {| asked := asked s; package_store := package_store s; report := report s; pending := l |}).
Definition note (f : ObjectPackagingReport → ObjectPackagingReport) : proc Run unit := modify (λ s,
  {| asked := asked s; package_store := package_store s; report := f (report s); pending := pending s |}).

Definition stopped : proc Run bool := ask (stops W).

Definition add_issue (p : bytes) (m : string) (r : ObjectPackagingReport) : ObjectPackagingReport :=
  {| report_imported := report_imported r; report_revised := report_revised r; report_skipped := report_skipped r;
     report_issues := report_issues r ++ [{| issue_path := p; issue_message := m |}];
     report_cancelled := report_cancelled r |}.
Definition set_cancelled (r : ObjectPackagingReport) : ObjectPackagingReport :=
  {| report_imported := report_imported r; report_revised := report_revised r; report_skipped := report_skipped r;
     report_issues := report_issues r; report_cancelled := true |}.
Definition add_done (i rv s : Z) (r : ObjectPackagingReport) : ObjectPackagingReport :=
  {| report_imported := report_imported r + i; report_revised := report_revised r + rv;
     report_skipped := report_skipped r + s; report_issues := report_issues r;
     report_cancelled := report_cancelled r |}.

Definition changed_since : string := "source changed after inventory; rescan required".
Definition itself : string := "cannot package the package itself".
Definition reserve_bytes : Z := 256 * 1024 * 1024.

(** A prepared batch: entries with their identities and options. *)
Record Preparing := {
  prepared_entries : list (ObjectPackagingEntry * ObjectWriteOptions);
  batch_bytes : Z;
  metadataRemaining : Z
}.

Definition empty_batch : Preparing :=
  {| prepared_entries := []; batch_bytes := 0; metadataRemaining := maximumBatchMetadataBytes |}.

Definition prepare (actorBytes : Z) (item : ObjectPackagingEntry) (b : Preparing) : proc Run Preparing :=
  guard (negb (below (entry_source item) directory)) itself;;
  i <- ask_or_throw (λ n, inspect (H:=H) (looks W n (entry_source item)));
  guard (bool_decide (i = entry_identity item)) changed_since;;
  guard (negb (maximumBatchBytes - batch_bytes b <? identity_size i)) "package batch size limit";;
  available <- ask (spaces W);
  guard (negb (available <? (batch_bytes b + identity_size i) * 3 + reserve_bytes)) "insufficient batch space";;
  document <- (if has_authorship then ask_or_throw (λ n, authors W n item) else ret None);
  stop <- ask (polls W);
  let options := {| opt_authorship := document; opt_sourceStamp := stamp i; cancellation := stop |} in
  let provenanceBytes := match document with Some d => len (payload d) | None => 0 end in
  guard (negb (metadataRemaining b <? actorBytes)) "package batch metadata limit";;
  guard (negb (metadataRemaining b - actorBytes <? provenanceBytes)) "package batch metadata limit";;
  ret {| prepared_entries := prepared_entries b ++ [(item, options)];
         batch_bytes := batch_bytes b + identity_size i;
         metadataRemaining := metadataRemaining b - actorBytes - provenanceBytes |}.

(** The loop that adds the entries that follow, while they are new and fit; a
    failure leaves the entry for the loop outside. *)
Fixpoint grow_batch (fuel : nat) (actorBytes : Z) (b : Preparing) : proc Run Preparing :=
  match fuel with
  | O => ret b
  | S fuel =>
      rest <- get_pending;
      match rest with
      | [] => ret b
      | next :: rest =>
          if negb (len (prepared_entries b) <? maximum) then ret b else
          if maximumBatchBytes - batch_bytes b <? identity_size (entry_identity next) then ret b else
          more <- catch
            (existing <- query (lookupPath (logicalPath next));
             match existing with
             | Some _ => ret None
             | None => b <- prepare actorBytes next b; set_pending rest;; ret (Some b)
             end) (λ _, ret None);
          match more with Some b => grow_batch fuel actorBytes b | None => ret b end
      end
  end.

Definition request_of (n : nat) (e : ObjectPackagingEntry) : SnapshotRequest :=
  {| requested_identity := entry_identity e; request_stop := stops W n;
     before_capture := looks W n (entry_source e); capturing := captures W n (entry_source e) |}.

(** What [readObjectBatch] hands to [importFiles] of the snapshots. *)
Definition prepared_of (n : nat) (snapshots : list Snapshot) : result string (list PreparedSource) :=
  items ← read_in_order (H:=H) (snapshot_reads W n <$> snapshots);
  Ok (zip_with (λ s x, {| prepared_bytes := payload_bytes x;
                          identity_unchanged := i ← inspect (H:=H) (published W n s);
                                                Ok (bool_decide (i = prepared_identity x)) |}) snapshots items).

(** The inner try block of a batch. *)
Definition import_batch (b : Preparing) : proc Run (list ObjectRecord) :=
  snapshots <- ask_or_throw (λ n,
    capture_in_order (H:=H) ((λ x, request_of n x.1) <$> prepared_entries b) (λ m, stops W (n + m)));
  sources <- ask (λ n, prepared_of n snapshots);
  e <- ask (envs W);
  operate (importFiles (H:=H) e ((λ x, (logicalPath x.1, x.2)) <$> prepared_entries b) sources work).

Fixpoint tell_each (entries : list ObjectPackagingEntry) : proc Run unit :=
  match entries with
  | [] => ret tt
  | e :: entries => ask_or_throw (λ n, told W n e Imported);; tell_each entries
  end.

Definition rolled_back (m : string) (b : Preparing) (r : ObjectPackagingReport) : ObjectPackagingReport :=
  foldl (λ r x, add_issue (logicalPath x.1) (String.append "batch rolled back: " m) r) r (prepared_entries b).

Definition package_batch (actorBytes : Z) (e : ObjectPackagingEntry) : proc Run unit :=
  b <- prepare actorBytes e empty_batch;
  rest <- get_pending;
  b <- grow_batch (length rest) actorBytes b;
  records <- catch (rs <- import_batch b; ret (Some rs))
    (λ m, stop <- stopped; if (stop : bool) then throw m else note (rolled_back m b);; ret None);
  match records with
  | None => ret tt
  | Some records =>
      note (add_done (len records) 0 0);;
      tell_each (take (length records) (fst <$> prepared_entries b))
  end.

Definition package_single (e : ObjectPackagingEntry) (existing : option ObjectRecord)
    (supplied : option ObjectMetadata) (current : ObjectSourceIdentity) : proc Run unit :=
  s <- ask_or_throw (λ n, capture (H:=H) (captures W n (entry_source e)) None);
  guard (bool_decide (original s = current)) rescan;;
  document <- match existing with
              | Some _ => ret supplied
              | None => if has_authorship then ask_or_throw (λ n, authors W n e) else ret None
              end;
  stop <- ask (polls W);
  file <- ask (λ n, snapshot_files W n s);
  env <- ask (envs W);
  let options := {| opt_authorship := document; opt_sourceStamp := stamp current; cancellation := stop |} in
  match existing with
  | Some r =>
      object <- operate (reviseFile (H:=H) env (key r) file (version r) work options);
      note (add_done 0 1 0);; ask_or_throw (λ n, told W n e Revised)
  | None =>
      object <- operate (importFile (H:=H) env file (logicalPath e) work options);
      note (add_done 1 0 0);; ask_or_throw (λ n, told W n e Imported)
  end.

(** Whether the entry is already packaged as it is. *)
Definition unchanged (existing : option ObjectRecord) (supplied : option ObjectMetadata)
    (current : ObjectSourceIdentity) : option ObjectRecord :=
  r ← existing;
  if bool_decide (sourceStamp r = stamp current)
     && match supplied with Some d => bool_decide (d = authorship r) | None => true end
  then Some r else None.

(** The outer try block of an entry. *)
Definition package_entry (actorBytes : Z) (e : ObjectPackagingEntry) : proc Run unit :=
  guard (negb (below (entry_source e) directory)) itself;;
  current <- ask_or_throw (λ n, inspect (H:=H) (looks W n (entry_source e)));
  guard (bool_decide (current = entry_identity e)) changed_since;;
  existing <- query (lookupPath (logicalPath e));
  supplied <- match existing with
              | Some _ => if has_authorship then ask_or_throw (λ n, authors W n e) else ret None
              | None => ret None
              end;
  match unchanged existing supplied current with
  | Some r =>
      env <- ask (envs W);
      ok <- query (validate_object (H:=H) env (key r) (version r) false);
      guard ok "committed object metadata is corrupt";;
      note (add_done 0 0 1);; ask_or_throw (λ n, told W n e Skipped)
  | None =>
      available <- ask (spaces W);
      guard (negb (((UINT64_MAX - reserve_bytes) / 3 <? identity_size current)
                   || (available <? identity_size current * 3 + reserve_bytes)))
        "insufficient free space for snapshot, payload and journal";;
      if bool_decide (existing = None) && (1 <? maximum) && (identity_size current <=? maximumBatchBytes)
      then package_batch actorBytes e
      else package_single e existing supplied current
  end.

(** The loop over the inventory.  Each turn takes at least one entry. *)
Fixpoint package_loop (fuel : nat) (actorBytes : Z) : proc Run unit :=
  match fuel with
  | O => throw "unreachable"
  | S fuel =>
      rest <- get_pending;
      match rest with
      | [] => ret tt
      | e :: rest =>
          stop <- stopped;
          if (stop : bool) then note set_cancelled else
          set_pending rest;;
          again <- catch (package_entry actorBytes e;; ret true)
            (λ m, stop <- stopped;
                  if (stop : bool) then note set_cancelled;; ret false
                  else note (add_issue (logicalPath e) m);; ret true);
          if (again : bool) then package_loop fuel actorBytes else ret tt
      end
  end.
End packager.

(** ** The public operation *)

(** What the file system answers about the directory of the package. *)
Record Staging := {
  directory_direct : bool;                  (* its own canonical path, and a directory *)
  staging_exists : result string bool;
  staging_created : result string unit;     (* [fs::create_directory] *)
  staging_direct : bool;                    (* its own canonical path, and a directory *)
  staging_private : result string unit;     (* [fs::permissions(..., owner_all)] *)
  staging_lease : result string unit        (* [TemporaryLease stagingLease(staging, Shared)] *)
}.

(** The constructor. *)
Definition ObjectPackager (s : Staging) : result string unit :=
  check (directory_direct s) "invalid package directory".

Definition stagingDirectory (s : Staging) : result string unit :=
  there ← staging_exists s;
  _ ← (if (there : bool) then Ok tt else staging_created s);
  _ ← check (staging_direct s) "redirected package staging path";
  staging_private s.

Definition package {H} `{hashing : StreamHash H} `{sqlite : SqliteJson} (W : Outside) (staging : Staging)
    (directory : list bytes) (inventory : ObjectInventory) (work : bytes) (has_authorship : bool) (maximum : Z)
    (st : Store) : result string ObjectPackagingReport * Store :=
  let fresh := {| report_imported := 0; report_revised := 0; report_skipped := 0;
                  report_issues := inventory_issues inventory; report_cancelled := false |} in
  if (maximum =? 0) || (maximumBatchFiles <? maximum) then (Err "invalid package batch size", st) else
  if negb (bool_decide (inventory_issues inventory = [])) then (Ok fresh, st) else
  match
    _ ← stagingDirectory staging;
    _ ← staging_lease staging;
    s ← session work st;
    _ ← check (endedAtNs s =? 0) "package work session is closed";
    Ok s
  with
  | Err m => (Err m, st)
  | Ok s =>
      match package_loop W directory work has_authorship maximum (S (length (inventory_entries inventory)))
              (len (payload (profile (session_author s))))
              {| asked := 0; package_store := st; report := fresh; pending := inventory_entries inventory |} with
      | (Ok _, run) => (Ok (report run), package_store run)
      | (Err m, run) => (Err m, package_store run)
      end
  end.
