(* ===== verification/PackagerLaws.v ===== *)
(** What packaging keeps and achieves, step by step: the store only moves by its own
    operations, the report only grows, and an entry that leaves no issue is at its
    path with its stamp afterwards. *)
From stdpp Require Import relations list.
From S2P Require Import Prelude Json Sha256 Table ObjectData ObjectPackage ObjectStore.
From S2P Require Import ObjectReach ObjectSpec ObjectPaths ObjectProperties.
From S2P Require Import ObjectSource WorkerPool ObjectBatchRead ObjectInventory Proc ObjectPackager.
Local Open Scope Z_scope.
Local Open Scope proc_scope.

Section laws.
Context {H : Type} {hashing : StreamHash H} {sqlite : SqliteJson}.
Context (json_parse : bytes → option json).
Context (W : Outside) (directory : list bytes) (work : bytes) (has_authorship : bool) (maximum : Z).

Abbreviation step := (step (H:=H) json_parse).
Abbreviation reachable := (reachable (H:=H) json_parse).

(** ** What every part keeps *)

(** Only questions were asked. *)
Record quiet (s s' : Run) : Prop := {
  quiet_store : package_store s' = package_store s;
  quiet_report : report s' = report s;
  quiet_pending : pending s' = pending s
}.

#[export] Instance quiet_preorder : PreOrder quiet.
Proof. split; [by split|]. intros x y z [] []. split; congruence. Qed.

Record advance (s s' : Run) : Prop := {
  adv_steps : rtc step (package_store s) (package_store s');
  adv_issues : report_issues (report s) `prefix_of` report_issues (report s');
  adv_cancelled : report_cancelled (report s) = true → report_cancelled (report s') = true;
  adv_pending : pending s' `suffix_of` pending s
}.

#[export] Instance advance_preorder : PreOrder advance.
Proof. split; [by split|]. intros x y z [] []. split; [by etrans|by etrans|auto|by etrans]. Qed.

Lemma quiet_advance s s' : quiet s s' → advance s s'.
Proof. intros [E1 E2 E3]. split; by rewrite ?E1, ?E2, ?E3. Qed.

Lemma keeps_quiet {A} (p : proc Run A) : keeps quiet p → keeps advance p.
Proof. intros Hp s. by apply quiet_advance. Qed.

Lemma keeps_ask {A} (q : nat → A) : keeps quiet (ask q).
Proof. by intros s. Qed.

Lemma keeps_query {A} (f : Store → result string A) : keeps quiet (query f).
Proof. intros s. reflexivity. Qed.

Lemma keeps_ask_or_throw {A} (q : nat → result string A) : keeps quiet (ask_or_throw q).
Proof. apply keeps_and_then; [apply _|apply keeps_ask|]. intros r. apply keeps_lift, _. Qed.

Lemma keeps_note f : (∀ r, report_issues r `prefix_of` report_issues (f r) ∧
    (report_cancelled r = true → report_cancelled (f r) = true)) → keeps advance (note f).
Proof. intros Hf. apply keeps_modify. intros s. by split; try apply Hf. Qed.

Lemma keeps_operate {A} (f : Store → result string A * Store) : (∀ st, rtc step st (f st).2) → keeps advance (operate f).
Proof.
  intros Hf s. unfold operate. pose proof (Hf (package_store s)) as Hs. destruct (f (package_store s)) as [r st].
  by split.
Qed.

Lemma add_issue_grows p m r : report_issues r `prefix_of` report_issues (add_issue p m r) ∧
  (report_cancelled r = true → report_cancelled (add_issue p m r) = true).
Proof. split; [by eexists|done]. Qed.

Lemma rolled_back_issues m b r : ∃ l, report_issues (rolled_back m b r) = report_issues r ++ l ∧
  length l = length (prepared_entries b) ∧ report_cancelled (rolled_back m b r) = report_cancelled r.
Proof.
  unfold rolled_back. revert r. induction (prepared_entries b) as [|x xs IH]; intros r; simpl.
  - exists []. by rewrite app_nil_r.
  - destruct (IH (add_issue (logicalPath x.1) (String.append "batch rolled back: " m) r)) as (l & E & Hl & Hc).
    eexists (_ :: l). rewrite E. simpl. rewrite <-app_assoc. by rewrite Hl.
Qed.

(** Decomposes a procedure into the parts the hints know. *)
Ltac keeps := repeat first
  [ progress intros
  | apply keeps_and_then; [apply _| |]
  | apply keeps_catch; [apply _| |]
  | apply keeps_ret, _ | apply keeps_throw, _ | apply keeps_lift, _ | apply keeps_guard, _ | apply keeps_state, _
  | apply keeps_ask | apply keeps_query | apply keeps_ask_or_throw
  | match goal with |- keeps _ (match ?x with _ => _ end) => destruct x end ].

(** ** Preparing a batch *)

Lemma prepare_quiet n e b : keeps quiet (prepare (H:=H) W directory has_authorship n e b).
Proof. unfold prepare. keeps. Qed.

(** The entry and the options it is imported with. *)
Definition goes_with (x : ObjectPackagingEntry * ObjectWriteOptions) : Prop :=
  opt_sourceStamp x.2 = stamp (entry_identity x.1).

Lemma prepare_adds n e b s b' s' : prepare (H:=H) W directory has_authorship n e b s = (Ok b', s') →
  ∃ options, prepared_entries b' = prepared_entries b ++ [(e, options)] ∧ goes_with (e, options).
Proof.
  unfold prepare. intros E. run_ok. eexists. split; [done|]. unfold goes_with. simpl.
  by match goal with E : bool_decide (_ = entry_identity e) = true |- _ => apply bool_decide_eq_true in E as -> end.
Qed.

(** The entries that [b'] has more than [b] are those taken from the list. *)
Record took (b b' : Preparing) (s s' : Run) : Prop := {
  took_store : package_store s' = package_store s;
  took_report : report s' = report s;
  took_pending : ∃ more, pending s = more.*1 ++ pending s' ∧
    prepared_entries b' = prepared_entries b ++ more ∧ Forall goes_with more
}.

Lemma took_quiet b s s' : quiet s s' → took b b s s'.
Proof. intros [E1 E2 E3]. split; [done..|]. exists []. by rewrite app_nil_r. Qed.

Lemma took_refl b s : took b b s s.
Proof. by apply took_quiet. Qed.

Lemma took_trans b b1 b2 s s1 s2 : took b b1 s s1 → took b1 b2 s1 s2 → took b b2 s s2.
Proof.
  intros [E1 E2 (l & E3 & E4 & E5)] [F1 F2 (m & F3 & F4 & F5)]. split; [congruence..|].
  exists (l ++ m). rewrite E3, F3, F4, E4, fmap_app, <-!app_assoc. split_and!; [done..|by apply Forall_app].
Qed.

Lemma grow_batch_took fuel n b s : ∃ b' s',
  grow_batch (H:=H) W directory has_authorship maximum fuel n b s = (Ok b', s') ∧ took b b' s s'.
Proof.
  revert b s. induction fuel as [|fuel IH]; intros b s; cbn [grow_batch]; [by exists b, s; split; [|apply took_refl]|].
  unfold and_then at 1, get_pending, and_then at 1, state, ret at 1. destruct (pending s) as [|next rest] eqn:Ep.
  { by exists b, s; split; [|apply took_refl]. }
  destruct (negb _); [by exists b, s; split; [|apply took_refl]|].
  destruct (_ <? _); [by exists b, s; split; [|apply took_refl]|].
  match goal with |- context [catch ?p ?h] => set (try := p) end.
  assert (∃ o s1, catch try (λ _, ret None) s = (Ok o, s1) ∧
    match o with Some b1 => took b b1 s s1 | None => quiet s s1 end) as (o & s1 & E1 & Ho).
  { unfold catch, try, and_then at 1. pose proof (keeps_query (lookupPath (logicalPath next)) s) as Hq.
    destruct (query _ s) as [[[r|]|m] s1]; [by exists None, s1| |by exists None, s1]. cbn [snd] in Hq.
    unfold and_then at 1. pose proof (prepare_quiet n next b s1) as Hp.
    destruct (prepare _ _ _ n next b s1) as [[b1|m] s2] eqn:Eb; cbn [snd] in Hp; [|exists None, s2; split; [done|by trans s1]].
    unfold and_then, set_pending, modify, ret. eexists (Some b1), _. split; [done|].
    apply prepare_adds in Eb as (options & Eb & Hg). destruct Hq as [Q1 Q2 Q3], Hp as [P1 P2 P3].
    split; cbn [package_store report pending]; [congruence..|]. exists [(next, options)]. split_and!; [by rewrite Ep|done|by constructor]. }
  unfold and_then. rewrite E1. destruct o as [b1|].
  - destruct (IH b1 s1) as (b2 & s2 & E2 & H2). exists b2, s2. split; [exact E2|]. by eapply took_trans.
  - exists b, s1. split; [done|]. by apply took_quiet.
Qed.

(** ** The store moves by its operations *)

Record moves (s s' : Run) : Prop := {
  mov_steps : rtc step (package_store s) (package_store s');
  mov_report : report s' = report s;
  mov_pending : pending s' = pending s
}.

#[export] Instance moves_preorder : PreOrder moves.
Proof. split; [by split|]. intros x y z [] []. split; [by etrans|congruence..]. Qed.

Lemma quiet_moves s s' : quiet s s' → moves s s'.
Proof. intros [E1 E2 E3]. split; [by rewrite E1|done..]. Qed.

Lemma keeps_moves {A} (p : proc Run A) : keeps quiet p → keeps moves p.
Proof. intros Hp s. by apply quiet_moves. Qed.

Lemma moves_advance s s' : moves s s' → advance s s'.
Proof. intros [E1 E2 E3]. split; [done|by rewrite E2..|by rewrite E3]. Qed.

Lemma moves_operate {A} (f : Store → result string A * Store) s : rtc step (package_store s) (f (package_store s)).2 →
  moves s (operate f s).2.
Proof. intros Hs. unfold operate. destruct (f (package_store s)) as [r st]. by split. Qed.

Lemma operate_ok {A} (f : Store → result string A * Store) s a s' : operate f s = (Ok a, s') →
  f (package_store s) = (Ok a, package_store s') ∧ report s' = report s ∧ pending s' = pending s.
Proof. unfold operate. destruct (f (package_store s)) as [r st]. by intros [= -> <-]. Qed.

Lemma importFiles_step e files prepared session st : batch_read (ImportFiles e files prepared session) →
  rtc step st (importFiles (H:=H) e files prepared session st).2.
Proof. intros Hb. apply rtc_once. by eapply (step_run json_parse (ImportFiles e files prepared session)). Qed.

Lemma importFile_step e file p session options st : rtc step st (importFile (H:=H) e file p session options st).2.
Proof. apply rtc_once. by eapply (step_run json_parse (ImportFile e file p session options)). Qed.

Lemma reviseFile_step e k file v session options st : rtc step st (reviseFile (H:=H) e k file v session options st).2.
Proof. apply rtc_once. by eapply (step_run json_parse (ReviseFile e k file v session options)). Qed.

Lemma sum_bound (l : list Z) x : Forall (λ y, 0 <= y) l → x ∈ l → x <= foldr Z.add 0 l.
Proof.
  intros Hall. assert (0 <= foldr Z.add 0 l) as Hpos by (induction Hall; simpl; lia).
  induction Hall as [|y l Hy Hall IH]; [by intros ?%not_elem_of_nil|].
  assert (0 <= foldr Z.add 0 l) by (clear -Hall; induction Hall; simpl; lia).
  intros [->|Hin]%elem_of_cons; simpl; [lia|]. specialize (IH ltac:(done) Hin). lia.
Qed.

Lemma prepared_batch n snapshots sources : prepared_of (H:=H) W n snapshots = Ok sources →
  Forall (λ x, len (prepared_bytes x) <= INT64_MAX) sources ∧ length sources = length snapshots.
Proof.
  unfold prepared_of. intros E. apply bind_ok in E as (items & Hr & [= <-]).
  apply read_in_order_ok in Hr as (Hall & Hsum & _). pose proof (Forall2_length _ _ _ Hall) as Hl.
  rewrite length_fmap in Hl. split; [|rewrite length_zip_with; lia].
  apply Forall_forall. intros x (i & Hx)%list_elem_of_lookup. apply lookup_zip_with_Some in Hx as (sn & it & -> & _ & Hit).
  simpl. destruct (Forall2_lookup_r _ _ _ _ _ Hall Hit) as (f & _ & Hs & _ & _ & ->).
  transitivity maximumBatchBytes; [|done]. etransitivity; [|exact Hsum].
  apply sum_bound; [|apply list_elem_of_fmap; exists it; split; [done|by eapply list_elem_of_lookup_2]].
  apply Forall_fmap, Forall_forall. intros y (j & Hy)%list_elem_of_lookup.
  destruct (Forall2_lookup_r _ _ _ _ _ Hall Hy) as (g & _ & Hg & _). apply inspect_size in Hg. simpl. lia.
Qed.

(** ** Importing a batch *)

Lemma import_batch_runs b s r s' : import_batch (H:=H) W work b s = (r, s') → moves s s' ∧
  ∀ rs, reachable (package_store s) → r = Ok rs →
    Forall2 (λ r x, at_path (package_store s') (logicalPath x.1) r ∧ sourceStamp r = opt_sourceStamp x.2 ∧
      pathValid (logicalPath x.1) = Ok tt) rs (prepared_entries b) ∧
    ∀ q r', at_path (package_store s) q r' → at_path (package_store s') q r'.
Proof.
  intros E. unfold import_batch, and_then in E.
  match type of E with context [ask_or_throw ?q s] => pose proof (keeps_ask_or_throw q s) as Hq; destruct (ask_or_throw q s) as [[sn|m] s1] eqn:E1 end;
    cbn [snd] in Hq; [|injection E as <- <-; by split; [apply quiet_moves|]].
  apply and_then_ok in E1 as (a1 & s2 & [= <- <-] & E1). apply lift_ok in E1 as [Ec _].
  apply captured_length_of in Ec. rewrite length_fmap in Ec.
  cbn [ask package_store asked report pending] in E.
  match type of E with operate (importFiles ?e ?files ?sources _) ?x = _ =>
    set (env := e) in E; set (fs := files) in E; set (src := sources) in E; set (s2 := x) in E end.
  assert (package_store s2 = package_store s) as Es by apply Hq.
  assert (batch_read (ImportFiles env fs src work)) as Hb.
  { unfold batch_read, src. destruct (prepared_of _ _ _) as [sources|] eqn:Ep; [|done].
    apply prepared_batch in Ep as [? ->]. split; [done|]. unfold fs. by rewrite length_fmap. }
  assert (moves s s2) as Hm by (split; [by rewrite Es|apply Hq..]). split.
  - trans s2; [done|]. change s' with (r, s').2. rewrite <-E. by apply moves_operate, importFiles_step.
  - intros rs Hr ->. destruct (reachable_good _ _ Hr) as [Hg _]. apply operate_ok in E as [E _]. rewrite Es in E. eapply importFiles_paths in E as [Hall Hkeep]; [|done..].
    split; [|done]. unfold fs in Hall. by apply Forall2_fmap_r in Hall.
Qed.

Lemma import_batch_moves b : keeps moves (import_batch (H:=H) W work b).
Proof. intros s. destruct (import_batch _ _ b s) as [r s'] eqn:E. by apply import_batch_runs in E as [? _]. Qed.

(** ** What an entry without an issue leaves *)

Definition total (r : ObjectPackagingReport) : Z := report_imported r + report_revised r + report_skipped r.

Record accounts (l : list ObjectPackagingEntry) (s s' : Run) : Prop := {
  accounts_total : total (report s') = total (report s) + len l;
  accounts_stamped e : e ∈ l → has_stamp (package_store s') (logicalPath e) (stamp (entry_identity e));
  accounts_keeps q r : q ∉ logicalPath <$> l → at_path (package_store s) q r → at_path (package_store s') q r
}.

(** The entry and those that were taken with it are done, unless an issue says
    otherwise. *)
Definition handles (e : ObjectPackagingEntry) (s s' : Run) : Prop :=
  ∃ more, pending s = more ++ pending s' ∧
    (report_issues (report s') = report_issues (report s) → accounts (e :: more) s s').

Lemma tell_each_quiet l : keeps quiet (tell_each W l).
Proof. induction l as [|e l IH]; simpl; keeps. exact IH. Qed.

Lemma get_pending_ok l s s' : get_pending s = (Ok l, s') → l = pending s ∧ s' = s.
Proof. unfold get_pending. intros E. by run_ok. Qed.

Lemma package_batch_ok n e s u s' : reachable (package_store s) →
  package_batch (H:=H) W directory work has_authorship maximum n e s = (Ok u, s') → handles e s s'.
Proof.
  intros Hr E. unfold package_batch in E. apply and_then_ok in E as (b0 & s0 & E0 & E).
  pose proof (keeps_run _ _ _ _ _ (prepare_quiet n e empty_batch) E0) as Hq0.
  apply prepare_adds in E0 as (options & Eb0 & Hg0). cbn [prepared_entries empty_batch app] in Eb0.
  apply and_then_ok in E as (rest & s1 & [-> ->]%get_pending_ok & E). apply and_then_ok in E as (b & s2 & Eg & E).
  destruct (grow_batch_took (length (pending s0)) n b0 s0) as (b' & s2' & Eg' & Ht).
  rewrite Eg in Eg'. injection Eg' as <- <-. destruct Ht as [T1 T2 (more & T3 & T4 & T5)], Hq0 as [Q1 Q2 Q3].
  rewrite Eb0 in T4. exists more.*1. rewrite <-Q3.
  apply and_then_ok in E as ([rs|] & s3 & Ec & E).
  - apply catch_ok in Ec as [Ec|(m & s4 & _ & Ec)].
    2: { apply and_then_ok in Ec as ([] & s5 & _ & Ec); run_ok; done. }
    apply and_then_ok in Ec as (rs' & s4 & Ei & [[= ->] ->]%ret_ok). apply import_batch_runs in Ei as [[M1 M2 M3] Hi].
    destruct (Hi rs) as [Hall Hkeep]; [by rewrite T1, Q1|done|]. rewrite T4 in Hall.
    apply and_then_ok in E as ([] & s5 & ->%modify_ok & E).
    pose proof (keeps_run _ _ _ _ _ (tell_each_quiet _) E) as [K1 K2 K3]. cbn [package_store report pending] in *.
    pose proof (Forall2_length _ _ _ Hall) as Hl. simpl in Hl.
    split; [congruence|]. intros _. split.
    + rewrite K2, M2, T2, Q2. unfold total. simpl. rewrite length_fmap. lia.
    + intros x Hx. rewrite K1. assert (∃ o, (x, o) ∈ (e, options) :: more ∧ goes_with (x, o)) as (o & Hin & Hgo).
      { apply elem_of_cons in Hx as [->|([x' o] & -> & Hx)%list_elem_of_fmap]; [exists options; split; [by left|done]|].
        exists o. split; [by right|]. rewrite Forall_forall in T5. by apply (T5 _ Hx). }
      apply list_elem_of_lookup in Hin as [i Hi']. destruct (Forall2_lookup_r _ _ _ _ _ Hall Hi') as (r & _ & Ha & Hst & Hv).
      split; [exact Hv|]. exists r. split; [exact Ha|]. by rewrite Hst, Hgo.
    + intros q r _ Ha. rewrite K1. apply Hkeep. by rewrite T1, Q1.
  - apply catch_ok in Ec as [Ec|(m & s4 & Ei & Ec)].
    { apply and_then_ok in Ec as (? & ? & _ & [[=] _]%ret_ok). }
    apply and_then_ok in Ec as (st & s5 & Est & Ec). destruct st; [by run_ok|].
    apply and_then_ok in Ec as ([] & s6 & ->%modify_ok & [_ <-]%ret_ok).
    apply ret_ok in E as [_ <-]. cbn [pending report].
    assert (moves s2 s4) as [M1 M2 M3].
    { pose proof (keeps_run moves _ s2 _ _ (keeps_and_then _ _ _ (import_batch_moves b) (λ a, keeps_ret _ (Some a))) Ei). done. }
    pose proof (keeps_run _ _ _ _ _ (keeps_ask _) Est) as [K1 K2 K3]. split; [congruence|]. intros Hi. exfalso.
    destruct (rolled_back_issues m b (report s5)) as (l & El & Hlen & _). rewrite El, K2, M2, T2, Q2, T4 in *.
    apply (f_equal length) in Hi. rewrite length_app in Hi. simpl in Hlen. rewrite Hlen in Hi. lia.
Qed.

Lemma accounts_one e s s' r : total (report s') = total (report s) + 1 → pathValid (logicalPath e) = Ok tt →
  at_path (package_store s') (logicalPath e) r → sourceStamp r = stamp (entry_identity e) →
  (∀ q r', q ≠ logicalPath e → at_path (package_store s) q r' → at_path (package_store s') q r') →
  pending s' = pending s → handles e s s'.
Proof.
  intros Ht Hv Ha Hs Hk Hp. exists []. split; [by rewrite Hp|]. intros _. split; [done| |].
  - intros x ->%list_elem_of_singleton. split; [done|]. by exists r.
  - intros q r' Hq. apply Hk. intros ->. apply Hq. by left.
Qed.

Lemma package_single_ok e existing supplied current s u s' : reachable (package_store s) →
  current = entry_identity e → (∀ r, existing = Some r → pathValid (logicalPath e) = Ok tt ∧ at_path (package_store s) (logicalPath e) r) →
  package_single (H:=H) W work has_authorship e existing supplied current s = (Ok u, s') → handles e s s'.
Proof.
  intros Hr -> He E. destruct (reachable_good _ _ Hr) as [Hg _]. unfold package_single in E.
  apply and_then_ok in E as (sn & s1 & E1 & E). apply (keeps_run quiet) in E1 as [A1 A2 A3]; [|apply keeps_ask_or_throw].
  apply and_then_ok in E as ([] & s2 & [_ <-]%guard_ok & E).
  apply and_then_ok in E as (document & s2 & E2 & E).
  assert (quiet s1 s2) as [B1 B2 B3] by (eapply keeps_run; [|exact E2]; keeps). clear E2.
  do 3 (apply and_then_ok in E as (? & ? & [= <- <-] & E)).
  destruct existing as [r|]; apply and_then_ok in E as (object & s3 & (E3 & D2 & D3)%operate_ok & E);
    apply and_then_ok in E as ([] & s4 & ->%modify_ok & E);
    apply (keeps_run quiet) in E as [C1 C2 C3]; try apply keeps_ask_or_throw;
    cbn [package_store report pending] in *; rewrite B1, A1 in E3.
  - destruct (He r eq_refl) as [Hv Hold]. eapply reviseFile_paths in E3 as (Hat & Hst & Hk); [|done|exact Hold|done]. rewrite <-C1 in Hat, Hk.
    eapply accounts_one; [rewrite C2, D2, B2, A2; unfold total; simpl; lia|exact Hv|exact Hat|exact Hst|exact Hk|congruence].
  - eapply importFile_paths in E3 as (Hat & Hst & Hv & Hk); [|done]. rewrite <-C1 in Hat, Hk.
    eapply accounts_one; [rewrite C2, D2, B2, A2; unfold total; simpl; lia|exact Hv|exact Hat|exact Hst|by intros q r' _; apply Hk|congruence].
Qed.

Lemma package_entry_ok n e s u s' : reachable (package_store s) →
  package_entry (H:=H) W directory work has_authorship maximum n e s = (Ok u, s') → handles e s s'.
Proof.
  intros Hr E. destruct (reachable_good _ _ Hr) as [Hg _]. unfold package_entry in E.
  apply and_then_ok in E as ([] & s0 & [_ <-]%guard_ok & E).
  apply and_then_ok in E as (current & s1 & E1 & E). apply (keeps_run quiet) in E1 as [A1 A2 A3]; [|apply keeps_ask_or_throw].
  apply and_then_ok in E as ([] & s2 & [Hc <-]%guard_ok & E). apply bool_decide_eq_true in Hc.
  apply and_then_ok in E as (existing & s2 & [= Hl <-] & E).
  assert (∀ r, existing = Some r → pathValid (logicalPath e) = Ok tt ∧ at_path (package_store s1) (logicalPath e) r) as Hex.
  { intros r ->. rewrite A1 in *. by apply lookupPath_at in Hl. }
  apply and_then_ok in E as (supplied & s2 & E2 & E).
  assert (quiet s s2) as [B1 B2 B3].
  { trans s1; [by split|]. eapply keeps_run; [|exact E2]. keeps. }
  assert (package_store s2 = package_store s1) as Es by congruence. clear E2. rewrite <-Es in Hex.
  destruct (unchanged existing supplied current) as [r|] eqn:Eu.
  - unfold note in E. run_ok. unfold ask, query in *. simplify_eq. cbn [package_store report pending] in *.
    match goal with E : ask_or_throw _ _ = _ |- _ => apply (keeps_run quiet) in E as [C1 C2 C3]; [|apply keeps_ask_or_throw] end.
    cbn [package_store report pending] in *. unfold unchanged in Eu. destruct existing as [r'|]; [|done].
    simpl in Eu. destruct (_ && _) eqn:Ea; [|done]. injection Eu as ->. apply andb_true_iff in Ea as [Ea _].
    apply bool_decide_eq_true in Ea. destruct (Hex r eq_refl) as [Hv Hat]. rewrite B1 in Hat.
    eapply (accounts_one e s s' r); rewrite ?C1, ?B1;
      [rewrite C2, B2; unfold total; simpl; lia|done|done|done|by intros|congruence].
  - run_ok. unfold ask in *. simplify_eq. cbn [package_store report pending] in *.
    set (s3 := {| asked := _; package_store := package_store s2; report := _; pending := _ |}) in *.
    assert (handles e s3 s') as (more & Hp & Hh).
    { destruct (_ && _); [apply package_batch_ok in E|apply package_single_ok in E]; try done; cbn; by rewrite B1. }
    exists more. cbn in Hp, Hh. rewrite <-B3, <-B2. split; [done|]. intros Hi. destruct (Hh Hi) as [H1 H2 H3].
    split; [by rewrite <-B2|done|by rewrite <-B1].
Qed.

(** ** Every run advances *)

Lemma took_advance b b' s s' : took b b' s s' → advance s s'.
Proof. intros [E1 E2 (more & E3 & _)]. split; [by rewrite E1|by rewrite E2..|by exists more.*1]. Qed.

Lemma add_done_grows i rv sk r : report_issues r `prefix_of` report_issues (add_done i rv sk r) ∧
  (report_cancelled r = true → report_cancelled (add_done i rv sk r) = true).
Proof. by split. Qed.

Lemma rolled_back_grows m b r : report_issues r `prefix_of` report_issues (rolled_back m b r) ∧
  (report_cancelled r = true → report_cancelled (rolled_back m b r) = true).
Proof. destruct (rolled_back_issues m b r) as (l & -> & _ & ->). split; [by eexists|done]. Qed.

Lemma set_cancelled_grows r : report_issues r `prefix_of` report_issues (set_cancelled r) ∧
  (report_cancelled r = true → report_cancelled (set_cancelled r) = true).
Proof. by split. Qed.

Lemma grow_batch_advance fuel n b : keeps advance (grow_batch (H:=H) W directory has_authorship maximum fuel n b).
Proof. intros s. destruct (grow_batch_took fuel n b s) as (b' & s' & -> & Ht). by eapply took_advance. Qed.

Lemma operate_advance {A} (f : Store → result string A * Store) : (∀ st, rtc step st (f st).2) → keeps advance (operate f).
Proof. intros Hf s. apply moves_advance, moves_operate, Hf. Qed.

Lemma import_batch_advance b : keeps advance (import_batch (H:=H) W work b).
Proof. intros s. apply moves_advance, import_batch_moves. Qed.

#[local] Hint Resolve import_batch_advance grow_batch_advance : keeps.

Ltac advances := repeat first
  [ progress intros
  | solve [auto 2 with keeps nocore]
  | apply keeps_and_then; [apply _| |]
  | apply keeps_catch; [apply _| |]
  | apply keeps_ret, _ | apply keeps_throw, _ | apply keeps_lift, _ | apply keeps_guard, _ | apply keeps_state, _
  | apply keeps_quiet; first [apply keeps_ask | apply keeps_query | apply keeps_ask_or_throw | apply prepare_quiet | apply tell_each_quiet]
  | apply keeps_note; first [apply add_done_grows | apply rolled_back_grows | apply set_cancelled_grows | apply add_issue_grows]
  | apply operate_advance; first [apply importFile_step | apply reviseFile_step]
  | match goal with |- keeps _ (match ?x with _ => _ end) => destruct x end ].

Lemma package_batch_advance n e : keeps advance (package_batch (H:=H) W directory work has_authorship maximum n e).
Proof. unfold package_batch, get_pending, stopped. advances. Qed.

Lemma package_single_advance e existing supplied current :
  keeps advance (package_single (H:=H) W work has_authorship e existing supplied current).
Proof. unfold package_single. advances. Qed.

#[local] Hint Resolve package_batch_advance package_single_advance : keeps.

Lemma package_entry_advance n e : keeps advance (package_entry (H:=H) W directory work has_authorship maximum n e).
Proof.
  unfold package_entry. advances.
Qed.

(** ** The loop *)

Lemma accounts_app l m s s1 s2 : accounts l s s1 → accounts m s1 s2 → NoDup (logicalPath <$> l ++ m) → accounts (l ++ m) s s2.
Proof.
  intros [T1 S1 K1] [T2 S2 K2] Hn. rewrite fmap_app in Hn. apply NoDup_app in Hn as (_ & Hn & _). split.
  - rewrite length_app. lia.
  - intros e [He|He]%elem_of_app; [|by apply S2]. destruct (S1 e He) as (Hv & r & Ha & Hs). split; [done|]. exists r. split; [|done].
    apply K2; [|done]. apply Hn, list_elem_of_fmap_2, He.
  - intros q r Hq Ha. rewrite fmap_app, not_elem_of_app in Hq. apply K2, K1; by try apply Hq.
Qed.

Lemma accounts_from l s s1 s2 : package_store s1 = package_store s → report s1 = report s → accounts l s1 s2 → accounts l s s2.
Proof. intros Q1 Q2 [T1 S1 K1]. rewrite Q1, Q2 in *. by split. Qed.

(** The loop ends without throwing; if it leaves no issue and was not cancelled,
    every entry it had is done. *)
Lemma package_loop_spec fuel n s r s' : reachable (package_store s) → (length (pending s) < fuel)%nat →
  package_loop (H:=H) W directory work has_authorship maximum fuel n s = (r, s') →
  r = Ok tt ∧ advance s s' ∧
  (report_issues (report s') = report_issues (report s) → report_cancelled (report s') = false →
   NoDup (logicalPath <$> pending s) → pending s' = [] ∧ accounts (pending s) s s').
Proof.
  revert s. induction fuel as [|fuel IH]; intros s Hr Hf E; [lia|]. cbn [package_loop] in E.
  unfold and_then at 1, get_pending, and_then at 1, state, ret at 1 in E. destruct (pending s) as [|e rest] eqn:Ep.
  { injection E as <- <-. split_and!; [done..|]. intros _ _ _. split; [done|].
    split; [simpl; lia|by intros e ?%not_elem_of_nil|done]. }
  pose proof (keeps_ask (stops W) s) as Hq. unfold and_then at 1, stopped at 1 in E.
  destruct (ask (stops W) s) as [[b|m] s0] eqn:E0; [|done]. cbn [snd] in Hq. destruct Hq as [Q1 Q2 Q3].
  destruct b.
  { injection E as <- <-. split_and!; [done| |done]. split; cbn; rewrite ?Q1, ?Q2, ?Q3; done. }
  unfold and_then at 1, set_pending, modify in E. set (s1 := {| asked := asked s0 |}) in E.
  assert (advance s s1) as Hs1.
  { split; cbn; [by rewrite Q1|by rewrite Q2..|rewrite Ep; by exists [e]]. }
  assert (reachable (package_store s1)) as Hr1 by (cbn; by rewrite Q1).
  assert (∀ s2, advance s1 s2 → reachable (package_store s2) ∧ (length (pending s2) < fuel)%nat) as Hnext.
  { intros s2 [A1 _ _ (k & A4)]. split; [by eapply reachable_steps|]. cbn in A4. apply (f_equal length) in A4.
    rewrite length_app in A4. simpl in Hf. lia. }
  pose proof (package_entry_advance n e s1) as Ha. unfold and_then at 1, catch in E.
  unfold and_then at 1 in E. destruct (package_entry _ _ _ _ _ n e s1) as [[[]|m] s2] eqn:Ee; cbn [snd] in Ha.
  - destruct (Hnext s2 Ha) as [Hr2 Hf2]. destruct (IH s2 Hr2 Hf2 E) as (-> & Hadv & Hfin).
    split_and!; [done|by do 2 (etrans; [eassumption|])|]. intros Hi Hc Hn. apply package_entry_ok in Ee as (more & Hp & Hcl); [|done].
    assert (report_issues (report s2) = report_issues (report s)) as Hi2.
    { symmetry. apply prefix_length_eq; [etrans; [apply Hs1|apply Ha]|]. rewrite <-Hi. apply prefix_length, Hadv. }
    cbn [pending s1] in Hp. subst rest. rewrite app_comm_cons in Hn |- *.
    destruct Hfin as [Hend Hcl2]; [congruence|done|rewrite fmap_app in Hn; apply NoDup_app in Hn as (_ & _ & Hn); exact Hn|]. split; [done|].
    apply (accounts_from _ _ s1); [by cbn..|].
    by apply (accounts_app _ _ _ s2); [apply Hcl; cbn; congruence| |].
  - pose proof (keeps_ask (stops W) s2) as Hq2. unfold and_then at 1, stopped at 1 in E.
    destruct (ask (stops W) s2) as [[b|m'] s3] eqn:E3; [|done]. cbn [snd] in Hq2.
    assert (advance s1 s3) as Ha3 by (etrans; [exact Ha|by apply quiet_advance]). destruct b.
    + injection E as <- <-. split_and!; [done| |done]. trans s3; [by trans s1|]. by split.
    + unfold and_then at 1, note, modify, ret in E. set (s4 := {| asked := asked s3 |}) in E.
      assert (advance s3 s4) as Ha4 by (split; [done|by eexists|done|done]).
      destruct (Hnext s4) as [Hr4 Hf4]; [by trans s3|]. destruct (IH s4 Hr4 Hf4 E) as (-> & Hadv & _).
      split_and!; [done|trans s4; [trans s3; [by trans s1|done]|done]|]. intros Hi _ _. exfalso.
      pose proof (adv_issues _ _ Hadv) as [l Hl]. cbn [report s4 add_issue report_issues] in Hl.
      pose proof (adv_issues _ _ Ha3) as [l3 Hl3]. cbn [report s1] in Hl3. rewrite Q2 in Hl3.
      rewrite Hl3, Hi in Hl. apply (f_equal length) in Hl. rewrite !length_app in Hl. simpl in Hl. lia.
Qed.
End laws.
