(* ===== verification/ObjectAudit.v ===== *)
(** The audit of a package against the tree it was made of
    (src/Objects/ObjectAudit.cpp): every entry of the inventory is captured again and
    compared with its object, its history, its payload and its index entry, and the
    package holds nothing else. *)
From S2P Require Import Prelude Text Sha256 Table ObjectData ObjectPackage ObjectStore.
From S2P Require Import ObjectSource WorkerPool ObjectBatchRead ObjectInventory Proc ObjectPackager.
Local Open Scope Z_scope.
Local Open Scope proc_scope.

(** ** Data *)

Record ObjectAuditReport := {
  verified : Z;
  audit_issues : list ObjectPackagingIssue;
  audit_cancelled : bool
}.

(** The compact fields of a record. *)
Record AuditCandidate := { candidate : ObjectPackagingEntry; expected : ObjectIndexEntry }.

Definition expected_of (r : ObjectRecord) : ObjectIndexEntry :=
  {| entry_key := key r; entry_indexKey := indexKey r; entry_version := version r; entry_path := path r;
     entry_sha256 := sha256 r; entry_size := size r; entry_validationKey := validationKey r;
     entry_sessionKey := sessionKey r; entry_deleted := deleted r; entry_authorOrigin := origin (author r);
     entry_authorSubject := subject (author r) |}.

#[export] Instance ObjectIndexEntry_eq_dec : EqDecision ObjectIndexEntry.
Proof. solve_decision. Defined.

(** A snapshot as a stream reads it. *)
Record AuditStream := {
  audit_opens : bool;
  audit_bytes : bytes;               (* what the stream delivers until it ends *)
  audit_bad : bool;                  (* it ended by an error *)
  audit_stop : nat → bool            (* the polls of the stop token *)
}.

Record AuditOutside := {
  world : Outside;
  streams : nat → Snapshot → AuditStream;
  audited : nat → ObjectPackagingEntry → bytes → result string unit   (* [progress(...)] *)
}.

Record AuditRun := { audit_asked : nat; audit_report : ObjectAuditReport }.

(** ** Steps *)
Section audit.
Context {H : Type} {hashing : StreamHash H} {sqlite : SqliteJson}.
Context (W : AuditOutside) (st : Store).

(** The loop of [streamingHash]. *)
Fixpoint hash_stream (fuel : nat) (stop : nat → bool) (poll : nat) (rest : bytes) (h : H) : result string H :=
  match fuel with
  | O => Err "unreachable"
  | S fuel =>
      _ ← check (negb (stop poll)) "source audit cancelled";
      let data := take (Z.to_nat chunkBytes) rest in
      h ← hash_update h data;
      if len data <? chunkBytes then Ok h
      else hash_stream fuel stop (S poll) (drop (Z.to_nat chunkBytes) rest) h
  end.

Definition streamingHash (s : AuditStream) : result string bytes :=
  _ ← check (audit_opens s) "cannot read audit snapshot";
  h ← hash_stream (S (length (audit_bytes s))) (audit_stop s) 0 (audit_bytes s) hash_init;
  _ ← check (negb (audit_bad s)) "cannot finish source audit";
  Ok (hash_finish h).

Definition audit_ask {A} (question : nat → A) : proc AuditRun A := λ s,
  (Ok (question (audit_asked s)), {| audit_asked := S (audit_asked s); audit_report := audit_report s |}).
Definition audit_ask_or_throw {A} (question : nat → result string A) : proc AuditRun A :=
  r <- audit_ask question; lift r.
Definition audit_note (f : ObjectAuditReport → ObjectAuditReport) : proc AuditRun unit := modify (λ s,
  {| audit_asked := audit_asked s; audit_report := f (audit_report s) |}).

Definition audit_issue (p : bytes) (m : string) (r : ObjectAuditReport) : ObjectAuditReport :=
  {| verified := verified r; audit_issues := audit_issues r ++ [{| issue_path := p; issue_message := m |}];
     audit_cancelled := audit_cancelled r |}.
Definition set_audit_cancelled (r : ObjectAuditReport) : ObjectAuditReport :=
  {| verified := verified r; audit_issues := audit_issues r; audit_cancelled := true |}.
Definition count_verified (r : ObjectAuditReport) : ObjectAuditReport :=
  {| verified := verified r + 1; audit_issues := audit_issues r; audit_cancelled := audit_cancelled r |}.

(** [stopped()]. *)
Definition audit_stopped : proc AuditRun bool :=
  stop <- audit_ask (stops (world W));
  if (stop : bool) then audit_note set_audit_cancelled;; ret true else ret false.

(** [prepare(entry)]. *)
Definition prepare_candidate (e : ObjectPackagingEntry) : result string AuditCandidate :=
  found ← lookupPath (logicalPath e) st;
  match found with
  | Some r =>
      if bool_decide (sourceStamp r = stamp (entry_identity e)) && (size r =? identity_size (entry_identity e))
         && bool_decide (path r = logicalPath e) && (0 <? indexKey r)
      then Ok {| candidate := e; expected := expected_of r |}
      else Err "missing or stale packaged object"
  | None => Err "missing or stale packaged object"
  end.

Definition source_changed : string := "changed source or corrupt packaged object".

(** [validate(candidate, hash)]. *)
Definition validate_candidate (c : AuditCandidate) (hash : bytes) : proc AuditRun unit :=
  let x := expected c in
  guard (bool_decide (hash = entry_sha256 x)) source_changed;;
  env <- audit_ask (envs (world W));
  ok <- lift (validate_object (H:=H) env (entry_key x) (entry_version x) true st);
  guard ok source_changed;;
  i <- audit_ask_or_throw (λ n, inspect (H:=H) (looks (world W) n (entry_source (candidate c))));
  guard (bool_decide (i = entry_identity (candidate c))) source_changed;;
  head <- lift (lookup (entry_key x) st);
  guard (match head with
         | Some r => (version r =? entry_version x) && bool_decide (validationKey r = entry_validationKey x)
                     && bool_decide (path r = entry_path x) && negb (deleted r)
         | None => false
         end) "object head changed during audit";;
  page <- lift (index (entry_indexKey x - 1) 1 false st);
  guard (bool_decide (page = [x])) "compact object index differs from current head".

(** [publish(candidate)]. *)
Definition publish_candidate (c : AuditCandidate) : proc AuditRun unit :=
  audit_note count_verified;; audit_ask_or_throw (λ n, audited W n (candidate c) (entry_key (expected c))).

(** [single(candidate)]. *)
Definition audit_single (c : AuditCandidate) : proc AuditRun unit :=
  good <- catch
    (s <- audit_ask_or_throw (λ n, capture (H:=H) (captures (world W) n (entry_source (candidate c)))
                                     (Some (entry_identity (candidate c))));
     hash <- audit_ask_or_throw (λ n, streamingHash (streams W n s));
     validate_candidate c hash;; ret true)
    (λ m, stop <- audit_stopped;
          if (stop : bool) then ret false
          else audit_note (audit_issue (logicalPath (candidate c)) m);; ret false);
  if (good : bool) then publish_candidate c else ret tt.

(** A loop that returns the report when it sees the stop token: the result says
    whether the audit goes on. *)
Fixpoint until_stopped {A} (f : A → proc AuditRun unit) (l : list A) : proc AuditRun bool :=
  match l with
  | [] => ret true
  | a :: l =>
      stop <- audit_stopped;
      if (stop : bool) then ret false else f a;; until_stopped f l
  end.

(** The candidates of a batch and the entries after them. *)
Fixpoint gather (entries : list ObjectPackagingEntry) (remaining : Z) (cs : list AuditCandidate) :
    proc AuditRun (option (list AuditCandidate * list ObjectPackagingEntry)) :=
  match entries with
  | [] => ret (Some (cs, []))
  | e :: rest =>
      if negb (len cs <? maximumBatchFiles) then ret (Some (cs, entries)) else
      stop <- audit_stopped;
      if (stop : bool) then ret None else
      if remaining <? identity_size (entry_identity e) then ret (Some (cs, entries)) else
      match prepare_candidate e with
      | Ok c => gather rest (remaining - identity_size (entry_identity e)) (cs ++ [c])
      | Err m => audit_note (audit_issue (logicalPath e) m);; gather rest remaining cs
      end
  end.

Definition audit_request (n : nat) (c : AuditCandidate) : SnapshotRequest :=
  request_of (world W) n (candidate c).

(** The try block that captures and reads a batch. *)
Definition capture_batch (cs : list AuditCandidate) : proc AuditRun (list PreparedObjectSource) :=
  snapshots <- audit_ask_or_throw (λ n,
    capture_in_order (H:=H) (audit_request n <$> cs) (λ m, stops (world W) (n + m)));
  audit_ask_or_throw (λ n, read_in_order (H:=H) (snapshot_reads (world W) n <$> snapshots)).

Definition audit_member (x : AuditCandidate * PreparedObjectSource) : proc AuditRun unit :=
  good <- catch (hash <- lift (hash_run (H:=H) [payload_bytes x.2]); validate_candidate x.1 hash;; ret true)
    (λ m, audit_note (audit_issue (logicalPath (candidate x.1)) m);; ret false);
  if (good : bool) then publish_candidate x.1 else ret tt.

Definition audit_batch (cs : list AuditCandidate) : proc AuditRun bool :=
  if bool_decide (cs = []) then ret true else
  prepared <- catch (xs <- capture_batch cs; ret (Some xs)) (λ _, ret None);
  match prepared with
  | None =>
      stop <- audit_stopped;
      if (stop : bool) then ret false else until_stopped audit_single cs
  | Some xs => until_stopped audit_member (zip cs xs)
  end.

(** The loop over the inventory; every turn takes at least one entry. *)
Fixpoint audit_loop (fuel : nat) (entries : list ObjectPackagingEntry) : proc AuditRun bool :=
  match fuel with
  | O => throw "unreachable"
  | S fuel =>
      match entries with
      | [] => ret true
      | e :: rest =>
          stop <- audit_stopped;
          if (stop : bool) then ret false else
          if maximumBatchBytes <? identity_size (entry_identity e) then
            (match prepare_candidate e with
             | Ok c => audit_single c
             | Err m => audit_note (audit_issue (logicalPath e) m)
             end);; audit_loop fuel rest
          else
            batch <- gather entries maximumBatchBytes [];
            match batch with
            | None => ret false
            | Some (cs, rest) =>
                more <- audit_batch cs;
                if (more : bool) then audit_loop fuel rest else ret false
            end
      end
  end.

(** The loop over the pages of the index: the number of its entries, unless it was
    stopped. *)
Fixpoint count_index (fuel : nat) (cursor indexed : Z) : proc AuditRun (option Z) :=
  match fuel with
  | O => throw "unreachable"
  | S fuel =>
      stop <- audit_stopped;
      if (stop : bool) then ret None else
      page <- lift (index cursor 1024 false st);
      match last page with
      | None => ret (Some indexed)
      | Some x => count_index fuel (entry_indexKey x) (indexed + len page)
      end
  end.

Definition audit_counts (entries : list ObjectPackagingEntry) : proc AuditRun unit :=
  catch
    (indexed <- count_index (S (length (current_index (db st)))) 0 0;
     match indexed with
     | None => ret tt
     | Some indexed =>
         if negb (count false st =? len entries) || negb (indexed =? len entries)
         then audit_note (audit_issue [] "object/index count differs from mapped tree") else ret tt
     end)
    (λ m, audit_note (audit_issue [] m)).

Definition audit_body (entries : list ObjectPackagingEntry) : proc AuditRun unit :=
  more <- audit_loop (S (length entries)) entries;
  if negb more then ret tt else
  stop <- audit_stopped;
  if (stop : bool) then ret tt else audit_counts entries.
End audit.

(** [ObjectPackager::audit]. *)
Definition audit {H} `{hashing : StreamHash H} `{sqlite : SqliteJson} (W : AuditOutside) (staging : Staging)
    (inventory : ObjectInventory) (st : Store) : result string ObjectAuditReport :=
  let fresh := {| verified := 0; audit_issues := inventory_issues inventory; audit_cancelled := false |} in
  if negb (bool_decide (inventory_issues inventory = [])) then Ok fresh else
  _ ← stagingDirectory staging;
  _ ← staging_lease staging;
  match audit_body (H:=H) W st (inventory_entries inventory) {| audit_asked := 0; audit_report := fresh |} with
  | (Ok _, run) => Ok (audit_report run)
  | (Err m, _) => Err m
  end.
