(* ===== verification/AuditLaws.v ===== *)
(** What an audit without issues shows of each entry, and that it ends. *)
From stdpp Require Import relations list.
From S2P Require Import Prelude Json Sha256 Table ObjectData ObjectPackage ObjectStore.
From S2P Require Import ObjectInvariant ObjectReach ObjectSpec ObjectPaths.
From S2P Require Import ObjectSource WorkerPool ObjectBatchRead ObjectInventory Proc ObjectPackager ObjectAudit.
Local Open Scope Z_scope.
Local Open Scope proc_scope.

Section laws.
Context {H : Type} {hashing : StreamHash H} {laws : StreamHashLaws H} {sqlite : SqliteJson}.
Context (W : AuditOutside) (st : Store).

(** A private snapshot reads back as it was written. *)
Record snapshots_read_back : Prop := {
  stream_whole n s : audit_bytes (streams W n s) = payload_file s;
  batch_whole n s : stream (snapshot_reads (world W) n s) = payload_file s;
  batch_size n s i : inspect (H:=H) (seen (snapshot_reads (world W) n s)) = Ok i →
    identity_size i = len (payload_file s)
}.

Context (faithful : snapshots_read_back).

(** ** What every part keeps *)

Record agrows (s s' : AuditRun) : Prop := {
  agr_issues : audit_issues (audit_report s) `prefix_of` audit_issues (audit_report s');
  agr_cancelled : audit_cancelled (audit_report s) = true → audit_cancelled (audit_report s') = true
}.

#[export] Instance agrows_preorder : PreOrder agrows.
Proof. split; [by split|]. intros x y z [] []. split; [by etrans|auto]. Qed.

(** The entry was captured again, and its object at its path has the stamp, the size
    and the hash of what was captured. *)
Definition mirrored (e : ObjectPackagingEntry) : Prop :=
  ∃ r c s, lookupPath (logicalPath e) st = Ok (Some r) ∧
    sourceStamp r = stamp (entry_identity e) ∧ size r = identity_size (entry_identity e) ∧
    capture (H:=H) c (Some (entry_identity e)) = Ok s ∧ (∃ n, c = captures (world W) n (entry_source e)) ∧
    original s = entry_identity e ∧ hash_run (H:=H) [payload_file s] = Ok (sha256 r).

(** The entries were verified, unless an issue or the stop token says otherwise. *)
Definition sound (l : list ObjectPackagingEntry) (s s' : AuditRun) : Prop :=
  agrows s s' ∧
  (audit_issues (audit_report s') = audit_issues (audit_report s) → audit_cancelled (audit_report s') = false →
   verified (audit_report s') = verified (audit_report s) + len l ∧ ∀ e, e ∈ l → mirrored e).

Lemma sound_nil s s' : audit_report s' = audit_report s → sound [] s s'.
Proof.
  intros E. split; [split; by rewrite E|]. rewrite E. intros _ _. split; [simpl; lia|]. by intros e ?%not_elem_of_nil.
Qed.

Lemma sound_app l m s s1 s2 : sound l s s1 → sound m s1 s2 → sound (l ++ m) s s2.
Proof.
  intros [G1 H1] [G2 H2]. split; [by trans s1|]. intros Hi Hc.
  assert (audit_issues (audit_report s1) = audit_issues (audit_report s)) as Hi1.
  { symmetry. apply prefix_length_eq; [apply G1|]. rewrite <-Hi. apply prefix_length, G2. }
  assert (audit_cancelled (audit_report s1) = false) as Hc1.
  { destruct (audit_cancelled (audit_report s1)) eqn:E; [|done]. rewrite (agr_cancelled _ _ G2 E) in Hc. done. }
  destruct (H1 Hi1 Hc1) as [V1 M1], (H2 ltac:(congruence) Hc) as [V2 M2]. rewrite length_app. split; [lia|].
  intros e [?|?]%elem_of_app; auto.
Qed.

(** A part that ends with an issue or with the stop token proves nothing and claims
    nothing. *)
Lemma sound_issue l p m s s' : audit_report s' = audit_issue p m (audit_report s) → sound l s s'.
Proof.
  intros E. split; [split; rewrite E; [by eexists|done]|]. rewrite E. cbn. intros Hi. apply (f_equal length) in Hi.
  rewrite length_app in Hi. simpl in Hi. lia.
Qed.

Lemma sound_stopped l s s' : audit_report s' = set_audit_cancelled (audit_report s) → sound l s s'.
Proof. intros E. split; [split; by rewrite E|]. by rewrite E. Qed.

Lemma sound_from l s s1 s' : audit_report s1 = audit_report s → sound l s1 s' → sound l s s'.
Proof. intros E [[G1 G2] H1]. rewrite E in *. by split. Qed.

(** ** Questions *)

Definition asks (s s' : AuditRun) : Prop := audit_report s' = audit_report s.

#[export] Instance asks_preorder : PreOrder asks.
Proof. split; [done|]. intros x y z E1 E2. unfold asks in *. congruence. Qed.

Lemma keeps_audit_ask {A} (q : nat → A) : keeps asks (audit_ask q).
Proof. by intros s. Qed.

Lemma keeps_audit_ask_or_throw {A} (q : nat → result string A) : keeps asks (audit_ask_or_throw q).
Proof. apply keeps_and_then; [apply _|apply keeps_audit_ask|]. intros r. apply keeps_lift, _. Qed.

Lemma audit_ask_or_throw_ok {A} (q : nat → result string A) s a s' : audit_ask_or_throw q s = (Ok a, s') →
  q (audit_asked s) = Ok a ∧ asks s s'.
Proof.
  intros E. split; [|exact (keeps_run _ _ _ _ _ (keeps_audit_ask_or_throw q) E)].
  unfold audit_ask_or_throw in E. by apply and_then_ok in E as (r & s1 & [= <- <-] & [E _]%lift_ok).
Qed.

Lemma audit_stopped_ok s b s' : audit_stopped W s = (Ok b, s') →
  audit_report s' = if b then set_audit_cancelled (audit_report s) else audit_report s.
Proof.
  unfold audit_stopped, audit_ask, and_then. destruct (stops (world W) (audit_asked s)); unfold audit_note, modify, ret; by intros [= <- <-].
Qed.

Lemma audit_stopped_never s m s' : audit_stopped W s ≠ (Err m, s').
Proof. unfold audit_stopped, audit_ask, and_then. by destruct (stops _ _). Qed.

Lemma validate_candidate_asks c hash : keeps asks (validate_candidate (H:=H) W st c hash).
Proof.
  unfold validate_candidate. repeat first
    [progress intros | apply keeps_and_then; [apply _| |] | apply keeps_guard, _ | apply keeps_lift, _
    |apply keeps_audit_ask | apply keeps_audit_ask_or_throw].
Qed.

(** ** One entry *)

Lemma hash_stream_pieces fuel stop poll rest (h h' : H) : hash_stream fuel stop poll rest h = Ok h' →
  ∃ pieces, concat pieces = rest ∧ fold_res hash_update h pieces = Ok h'.
Proof.
  revert poll rest h. induction fuel as [|fuel IH]; intros poll rest h E; [done|]. cbn [hash_stream] in E.
  apply bind_ok in E as ([] & _ & E). apply bind_ok in E as (h1 & Hh & E). destruct (Z.ltb_spec (len (take (Z.to_nat chunkBytes) rest)) chunkBytes).
  - injection E as <-. exists [rest]. rewrite length_take in *. assert (0 < chunkBytes) by done.
    rewrite take_ge in Hh by lia. simpl. by rewrite app_nil_r, Hh.
  - apply IH in E as (pieces & Hc & Hf). exists (take (Z.to_nat chunkBytes) rest :: pieces). simpl.
    by rewrite Hc, take_drop, Hh.
Qed.

Lemma streamingHash_ok x hash : streamingHash (H:=H) x = Ok hash → hash_run (H:=H) [audit_bytes x] = Ok hash.
Proof.
  unfold streamingHash. intros E. apply bind_ok in E as ([] & _ & E). apply bind_ok in E as (h & Hs & E).
  apply bind_ok in E as ([] & _ & [= <-]). apply hash_stream_pieces in Hs as (pieces & Hc & Hf).
  assert (hash_run (H:=H) pieces = Ok (hash_finish h)) as Hr by (unfold hash_run; by rewrite Hf).
  rewrite hash_run_spec in Hr |- *. simpl. by rewrite app_nil_r, <-Hc.
Qed.

Definition candidate_ok (c : AuditCandidate) : Prop := prepare_candidate st (candidate c) = Ok c.

Lemma prepare_candidate_ok e c : prepare_candidate st e = Ok c → candidate c = e ∧ candidate_ok c.
Proof.
  unfold candidate_ok. intros E. enough (candidate c = e) as He by (by rewrite He).
  unfold prepare_candidate in E. apply bind_ok in E as ([r|] & _ & E); [|done]. by destruct (_ && _); [injection E as <-|].
Qed.

Lemma candidate_mirrored c n sn : candidate_ok c →
  capture (H:=H) (captures (world W) n (entry_source (candidate c))) (Some (entry_identity (candidate c))) = Ok sn →
  hash_run (H:=H) [payload_file sn] = Ok (entry_sha256 (expected c)) → mirrored (candidate c).
Proof.
  unfold candidate_ok, prepare_candidate. intros E Hc Hh. apply bind_ok in E as ([r|] & Hl & E); [|done].
  destruct (_ && _) eqn:Ea; [|done]. rewrite !andb_true_iff, !bool_decide_eq_true, Z.eqb_eq in Ea.
  destruct Ea as [[[Hst Hsz] _] _]. assert (expected c = expected_of r) as Hx by (by injection E as <-). rewrite Hx in Hh.
  exists r, (captures (world W) n (entry_source (candidate c))), sn. split_and!; [done..|by exists n| |done].
  apply capture_spec in Hc as (_ & _ & He & _). by apply He.
Qed.

Lemma publish_sound c s u s' : mirrored (candidate c) → publish_candidate W c s = (Ok u, s') → sound [candidate c] s s'.
Proof.
  intros Hm E. apply and_then_ok in E as ([] & s1 & ->%modify_ok & E).
  apply audit_ask_or_throw_ok in E as [_ E]. unfold asks in E. cbn in E. split; [split; by rewrite E|].
  rewrite E. intros _ _. split; [done|]. by intros e ->%list_elem_of_singleton.
Qed.

Lemma validate_candidate_hash c hash s u s' : validate_candidate (H:=H) W st c hash s = (Ok u, s') →
  hash = entry_sha256 (expected c).
Proof.
  unfold validate_candidate. intros E. by apply and_then_ok in E as ([] & s1 & [Hh%bool_decide_eq_true _]%guard_ok & _).
Qed.

Lemma audit_single_sound c s u s' : candidate_ok c → audit_single (H:=H) W st c s = (Ok u, s') → sound [candidate c] s s'.
Proof.
  intros Hc E. unfold audit_single in E. apply and_then_ok in E as (good & s1 & E1 & E).
  apply catch_ok in E1 as [E1|(m & s2 & E2 & E1)].
  - apply and_then_ok in E1 as (sn & s2 & [Hcap A1]%audit_ask_or_throw_ok & E1).
    apply and_then_ok in E1 as (hash & s3 & [Hs A2]%audit_ask_or_throw_ok & E1).
    apply and_then_ok in E1 as ([] & s4 & Hv & [<- <-]%ret_ok).
    pose proof (keeps_run _ _ _ _ _ (validate_candidate_asks _ _) Hv) as A3. apply validate_candidate_hash in Hv as ->.
    apply (sound_from _ _ s4); [unfold asks in *; congruence|]. apply publish_sound in E; [done|].
    apply streamingHash_ok in Hs. rewrite (stream_whole faithful) in Hs. by eapply candidate_mirrored.
  - assert (audit_report s2 = audit_report s) as A2.
    { refine (keeps_run asks _ s _ _ _ E2). repeat first
        [progress intros | apply keeps_audit_ask_or_throw | apply validate_candidate_asks | apply keeps_ret, _ | apply keeps_and_then; [apply _| |]]. }
    apply (sound_from _ _ s2); [done|]. apply and_then_ok in E1 as (b & s3 & Hst%audit_stopped_ok & E1). destruct b.
    + apply ret_ok in E1 as [<- <-]. apply ret_ok in E as [_ <-]. by apply sound_stopped.
    + apply and_then_ok in E1 as ([] & s4 & ->%modify_ok & [<- <-]%ret_ok). apply ret_ok in E as [_ <-].
      eapply sound_issue. cbn. by rewrite Hst.
Qed.

(** ** Batches *)

Lemma sound_halted l s s' : agrows s s' → audit_cancelled (audit_report s') = true → sound l s s'.
Proof. intros Hg Hc. split; [done|]. congruence. Qed.

Lemma until_stopped_sound {A} (g : A → ObjectPackagingEntry) f l s b s' :
  (∀ a s u s', a ∈ l → f a s = (Ok u, s') → sound [g a] s s') →
  until_stopped W f l s = (Ok b, s') →
  sound (g <$> l) s s' ∧ (b = false → audit_cancelled (audit_report s') = true).
Proof.
  intros Hf. revert s. induction l as [|a l IH]; intros s E; cbn [until_stopped] in E.
  { apply ret_ok in E as [<- <-]. split; [by apply sound_nil|done]. }
  apply and_then_ok in E as (c & s1 & Hs%audit_stopped_ok & E). destruct c.
  - apply ret_ok in E as [<- <-]. split; [by apply sound_stopped|]. by rewrite Hs.
  - apply and_then_ok in E as ([] & s2 & E1 & E). apply Hf in E1; [|by left].
    destruct (IH ltac:(intros; eapply Hf; [by right|done]) _ E) as [H2 Hb]. split; [|done].
    apply (sound_from _ _ s1); [done|]. rewrite fmap_cons. by apply (sound_app [g a] (g <$> l) _ s2).
Qed.

Lemma capture_batch_ok cs s xs s' : capture_batch (H:=H) W cs s = (Ok xs, s') → asks s s' ∧
  Forall2 (λ c x, ∃ n sn, payload_bytes x = payload_file sn ∧
    capture (H:=H) (captures (world W) n (entry_source (candidate c))) (Some (entry_identity (candidate c))) = Ok sn) cs xs.
Proof.
  intros E. apply and_then_ok in E as (sns & s1 & [Hcap A1]%audit_ask_or_throw_ok & E).
  apply audit_ask_or_throw_ok in E as [Hread A2]. split; [by trans s1|].
  set (n := audit_asked s) in *. pose proof (captured_length_of _ _ _ Hcap) as Hl.
  unfold capture_in_order in Hcap. apply bind_ok in Hcap as (u1 & _ & Hcap). apply bind_ok in Hcap as (ys & Ho & Hcap).
  apply bind_ok in Hcap as (u2 & _ & [= ->]). apply in_order_ok in Ho.
  apply read_in_order_ok in Hread as (Hall & _ & _).
  pose proof (Forall2_length _ _ _ Hall) as Hlx. rewrite length_fmap in Hl. rewrite length_fmap in Hlx.
  apply Forall2_same_length_lookup. split; [lia|]. intros i c x Hc Hx.
  destruct (lookup_lt_is_Some_2 sns i) as [sn Hsn]; [rewrite Hl; by eapply lookup_lt_Some|]. exists n, sn.
  assert (capture_job (H:=H) (audit_request W n <$> cs) i = Ok sn) as Hjob.
  { eapply (Forall2_lookup_lr _ _ _ i i sn Ho); [|done]. apply lookup_seq.
    rewrite length_fmap. split; [done|by eapply lookup_lt_Some]. }
  unfold capture_job in Hjob. rewrite list_lookup_fmap, Hc in Hjob. cbn [fmap option_fmap option_map] in Hjob.
  unfold capture_one in Hjob. apply bind_ok in Hjob as (? & _ & Hjob). apply bind_ok in Hjob as (? & _ & Hjob).
  apply bind_ok in Hjob as (? & _ & Hjob). apply bind_ok in Hjob as (sn' & Hcap & Hjob). apply bind_ok in Hjob as (? & _ & [= ->]).
  split; [|exact Hcap].
  pose proof (Forall2_lookup_lr _ _ _ i (snapshot_reads (world W) (audit_asked s1) sn) x Hall) as (Hs & _ & -> & _);
    [by rewrite list_lookup_fmap, Hsn|done|].
  rewrite (batch_size faithful _ _ _ Hs), (batch_whole faithful). apply take_ge. lia.
Qed.

Lemma audit_member_sound c x s u s' : candidate_ok c →
  (∃ n sn, payload_bytes x = payload_file sn ∧
    capture (H:=H) (captures (world W) n (entry_source (candidate c))) (Some (entry_identity (candidate c))) = Ok sn) →
  audit_member (H:=H) W st (c, x) s = (Ok u, s') → sound [candidate c] s s'.
Proof.
  intros Hc (n & sn & Hp & Hcap) E. unfold audit_member in E. cbn [fst snd] in E.
  apply and_then_ok in E as (good & s1 & E1 & E). apply catch_ok in E1 as [E1|(m & s2 & E2 & E1)].
  - apply and_then_ok in E1 as (hash & s2 & [Hh <-]%lift_ok & E1). apply and_then_ok in E1 as ([] & s3 & Hv & [<- <-]%ret_ok).
    pose proof (keeps_run _ _ _ _ _ (validate_candidate_asks _ _) Hv) as A3. apply validate_candidate_hash in Hv as ->.
    apply (sound_from _ _ s3); [done|]. apply publish_sound in E; [done|]. rewrite Hp in Hh. by eapply candidate_mirrored.
  - assert (audit_report s2 = audit_report s) as A2.
    { refine (keeps_run asks _ s _ _ _ E2). repeat first
        [progress intros | apply validate_candidate_asks | apply keeps_lift, _ | apply keeps_ret, _ | apply keeps_and_then; [apply _| |]]. }
    apply and_then_ok in E1 as ([] & s4 & ->%modify_ok & [<- <-]%ret_ok). apply ret_ok in E as [_ <-].
    eapply sound_issue. cbn. by rewrite A2.
Qed.

Lemma audit_batch_sound cs s b s' : Forall candidate_ok cs → audit_batch (H:=H) W st cs s = (Ok b, s') →
  sound (candidate <$> cs) s s' ∧ (b = false → audit_cancelled (audit_report s') = true).
Proof.
  intros Hcs E. rewrite Forall_forall in Hcs. unfold audit_batch in E. case_bool_decide as Hn.
  { apply ret_ok in E as [<- <-]. subst cs. split; [by apply sound_nil|done]. }
  apply and_then_ok in E as ([xs|] & s1 & E1 & E).
  - apply catch_ok in E1 as [E1|(m & s2 & _ & E1)]; [|by run_ok].
    apply and_then_ok in E1 as (xs' & s2 & [A1 Hall]%capture_batch_ok & [[= ->] <-]%ret_ok).
    apply (until_stopped_sound (λ x, candidate x.1)) in E as [Hs Hb].
    + split; [|done]. apply (sound_from _ _ s2); [done|].
      assert ((λ x : AuditCandidate * PreparedObjectSource, candidate x.1) <$> zip cs xs = candidate <$> cs) as <-; [|done].
      apply Forall2_length in Hall. change (λ x : AuditCandidate * PreparedObjectSource, candidate x.1) with (candidate ∘ fst (B:=PreparedObjectSource)).
      rewrite list_fmap_compose, fst_zip by lia. done.
    + intros [c x] s3 u s4 Hin E3. cbn [fst]. apply list_elem_of_lookup in Hin as [i Hi].
      apply lookup_zip_with_Some in Hi as (c' & x' & [= -> ->] & Hc & Hx).
      eapply audit_member_sound; [by eapply Hcs, list_elem_of_lookup_2| |exact E3].
      exact (Forall2_lookup_lr _ _ _ _ _ _ Hall Hc Hx).
  - apply catch_ok in E1 as [E1|(m & s2 & E2 & [_ <-]%ret_ok)]; [by run_ok|].
    assert (audit_report s2 = audit_report s) as A2.
    { refine (keeps_run asks _ s _ _ _ E2). repeat first
        [progress intros | apply keeps_audit_ask_or_throw | apply keeps_ret, _ | apply keeps_and_then; [apply _| |]]. }
    apply and_then_ok in E as (c & s3 & Hs%audit_stopped_ok & E). destruct c.
    + apply ret_ok in E as [<- <-]. rewrite A2 in Hs. split; [by apply sound_stopped|]. by rewrite Hs.
    + apply (until_stopped_sound candidate) in E as [Hsd Hb].
      * split; [|done]. apply (sound_from _ _ s3); [congruence|done].
      * intros c s4 u s5 Hin. by apply audit_single_sound, Hcs.
Qed.

(** ** The loop *)

(** What [gather] took: the candidates of the entries that have one, an issue for
    each of the others. *)
Record gathered (taken : list ObjectPackagingEntry) (new : list AuditCandidate) (s s' : AuditRun) : Prop := {
  gat_ok : Forall candidate_ok new;
  gat_grows : agrows s s';
  gat_verified : verified (audit_report s') = verified (audit_report s);
  gat_all : audit_issues (audit_report s') = audit_issues (audit_report s) → candidate <$> new = taken
}.

Lemma gathered_nil s s' : audit_report s' = audit_report s → gathered [] [] s s'.
Proof. intros E. split; [done|split; by rewrite E|by rewrite E|done]. Qed.

Lemma gather_ok entries remaining cs s o s' : gather W st entries remaining cs s = (Ok o, s') →
  match o with
  | None => agrows s s' ∧ audit_cancelled (audit_report s') = true
  | Some (cs', rest) => ∃ taken new, entries = taken ++ rest ∧ cs' = cs ++ new ∧ gathered taken new s s'
  end.
Proof.
  revert remaining cs s. induction entries as [|e entries IH]; intros remaining cs s E; cbn [gather] in E.
  { apply ret_ok in E as [<- <-]. exists [], []. split_and!; [done|by rewrite app_nil_r|by apply gathered_nil]. }
  destruct (negb _).
  { apply ret_ok in E as [<- <-]. exists [], []. split_and!; [done|by rewrite app_nil_r|by apply gathered_nil]. }
  apply and_then_ok in E as (c & s1 & Hs%audit_stopped_ok & E). destruct c.
  { apply ret_ok in E as [<- <-]. rewrite Hs. split; [split; by rewrite Hs|done]. }
  destruct (_ <? _).
  { apply ret_ok in E as [<- <-]. exists [], []. split_and!; [done|by rewrite app_nil_r|by apply gathered_nil]. }
  destruct (prepare_candidate st e) as [c|m] eqn:Ep.
  - apply IH in E. destruct o as [[cs' rest]|].
    + destruct E as (taken & new & -> & -> & [G1 [I1 C1] G3 G4]). apply prepare_candidate_ok in Ep as [He Hc].
      exists (e :: taken), (c :: new). rewrite <-app_assoc. split_and!; [done..|]. rewrite Hs in *.
      split; [by constructor|by split|congruence|]. intros Hi. by rewrite fmap_cons, He, G4.
    + destruct E as [[G1 G2] Hc]. rewrite Hs in *. by split.
  - apply and_then_ok in E as ([] & s2 & ->%modify_ok & E). apply IH in E. cbn [audit_report] in E.
    set (s2 := {| audit_asked := _; audit_report := _ |}) in E.
    assert (agrows s s2) as Hg by (split; cbn; rewrite Hs; [by eexists|done]). destruct o as [[cs' rest]|].
    + destruct E as (taken & new & -> & -> & [G1 G2 G3 G4]). exists (e :: taken), new. split_and!; [done..|].
      split; [done|by trans s2|by rewrite G3; cbn; rewrite Hs|].
      intros Hi. exfalso. destruct (agr_issues _ _ G2) as [l Hl]. cbn in Hl. rewrite Hi, Hs in Hl. apply (f_equal length) in Hl. rewrite !length_app in Hl. simpl in Hl. lia.
    + destruct E as [G2 Hc]. split; [by trans s2|done].
Qed.

Lemma sound_gathered taken new s s1 s2 : gathered taken new s s1 → sound (candidate <$> new) s1 s2 → sound taken s s2.
Proof.
  intros [_ G2 G3 G4] [S1 S2]. split; [by trans s1|]. intros Hi Hc.
  assert (audit_issues (audit_report s1) = audit_issues (audit_report s)) as Hi1.
  { symmetry. apply prefix_length_eq; [apply G2|]. rewrite <-Hi. apply prefix_length, S1. }
  rewrite (G4 Hi1), G3 in S2. by apply S2; [congruence|].
Qed.

Lemma audit_loop_sound fuel entries s b s' : audit_loop (H:=H) W st fuel entries s = (Ok b, s') →
  sound entries s s' ∧ (b = false → audit_cancelled (audit_report s') = true).
Proof.
  revert entries s. induction fuel as [|fuel IH]; intros entries s E; [done|]. cbn [audit_loop] in E.
  destruct entries as [|e rest]. { apply ret_ok in E as [<- <-]. split; [by apply sound_nil|done]. }
  apply and_then_ok in E as (c & s1 & Hs%audit_stopped_ok & E). destruct c.
  { apply ret_ok in E as [<- <-]. split; [by apply sound_stopped|]. by rewrite Hs. }
  cut (sound (e :: rest) s1 s' ∧ (b = false → audit_cancelled (audit_report s') = true)).
  { intros [Hl Hb]. split; [by apply (sound_from _ _ s1)|done]. }
  destruct (_ <? _).
  - apply and_then_ok in E as ([] & s2 & E1 & E). apply IH in E as [Hr Hb]. split; [|done].
    apply (sound_app [e] rest _ s2); [|done]. destruct (prepare_candidate st e) as [x|m] eqn:Ep.
    + apply prepare_candidate_ok in Ep as [<- Hx]. by apply audit_single_sound in E1.
    + apply modify_ok in E1 as ->. by eapply sound_issue.
  - apply and_then_ok in E as (o & s2 & Hgat%gather_ok & E). destruct o as [[cs rest']|].
    2: { apply ret_ok in E as [<- <-]. destruct Hgat as [Hg Hc]. split; [by apply sound_halted|done]. }
    destruct Hgat as (taken & new & -> & -> & Hgat). cbn [app] in E.
    apply and_then_ok in E as (more & s3 & E1 & E). apply audit_batch_sound in E1 as [H1 H1c]; [|apply Hgat].
    pose proof (sound_gathered _ _ _ _ _ Hgat H1) as H2. destruct more.
    + apply IH in E as [Hr Hb]. split; [by apply (sound_app _ _ _ s3)|done].
    + apply ret_ok in E as [<- <-]. split; [apply sound_halted; [apply H2|by apply H1c]|intros _; by apply H1c].
Qed.

(** ** The counts *)

Lemma count_index_ok fuel cursor indexed s o s' : count_index W st fuel cursor indexed s = (Ok o, s') →
  match o with
  | None => agrows s s' ∧ audit_cancelled (audit_report s') = true
  | Some _ => audit_report s' = audit_report s
  end.
Proof.
  revert cursor indexed s. induction fuel as [|fuel IH]; intros cursor indexed s E; [done|]. cbn [count_index] in E.
  apply and_then_ok in E as (c & s1 & Hs%audit_stopped_ok & E). destruct c.
  { apply ret_ok in E as [<- <-]. rewrite Hs. split; [split; by rewrite Hs|done]. }
  apply and_then_ok in E as (page & s2 & [_ <-]%lift_ok & E). destruct (last page) as [x|].
  - apply IH in E. destruct o; [congruence|]. destruct E as [[G1 G2] Hc]. rewrite Hs in *. by split.
  - by apply ret_ok in E as [<- <-].
Qed.

Lemma audit_stopped_grows : keeps agrows (audit_stopped W).
Proof. intros s. unfold audit_stopped, audit_ask, and_then. by destruct (stops _ _). Qed.

Lemma count_index_grows fuel cursor indexed : keeps agrows (count_index W st fuel cursor indexed).
Proof.
  revert cursor indexed. induction fuel as [|fuel IH]; intros cursor indexed; cbn [count_index]; [apply keeps_throw, _|].
  apply keeps_and_then; [apply _|apply audit_stopped_grows|]. intros []; [apply keeps_ret, _|].
  apply keeps_and_then; [apply _|apply keeps_lift, _|]. intros page. destruct (last page); [apply IH|apply keeps_ret, _].
Qed.

Lemma audit_issue_differs p m s s1 s2 : agrows s s1 → audit_report s2 = audit_issue p m (audit_report s1) →
  agrows s s2 ∧ audit_issues (audit_report s2) ≠ audit_issues (audit_report s).
Proof.
  intros [[l I1] C1] E. rewrite E. split.
  - split; rewrite E; [|exact C1]. cbn. rewrite I1, <-app_assoc. by eexists.
  - cbn. rewrite I1, <-app_assoc. intros Hi. apply (f_equal length) in Hi. rewrite !length_app in Hi. simpl in Hi. lia.
Qed.

Lemma audit_body_sound entries s u s' : audit_body (H:=H) W st entries s = (Ok u, s') →
  sound entries s s' ∧
  (audit_issues (audit_report s') = audit_issues (audit_report s) → audit_cancelled (audit_report s') = false →
   count false st = len entries).
Proof.
  intros E. unfold audit_body in E. apply and_then_ok in E as (more & s1 & [H1 H1c]%audit_loop_sound & E).
  destruct more; simpl in E.
  2: { apply ret_ok in E as [_ <-]. specialize (H1c eq_refl). split; [done|congruence]. }
  apply and_then_ok in E as (c & s2 & Hs%audit_stopped_ok & E). destruct c.
  { apply ret_ok in E as [_ <-]. split; [|by rewrite Hs]. rewrite <-(app_nil_r entries).
    by apply (sound_app _ [] _ s1), sound_stopped. }
  enough (sound [] s2 s' ∧ (audit_issues (audit_report s') = audit_issues (audit_report s2) →
    audit_cancelled (audit_report s') = false → count false st = len entries)) as [H2 Hcount].
  { split; [rewrite <-(app_nil_r entries); apply (sound_app _ [] _ s1); [done|by apply (sound_from _ _ s2)]|].
    intros Hi Hc. apply Hcount; [|done]. symmetry. apply prefix_length_eq; [apply H2|]. rewrite Hi, Hs. apply prefix_length, H1. }
  unfold audit_counts in E. apply catch_ok in E as [E|(m & s3 & E1 & E)].
  - apply and_then_ok in E as (o & s3 & Ho%count_index_ok & E). destruct o as [n|].
    + destruct (negb _ || _) eqn:En.
      * apply modify_ok in E as ->. rewrite <-Ho. split; [by eapply sound_issue; cbn; rewrite Ho|]. cbn. intros Hi. exfalso.
        apply (f_equal length) in Hi. rewrite length_app in Hi. simpl in Hi. lia.
      * apply ret_ok in E as [_ <-]. split; [by apply sound_nil|]. intros _ _.
        apply orb_false_iff in En as [En _]. by apply negb_false_iff, Z.eqb_eq in En.
    + apply ret_ok in E as [_ <-]. destruct Ho as [Hg Hc]. split; [by apply sound_halted|congruence].
  - assert (agrows s2 s3) as Hg.
    { refine (keeps_run agrows _ s2 _ _ _ E1). apply keeps_and_then; [apply _|apply count_index_grows|].
      intros [n|]; [destruct (_ || _); [apply keeps_modify; intros; by split; [eexists|]|]|]; apply keeps_ret, _. }
    apply modify_ok in E. assert (audit_report s' = audit_issue [] m (audit_report s3)) as Hs' by (by rewrite E).
    destruct (audit_issue_differs [] m _ _ _ Hg Hs') as [Hg' Hi]. split; [|done]. by split.
Qed.

(** ** The audit ends

    It throws only what [progress] throws. *)
Context (quiet_progress : ∀ n e k, audited W n e k = Ok tt).

Lemma audit_stopped_ends : ends (audit_stopped W).
Proof. intros s. unfold audit_stopped, audit_ask, and_then. destruct (stops _ _); by eexists _, _. Qed.

Lemma publish_ends c : ends (publish_candidate W c).
Proof. intros s. eexists _, _. unfold publish_candidate, audit_ask_or_throw, audit_ask, audit_note, and_then, modify, lift. by rewrite quiet_progress. Qed.

#[local] Hint Resolve audit_stopped_ends publish_ends : ends.

Ltac ends := repeat first
  [ progress intros | solve [auto with ends nocore] | apply ends_catch | apply ends_and_then
  | match goal with |- ends (if ?b then _ else _) => destruct b end ].

Lemma audit_single_ends c : ends (audit_single (H:=H) W st c).
Proof. unfold audit_single, audit_note. ends. Qed.

Lemma audit_member_ends x : ends (audit_member (H:=H) W st x).
Proof. unfold audit_member, audit_note. ends. Qed.

Lemma until_stopped_ends {A} (f : A → proc AuditRun unit) l : (∀ a, ends (f a)) → ends (until_stopped W f l).
Proof. intros Hf. induction l as [|a l IH]; cbn [until_stopped]; ends. Qed.

Lemma audit_batch_ends cs : ends (audit_batch (H:=H) W st cs).
Proof.
  unfold audit_batch. case_bool_decide; [ends|]. apply ends_and_then; [ends|]. intros [xs|].
  - apply until_stopped_ends, audit_member_ends.
  - ends. apply until_stopped_ends, audit_single_ends.
Qed.

Lemma gather_ends entries remaining cs : ends (gather W st entries remaining cs).
Proof.
  revert remaining cs. induction entries as [|e entries IH]; intros remaining cs; cbn [gather]; [ends|].
  destruct (negb _); [ends|]. apply ends_and_then; [ends|]. intros []; [ends|]. destruct (_ <? _); [ends|].
  destruct (prepare_candidate st e); [apply IH|]. apply ends_and_then; [apply ends_modify|]. intros _. apply IH.
Qed.

(** A turn with a small entry takes it. *)
Lemma gather_takes e rest s cs' rest' s' : identity_size (entry_identity e) <= maximumBatchBytes →
  gather W st (e :: rest) maximumBatchBytes [] s = (Ok (Some (cs', rest')), s') → (length rest' <= length rest)%nat.
Proof.
  intros He E. cbn [gather] in E. change (negb (len [] <? maximumBatchFiles)) with false in E.
  apply and_then_ok in E as (c & s1 & _ & E). destruct c; [by run_ok|].
  rewrite (proj2 (Z.ltb_ge _ _) He) in E.
  assert (∃ r cs s2, gather W st rest r cs s2 = (Ok (Some (cs', rest')), s')) as (r & cs & s2 & E2).
  { destruct (prepare_candidate st e); [by eauto|]. apply and_then_ok in E as (? & ? & _ & E). by eauto. }
  apply gather_ok in E2 as (taken & new & -> & _). rewrite length_app. lia.
Qed.

Lemma audit_loop_ends fuel entries : (length entries < fuel)%nat → ends (audit_loop (H:=H) W st fuel entries).
Proof.
  revert entries. induction fuel as [|fuel IH]; intros entries Hf; [lia|]. cbn [audit_loop].
  destruct entries as [|e rest]; [ends|]. simpl in Hf. apply ends_and_then; [ends|]. intros []; [ends|].
  destruct (Z.ltb_spec maximumBatchBytes (identity_size (entry_identity e))).
  - apply ends_and_then; [|intros _; apply IH; lia].
    destruct (prepare_candidate st e); [apply audit_single_ends|apply ends_modify].
  - intros s. unfold and_then at 1. destruct (gather_ends (e :: rest) maximumBatchBytes [] s) as (o & s1 & E). rewrite E.
    destruct o as [[cs rest']|]; [|by eexists _, _]. apply gather_takes in E; [|done].
    apply ends_and_then; [apply audit_batch_ends|]. intros []; [apply IH; lia|ends].
Qed.

(** The rows of the index that follow a cursor. *)
Definition index_after (cursor : Z) : table ObjectIndexEntry :=
  filter (λ r, cursor < r.1 ∧ negb (entry_deleted r.2)) (current_index (db st)).

Lemma count_index_ends fuel cursor indexed s : good (H:=H) st → 0 <= cursor → (length (index_after cursor) < fuel)%nat →
  ∃ o s', count_index W st fuel cursor indexed s = (Ok o, s') ∧
    ∀ n, o = Some n → n = indexed + len (index_after cursor).
Proof.
  intros Hg. pose proof (good_wf _ Hg) as Hw. revert cursor indexed s.
  induction fuel as [|fuel IH]; intros cursor indexed s Hc Hf; [lia|]. cbn [count_index]. unfold and_then at 1.
  destruct (audit_stopped_ends s) as ([] & s1 & ->); [by eexists None, _|]. unfold and_then, lift, index, page.
  rewrite (proj2 (Z.ltb_ge _ _) Hc). cbn [orb Z.eqb negb check mbind result_bind orb].
  change (10000 <? 1024) with false. cbn [negb check mbind result_bind]. fold (index_after cursor).
  set (rows := take (Z.to_nat 1024) (index_after cursor)). rewrite fmap_last.
  destruct (last rows) as [r|] eqn:El; cbn [fmap option_fmap option_map].
  - assert (r ∈ index_after cursor) as Hr.
    { apply last_Some in El as [l El]. rewrite <-(take_drop (Z.to_nat 1024) (index_after cursor)). fold rows. rewrite El.
      apply elem_of_app. left. apply elem_of_app. right. by left. }
    apply list_elem_of_filter in Hr as [[Hr _] Hin]. destruct r as [i x].
    destruct (wf_index_row _ _ Hw _ _ Hin) as (o & row & _ & _ & ->).
    change (entry_indexKey ((read_entry ∘ snd) (i, index_entry i o row))) with i. cbn [fst] in Hr.
    assert (index_after i = drop (Z.to_nat 1024) (index_after cursor)) as Hnext.
    { apply (page_rest (λ x, negb (entry_deleted x)) cursor _ _ _ (wf_index _ _ Hw) El). }
    assert (0 < length (index_after cursor))%nat as Hpos.
    { unfold rows in El. destruct (index_after cursor); [by rewrite take_nil in El|simpl; lia]. }
    destruct (IH i (indexed + len (read_entry ∘ snd <$> rows)) s1) as (o' & s' & E & Ho); [lia| |].
    { rewrite Hnext, length_drop. lia. }
    exists o', s'. split; [exact E|]. intros n Hn. rewrite (Ho n Hn), Hnext, length_drop, length_fmap. unfold rows.
    rewrite length_take. lia.
  - exists (Some indexed), s1. split; [done|]. intros n [= <-]. apply last_None in El. unfold rows in El.
    destruct (index_after cursor); [simpl; lia|done].
Qed.

Lemma audit_counts_ends entries : good (H:=H) st → ends (audit_counts W st entries).
Proof. intros _. unfold audit_counts, audit_note. ends. Qed.

Lemma audit_body_ends entries : good (H:=H) st → ends (audit_body (H:=H) W st entries).
Proof.
  intros Hg. unfold audit_body. apply ends_and_then; [apply audit_loop_ends; lia|]. intros []; cbn [negb]; [|ends].
  apply ends_and_then; [ends|]. intros []; [ends|by apply audit_counts_ends].
Qed.
End laws.
