(* ===== verification/PackagerProperties.v ===== *)
(** The correctness of the package pipeline: inventory, packaging and audit, and the
    worker threads they use. *)
From stdpp Require Import relations list.
From S2P Require Import Prelude Json Sha256 Table ObjectData ObjectPackage ObjectStore.
From S2P Require Import ObjectInvariant ObjectSteps ObjectReach ObjectSpec ObjectPaths ObjectProperties.
From S2P Require Import ObjectSource WorkerPool ObjectBatchRead ObjectInventory Proc ObjectPackager PackagerLaws.
From S2P Require Import ObjectAudit AuditLaws.
Local Open Scope Z_scope.

Section properties.
Context {H : Type} {hashing : StreamHash H} {laws : StreamHashLaws H} {sqlite : SqliteJson}.
Context (json_parse : bytes → option json).

Abbreviation step := (step (H:=H) json_parse).
Abbreviation reachable := (reachable (H:=H) json_parse).

(** C30 Threads do not matter.  However the workers of a batch interleave, they stop
    after a bounded number of steps, and what the batch returns is what one thread
    working through the files in order returns: the same items when it succeeds, and
    an error exactly when that one fails.  The inventory, whose workers never fail,
    returns the same result in every case. *)
Theorem threads_do_not_matter requested hardware :
  (∀ files, (∃ r, readObjectBatch (H:=H) requested hardware files r) ∧
     ∀ r, readObjectBatch (H:=H) requested hardware files r →
       match r with
       | Ok xs => read_in_order (H:=H) files = Ok xs
       | Err _ => is_ok (read_in_order (H:=H) files) = false
       end) ∧
  (∀ requests stop, (∃ r, ObjectSnapshotBatch (H:=H) requested hardware requests stop r) ∧
     ∀ r, ObjectSnapshotBatch (H:=H) requested hardware requests stop r →
       match r with
       | Ok xs => capture_in_order (H:=H) requests stop = Ok xs
       | Err _ => is_ok (capture_in_order (H:=H) requests stop) = false
       end) ∧
  (∀ mappings stop stopped_after looks r,
     inventory (H:=H) mappings stop stopped_after requested hardware looks r ↔
     r = inventory_in_order (H:=H) mappings stop stopped_after looks) ∧
  (∀ A (job : nat → result string A) n k m p,
     nsteps (pool_step (job_rel job) n) m (start k) p → (m <= 4 * n + 2 * k)%nat).
Proof.
  split_and!.
  - intros files. apply readObjectBatch_alone.
  - intros requests stop. apply ObjectSnapshotBatch_alone.
  - intros. apply inventory_alone.
  - intros A job n k m p Hs. apply steps_bounded in Hs. rewrite start_work in Hs. lia.
Qed.

(** C31 An inventory without issues is exact: its entries are, in the order of their
    logical paths, the regular files of the mapped trees that no rule leaves out,
    each with the identity its inspection showed, and the total is the sum of their
    sizes without overflow. *)
Theorem inventory_is_exact mappings stop stopped_after requested hardware looks inv :
  inventory (H:=H) mappings stop stopped_after requested hardware looks (Ok inv) →
  inventory_issues inv = [] →
  (∀ p, inspect (H:=H) (looks p) ≠ Err EmptyString) →
  StronglySorted entry_le (inventory_entries inv) ∧
  (∀ e, e ∈ inventory_entries inv ↔ ∃ y rel, y ∈ mappings ∧ shown (mapping y) [] (contents y) rel ∧
     logicalPath e = logical (mapping y) rel ∧ entry_source e = root (mapping y) ++ rel ∧
     inspect (H:=H) (looks (entry_source e)) = Ok (entry_identity e)) ∧
  totalBytes inv <= UINT64_MAX ∧
  ∃ l, Permutation l (inventory_entries inv) ∧
    totalBytes inv = foldl Z.add 0 (identity_size ∘ entry_identity <$> l).
Proof. intros E%inventory_alone Hno Hm. symmetry in E. exact (inventory_spec _ _ _ _ _ E Hno Hm). Qed.

Lemma package_steps W staging directory inv work has_authorship maximum st r st' : reachable st →
  package (H:=H) W staging directory inv work has_authorship maximum st = (r, st') → rtc step st st'.
Proof.
  intros Hr E. unfold package in E. destruct (_ || _); [by injection E as <- <-|].
  case_bool_decide; cbn [negb] in E; [|by injection E as <- <-]. destruct (_ ≫= _) as [s|m]; [|by injection E as <- <-].
  destruct (package_loop _ _ _ _ _ _ _ _) as [r1 run] eqn:El.
  apply (package_loop_spec json_parse) in El as (-> & [Hs _ _ _] & _); [|done|cbn; lia]. by injection E as <- <-.
Qed.

(** C9 Packaging is complete and safe.  It always ends; it moves the store only by
    the store's own operations, and an error it throws comes before any of them.  A
    report without issues that was not cancelled accounts for every entry: each is
    afterwards the live object at its logical path with the stamp of its source, and
    no other live object was touched. *)
Theorem package_is_complete W staging directory inv work has_authorship maximum st r st' :
  reachable st → NoDup (logicalPath <$> inventory_entries inv) →
  package (H:=H) W staging directory inv work has_authorship maximum st = (r, st') →
  rtc step st st' ∧ (is_ok r = false → st' = st) ∧
  ∀ rep, r = Ok rep → report_issues rep = [] → report_cancelled rep = false →
    report_imported rep + report_revised rep + report_skipped rep = len (inventory_entries inv) ∧
    (∀ e, e ∈ inventory_entries inv → ∃ o, lookupPath (logicalPath e) st' = Ok (Some o) ∧
       sourceStamp o = stamp (entry_identity e)) ∧
    (∀ q o, q ∉ logicalPath <$> inventory_entries inv →
       lookupPath q st = Ok (Some o) → lookupPath q st' = Ok (Some o)).
Proof.
  intros Hr Hn E. pose proof (package_steps _ _ _ _ _ _ _ _ _ _ Hr E) as Hs. split; [done|]. unfold package in E.
  destruct (_ || _); [by injection E as <- <-|].
  case_bool_decide as Hi; cbn [negb] in E; [|injection E as <- <-; split; [done|]; intros rep [= <-] Hno; destruct (Hi Hno)].
  destruct (_ ≫= _) as [s|m]; [|by injection E as <- <-].
  destruct (package_loop _ _ _ _ _ _ _ _) as [r1 run] eqn:El.
  apply (package_loop_spec json_parse) in El as (-> & _ & Hdone); [|done|cbn; lia].
  cbn [package_store report pending report_issues] in *. injection E as <- <-. split; [done|].
  intros rep [= <-] Hno Hc. destruct (Hdone ltac:(congruence) Hc Hn) as [_ [Ht Hst Hk]].
  cbn [package_store report pending] in *. destruct (reachable_good _ _ Hr) as [Hg _].
  destruct (reachable_good _ _ (reachable_steps _ _ _ Hr Hs)) as [Hg' _]. split_and!.
  - unfold total in Ht. simpl in Ht. lia.
  - intros e He. destruct (Hst e He) as (Hv & o & Ho & Hs'). exists o. split; [|done]. by apply lookupPath_at.
  - intros q o Hq [Hv Ho]%lookupPath_at; [|done]. apply lookupPath_at; [done|]. split; [done|]. by apply Hk.
Qed.

(** As many entries as live objects, each at the path of one: every live object is at
    the path of an entry. *)
Lemma entries_cover st (ps : list bytes) : good (H:=H) st → NoDup ps →
  (∀ p, p ∈ ps → ∃ r, at_path st p r) → count false st = len ps →
  ∀ p r, at_path st p r → p ∈ ps.
Proof.
  intros Hg Hn Hall Hc. pose proof (good_wf _ Hg) as Hw.
  set (live := filter (λ o, false || negb (object_deleted o.2)) (objects (db st))).
  assert (∀ p, (∃ r, at_path st p r) → p ∈ (λ o, object_path o.2) <$> live) as Hin.
  { intros p (r & i & o & Ho & Hp & Hd & _). apply find_object_in in Ho as [Ho _].
    apply list_elem_of_fmap. exists (i, o). split; [done|]. apply list_elem_of_filter. split; [|done]. simpl. by rewrite Hd. }
  assert ((λ o, object_path o.2) <$> live ≡ₚ ps) as Hperm.
  { symmetry. apply submseteq_length_Permutation.
    - apply NoDup_submseteq; [done|]. intros p Hp. by apply Hin, Hall.
    - rewrite length_fmap. unfold count in Hc. change (len live = len ps) in Hc. lia. }
  intros p r Ha. rewrite <-Hperm. apply Hin. by exists r.
Qed.

(** C10 A clean audit is a proof that the package mirrors the tree.  The audit always
    ends with a report when [progress] does not throw.  A report without issues that
    was not cancelled has verified every entry: its source was captured again, and
    the live object at its logical path has the stamp, the size and the hash of what
    was captured; and the package holds no other live object. *)
Theorem audit_is_sound W staging inv st :
  reachable st → snapshots_read_back (H:=H) W → (∀ n e k, audited W n e k = Ok tt) →
  stagingDirectory staging = Ok tt → staging_lease staging = Ok tt →
  NoDup (logicalPath <$> inventory_entries inv) →
  ∃ rep, audit (H:=H) W staging inv st = Ok rep ∧
    (audit_issues rep = [] → audit_cancelled rep = false →
     verified rep = len (inventory_entries inv) ∧
     (∀ e, e ∈ inventory_entries inv → mirrored (H:=H) W st e) ∧
     (∀ k r, lookup k st = Ok (Some r) → deleted r = false → path r ∈ logicalPath <$> inventory_entries inv)).
Proof.
  intros Hr Hf Hquiet Hd Hl Hn. destruct (reachable_good _ _ Hr) as [Hg _]. unfold audit.
  case_bool_decide as Hi; cbn [negb]; [|eexists; split; [done|]; intros Hno; destruct (Hi Hno)].
  rewrite Hd, Hl. cbn [mbind result_bind].
  set (s := {| audit_asked := 0; audit_report := _ |}).
  destruct (audit_body_ends (H:=H) W st Hquiet (inventory_entries inv) Hg s) as (u & s' & E). rewrite E.
  eexists. split; [done|]. intros Hno Hc. apply audit_body_sound in E as [[_ Hs] Hcount]; [|done].
  assert (audit_issues (audit_report s') = audit_issues (audit_report s)) as Hsame by (cbn; congruence).
  destruct (Hs Hsame Hc) as [Hv Hm]. split_and!; [rewrite Hv; cbn; lia|done|].
  intros k r Hk Hlive. refine (entries_cover st _ Hg Hn _ _ _ r (lookup_at_path _ _ _ Hg Hk Hlive)).
  - intros p (e & -> & He)%list_elem_of_fmap. destruct (Hm e He) as (o & _ & _ & Ho & _). exists o. by apply lookupPath_at in Ho as [_ ?].
  - rewrite length_fmap. exact (Hcount Hsame Hc).
Qed.
End properties.
