(* ===== verification/CatalogData.v ===== *)
(** The data of the catalog and its documents (src/Catalog/FileCatalog.h and the
    free functions of src/Catalog/FileCatalog.cpp): texts and paths in their
    canonical forms, classifications, filters, companions and search expressions.

    [utf8proc_map] with [STABLE | COMPOSE] is the one of Unicode; case folding and
    the letters are operations of [CatalogUnicode] below. *)
From S2P Require Import Prelude Text Paths Unicode Json JsonObject MetadataCodec.
Local Open Scope Z_scope.

(** ** Errors *)

Definition fail (message : string) : string := ("iiFileProvider: " +:+ message)%string.

(** ** Records *)

Record CatalogFile := {
  file_key : bytes;
  file_index : Z;
  file_revision : Z;
  file_path : bytes;
  file_size : Z;
  modifiedAtNs : Z;
  contentVersion : bytes;
  file_metadata : FileMetadata;
  metadataPending : bool
}.

Record FileFilter := {
  filter_text : bytes;
  pathPrefix : bytes;
  allKeywords : list bytes;
  anyKeywords : list bytes;
  colors : list ColorLabel;
  filter_collections : list bytes;
  minimumRating : option Z;
  maximumRating : option Z;
  minimumSize : option Z;
  maximumSize : option Z;
  filter_fields : string_map
}.

Record FileCursor := {
  cursor_catalog : bytes;
  cursor_revision : Z;
  afterIndex : Z;
  cursor_filter : bytes
}.

Record CatalogFileSummary := {
  summary_key : bytes;
  summary_index : Z;
  summary_revision : Z;
  summary_path : bytes;
  summary_size : Z;
  summary_modifiedAtNs : Z;
  summary_contentVersion : bytes;
  summary_title : bytes;
  summary_rating : Z;
  summary_color : ColorLabel;
  summary_pending : bool
}.

Record FilePage := { page_files : list CatalogFileSummary; next : option FileCursor }.

Record FileCollection := { collection_key : bytes; collection_name : bytes }.

Record SavedFileFilter := { saved_key : bytes; saved_name : bytes; saved_filter : FileFilter }.

Record MetadataWrite := { written_file : CatalogFile; metadataWritten : bool; metadataError : bytes }.

Record FileRegistration := { registered_path : bytes; registered_metadata : option FileMetadata }.

Record FileChunk := {
  chunk_bytes : bytes;
  chunk_offset : Z;
  chunk_size : Z;
  chunk_version : bytes;
  eof : bool
}.

#[export] Instance FileFilter_eq_dec : EqDecision FileFilter.
Proof. solve_decision. Defined.
#[export] Instance CatalogFile_eq_dec : EqDecision CatalogFile.
Proof. solve_decision. Defined.
#[export] Instance FileCursor_eq_dec : EqDecision FileCursor.
Proof. solve_decision. Defined.

Definition maximumPage : Z := 1024.
Definition maximumBatch : Z := 1024.
Definition maximumChunk : Z := 1024 * 1024.
Definition maximumBatchMetadata : Z := 16 * 1024 * 1024.

Definition companionSuffix : bytes := lit ".iisacc.json".

(** ** Numbers *)

Definition jsonInteger (value : json) (maximum : Z) : result string Z :=
  match value with
  | JInt z =>
      _ ← check (negb (z <? 0)) (fail "metadata number must be a nonnegative integer");
      _ ← check (negb (maximum <? z)) (fail "metadata number exceeds limit");
      Ok z
  | _ => Err (fail "metadata number must be a nonnegative integer")
  end.

Definition integer (value : Z) : result string Z :=
  _ ← check (negb (INT64_MAX <? value)) (fail "integer exceeds SQLite range"); Ok value.

(** ** Texts *)

(** Folding maps canonically composed text with [CASEFOLD]; letters, marks and
    numbers are the categories from LU to NO. *)
Class CatalogUnicode := {
  utf8proc_casefold : bytes → option bytes;
  utf8proc_word : Z → bool
}.

Section texts.
Context `{Utf8proc, CatalogUnicode}.

Definition blank : ascii → bool := λ c, bool_decide (c ∈ [" "; "009"; "013"; "010"]%char).

Definition normalized (text : bytes) (maximum : Z) (fold required : bool) : result string bytes :=
  _ ← check (negb ((maximum <? len text) || has_byte NUL text || (required && bool_decide (text = []))))
        (fail "invalid metadata string");
  output ← of_option (fail "invalid UTF-8 metadata")
             (if fold then utf8proc_casefold text else utf8proc_map false text);
  _ ← check (negb (maximum <? len output)) (fail "invalid UTF-8 metadata");
  _ ← check (negb (required && forallb blank output)) (fail "empty metadata name");
  Ok output.

(** One turn of the loop of [terms]: the folded terms seen and the result. *)
Definition add_term (folded : bool) (st : list bytes * list bytes) (value : bytes) :
    result string (list bytes * list bytes) :=
  display ← normalized value 512 false true;
  term ← normalized display 512 true false;
  Ok (if bool_decide (term ∈ st.1) then st
      else (term :: st.1, st.2 ++ [if folded then term else display])).

Definition terms (input : list bytes) (folded : bool) : result string (list bytes) :=
  _ ← check (negb (128 <? len input)) (fail "too many metadata terms");
  st ← fold_res (add_term folded) ([], []) input;
  Ok st.2.

(** ** Managed paths *)

Definition provider_control (control : bytes) : bool :=
  bool_decide (control = lit ".iisacc-file-provider") || bool_decide (control = lit ".iisacc-temporary.lock")
  || starts_with (lit ".iifile-stage-") control || starts_with (lit ".society-extract-") control.

(** [while(!base.empty() && base.back() == ' ') base.pop_back();] *)
Fixpoint drop_spaces (s : bytes) : bytes :=
  match s with " "%char :: s => drop_spaces s | _ => s end.

Definition base_name (name : bytes) : bytes :=
  tolower <$> reverse (drop_spaces (reverse (take (default (length name) (find_byte (is_char "."%char) name)) name))).

Definition superscripts : list bytes :=
  [[Zbyte 0xC2; Zbyte 0xB9]; [Zbyte 0xC2; Zbyte 0xB2]; [Zbyte 0xC2; Zbyte 0xB3]].

Definition device_name (base : bytes) : bool :=
  bool_decide (base ∈ (lit <$> ["con"; "prn"; "aux"; "nul"; "conin$"; "conout$"])) ||
  ((starts_with (lit "com") base || starts_with (lit "lpt") base) &&
   match drop 3 base with
   | [c] => (49 <=? byteZ c) && (byteZ c <=? 57)
   | suffix => bool_decide (suffix ∈ superscripts)
   end).

Definition private_name (name : bytes) : bool :=
  bool_decide (name = []) || provider_control (tolower <$> name) || (220 <? len name)
  || bool_decide (last name = Some " "%char) || bool_decide (last name = Some "."%char)
  || existsb (λ c, bool_decide (c ∈ lit "<>|?*") || bool_decide (c = ascii_of_N 34)) name
  || existsb (λ c, byteZ c <? 32) name.

(** The checks of one name. *)
Definition check_name (name : bytes) : result string unit :=
  _ ← check (negb (private_name name)) (fail "private or nonportable managed path");
  check (negb (device_name (base_name name))) (fail "reserved native device name").

Definition relativePath (text : bytes) (empty : bool) : result string bytes :=
  _ ← normalized text 4096 false (negb empty);
  if bool_decide (text = []) && empty then Ok text else
  let foldedPath := tolower <$> text in
  _ ← check (negb (bool_decide (text = []) || bool_decide (head text = Some "/"%char)
        || has_byte "\"%char text || has_byte ":"%char text || has_byte NUL text
        || ends_with companionSuffix foldedPath || ends_with (lit ".iisacc-preview") foldedPath))
        (fail "invalid managed file path");
  _ ← check (bool_decide (lexically_normal text = text)) (fail "noncanonical managed path");
  _ ← for_each check_name (path_names text);
  Ok text.

(** ** Classifications *)

Definition colorNames : list bytes :=
  lit <$> ["none"; "red"; "orange"; "yellow"; "green"; "blue"; "purple"; "gray"].

(** [std::map::emplace]: nothing for a key that is present. *)
Fixpoint map_emplace (k v : bytes) (m : string_map) : option string_map :=
  match m with
  | [] => Some [(k, v)]
  | (k', v') :: m' =>
      match bytes_compare k k' with
      | Lt => Some ((k, v) :: m)
      | Eq => None
      | Gt => m' ← map_emplace k v m'; Some ((k', v') :: m')
      end
  end.

Definition metadataJson (m : FileMetadata) : json :=
  json_object [(lit "title", JString (title m)); (lit "description", JString (description m));
    (lit "keywords", JArray (JString <$> keywords m)); (lit "rating", JInt (rating m));
    (lit "color", JString (nth (Z.to_nat (color_code (color m))) colorNames []));
    (lit "fields", map_json (fields m)); (lit "collections", JArray (JString <$> collections m))].

(** One turn of the loops over fields: the normalised field is new. *)
Definition add_field (message : string) (m : string_map) (kv : bytes * bytes) : result string string_map :=
  k ← normalized kv.1 256 false true;
  v ← normalized kv.2 (64 * 1024) false false;
  of_option (fail message) (map_emplace k v m).

Definition add_membership (acc : list bytes) (key : bytes) : result string (list bytes) :=
  k ← normalized key 128 false true; Ok (set_insert k acc).

Definition normalizeMetadata (m : FileMetadata) : result string FileMetadata :=
  _ ← check (negb (5 <? rating m)) (fail "rating must be between zero and five");
  t ← normalized (title m) 4096 false false;
  d ← normalized (description m) (64 * 1024) false false;
  k ← terms (keywords m) false;
  _ ← check (negb ((64 <? len (fields m)) || (128 <? len (collections m))))
        (fail "too many classification fields");
  f ← fold_res (add_field "duplicate normalized field") [] (fields m);
  c ← fold_res add_membership [] (collections m);
  let m := {| title := t; description := d; keywords := k; rating := rating m; color := color m;
              fields := f; collections := c |} in
  text ← dump (metadataJson m);
  _ ← check (negb (maximumMetadataBytes <? len text)) (fail "file classification exceeds byte limit");
  Ok m.

(** [j.value(key, fallback)] converted to the type of the fallback. *)
Definition value_as {A} (get : json → result string A) (k : bytes) (fallback : A) (l : list (bytes * json)) :
    result string A :=
  match member k l with Some v => get v | None => Ok fallback end.

Definition metadata_keys : list bytes :=
  lit <$> ["title"; "description"; "keywords"; "rating"; "color"; "fields"; "collections"].

(** The position of a colour name. *)
Definition find_color (name : bytes) : option ColorLabel :=
  '(i, _) ← list_find (λ n, n = name) colorNames; color_of_code (Z.of_nat i).

Definition parseMetadata (j : json) : result string FileMetadata :=
  match j with
  | JObject l =>
      _ ← check (forallb (λ kv, bool_decide (kv.1 ∈ metadata_keys)) l) (fail "unknown classification field");
      t ← value_as get_string (lit "title") [] l;
      d ← value_as get_string (lit "description") [] l;
      k ← value_as get_strings (lit "keywords") [] l;
      r ← match member (lit "rating") l with Some v => jsonInteger v 5 | None => Ok 0 end;
      name ← value_as get_string (lit "color") (lit "none") l;
      c ← of_option (fail "unknown companion color") (find_color name);
      f ← value_as get_map (lit "fields") [] l;
      cs ← value_as get_strings (lit "collections") [] l;
      normalizeMetadata {| title := t; description := d; keywords := k; rating := r; color := c;
                           fields := f; collections := cs |}
  | _ => Err (fail "classification must be an object")
  end.

(** ** Filters *)

(** [if(x) j[key] = *x;] *)
Definition set_number (key : string) (x : option Z) (l : list (bytes * json)) : list (bytes * json) :=
  match x with Some z => object_set (lit key) (JInt z) l | None => l end.

Definition filterJson (f : FileFilter) : json :=
  match json_object [(lit "text", JString (filter_text f)); (lit "pathPrefix", JString (pathPrefix f));
      (lit "allKeywords", JArray (JString <$> allKeywords f));
      (lit "anyKeywords", JArray (JString <$> anyKeywords f));
      (lit "colors", JArray ((λ c, JInt (color_code c)) <$> colors f));
      (lit "collections", JArray (JString <$> filter_collections f));
      (lit "fields", map_json (filter_fields f))] with
  | JObject l =>
      JObject (set_number "maximumSize" (maximumSize f) (set_number "minimumSize" (minimumSize f)
        (set_number "maximumRating" (maximumRating f) (set_number "minimumRating" (minimumRating f) l))))
  | j => j
  end.

Definition over (limit : Z) (x : option Z) : bool := match x with Some z => limit <? z | None => false end.
Definition crossed (low high : option Z) : bool :=
  match low, high with Some a, Some b => b <? a | _, _ => false end.
Definition check_integer (x : option Z) : result string unit :=
  match x with Some z => _ ← integer z; Ok tt | None => Ok tt end.

Definition normalizeFilter (f : FileFilter) : result string FileFilter :=
  t ← normalized (filter_text f) 4096 false false;
  p ← relativePath (pathPrefix f) true;
  al ← terms (allKeywords f) true;
  an ← terms (anyKeywords f) true;
  _ ← check (negb ((8 <? len (colors f)) || (128 <? len (filter_collections f)) || (64 <? len (filter_fields f))))
        (fail "filter exceeds field limits");
  cs ← fold_res (λ acc c, k ← normalized c 128 false true; Ok (acc ++ [k])) [] (filter_collections f);
  fs ← fold_res (add_field "duplicate normalized filter field") [] (filter_fields f);
  _ ← check (negb (over 5 (minimumRating f) || over 5 (maximumRating f)
        || crossed (minimumRating f) (maximumRating f) || crossed (minimumSize f) (maximumSize f)))
        (fail "invalid filter range");
  _ ← check_integer (minimumSize f);
  _ ← check_integer (maximumSize f);
  let f := {| filter_text := t; pathPrefix := p; allKeywords := al; anyKeywords := an; colors := colors f;
              filter_collections := cs; minimumRating := minimumRating f; maximumRating := maximumRating f;
              minimumSize := minimumSize f; maximumSize := maximumSize f; filter_fields := fs |} in
  text ← dump (filterJson f);
  _ ← check (negb (maximumMetadataBytes <? len text)) (fail "filter exceeds byte limit");
  Ok f.

(** Conversions of numbers: [get<unsigned>()], [get<std::uint64_t>()] and
    [get<int>()]; how a real number is cast is a parameter. *)
Context (real_cast : bytes → Z) (json_parse : bytes → option json).

Definition type_error : string := "[json.exception.type_error.302]".

Definition get_unsigned (j : json) : result string Z :=
  match j with
  | JInt z => Ok (u32 z)
  | JReal t => Ok (u32 (real_cast t))
  | JBool b => Ok (if b then 1 else 0)
  | _ => Err type_error
  end.

Definition get_u64 (j : json) : result string Z :=
  match j with JInt z => Ok (u64 z) | JReal t => Ok (u64 (real_cast t)) | _ => Err type_error end.

Definition get_int (j : json) : result string Z :=
  match j with
  | JInt z => let u := u32 z in Ok (if u <=? INT32_MAX then u else u - 2 ^ 32)
  | JReal t => Ok (real_cast t)
  | JBool b => Ok (if b then 1 else 0)
  | _ => Err type_error
  end.

(** What a range-based loop over a value visits. *)
Definition elements (j : json) : list json :=
  match j with JArray l => l | JObject l => l.*2 | JNull => [] | j => [j] end.

(** [if(j.contains(key)) x = j.at(key).get<...>();] *)
Definition optional_number (get : json → result string Z) (key : string) (l : list (bytes * json)) :
    result string (option Z) :=
  match member (lit key) l with Some v => z ← get v; Ok (Some z) | None => Ok None end.

Definition get_colors (j : json) : result string (list ColorLabel) :=
  fold_res (λ acc c, z ← get_unsigned c;
    col ← of_option (fail "invalid saved color") (color_of_code z); Ok (acc ++ [col])) [] (elements j).

Definition parse_json (s : bytes) : result string json :=
  of_option "[json.exception.parse_error.101]"%string (json_parse s).

Definition parseFilter (text : bytes) : result string FileFilter :=
  j ← parse_json text;
  match j with
  | JObject l =>
      t ← value_as get_string (lit "text") [] l;
      p ← value_as get_string (lit "pathPrefix") [] l;
      al ← value_as get_strings (lit "allKeywords") [] l;
      an ← value_as get_strings (lit "anyKeywords") [] l;
      jc ← at_key j (lit "colors");
      c ← get_colors jc;
      cs ← value_as get_strings (lit "collections") [] l;
      fs ← value_as get_map (lit "fields") [] l;
      r1 ← optional_number get_unsigned "minimumRating" l;
      r2 ← optional_number get_unsigned "maximumRating" l;
      s1 ← optional_number get_u64 "minimumSize" l;
      s2 ← optional_number get_u64 "maximumSize" l;
      normalizeFilter {| filter_text := t; pathPrefix := p; allKeywords := al; anyKeywords := an; colors := c;
        filter_collections := cs; minimumRating := r1; maximumRating := r2; minimumSize := s1;
        maximumSize := s2; filter_fields := fs |}
  | _ => Err "[json.exception.type_error.306]"%string
  end.

(** ** Search expressions *)

(** The loop over the characters: the words so far and the one being read. *)
Fixpoint words_from (fuel : nat) (s : bytes) (words : list bytes) (word : bytes) : result string (list bytes) :=
  match s, fuel with
  | [], _ => Ok (if bool_decide (word = []) then words else words ++ [word])
  | _, O => Err "out of fuel"%string
  | _, S fuel =>
      '(cp, n) ← of_option (fail "invalid search UTF-8") (utf8proc_iterate s);
      if utf8proc_word cp then words_from fuel (drop n s) words (word ++ take n s)
      else words_from fuel (drop n s) (if bool_decide (word = []) then words else words ++ [word]) []
  end.

(** A prefix of a word, quoted. *)
Definition word_prefix (w : bytes) : bytes := quote ++ w ++ quote ++ lit "*".

Definition matchExpression (text : bytes) : result string bytes :=
  words ← words_from (length text) text [] [];
  _ ← check (negb (bool_decide (words = []) || (32 <? len words)))
        (fail "search needs one to 32 word prefixes");
  Ok (join (lit " AND ") (word_prefix <$> words)).

(** ** Companions *)

Definition at_string (j : json) (k : string) : result string bytes := at_key j (lit k) ≫= get_string.

(** [key.substr(5).find_first_not_of("0123456789abcdef")]. *)
Definition persistent_key (key : bytes) : bool :=
  (len key =? 37) && starts_with (lit "file-") key && forallb is_hex (drop 5 key).

Definition companion_membership (memberships : list bytes) (keys : list bytes) (c : json) :
    result string (list bytes) :=
  raw ← at_string c "key";
  id ← normalized raw 128 false true;
  name ← at_string c "name";
  _ ← normalized name 512 false true;
  _ ← check (negb (bool_decide (id ∈ keys)) && bool_decide (id ∈ memberships))
        (fail "inconsistent companion membership");
  Ok (id :: keys).

(** [companion] of the text of the document. *)
Definition companion_of (text : bytes) : result string json :=
  j ← parse_json text;
  match j with
  | JObject l =>
      format ← value_as get_string (lit "format") [] l;
      (* [||]: the schema is only read when the format is the right one *)
      _ ← (if bool_decide (format = lit "iiFileProvider.Metadata")
           then schema ← value_as get_int (lit "schema") 0 l;
                check (schema =? 1) (fail "unknown metadata companion format")
           else Err (fail "unknown metadata companion format"));
      key ← at_string j "fileKey";
      _ ← check (persistent_key key) (fail "invalid persistent file key");
      jr ← at_key j (lit "revision");
      r ← jsonInteger jr INT64_MAX;
      _ ← check (negb (r =? 0)) (fail "invalid companion revision");
      jm ← at_key j (lit "metadata");
      m ← parseMetadata jm;
      cs ← at_key j (lit "collections");
      _ ← check (is_array cs && (Z.of_nat (json_size cs) =? len (collections m)))
            (fail "invalid companion collections");
      _ ← fold_res (companion_membership (collections m)) [] (elements cs);
      Ok j
  | _ => Err (fail "unknown metadata companion format")
  end.
End texts.
