(* ===== verification/CatalogLaws.v ===== *)
(** The canonical forms of the catalog: normalising twice changes nothing, what is
    written into a document is read back, a managed path has ordinary names only,
    and a search expression is made of quoted words. *)
From S2P Require Import Prelude Text Paths Unicode CoreText Json JsonObject MetadataCodec CatalogData.
Local Open Scope Z_scope.

(** What Unicode promises of case folding (Unicode 15, 3.13 and 5.18: folding gives
    composed text, is idempotent and keeps what is not a letter; UAX 15: only U+0000
    normalises to U+0000) and of the categories of ASCII. *)
Class CatalogUnicodeLaws `{Utf8procLaws} `{!CatalogUnicode} : Prop := {
  map_no_nul k s t : utf8proc_map k s = Some t → has_byte NUL s = false → has_byte NUL t = false;
  casefold_text s t : utf8proc_casefold s = Some t → ∃ points, Forall scalar points ∧ t = utf8 points;
  casefold_composed s t : utf8proc_casefold s = Some t → utf8proc_map false t = Some t;
  casefold_idempotent s t : utf8proc_casefold s = Some t → utf8proc_casefold t = Some t;
  casefold_no_nul s t : utf8proc_casefold s = Some t → has_byte NUL s = false → has_byte NUL t = false;
  casefold_blank s t : utf8proc_casefold s = Some t → forallb blank t = true → forallb blank s = true;
  casefold_ascii s : Forall is_ascii s → utf8proc_casefold s = Some (tolower <$> s);
  word_ascii c : 0 <= c < 128 → utf8proc_word c =
    ((48 <=? c) && (c <=? 57)) || ((65 <=? c) && (c <=? 90)) || ((97 <=? c) && (c <=? 122))
}.

(** ** Sorted sets and maps *)

Definition set_sorted (l : list bytes) : Prop := StronglySorted (λ a b, bytes_ltb a b = true) l.

Lemma set_insert_in k l x : x ∈ set_insert k l ↔ x = k ∨ x ∈ l.
Proof.
  induction l as [|k' l IH]; cbn [set_insert]; [set_solver|].
  destruct (bytes_compare k k') eqn:E; rewrite ?elem_of_cons, ?IH; [|set_solver..].
  apply bytes_compare_eq in E as ->. set_solver.
Qed.

Lemma bytes_gt_lt a b : bytes_compare a b = Gt → bytes_ltb b a = true.
Proof. intros E. apply bytes_ltb_compare. by rewrite bytes_compare_antisym, E. Qed.

Lemma bytes_lt_trans a b c : bytes_ltb a b = true → bytes_ltb b c = true → bytes_ltb a c = true.
Proof. intros H1 H2. apply Is_true_true, (bytes_ltb_trans _ b); by apply Is_true_true. Qed.

Lemma set_insert_sorted k l : set_sorted l → set_sorted (set_insert k l).
Proof.
  induction 1 as [|k' l Hl IH Hk]; cbn [set_insert]; [repeat constructor|].
  destruct (bytes_compare k k') eqn:E.
  - by constructor.
  - apply bytes_ltb_compare in E. repeat constructor; [done..|].
    eapply Forall_impl; [exact Hk|]. intros x. by apply bytes_lt_trans.
  - constructor; [done|]. apply Forall_forall. intros x Hx. apply set_insert_in in Hx as [->|Hx].
    + by apply bytes_gt_lt.
    + rewrite Forall_forall in Hk. by apply Hk.
Qed.

Lemma set_insert_last k l : Forall (λ x, bytes_ltb x k = true) l → set_insert k l = l ++ [k].
Proof.
  induction 1 as [|k' l Hk _ IH]; [done|]. cbn [set_insert app].
  apply bytes_ltb_compare in Hk. rewrite bytes_compare_antisym, Hk. cbn [CompOpp]. by rewrite IH.
Qed.

Lemma set_sorted_nodup l : set_sorted l → NoDup l.
Proof.
  induction 1 as [|k l _ IH Hk]; constructor; [|done]. intros Hin. rewrite Forall_forall in Hk.
  specialize (Hk k Hin). by rewrite bytes_ltb_irrefl in Hk.
Qed.

Lemma map_emplace_in k v m m' : map_emplace k v m = Some m' → ∀ x, x ∈ m' ↔ x = (k, v) ∨ x ∈ m.
Proof.
  revert m'. induction m as [|[k' v'] m IH]; intros m'; cbn [map_emplace].
  - intros [= <-]. set_solver.
  - destruct (bytes_compare k k'); [done|intros [= <-]; set_solver|].
    destruct (map_emplace k v m) as [m2|]; [|done]. intros [= <-] x. rewrite !elem_of_cons, (IH m2 eq_refl). set_solver.
Qed.

Lemma map_emplace_ascending k v m m' : ascending m = true → map_emplace k v m = Some m' → ascending m' = true.
Proof.
  revert m'. induction m as [|[k' v'] m IH]; intros m'; cbn [map_emplace]; [by intros _ [= <-]|].
  intros [Hk Hm]%ascending_cons. destruct (bytes_compare k k') eqn:E; [done|intros [= <-]|].
  - apply bytes_ltb_compare in E. apply ascending_cons. split; [|by apply ascending_cons].
    constructor; [done|]. eapply Forall_impl; [exact Hk|]. intros x. by apply bytes_lt_trans.
  - destruct (map_emplace k v m) as [m2|] eqn:E2; [|done]. intros [= <-]. apply ascending_cons.
    split; [|by apply (IH m2)]. apply Forall_forall. intros x Hx.
    apply (map_emplace_in _ _ _ _ E2) in Hx as [->|Hx]; [by apply bytes_gt_lt|].
    rewrite Forall_forall in Hk. by apply Hk.
Qed.

Lemma map_emplace_length k v m m' : map_emplace k v m = Some m' → length m' = S (length m).
Proof.
  revert m'. induction m as [|[k' v'] m IH]; intros m'; cbn [map_emplace]; [by intros [= <-]|].
  destruct (bytes_compare k k'); [done|by intros [= <-]|].
  destruct (map_emplace k v m) as [m2|]; [|done]. intros [= <-]. cbn [length]. by rewrite (IH m2).
Qed.

Lemma map_emplace_last k v m : Forall (λ x : bytes * bytes, bytes_ltb x.1 k = true) m →
  map_emplace k v m = Some (m ++ [(k, v)]).
Proof.
  induction 1 as [|[k' v'] m Hk _ IH]; [done|]. cbn [map_emplace app].
  cbn [fst] in Hk. apply bytes_ltb_compare in Hk. rewrite bytes_compare_antisym, Hk. cbn [CompOpp]. by rewrite IH.
Qed.

Lemma ascending_snoc {A} (m : list (bytes * A)) kv : ascending (m ++ [kv]) = true →
  Forall (λ x, bytes_ltb x.1 kv.1 = true) m ∧ ascending m = true.
Proof.
  induction m as [|x m IH]; [by constructor|]. rewrite <-app_comm_cons.
  intros [[H1 H2]%Forall_app H3]%ascending_cons. destruct (IH H3) as [H4 H5]. apply Forall_cons in H2 as [H2 _].
  split; [apply Forall_cons; by split|]. by apply ascending_cons.
Qed.

Lemma set_sorted_snoc l k : set_sorted (l ++ [k]) → Forall (λ x, bytes_ltb x k = true) l ∧ set_sorted l.
Proof.
  induction l as [|x l IH]; [by repeat constructor|]. rewrite <-app_comm_cons. intros Hs. apply StronglySorted_inv in Hs as [Hs Hx].
  destruct (IH Hs) as [H1 H2]. apply Forall_app in Hx as [Hx Hk]. apply Forall_cons in Hk as [Hk _].
  split; [apply Forall_cons; by split|by constructor].
Qed.

(** ** Texts *)

Section laws.
Context `{CatalogUnicodeLaws}.

Lemma normalized_ok text maximum fold required r : normalized text maximum fold required = Ok r ↔
  len text <= maximum ∧ has_byte NUL text = false ∧ (required = true → text ≠ []) ∧
  (if fold then utf8proc_casefold text else utf8proc_map false text) = Some r ∧
  len r <= maximum ∧ (required = true → forallb blank r = false).
Proof.
  unfold normalized. split.
  - intros E. inv_ok. rewrite Z.ltb_ge in *. split_and!; try done.
    + intros -> ->. done.
    + by intros ->.
  - intros (H1' & H2' & H3' & H4' & H5' & H6').
    rewrite (proj2 (Z.ltb_ge _ _) H1'), H2', H4'. cbn [of_option].
    assert (required && bool_decide (text = []) = false) as ->.
    { destruct required; [|done]. rewrite bool_decide_false by by apply H3'. done. }
    cbn [orb negb check mbind result_bind]. rewrite (proj2 (Z.ltb_ge _ _) H5'). cbn [negb check mbind result_bind].
    destruct required; [by rewrite H6' by done|done].
Qed.

Lemma normalized_again text maximum fold required r :
  normalized text maximum fold required = Ok r → normalized r maximum fold required = Ok r.
Proof.
  rewrite !normalized_ok. intros (H1' & H2' & H3' & H4' & H5' & H6').
  split_and!; try done.
  - destruct fold; [by eapply casefold_no_nul|by eapply map_no_nul].
  - intros Hr ->. by specialize (H6' Hr).
  - destruct fold; [by eapply casefold_idempotent|by eapply map_idempotent].
Qed.

Lemma normalized_text text maximum fold required r :
  normalized text maximum fold required = Ok r → ∃ points, Forall scalar points ∧ r = utf8 points.
Proof.
  intros (_ & _ & _ & Hm & _)%normalized_ok. destruct fold; [by apply casefold_text in Hm|by apply map_text in Hm].
Qed.

(** A folded term is its own display. *)
Lemma folded_display value display term :
  normalized value 512 false true = Ok display → normalized display 512 true false = Ok term →
  normalized term 512 false true = Ok term ∧ normalized term 512 true false = Ok term.
Proof.
  intros Hd Ht. split; [|by apply (normalized_again display)]. rewrite normalized_ok in *.
  destruct Hd as (_ & _ & _ & _ & _ & Hblank). destruct Ht as (_ & Hnul & _ & Hfold & Hlen & _).
  assert (forallb blank term = false) as Hb.
  { destruct (forallb blank term) eqn:E; [|done]. apply (casefold_blank _ _ Hfold) in E.
    by rewrite Hblank in E. }
  split_and!; try done.
  - by eapply casefold_no_nul.
  - by intros _ ->.
  - by eapply casefold_composed.
Qed.

(** ** Terms *)

(** What the loop has read: the terms kept, in order, each with its folded form. *)
Definition term_of (folded : bool) (shown term : bytes) : Prop :=
  normalized shown 512 false true = Ok shown ∧ normalized shown 512 true false = Ok term ∧
  (folded = true → shown = term).

Definition terms_state (folded : bool) (st : list bytes * list bytes) : Prop :=
  ∃ order, NoDup order ∧ st.1 = reverse order ∧ Forall2 (term_of folded) st.2 order.

Lemma add_term_state folded st value st' : terms_state folded st → add_term folded st value = Ok st' →
  terms_state folded st'.
Proof.
  intros (order & Hnd & Hseen & Hall). unfold add_term. intros (d & Hd & E)%bind_ok.
  apply bind_ok in E as (t & Ht & [= <-]). case_bool_decide as Hin; [by exists order|].
  exists (order ++ [t]). cbn [fst snd]. split_and!.
  - apply NoDup_app. split_and!; [done| |apply NoDup_singleton]. intros x Hx ->%list_elem_of_singleton.
    apply Hin. rewrite Hseen. by apply elem_of_reverse.
  - by rewrite reverse_snoc, Hseen.
  - apply Forall2_app; [done|]. constructor; [|done]. destruct folded.
    + destruct (folded_display _ _ _ Hd Ht). by split.
    + split; [by apply (normalized_again value)|]. by split.
Qed.

Lemma add_term_new folded st d t : term_of folded d t → t ∉ st.1 →
  add_term folded st d = Ok (t :: st.1, st.2 ++ [d]).
Proof.
  intros (Hd & Ht & Hf) Hnew. unfold add_term. rewrite Hd. cbn [mbind result_bind]. rewrite Ht.
  cbn [mbind result_bind]. rewrite bool_decide_false by done. destruct folded; [by rewrite Hf|done].
Qed.

Lemma terms_again_from folded shown order st : terms_state folded st → NoDup (reverse st.1 ++ order) →
  Forall2 (term_of folded) shown order →
  fold_res (add_term folded) st shown = Ok (reverse order ++ st.1, st.2 ++ shown).
Proof.
  intros Hst Hnd Hall. revert st Hst Hnd. induction Hall as [|d t shown order Ht _ IH]; intros st Hst Hnd.
  - destruct st. cbn. by rewrite app_nil_r.
  - assert (t ∉ st.1) as Hnew.
    { intros Hin. apply NoDup_app in Hnd as (_ & Hnd & _). apply (Hnd t); [by apply elem_of_reverse|by left]. }
    pose proof (add_term_new folded st d t Ht Hnew) as Hadd. cbn [fold_res]. rewrite Hadd.
    cbn [mbind result_bind]. rewrite IH; cbn [fst snd].
    + by rewrite reverse_cons, <-!app_assoc.
    + by eapply add_term_state.
    + by rewrite reverse_cons, <-app_assoc.
Qed.

Lemma terms_state_nil folded : terms_state folded ([], []).
Proof. exists []. by repeat constructor. Qed.

Lemma terms_ok input folded r : terms input folded = Ok r →
  ∃ order, NoDup order ∧ Forall2 (term_of folded) r order ∧ len r <= 128 ∧
    ∀ st, fold_res (add_term folded) ([], []) input = Ok st → st.1 = reverse order.
Proof.
  unfold terms. intros ([] & Hcount & E)%bind_ok. apply bind_ok in E as (st & Hf & [= <-]).
  apply check_ok, negb_true_iff, Z.ltb_ge in Hcount. assert (terms_state folded st) as (order & Hnd & Hseen & Hall).
  { eapply (fold_res_ind (terms_state folded)); [apply terms_state_nil| |exact Hf].
    intros c x c' _. apply add_term_state. }
  exists order. split_and!; try done.
  - assert (∀ l st st', fold_res (add_term folded) st l = Ok st' → (length st'.2 <= length st.2 + length l)%nat) as Hlen.
    { clear. induction l as [|x l IH]; intros st st'; cbn [fold_res]; [intros E; inv_ok; lia|].
      intros (st1 & H1' & E)%bind_ok. apply IH in E. unfold add_term in H1'.
      apply bind_ok in H1' as (d & _ & H1'). apply bind_ok in H1' as (t & _ & [= <-]). cbn [length].
      case_bool_decide; cbn [snd] in E; rewrite ?length_app in E; cbn [length] in E; lia. }
    specialize (Hlen _ _ _ Hf). cbn in Hlen. lia.
  - intros st'. rewrite Hf. by intros [= <-].
Qed.

Lemma terms_again input folded r : terms input folded = Ok r → terms r folded = Ok r.
Proof.
  intros (order & Hnd & Hall & Hlen & _)%terms_ok. unfold terms.
  rewrite (proj2 (Z.ltb_ge _ _) Hlen). cbn [negb check mbind result_bind].
  rewrite (terms_again_from folded r order); [done|apply terms_state_nil|done|done].
Qed.

(** ** Fields and memberships *)

Definition field_fixed (kv : bytes * bytes) : Prop :=
  normalized kv.1 256 false true = Ok kv.1 ∧ normalized kv.2 (64 * 1024) false false = Ok kv.2.

Lemma fields_ok message fs r : fold_res (add_field message) [] fs = Ok r →
  ascending r = true ∧ Forall field_fixed r ∧ length r = length fs.
Proof.
  intros E. assert (∀ m, ascending m = true → Forall field_fixed m → fold_res (add_field message) m fs = Ok r →
    ascending r = true ∧ Forall field_fixed r ∧ length r = (length m + length fs)%nat) as Hgen; [|by apply (Hgen [])].
  clear E. induction fs as [|kv fs IH]; intros m Ha Hm; cbn [fold_res].
  - intros E. inv_ok. split_and!; [done..|]. cbn. lia.
  - intros (m2 & Ha2 & E)%bind_ok. unfold add_field in Ha2. apply bind_ok in Ha2 as (k & Hk & Ha2).
    apply bind_ok in Ha2 as (v & Hv & Ha2). apply of_option_ok in Ha2.
    destruct (IH m2) as (H1' & H2' & H3'); [by eapply map_emplace_ascending| |done|].
    + apply Forall_forall. intros x Hx. apply (map_emplace_in _ _ _ _ Ha2) in Hx as [->|Hx]; [|rewrite Forall_forall in Hm; by apply Hm].
      split; by eapply normalized_again.
    + split_and!; [done..|]. rewrite H3'. cbn [length].
      rewrite (map_emplace_length _ _ _ _ Ha2). lia.
Qed.

Lemma fields_again message m fs : ascending (m ++ fs) = true → Forall field_fixed fs →
  fold_res (add_field message) m fs = Ok (m ++ fs).
Proof.
  intros Ha Hfs. revert m Ha. induction Hfs as [|[k v] fs [Hk Hv] _ IH]; intros m Ha; cbn [fold_res].
  - by rewrite app_nil_r.
  - cbn [fst snd] in *. assert (ascending (m ++ [(k, v)]) = true) as Hsnoc.
    { revert Ha. clear. induction m as [|x m IH]; cbn [app]; [done|].
      intros [[H1 [H2 _]%Forall_cons]%Forall_app H3]%ascending_cons. apply ascending_cons.
      split; [apply Forall_app; by repeat constructor|]. by apply IH. }
    destruct (ascending_snoc _ _ Hsnoc) as [Hlast _]. cbn [fst] in Hlast.
    assert (add_field message m (k, v) = Ok (m ++ [(k, v)])) as ->.
    { unfold add_field. cbn [fst snd]. rewrite Hk. cbn [mbind result_bind]. rewrite Hv. cbn [mbind result_bind].
      by rewrite (map_emplace_last k v m Hlast). }
    cbn [mbind result_bind]. rewrite IH; rewrite <-app_assoc; done.
Qed.

Definition membership_fixed (k : bytes) : Prop := normalized k 128 false true = Ok k.

Lemma memberships_ok cs r : fold_res add_membership [] cs = Ok r →
  set_sorted r ∧ Forall membership_fixed r ∧ (length r <= length cs)%nat.
Proof.
  intros E. assert (∀ acc, set_sorted acc → Forall membership_fixed acc → fold_res add_membership acc cs = Ok r →
    set_sorted r ∧ Forall membership_fixed r ∧ (length r <= length acc + length cs)%nat) as Hgen;
    [|apply (Hgen []); [constructor|constructor|done]].
  clear E. induction cs as [|k cs IH]; intros acc Ha Hm; cbn [fold_res].
  - intros E. inv_ok. split_and!; [done..|lia].
  - intros (acc' & Hk & E)%bind_ok. unfold add_membership in Hk. apply bind_ok in Hk as (k' & Hk & [= <-]).
    destruct (IH (set_insert k' acc)) as (H1' & H2' & H3'); [by apply set_insert_sorted| |done|].
    + apply Forall_forall. intros x [->|Hx]%set_insert_in; [by eapply normalized_again|].
      rewrite Forall_forall in Hm. by apply Hm.
    + split_and!; [done..|]. cbn [length].
      assert (length (set_insert k' acc) <= S (length acc))%nat; [|lia]. clear.
      induction acc as [|y acc IH]; cbn [set_insert]; [done|]. destruct (bytes_compare k' y); cbn [length]; lia.
Qed.

Lemma memberships_again acc cs : set_sorted (acc ++ cs) → Forall membership_fixed cs →
  fold_res add_membership acc cs = Ok (acc ++ cs).
Proof.
  intros Ha Hcs. revert acc Ha. induction Hcs as [|k cs Hk _ IH]; intros acc Ha; cbn [fold_res].
  - by rewrite app_nil_r.
  - assert (set_sorted (acc ++ [k])) as Hsnoc.
    { revert Ha. clear. induction acc as [|x acc IH]; cbn [app]; [repeat constructor|].
      intros Hs. apply StronglySorted_inv in Hs as [Hs [H1 [H2 _]%Forall_cons]%Forall_app].
      constructor; [by apply IH|apply Forall_app; by repeat constructor]. }
    assert (add_membership acc k = Ok (acc ++ [k])) as ->.
    { unfold add_membership. rewrite Hk. cbn [mbind result_bind].
      by rewrite (set_insert_last k acc) by by apply set_sorted_snoc. }
    cbn [mbind result_bind]. rewrite IH; rewrite <-app_assoc; done.
Qed.

(** ** Classifications *)

(** A classification as normalisation leaves it. *)
Record metadata_normal (m : FileMetadata) : Prop := {
  normal_rating : rating m <= 5;
  normal_title : normalized (title m) 4096 false false = Ok (title m);
  normal_description : normalized (description m) (64 * 1024) false false = Ok (description m);
  normal_keywords : terms (keywords m) false = Ok (keywords m);
  normal_counts : len (fields m) <= 64 ∧ len (collections m) <= 128;
  normal_fields : ascending (fields m) = true ∧ Forall field_fixed (fields m);
  normal_collections : set_sorted (collections m) ∧ Forall membership_fixed (collections m);
  normal_size : ∃ d, dump (metadataJson m) = Ok d ∧ len d <= maximumMetadataBytes
}.

Lemma normalize_normal m m' : normalizeMetadata m = Ok m' → metadata_normal m'.
Proof.
  unfold normalizeMetadata. intros E. inv_ok. rewrite Z.ltb_ge in *.
  destruct (fields_ok _ _ _ H8) as (Hf1 & Hf2 & Hf3). destruct (memberships_ok _ _ H9) as (Hc1 & Hc2 & Hc3).
  split; cbn [title description keywords rating color fields collections]; try done.
  - by eapply normalized_again.
  - by eapply normalized_again.
  - by eapply terms_again.
  - lia.
  - by eexists.
Qed.

Lemma normal_normalize m : metadata_normal m → normalizeMetadata m = Ok m.
Proof.
  intros [Hr Ht Hd Hk [Hn1 Hn2] [Hf1 Hf2] [Hc1 Hc2] (d & Hdump & Hlen)]. unfold normalizeMetadata.
  rewrite (proj2 (Z.ltb_ge _ _) Hr). cbn [negb check mbind result_bind]. rewrite Ht. cbn [mbind result_bind].
  rewrite Hd. cbn [mbind result_bind]. rewrite Hk. cbn [mbind result_bind].
  rewrite (proj2 (Z.ltb_ge _ _) Hn1), (proj2 (Z.ltb_ge _ _) Hn2). cbn [orb negb check mbind result_bind].
  rewrite (fields_again _ [] _ Hf1 Hf2). cbn [app mbind result_bind].
  rewrite (memberships_again [] _ Hc1 Hc2). cbn [app mbind result_bind].
  destruct m as [t de k r c f cs]. cbn [title description keywords rating color fields collections] in *.
  rewrite Hdump. cbn [mbind result_bind]. by rewrite (proj2 (Z.ltb_ge _ _) Hlen).
Qed.

(** What normalisation gives is what is written, and it is read back. *)
Lemma get_strings_text l : get_strings (JArray (JString <$> l)) = Ok l.
Proof.
  unfold get_strings. assert (∀ acc, fold_res (λ acc x, s ← get_string x; Ok (acc ++ [s])) acc (JString <$> l) =
    @Ok string _ (acc ++ l)) as Hgen; [|apply Hgen].
  induction l as [|x l IH]; intros acc; cbn; [by rewrite app_nil_r|]. by rewrite IH, <-app_assoc.
Qed.

Lemma get_map_text m : get_map (map_json m) = Ok m.
Proof.
  unfold get_map, map_json. assert (∀ acc, fold_res (λ acc kv, s ← get_string kv.2; Ok (acc ++ [(kv.1, s)])) acc
    ((λ kv, (kv.1, JString kv.2)) <$> m) = @Ok string _ (acc ++ m)) as Hgen; [|apply Hgen].
  induction m as [|[k v] m IH]; intros acc; cbn; [by rewrite app_nil_r|]. by rewrite IH, <-app_assoc.
Qed.

Lemma map_json_ok m : ascending m = true → json_ok (map_json m) = true.
Proof.
  intros Ha. unfold map_json. cbn [json_ok]. apply andb_true_iff. split.
  - induction m as [|[k v] m IH]; [done|]. apply ascending_cons in Ha as [Hk Hm]. rewrite fmap_cons.
    apply ascending_cons. split; [|by apply IH]. by apply Forall_fmap.
  - induction m as [|[k v] m IH]; [done|]. apply ascending_cons in Ha as [_ Hm]. cbn. by apply IH.
Qed.

Lemma strings_json_ok l : json_ok (JArray (JString <$> l)) = true.
Proof. cbn [json_ok]. by induction l. Qed.

Lemma metadata_object m : metadataJson m = JObject
  [(lit "collections", JArray (JString <$> collections m));
   (lit "color", JString (nth (Z.to_nat (color_code (color m))) colorNames []));
   (lit "description", JString (description m)); (lit "fields", map_json (fields m));
   (lit "keywords", JArray (JString <$> keywords m)); (lit "rating", JInt (rating m));
   (lit "title", JString (title m))].
Proof. reflexivity. Qed.

Lemma metadata_json_ok m : metadata_normal m → json_ok (metadataJson m) = true.
Proof.
  intros Hm. rewrite metadata_object. pose proof (map_json_ok _ (proj1 (normal_fields _ Hm))) as Hf.
  pose proof (strings_json_ok (collections m)) as Hc. pose proof (strings_json_ok (keywords m)) as Hk.
  revert Hf Hc Hk. generalize (map_json (fields m)), (JArray (JString <$> collections m)), (JArray (JString <$> keywords m)).
  intros a b c Ha Hb Hc. cbn [json_ok forallb snd]. by rewrite Ha, Hb, Hc.
Qed.

Lemma find_color_name c : find_color (nth (Z.to_nat (color_code c)) colorNames []) = Some c.
Proof. by destruct c. Qed.

Lemma metadata_again m : metadata_normal m → 0 <= rating m → parseMetadata (metadataJson m) = Ok m.
Proof.
  intros Hm Hr. rewrite metadata_object. unfold parseMetadata.
  match goal with |- context [check (forallb ?p ?l) ?e] => assert (forallb p l = true) as -> by reflexivity end.
  cbn [check mbind result_bind].
  match goal with |- context [value_as get_string (lit "title") [] ?x] => set (l := x) end.
  change (value_as get_string (lit "title") [] l) with (@Ok string _ (title m)).
  change (value_as get_string (lit "description") [] l) with (@Ok string _ (description m)).
  change (value_as get_strings (lit "keywords") [] l) with (get_strings (JArray (JString <$> keywords m))).
  change (value_as get_strings (lit "collections") [] l) with (get_strings (JArray (JString <$> collections m))).
  change (value_as get_map (lit "fields") [] l) with (get_map (map_json (fields m))).
  change (member (lit "rating") l) with (Some (JInt (rating m))).
  change (value_as get_string (lit "color") (lit "none") l) with
    (@Ok string _ (nth (Z.to_nat (color_code (color m))) colorNames [])).
  rewrite !get_strings_text, get_map_text. cbn [mbind result_bind]. rewrite find_color_name.
  unfold jsonInteger. rewrite (proj2 (Z.ltb_ge (rating m) 0)) by done.
  rewrite (proj2 (Z.ltb_ge 5 (rating m))) by apply Hm. cbn [negb check mbind result_bind of_option].
  destruct m. by apply normal_normalize.
Qed.

(** ** Filters *)

(** What the C++ fields can hold: unsigned numbers. *)
Definition nonnegative (x : option Z) : Prop := match x with Some z => 0 <= z | None => True end.
Definition filter_fits (f : FileFilter) : Prop :=
  nonnegative (minimumRating f) ∧ nonnegative (maximumRating f) ∧
  nonnegative (minimumSize f) ∧ nonnegative (maximumSize f).

Record filter_normal (f : FileFilter) : Prop := {
  normal_text : normalized (filter_text f) 4096 false false = Ok (filter_text f);
  normal_prefix : relativePath (pathPrefix f) true = Ok (pathPrefix f);
  normal_all : terms (allKeywords f) true = Ok (allKeywords f);
  normal_any : terms (anyKeywords f) true = Ok (anyKeywords f);
  normal_limits : len (colors f) <= 8 ∧ len (filter_collections f) <= 128 ∧ len (filter_fields f) <= 64;
  normal_members : Forall membership_fixed (filter_collections f);
  normal_pairs : ascending (filter_fields f) = true ∧ Forall field_fixed (filter_fields f);
  normal_ratings : over 5 (minimumRating f) = false ∧ over 5 (maximumRating f) = false;
  normal_ranges : crossed (minimumRating f) (maximumRating f) = false ∧
    crossed (minimumSize f) (maximumSize f) = false;
  normal_sizes : over INT64_MAX (minimumSize f) = false ∧ over INT64_MAX (maximumSize f) = false;
  normal_bytes : ∃ d, dump (filterJson f) = Ok d ∧ len d <= maximumMetadataBytes
}.

Lemma relativePath_id text empty r : relativePath text empty = Ok r → r = text.
Proof.
  unfold relativePath. intros (? & _ & E)%bind_ok. destruct (bool_decide (text = []) && empty); [by inv_ok|].
  by inv_ok.
Qed.

Lemma check_integer_ok x u : check_integer x = Ok u → over INT64_MAX x = false.
Proof. destruct x; [|done]. unfold check_integer, integer. intros E. by inv_ok. Qed.

Lemma check_integer_fits x : over INT64_MAX x = false → check_integer x = Ok tt.
Proof. destruct x; [|done]. unfold check_integer, integer. cbn [over]. by intros ->. Qed.

Definition add_selected (acc : list bytes) (c : bytes) : result string (list bytes) :=
  k ← normalized c 128 false true; Ok (acc ++ [k]).

Lemma selected_ok cs acc r : fold_res add_selected acc cs = Ok r → Forall membership_fixed acc →
  Forall membership_fixed r ∧ length r = (length acc + length cs)%nat.
Proof.
  revert acc. induction cs as [|c cs IH]; intros acc; cbn [fold_res].
  - intros E ?. inv_ok. split; [done|]. cbn. lia.
  - intros (acc' & Hk & E)%bind_ok Hacc. apply bind_ok in Hk as (k & Hk & [= <-]).
    destruct (IH _ E) as [H1' H2'].
    { apply Forall_app. split; [done|]. constructor; [by eapply normalized_again|done]. }
    split; [done|]. rewrite H2', length_app. cbn [length]. lia.
Qed.

Lemma selected_again cs acc : Forall membership_fixed cs → fold_res add_selected acc cs = Ok (acc ++ cs).
Proof.
  intros Hcs. revert acc. induction Hcs as [|c cs Hc _ IH]; intros acc; cbn [fold_res]; [by rewrite app_nil_r|].
  assert (add_selected acc c = Ok (acc ++ [c])) as ->.
  { unfold add_selected. by rewrite Hc. }
  cbn [mbind result_bind]. by rewrite IH, <-app_assoc.
Qed.

Lemma normalize_filter_normal f f' : normalizeFilter f = Ok f' → filter_normal f'.
Proof.
  unfold normalizeFilter. fold add_selected. intros (t & Ht & E)%bind_ok. apply bind_ok in E as (p & Hp & E).
  apply bind_ok in E as (al & Hal & E). apply bind_ok in E as (an & Han & E). apply bind_ok in E as ([] & Hn & E).
  apply bind_ok in E as (cs & Hcs & E). apply bind_ok in E as (fs & Hfs & E). apply bind_ok in E as ([] & Hr & E).
  apply bind_ok in E as ([] & Hs1 & E). apply bind_ok in E as ([] & Hs2 & E). apply bind_ok in E as (d & Hd & E).
  apply bind_ok in E as ([] & Hlen & [= <-]). apply check_ok, negb_true_iff in Hn, Hr, Hlen.
  rewrite !orb_false_iff, !Z.ltb_ge in *. destruct Hn as [[Hn1 Hn2] Hn3]. destruct Hr as [[[Hr1 Hr2] Hr3] Hr4].
  destruct (selected_ok _ _ _ Hcs) as [Hc1 Hc2]; [constructor|]. destruct (fields_ok _ _ _ Hfs) as (Hf1 & Hf2 & Hf3).
  split; cbn [filter_text pathPrefix allKeywords anyKeywords colors filter_collections minimumRating
    maximumRating minimumSize maximumSize filter_fields]; try done.
  - by eapply normalized_again.
  - by pose proof (relativePath_id _ _ _ Hp) as ->.
  - by eapply terms_again.
  - by eapply terms_again.
  - cbn [length] in Hc2. split_and!; lia.
  - split; by eapply check_integer_ok.
  - by eexists.
Qed.

Lemma filter_normal_normalize f : filter_normal f → normalizeFilter f = Ok f.
Proof.
  intros [Ht Hp Hal Han (Hn1 & Hn2 & Hn3) Hcs [Hf1 Hf2] [Hr1 Hr2] [Hx1 Hx2] [Hs1 Hs2] (d & Hd & Hlen)].
  unfold normalizeFilter. fold add_selected. rewrite Ht. cbn [mbind result_bind]. rewrite Hp. cbn [mbind result_bind].
  rewrite Hal. cbn [mbind result_bind]. rewrite Han. cbn [mbind result_bind].
  rewrite (proj2 (Z.ltb_ge _ _) Hn1), (proj2 (Z.ltb_ge _ _) Hn2), (proj2 (Z.ltb_ge _ _) Hn3).
  cbn [orb negb check mbind result_bind]. rewrite (selected_again _ [] Hcs). cbn [app mbind result_bind].
  rewrite (fields_again _ [] _ Hf1 Hf2). cbn [app mbind result_bind].
  rewrite Hr1, Hr2, Hx1, Hx2. cbn [orb negb check mbind result_bind].
  rewrite (check_integer_fits _ Hs1), (check_integer_fits _ Hs2). cbn [mbind result_bind].
  destruct f as [ft fp fal fan fc fcs r1 r2 s1 s2 ff]. cbn [filter_text pathPrefix allKeywords anyKeywords colors filter_collections minimumRating
    maximumRating minimumSize maximumSize filter_fields] in *. rewrite Hd. cbn [mbind result_bind].
  by rewrite (proj2 (Z.ltb_ge _ _) Hlen).
Qed.

Context (real_cast : bytes → Z) (json_parse : bytes → option json).
Context (parse_dump : ∀ j d, json_ok j = true → dump j = Ok d → json_parse d = Some j).

Definition number_members (f : FileFilter) : list (bytes * json) :=
  match maximumRating f with Some z => [(lit "maximumRating", JInt z)] | None => [] end ++
  match maximumSize f with Some z => [(lit "maximumSize", JInt z)] | None => [] end ++
  match minimumRating f with Some z => [(lit "minimumRating", JInt z)] | None => [] end ++
  match minimumSize f with Some z => [(lit "minimumSize", JInt z)] | None => [] end.

Lemma filter_object f : filterJson f = JObject
  ([(lit "allKeywords", JArray (JString <$> allKeywords f)); (lit "anyKeywords", JArray (JString <$> anyKeywords f));
    (lit "collections", JArray (JString <$> filter_collections f));
    (lit "colors", JArray ((λ c, JInt (color_code c)) <$> colors f));
    (lit "fields", map_json (filter_fields f))] ++ number_members f ++
   [(lit "pathPrefix", JString (pathPrefix f)); (lit "text", JString (filter_text f))]).
Proof. unfold number_members. destruct f as [t p al an c cs [] [] [] [] fs]; reflexivity. Qed.

Lemma get_colors_codes cs : get_colors real_cast (JArray ((λ c, JInt (color_code c)) <$> cs)) = Ok cs.
Proof.
  unfold get_colors. cbn [elements]. match goal with |- fold_res ?g _ _ = _ =>
    assert (∀ acc, fold_res g acc ((λ c, JInt (color_code c)) <$> cs) = Ok (acc ++ cs)) as Hgen; [|apply Hgen] end.
  induction cs as [|c cs IH]; intros acc; cbn [fmap list_fmap fold_res]; [by rewrite app_nil_r|].
  assert (color_of_code (u32 (color_code c)) = Some c) as Hc by by destruct c.
  cbn [get_unsigned mbind result_bind]. rewrite Hc. cbn [of_option mbind result_bind]. by rewrite IH, <-app_assoc.
Qed.

Lemma small_number get bound x : nonnegative x → over bound x = false →
  (∀ z, 0 <= z <= bound → get (JInt z) = Ok z) →
  match JInt <$> x with Some v => z ← get v; Ok (Some z) | None => @Ok string _ None end = Ok x.
Proof.
  destruct x as [z|]; [|done]. cbn. intros Hz Hb Hget. apply Z.ltb_ge in Hb. by rewrite Hget by lia.
Qed.

Lemma filter_json_ok f : filter_normal f → json_ok (filterJson f) = true.
Proof.
  intros Hf. rewrite filter_object. pose proof (map_json_ok _ (proj1 (normal_pairs _ Hf))) as Hm.
  pose proof (strings_json_ok (allKeywords f)) as H1'. pose proof (strings_json_ok (anyKeywords f)) as H2'.
  pose proof (strings_json_ok (filter_collections f)) as H3'.
  assert (json_ok (JArray ((λ c, JInt (color_code c)) <$> colors f)) = true) as H4'.
  { cbn [json_ok]. by induction (colors f). }
  revert Hm H1' H2' H3' H4'. generalize (map_json (filter_fields f)), (JArray (JString <$> allKeywords f)),
    (JArray (JString <$> anyKeywords f)), (JArray (JString <$> filter_collections f)),
    (JArray ((λ c, JInt (color_code c)) <$> colors f)).
  unfold number_members. intros a b c d e Ha Hb Hc Hd He.
  destruct (maximumRating f), (maximumSize f), (minimumRating f), (minimumSize f);
    cbn [app json_ok forallb snd]; by rewrite Ha, Hb, Hc, Hd, He.
Qed.

(** The members of a printed filter, as [parseFilter] reads them. *)
Lemma filter_members f l : filterJson f = JObject l →
  member (lit "text") l = Some (JString (filter_text f)) ∧
  member (lit "pathPrefix") l = Some (JString (pathPrefix f)) ∧
  member (lit "allKeywords") l = Some (JArray (JString <$> allKeywords f)) ∧
  member (lit "anyKeywords") l = Some (JArray (JString <$> anyKeywords f)) ∧
  member (lit "colors") l = Some (JArray ((λ c, JInt (color_code c)) <$> colors f)) ∧
  member (lit "collections") l = Some (JArray (JString <$> filter_collections f)) ∧
  member (lit "fields") l = Some (map_json (filter_fields f)) ∧
  member (lit "minimumRating") l = JInt <$> minimumRating f ∧
  member (lit "maximumRating") l = JInt <$> maximumRating f ∧
  member (lit "minimumSize") l = JInt <$> minimumSize f ∧
  member (lit "maximumSize") l = JInt <$> maximumSize f.
Proof.
  rewrite filter_object. intros [= <-]. unfold number_members.
  destruct (maximumRating f), (maximumSize f), (minimumRating f), (minimumSize f); split_and!; reflexivity.
Qed.

Lemma filter_again f d : filter_normal f → filter_fits f → dump (filterJson f) = Ok d →
  parseFilter real_cast json_parse d = Ok f.
Proof.
  intros Hf (Hr1 & Hr2 & Hs1 & Hs2) Hd. unfold parseFilter, parse_json.
  rewrite (parse_dump _ _ (filter_json_ok f Hf) Hd). cbn [of_option mbind result_bind].
  destruct (filterJson f) as [| | | | | |l] eqn:Ej; try (rewrite filter_object in Ej; discriminate).
  destruct (filter_members f l Ej) as (E1 & E2 & E3 & E4 & E5 & E6 & E7 & E8 & E9 & E10 & E11).
  unfold value_as, optional_number, at_key. rewrite E1, E2, E3, E4, E5, E6, E7, E8, E9, E10, E11.
  cbn [of_option get_string mbind result_bind]. rewrite !get_strings_text. cbn [mbind result_bind].
  rewrite get_colors_codes, get_map_text. cbn [mbind result_bind].
  destruct (normal_ratings _ Hf) as [Hb1 Hb2]. destruct (normal_sizes _ Hf) as [Hb3 Hb4].
  assert (∀ z, 0 <= z <= 5 → get_unsigned real_cast (JInt z) = Ok z) as Hu.
  { intros z Hz. cbn. by rewrite u32_small by lia. }
  assert (∀ z, 0 <= z <= INT64_MAX → get_u64 real_cast (JInt z) = Ok z) as Hu64.
  { intros z Hz. cbn. rewrite u64_small; [done|]. unfold INT64_MAX, UINT64_MAX in *. lia. }
  rewrite (small_number _ _ _ Hr1 Hb1 Hu), (small_number _ _ _ Hr2 Hb2 Hu). cbn [mbind result_bind].
  rewrite (small_number _ _ _ Hs1 Hb3 Hu64), (small_number _ _ _ Hs2 Hb4 Hu64). cbn [mbind result_bind].
  destruct f. by apply filter_normal_normalize.
Qed.
End laws.

(** ** Managed paths *)

(** A name of a managed path. *)
Definition managed_name (p : bytes) : Prop :=
  private_name p = false ∧ device_name (base_name p) = false ∧
  has_byte "\"%char p = false ∧ has_byte ":"%char p = false.

Definition hidden_suffix (text : bytes) : bool :=
  ends_with companionSuffix (tolower <$> text) || ends_with (lit ".iisacc-preview") (tolower <$> text).

Lemma managed_plain p : private_name p = false → plain_name p.
Proof.
  unfold private_name. rewrite !orb_false_iff. intros ((((((H1 & _) & _) & _) & H2) & _) & _).
  apply bool_decide_eq_false in H1, H2. split_and!; [done| |]; by intros ->.
Qed.

Lemma has_byte_split c s : c ≠ "/"%char → has_byte c s = existsb (has_byte c) (split_slashes s).
Proof.
  intros Hc. induction s as [|x s IH]; [done|]. cbn [split_slashes].
  assert (has_byte c (x :: s) = bool_decide (c = x) || has_byte c s) as ->.
  { unfold has_byte. rewrite <-bool_decide_or. apply bool_decide_ext, elem_of_cons. }
  rewrite IH. case_bool_decide as Hx; case_bool_decide as Hs; subst; try done.
  - cbn. destruct (split_slashes s) as [|p ps]; cbn; unfold has_byte at 1.
    + by rewrite bool_decide_true by set_solver.
    + by rewrite bool_decide_true by set_solver.
  - destruct (split_slashes s) as [|p ps]; cbn.
    + unfold has_byte. by rewrite bool_decide_false by set_solver.
    + f_equal. unfold has_byte. apply bool_decide_ext. set_solver.
Qed.

Lemma existsb_none {A} (f : A → bool) l : existsb f l = false ↔ Forall (λ x, f x = false) l.
Proof. induction l as [|x l IH]; cbn; [done|]. by rewrite orb_false_iff, Forall_cons, IH. Qed.

Lemma for_each_ok {A} (f : A → result string unit) l u : for_each f l = Ok u ↔ Forall (λ x, f x = Ok tt) l.
Proof.
  unfold for_each. destruct u. induction l as [|x l IH]; cbn [fold_res]; [by split|].
  rewrite bind_ok, Forall_cons. split.
  - intros ([] & Hx & Hl). by rewrite <-IH.
  - intros [Hx Hl]. exists tt. by rewrite IH.
Qed.

Lemma check_name_ok p : check_name p = Ok tt ↔ private_name p = false ∧ device_name (base_name p) = false.
Proof.
  unfold check_name. destruct (private_name p), (device_name (base_name p)); cbn; naive_solver.
Qed.

Section managed.
Context `{Utf8proc, !CatalogUnicode}.

(** Exactly these paths are managed. *)
Lemma relativePath_ok text r : relativePath text false = Ok r ↔
  r = text ∧ is_ok (normalized text 4096 false true) = true ∧ has_byte NUL text = false ∧
  Forall managed_name (split_slashes text) ∧ hidden_suffix text = false.
Proof.
  unfold relativePath. rewrite andb_false_r. cbn [negb]. split.
  - intros (t & Ht & E)%bind_ok. apply bind_ok in E as ([] & Hc & E). apply bind_ok in E as ([] & Hl & E).
    apply bind_ok in E as ([] & Hn & [= <-]). apply check_ok, negb_true_iff in Hc. apply check_ok in Hl.
    apply bool_decide_eq_true in Hl. rewrite !orb_false_iff in Hc. destruct Hc as ((((((Hc1 & Hc2) & Hc3) & Hc4) & Hc5) & Hc6) & Hc7).
    apply for_each_ok in Hn. setoid_rewrite check_name_ok in Hn.
    assert (path_names text = split_slashes text) as Hparts.
    { apply canonical_parts; [|done]. eapply Forall_impl; [exact Hn|]. intros p [Hp _]. by apply managed_plain. }
    rewrite Hparts in Hn. rewrite has_byte_split, existsb_none in Hc3, Hc4 by done.
    split_and!; try done; [by rewrite Ht| |].
    + rewrite Forall_forall in *. intros p Hp. destruct (Hn p Hp). split_and!; auto.
    + unfold hidden_suffix. by rewrite Hc6, Hc7.
  - intros (-> & Ht & Hnul & Hm & Hs). destruct (normalized text 4096 false true) as [t|] eqn:E; [|done].
    cbn [mbind result_bind].
    assert (Forall plain_name (split_slashes text)) as Hplain.
    { eapply Forall_impl; [exact Hm|]. intros p [Hp _]. by apply managed_plain. }
    assert (path_names text = split_slashes text) as Hparts.
    { unfold path_names. destruct (split_slashes_last text) as (parts & part & Es). rewrite Es in *.
      rewrite removelast_last, last_snoc. f_equal. apply Forall_app in Hplain as [Hplain _].
      clear -Hplain. induction Hplain as [|p parts (Hp & _) _ IH]; [done|].
      rewrite filter_cons_True by done. by rewrite IH. }
    assert (text ≠ [] ∧ head text ≠ Some "/"%char) as [Hne Hhead].
    { clear -Hplain. split; [intros ->|intros Hh].
      - by apply Forall_cons in Hplain as [(Hp & _) _].
      - destruct text as [|c text]; [done|]. injection Hh as ->. cbn in Hplain.
        by apply Forall_cons in Hplain as [(Hp & _) _]. }
    assert (lexically_normal text = text) as Hl.
    { rewrite lexically_plain; [|by rewrite Hparts|apply path_names_nonempty].
      rewrite Hparts. apply split_slashes_join. }
    unfold hidden_suffix in Hs. apply orb_false_iff in Hs as [Hs1 Hs2]. rewrite Hs1, Hs2, Hnul.
    rewrite (bool_decide_false (text = [])), (bool_decide_false (head text = _)) by done.
    rewrite !has_byte_split by done. assert (existsb (has_byte "\"%char) (split_slashes text) = false) as ->.
    { apply existsb_none. eapply Forall_impl; [exact Hm|]. by intros p (_ & _ & ? & _). }
    assert (existsb (has_byte ":"%char) (split_slashes text) = false) as ->.
    { apply existsb_none. eapply Forall_impl; [exact Hm|]. by intros p (_ & _ & _ & ?). }
    cbn [orb negb check mbind result_bind]. rewrite bool_decide_true by done. cbn [check mbind result_bind].
    assert (for_each check_name (path_names text) = Ok tt) as ->; [|done]. apply for_each_ok. rewrite Hparts.
    eapply Forall_impl; [exact Hm|]. intros p (? & ? & _). by apply check_name_ok.
Qed.

(** The companion of a path is not a managed path. *)
Lemma companion_unmanaged text r : relativePath (text ++ companionSuffix) false ≠ Ok r.
Proof.
  intros (_ & _ & _ & _ & Hs)%relativePath_ok. unfold hidden_suffix in Hs. apply orb_false_iff in Hs as [Hs _].
  unfold ends_with in Hs. rewrite fmap_app in Hs. change (tolower <$> companionSuffix) with companionSuffix in Hs.
  rewrite length_app, (proj2 (Nat.leb_le _ _)), drop_app_length' in Hs by lia. by rewrite bool_decide_true in Hs.
Qed.
End managed.

(** ** Search expressions *)
Section words.
Context `{CatalogUnicodeLaws}.

(** The runs of letters, marks and numbers. *)
Fixpoint split_words (points : list Z) : list (list Z) :=
  match points with
  | [] => [[]]
  | c :: points =>
      if utf8proc_word c then
        match split_words points with w :: ws => (c :: w) :: ws | [] => [[c]] end
      else [] :: split_words points
  end.

Definition text_words (points : list Z) : list (list Z) := filter (λ w, w ≠ []) (split_words points).

Lemma split_words_head points : ∃ w ws, split_words points = w :: ws.
Proof.
  induction points as [|c points (w & ws & IH)]; cbn; [by eexists _, _|].
  rewrite IH. destruct (utf8proc_word c); by eexists _, _.
Qed.

Lemma split_words_words points : Forall (Forall (λ c, utf8proc_word c = true)) (split_words points).
Proof.
  induction points as [|c points IH]; cbn; [by repeat constructor|].
  destruct (utf8proc_word c) eqn:Ec; [|by constructor].
  destruct (split_words points) as [|w ws]; [by repeat constructor|].
  apply Forall_cons in IH as [Hw Hws]. by repeat constructor.
Qed.

Lemma utf8_nil points : Forall scalar points → bool_decide (utf8 points = []) = bool_decide (points = []).
Proof.
  intros Hs. apply bool_decide_ext. split; [|by intros ->]. destruct Hs as [|c points Hc _]; [done|].
  rewrite utf8_cons. intros [Hn _]%app_nil. by apply encode_nonempty in Hn; [|apply Is_true_true].
Qed.

(** The loop adds the words of the rest, the first of them continuing [word]. *)
Lemma words_from_spec fuel points words word : Forall scalar points → Forall scalar word →
  (length (utf8 points) <= fuel)%nat → ∀ w ws, split_words points = w :: ws →
  words_from fuel (utf8 points) words (utf8 word) =
    Ok (words ++ (utf8 <$> filter (λ w, w ≠ []) ((word ++ w) :: ws))).
Proof.
  intros Hp. revert fuel words word. induction Hp as [|c points Hc Hp IH]; intros fuel words word Hw Hlen w ws Hs.
  - injection Hs as <- <-. destruct fuel; cbn [words_from utf8 concat fmap list_fmap]; rewrite utf8_nil, app_nil_r by done;
      rewrite filter_cons; case_bool_decide; cbn; case_decide; subst; cbn; rewrite ?app_nil_r; done.
  - apply Is_true_true in Hc. pose proof (encode_nonempty c Hc) as Hne. rewrite utf8_cons in *.
    destruct (utf8proc_encode_char c) as [|b l] eqn:Ec; [done|].
    rewrite length_app in Hlen. cbn [length] in Hlen. destruct fuel as [|fuel]; [lia|].
    pose proof (iterate_encode c (utf8 points) Hc) as Hit. rewrite Ec in Hit.
    destruct (split_words_head points) as (w' & ws' & Hs'). cbn [split_words] in Hs. rewrite Hs' in Hs.
    change ((b :: l) ++ utf8 points) with (b :: (l ++ utf8 points)). cbn [words_from].
    change (b :: (l ++ utf8 points)) with ((b :: l) ++ utf8 points). rewrite Hit. cbn [of_option mbind result_bind].
    rewrite drop_app_length, take_app_length. destruct (utf8proc_word c).
    + injection Hs as <- <-. rewrite <-Ec.
      assert (utf8 word ++ utf8proc_encode_char c = utf8 (word ++ [c])) as ->.
      { rewrite utf8_app, utf8_cons. unfold utf8 at 3. cbn. by rewrite app_nil_r. }
      rewrite (IH fuel words (word ++ [c])) with (w := w') (ws := ws'); [by rewrite <-app_assoc| |lia|done].
      apply Forall_app. split; [done|]. repeat constructor. by apply Is_true_true.
    + injection Hs as <- <-. rewrite utf8_nil by done.
      match goal with |- words_from _ _ ?ws0 _ = _ => change (words_from fuel (utf8 points) ws0 (utf8 []) = Ok (words ++ (utf8 <$> filter (λ w, w ≠ []) ((word ++ []) :: w' :: ws')))) end.
      rewrite (IH fuel _ []) with (w := w') (ws := ws'); [|constructor|lia|done].
      rewrite app_nil_r, (filter_cons _ word). cbn [app]. case_bool_decide; case_decide; try done; cbn [fmap list_fmap].
      by rewrite <-app_assoc.
Qed.

Lemma encode_high c : scalar c = true → 128 <= c → Forall (λ b, 128 <= byteZ b) (utf8proc_encode_char c).
Proof.
  unfold scalar. intros Hc Hh. rewrite encode_eq by lia. rewrite (proj2 (Z.ltb_ge c 0x80)) by lia.
  apply Forall_fmap. destruct (Z.ltb_spec c 0x800); [|destruct (Z.ltb_spec c 0x10000)]; repeat constructor;
    unfold compose; rewrite byteZ_Zbyte, u8_mod, Z.mod_small; Z.to_euclidean_division_equations; lia.
Qed.

(** A word has no quotation mark. *)
Lemma word_unquoted w : Forall scalar w → Forall (λ c, utf8proc_word c = true) w → ascii_of_N 34 ∉ utf8 w.
Proof.
  induction 1 as [|c w Hc _ IH]; intros Hw; [set_solver|]. apply Forall_cons in Hw as [Hcw Hw]. rewrite utf8_cons.
  apply Is_true_true in Hc. apply not_elem_of_app. split; [|by apply IH]. clear IH Hw.
  destruct (Z.ltb_spec c 128) as [Hlow|Hhigh].
  - unfold scalar in Hc. assert (0 <= c) by lia. rewrite (proj2 (encode_point1 c ltac:(lia))).
    intros Hin%list_elem_of_singleton. apply (f_equal byteZ) in Hin. rewrite byteZ_Zbyte, u8_mod, Z.mod_small in Hin by lia.
    change (byteZ (ascii_of_N 34)) with 34 in Hin. subst c. rewrite word_ascii in Hcw by lia. done.
  - intros Hin. pose proof (encode_high c Hc Hhigh) as Hh. rewrite Forall_forall in Hh.
    specialize (Hh _ Hin). change (byteZ (ascii_of_N 34)) with 34 in Hh. lia.
Qed.

(** What a text searches for: its words as quoted prefixes, all of them. *)
Lemma matchExpression_words points : Forall scalar points →
  matchExpression (utf8 points) =
    let words := utf8 <$> text_words points in
    if bool_decide (words = []) || (32 <? len words)
    then Err (fail "search needs one to 32 word prefixes")
    else Ok (join (lit " AND ") (word_prefix <$> words)).
Proof.
  intros Hp. destruct (split_words_head points) as (w & ws & Hs). unfold matchExpression, text_words.
  pose proof (words_from_spec _ points [] [] Hp (Forall_nil_2 _) (le_n _) w ws Hs) as E.
  change (utf8 []) with (@nil ascii) in E. rewrite E, Hs. cbn [app mbind result_bind].
  cbv zeta. by destruct (bool_decide _ || _).
Qed.

Lemma text_words_plain points w : w ∈ text_words points → w ≠ [] ∧ Forall (λ c, utf8proc_word c = true) w.
Proof.
  unfold text_words. intros [Hne Hin]%list_elem_of_filter. split; [done|].
  pose proof (split_words_words points) as Hw. rewrite Forall_forall in Hw. by apply Hw.
Qed.
End words.
