(* ===== verification/CatalogTables.v ===== *)
(** The catalog's database (catalog.sqlite3): its tables, and each SQL statement of
    src/Catalog/FileCatalog.cpp as a function on them, with the constraints of the
    schema.

    The rows of [keywords], [fields] and [members] are kept by file, in the order of
    the second part of their primary key; [collections] and [saved_filters] are kept
    in the order of their unique column [folded]. *)
From S2P Require Import Prelude Text Paths Unicode Json JsonObject MetadataCodec Table CatalogData.
Local Open Scope Z_scope.

(** ** Tables *)

Record FileRow := {
  row_key : bytes;
  row_path : bytes;
  row_identity : bytes;
  row_size : Z;
  row_modified : Z;
  row_stamp : bytes;
  row_revision : Z;
  row_rating : Z;
  row_color : Z;
  row_title : bytes;
  row_metadata : bytes
}.

Record CollectionRow := { coll_key : bytes; coll_name : bytes; coll_folded : bytes }.

Record FilterRow := { sf_key : bytes; sf_name : bytes; sf_folded : bytes; sf_filter : bytes }.

(** A row of the virtual table [search_fts]. *)
Record FtsRow := {
  fts_path : bytes;
  fts_title : bytes;
  fts_description : bytes;
  fts_keywords : bytes;
  fts_fields : bytes
}.

Record Db := {
  db_application : Z;                 (* PRAGMA application_id *)
  db_version : Z;                     (* PRAGMA user_version *)
  db_foreign : bool;                  (* the schema holds objects of somebody else *)
  db_id : bytes;
  db_revision : Z;
  db_files : table FileRow;
  db_sequence : Z;                    (* sqlite_sequence of [files] *)
  db_keywords : gmap Z (list bytes);
  db_fields : gmap Z string_map;
  db_collections : list CollectionRow;
  db_members : gmap Z (list bytes);
  db_saved : list FilterRow;
  db_pending : table unit;
  db_search : table FtsRow
}.

Definition applicationId : Z := 0x49494643.

(** [CREATE TABLE ...; INSERT INTO catalog VALUES(?,0)]. *)
Definition create_schema (id : bytes) : Db :=
  {| db_application := applicationId; db_version := 1; db_foreign := false; db_id := id; db_revision := 0;
     db_files := []; db_sequence := 0; db_keywords := ∅; db_fields := ∅; db_collections := []; db_members := ∅;
     db_saved := []; db_pending := []; db_search := [] |}.

Definition set_revision (n : Z) (db : Db) : Db :=
  {| db_application := db_application db; db_version := db_version db; db_foreign := db_foreign db; db_id := db_id db;
     db_revision := n; db_files := db_files db; db_sequence := db_sequence db; db_keywords := db_keywords db;
     db_fields := db_fields db; db_collections := db_collections db; db_members := db_members db;
     db_saved := db_saved db; db_pending := db_pending db; db_search := db_search db |}.
Definition set_files (t : table FileRow) (n : Z) (db : Db) : Db :=
  {| db_application := db_application db; db_version := db_version db; db_foreign := db_foreign db; db_id := db_id db;
     db_revision := db_revision db; db_files := t; db_sequence := n; db_keywords := db_keywords db;
     db_fields := db_fields db; db_collections := db_collections db; db_members := db_members db;
     db_saved := db_saved db; db_pending := db_pending db; db_search := db_search db |}.
Definition set_index (k : gmap Z (list bytes)) (f : gmap Z string_map) (m : gmap Z (list bytes)) (t : table FtsRow)
    (db : Db) : Db :=
  {| db_application := db_application db; db_version := db_version db; db_foreign := db_foreign db; db_id := db_id db;
     db_revision := db_revision db; db_files := db_files db; db_sequence := db_sequence db; db_keywords := k;
     db_fields := f; db_collections := db_collections db; db_members := m; db_saved := db_saved db;
     db_pending := db_pending db; db_search := t |}.
Definition set_collections (c : list CollectionRow) (m : gmap Z (list bytes)) (db : Db) : Db :=
  {| db_application := db_application db; db_version := db_version db; db_foreign := db_foreign db; db_id := db_id db;
     db_revision := db_revision db; db_files := db_files db; db_sequence := db_sequence db;
     db_keywords := db_keywords db; db_fields := db_fields db; db_collections := c; db_members := m;
     db_saved := db_saved db; db_pending := db_pending db; db_search := db_search db |}.
Definition set_saved (s : list FilterRow) (db : Db) : Db :=
  {| db_application := db_application db; db_version := db_version db; db_foreign := db_foreign db; db_id := db_id db;
     db_revision := db_revision db; db_files := db_files db; db_sequence := db_sequence db;
     db_keywords := db_keywords db; db_fields := db_fields db; db_collections := db_collections db;
     db_members := db_members db; db_saved := s; db_pending := db_pending db; db_search := db_search db |}.
Definition set_pending (p : table unit) (db : Db) : Db :=
  {| db_application := db_application db; db_version := db_version db; db_foreign := db_foreign db; db_id := db_id db;
     db_revision := db_revision db; db_files := db_files db; db_sequence := db_sequence db;
     db_keywords := db_keywords db; db_fields := db_fields db; db_collections := db_collections db;
     db_members := db_members db; db_saved := db_saved db; db_pending := p; db_search := db_search db |}.

(** ** Statements on files *)

Abbreviation sql := (result string).

(** [Statement::bind] of a text: what is longer is refused. *)
Definition bind_text (s : bytes) : sql unit :=
  check (negb (maximumMetadataBytes + 65536 <? len s)) (fail "SQLite text limit").

(** [UPDATE catalog SET revision=revision+1]: past the last integer the sum is a real
    number, which the CHECK refuses. *)
Definition bump (db : Db) : sql Db :=
  _ ← check (db_revision db <? INT64_MAX) (fail "CHECK constraint failed: catalog");
  Ok (set_revision (db_revision db + 1) db).

Definition file_by_key (key : bytes) (db : Db) : option (Z * FileRow) :=
  List.find (λ r, bool_decide (row_key r.2 = key)) (db_files db).
Definition file_by_path (path : bytes) (db : Db) : option (Z * FileRow) :=
  List.find (λ r, bool_decide (row_path r.2 = path)) (db_files db).
Definition file_by_identity (identity : bytes) (db : Db) : option (Z * FileRow) :=
  List.find (λ r, bool_decide (row_identity r.2 = identity)) (db_files db).

(** The constraints of a row of [files] among the other rows. *)
Definition file_constraints (id : Z) (row : FileRow) (db : Db) : sql unit :=
  let others := filter (λ r, r.1 ≠ id) (db_files db) in
  _ ← check (negb (existsb (λ r, bool_decide (row_key r.2 = row_key row)) others))
        (fail "UNIQUE constraint failed: files.key");
  _ ← check (negb (existsb (λ r, bool_decide (row_path r.2 = row_path row)) others))
        (fail "UNIQUE constraint failed: files.path");
  _ ← check (negb (existsb (λ r, bool_decide (row_identity r.2 = row_identity row)) others))
        (fail "UNIQUE constraint failed: files.identity");
  check ((0 <=? row_size row) && (0 <? row_revision row) && (row_revision row <=? INT64_MAX)
         && (0 <=? row_rating row) && (row_rating row <=? 5) && (0 <=? row_color row) && (row_color row <=? 7))
    (fail "CHECK constraint failed: files").

(** [UPDATE files SET ... WHERE id=?] where the row is there. *)
Definition update_file (id : Z) (f : FileRow → FileRow) (db : Db) : sql Db :=
  match row_lookup id (db_files db) with
  | None => Ok db
  | Some row =>
      _ ← file_constraints id (f row) db;
      Ok (set_files (row_replace id (f row) (db_files db)) (db_sequence db) db)
  end.

(** [INSERT INTO files], AUTOINCREMENT: the new row and its number. *)
Definition insert_file (row : FileRow) (db : Db) : sql (Z * Db) :=
  _ ← check (db_sequence db <? INT64_MAX) (fail "database or disk is full");
  let id := db_sequence db + 1 in
  _ ← file_constraints id row db;
  t ← of_option (fail "UNIQUE constraint failed: files.id") (row_insert id row (db_files db));
  Ok (id, set_files t id db).

Section statements.
Context `{Utf8proc, !CatalogUnicode} (real_cast : bytes → Z) (json_parse : bytes → option json).

Definition members_of (id : Z) (db : Db) : list bytes := default [] (db_members db !! id).

Definition with_collections (m : FileMetadata) (c : list bytes) : FileMetadata :=
  {| title := title m; description := description m; keywords := keywords m; rating := rating m; color := color m;
     fields := fields m; collections := c |}.

(** [entry]: the annotations come from the document, the memberships from their table. *)
Definition entry (id : Z) (row : FileRow) (db : Db) : sql CatalogFile :=
  j ← parse_json json_parse (row_metadata row);
  m ← parseMetadata j;
  Ok {| file_key := row_key row; file_index := id; file_revision := row_revision row; file_path := row_path row;
        file_size := row_size row; modifiedAtNs := row_modified row; contentVersion := row_stamp row;
        file_metadata := with_collections m (members_of id db);
        metadataPending := bool_decide (is_Some (row_lookup id (db_pending db))) |}.

Definition entry_of (r : option (Z * FileRow)) (db : Db) : sql (option CatalogFile) :=
  match r with Some (id, row) => f ← entry id row db; Ok (Some f) | None => Ok None end.

Definition find (value : bytes) (byPath : bool) (db : Db) : sql (option CatalogFile) :=
  entry_of ((if byPath then file_by_path else file_by_key) value db) db.

Definition require (key : bytes) (db : Db) : sql CatalogFile :=
  k ← normalized key 128 false true;
  f ← find k false db;
  of_option (fail "file key is not registered") f.

(** ** Annotations *)

(** [INSERT INTO keywords VALUES(?,?)] and [INSERT INTO members VALUES(?,?)]. *)
Definition insert_keyword (id : Z) (acc : list bytes) (keyword : bytes) : sql (list bytes) :=
  term ← normalized keyword 512 true false;
  _ ← check (negb (bool_decide (term ∈ acc))) (fail "UNIQUE constraint failed: keywords.file_id, keywords.term");
  Ok (set_insert term acc).

Definition insert_member (known : list CollectionRow) (acc : list bytes) (key : bytes) : sql (list bytes) :=
  _ ← check (negb (bool_decide (key ∈ acc))) (fail "UNIQUE constraint failed: members.file_id, members.collection_key");
  _ ← check (existsb (λ c, bool_decide (coll_key c = key)) known) (fail "FOREIGN KEY constraint failed");
  Ok (set_insert key acc).

Definition insert_field (acc : string_map) (kv : bytes * bytes) : sql string_map :=
  of_option (fail "UNIQUE constraint failed: fields.file_id, fields.name") (map_emplace kv.1 kv.2 acc).

Definition lines (l : list bytes) : bytes := l ≫= λ s, s ++ lit (String "010" EmptyString).

(** The document of a row: its memberships are kept in their own table. *)
Definition stored_json (m : FileMetadata) : json :=
  match metadataJson m with
  | JObject l => JObject (object_set (lit "collections") (JArray []) l)
  | j => j
  end.

Definition set_annotations (m : FileMetadata) (text : bytes) (row : FileRow) : FileRow :=
  {| row_key := row_key row; row_path := row_path row; row_identity := row_identity row; row_size := row_size row;
     row_modified := row_modified row; row_stamp := row_stamp row; row_revision := row_revision row;
     row_rating := rating m; row_color := color_code (color m); row_title := title m; row_metadata := text |}.

Definition annotations (id : Z) (path : bytes) (m : FileMetadata) (db : Db) : sql Db :=
  text ← dump (stored_json m);
  _ ← bind_text (title m);
  _ ← bind_text text;
  db ← update_file id (set_annotations m text) db;
  k ← fold_res (insert_keyword id) [] (keywords m);
  f ← fold_res insert_field [] (fields m);
  c ← fold_res (insert_member (db_collections db)) [] (collections m);
  let row := {| fts_path := path; fts_title := title m; fts_description := description m;
                fts_keywords := lines (keywords m); fts_fields := fields m ≫= λ kv, lines [kv.1; kv.2] |} in
  _ ← bind_text path;
  _ ← bind_text (fts_description row);
  _ ← bind_text (fts_keywords row);
  _ ← bind_text (fts_fields row);
  let db := set_index (<[id := k]> (db_keywords db)) (<[id := f]> (db_fields db)) (<[id := c]> (db_members db))
              (row_replace id row (db_search db)) db in
  Ok (set_pending (row_replace id tt (db_pending db)) db).

(** ** Companions *)

Definition collection_by_key (key : bytes) (db : Db) : option CollectionRow :=
  List.find (λ c, bool_decide (coll_key c = key)) (db_collections db).

(** The memberships whose collection exists, with its name. *)
Definition named_memberships (keys : list bytes) (db : Db) : list (bytes * bytes) :=
  omap (λ k, c ← collection_by_key k db; Some (k, coll_name c)) keys.

Definition membership_json (kn : bytes * bytes) : json :=
  json_object [(lit "key", JString kn.1); (lit "name", JString kn.2)].

Definition document_json (f : CatalogFile) (named : list (bytes * bytes)) : json :=
  json_object [(lit "format", JString (lit "iiFileProvider.Metadata")); (lit "schema", JInt 1);
    (lit "fileKey", JString (file_key f)); (lit "path", JString (file_path f));
    (lit "revision", JInt (file_revision f)); (lit "metadata", metadataJson (file_metadata f));
    (lit "collections", JArray (membership_json <$> named))].

Definition document (f : CatalogFile) (db : Db) : sql bytes :=
  dump (document_json f (named_memberships (collections (file_metadata f)) db)).

(** ** Collections *)

(** A row takes its place in the order of a UNIQUE column. *)
Fixpoint insert_by {A} (f : A → bytes) (x : A) (l : list A) : option (list A) :=
  match l with
  | [] => Some [x]
  | y :: l' =>
      match bytes_compare (f x) (f y) with
      | Lt => Some (x :: l)
      | Eq => None
      | Gt => l' ← insert_by f x l'; Some (y :: l')
      end
  end.

(** [INSERT INTO collections VALUES(?,?,?)]. *)
Definition insert_collection (key name folded : bytes) (db : Db) : sql Db :=
  _ ← check (negb (existsb (λ c, bool_decide (coll_key c = key)) (db_collections db)))
        (fail "UNIQUE constraint failed: collections.key");
  l ← of_option (fail "UNIQUE constraint failed: collections.folded")
        (insert_by coll_folded {| coll_key := key; coll_name := name; coll_folded := folded |} (db_collections db));
  Ok (set_collections l (db_members db) db).

(** [UPDATE collections SET name=?,folded=? WHERE key=?]; no change is an error. *)
Definition rename_row (key name folded : bytes) (db : Db) : sql Db :=
  _ ← check (existsb (λ c, bool_decide (coll_key c = key)) (db_collections db)) (fail "collection does not exist");
  l ← of_option (fail "UNIQUE constraint failed: collections.folded")
        (insert_by coll_folded {| coll_key := key; coll_name := name; coll_folded := folded |}
          (filter (λ c, coll_key c ≠ key) (db_collections db)));
  Ok (set_collections l (db_members db) db).

(** [DELETE FROM collections WHERE key=?], with the members of the collection. *)
Definition delete_collection (key : bytes) (db : Db) : sql Db :=
  _ ← check (existsb (λ c, bool_decide (coll_key c = key)) (db_collections db)) (fail "collection does not exist");
  Ok (set_collections (filter (λ c, coll_key c ≠ key) (db_collections db))
        ((filter (λ k, k ≠ key)) <$> db_members db) db).

(** [SELECT file_id FROM members WHERE collection_key=?]. *)
Definition is_member (key : bytes) (db : Db) (id : Z) : bool := bool_decide (key ∈ members_of id db).

(** [UPDATE files SET revision=revision+1 WHERE id IN(...)]. *)
Definition next_revision (row : FileRow) : FileRow :=
  {| row_key := row_key row; row_path := row_path row; row_identity := row_identity row; row_size := row_size row;
     row_modified := row_modified row; row_stamp := row_stamp row; row_revision := row_revision row + 1;
     row_rating := row_rating row; row_color := row_color row; row_title := row_title row;
     row_metadata := row_metadata row |}.

Definition member_ids (key : bytes) (db : Db) : list Z := filter (λ id, is_member key db id) (db_files db).*1.

Definition touch_members (key : bytes) (db : Db) : sql Db :=
  db ← fold_res (λ db id, update_file id next_revision db) db (member_ids key db);
  Ok (set_pending (foldl (λ p id, row_replace id tt p) (db_pending db) (member_ids key db)) db).

(** ** Companion collections *)

Definition restore_one (st : Db * list (bytes * bytes)) (c : json) : sql (Db * list (bytes * bytes)) :=
  let '(db, remap) := st in
  rk ← at_string c "key";
  ckey ← normalized rk 128 false true;
  rn ← at_string c "name";
  name ← normalized rn 512 false true;
  folded ← normalized name 512 true false;
  match collection_by_key ckey db with
  | Some row => Ok (db, (ckey, coll_key row) :: remap)
  | None =>
      match List.find (λ c, bool_decide (coll_folded c = folded)) (db_collections db) with
      | Some row => Ok (db, (ckey, coll_key row) :: remap)
      | None =>
          _ ← check (len (db_collections db) <? 4096) (fail "collection count exceeds limit");
          db ← insert_collection ckey name folded db;
          Ok (db, (ckey, ckey) :: remap)
      end
  end.

Definition restoreCollections (j : json) (m : FileMetadata) (db : Db) : sql (FileMetadata * Db) :=
  cs ← at_key j (lit "collections");
  '(db, remap) ← fold_res restore_one (db, []) (elements cs);
  c ← fold_res (λ acc k, k' ← of_option (fail "companion has unknown collection membership") (assoc k remap);
        Ok (acc ++ [k'])) [] (collections m);
  m ← normalizeMetadata (with_collections m c);
  Ok (m, db).
End statements.
