(* ===== verification/CatalogStore.v ===== *)
(** The operations of the catalog (src/Catalog/FileCatalog.cpp, class [FileCatalog]
    and its [Impl]).

    An operation runs in a [World]: the database, the file system as [lstat] and
    [open] show it, and a clock that counts what is asked of the outside.  At each
    look other processes may have changed the file system ([others]); at each
    statement outside a transaction, and at the start of one, they may have committed
    to the database ([writers]); each call that the system can refuse is answered by
    [permits].  The native presentation component is not compiled in; what it would
    do to a file is done by [others]. *)
From S2P Require Import Prelude Text Paths Unicode Json JsonObject Sha256 MetadataCodec Table Proc CatalogData CatalogTables.
Local Open Scope Z_scope.
Local Open Scope proc_scope.

(** ** The file system *)

Inductive NodeKind := Regular | Directory | Link | Special.

#[export] Instance NodeKind_eq_dec : EqDecision NodeKind.
Proof. solve_decision. Defined.

(** What [lstat] shows. *)
Record NodeStat := {
  node_dev : Z;
  node_ino : Z;
  node_size : Z;
  mtime_sec : Z;
  mtime_nsec : Z;
  ctime_sec : Z;
  ctime_nsec : Z
}.

(** [node_reads] is what reading the path gives, if it can be opened. *)
Record Node := { node_kind : NodeKind; node_stat : NodeStat; node_reads : option bytes }.

Abbreviation Fs := (gmap bytes Node).

Record Physical := { identity : bytes; version : bytes; physical_size : Z; modified : Z }.

Definition colon : bytes := lit ":".

Definition physical (s : NodeStat) : Physical :=
  let id := to_string (node_dev s) ++ colon ++ to_string (node_ino s) in
  {| identity := id;
     version := id ++ colon ++ to_string (node_size s) ++ colon ++ to_string (mtime_sec s) ++ colon
       ++ to_string (mtime_nsec s) ++ colon ++ to_string (ctime_sec s) ++ colon ++ to_string (ctime_nsec s);
     physical_size := node_size s;
     modified := mtime_sec s * 1000000000 + mtime_nsec s |}.

Definition exists_node (path : bytes) (fs : Fs) : bool := bool_decide (is_Some (fs !! path)).
Definition kind_at (path : bytes) (fs : Fs) : option NodeKind := node_kind <$> fs !! path.
Definition is_kind (k : NodeKind) (path : bytes) (fs : Fs) : bool := bool_decide (kind_at path fs = Some k).

(** ** The world *)

Record World := { tick : nat; db : Db; fs : Fs }.

Record Outside := {
  others : nat → Fs → Fs;
  writers : nat → Db → Db;
  permits : nat → bool;
  random_bytes : nat → bytes;                     (* [randomblob(16)] *)
  os_stat : nat → bytes → NodeStat                (* of a name that is made *)
}.

(** What [d] holds besides the connection. *)
Record Impl := {
  root : bytes;
  rootIdentity : bytes;
  stateIdentity : bytes;
  databaseIdentity : bytes;
  catalogId : bytes;
  readOnly : bool
}.

Inductive Access := ReadOnly | ReadWrite | Create.

#[export] Instance Access_eq_dec : EqDecision Access.
Proof. solve_decision. Defined.

Definition advance (w : World) : World := {| tick := S (tick w); db := db w; fs := fs w |}.
Definition put_db (d : Db) (w : World) : World := {| tick := tick w; db := d; fs := fs w |}.
Definition put_fs (f : Fs) (w : World) : World := {| tick := tick w; db := db w; fs := f |}.

Section catalog.
Context `{Utf8proc, !CatalogUnicode} (real_cast : bytes → Z) (json_parse : bytes → option json).
Context (fts_match : FtsRow → bytes → bool) (W : Outside).

(** A look at the file system. *)
Definition look : proc World Fs := λ w,
  let f := others W (tick w) (fs w) in (Ok f, advance (put_fs f w)).
(** A call that may be refused. *)
Definition attempt (message : string) : proc World unit := λ w,
  (check (permits W (tick w)) (fail message), advance w).
(** What others have committed becomes visible. *)
Definition refresh : proc World unit := λ w, (Ok tt, advance (put_db (writers W (tick w) (db w)) w)).

Definition query {A} (f : Db → result string A) : proc World A := λ w, (f (db w), w).
Definition execute (f : Db → result string Db) : proc World unit := λ w,
  match f (db w) with Ok d => (Ok tt, put_db d w) | Err m => (Err m, w) end.
Definition change_fs (f : nat → Fs → Fs) : proc World unit := λ w, (Ok tt, advance (put_fs (f (tick w) (fs w)) w)).

(** [Transaction]: what throws before the end of COMMIT is rolled back, files are
    not. *)
Definition begin_ : proc World unit := refresh ;; attempt "database is locked".
Definition commit : proc World unit := attempt "COMMIT failed".
Definition scoped {A} (p : proc World A) : proc World A := λ w,
  match p w with (Err m, w') => (Err m, put_db (db w) w') | r => r end.
Definition transaction {A} (body : proc World A) : proc World A :=
  begin_ ;; scoped (a <- body ; commit ;; ret a).

(** A statement outside a transaction. *)
Definition alone {A} (f : Db → result string A) : proc World A := refresh ;; query f.

Definition newKey (prefix : bytes) : proc World bytes := λ w,
  (Ok (prefix ++ (random_bytes W (tick w) ≫= Sha256.hex_byte)), advance w).

(** A loop whose body is a procedure. *)
Fixpoint loop {A B} (f : B → A → proc World B) (b : B) (l : list A) : proc World B :=
  match l with [] => ret b | x :: l => b' <- f b x ; loop f b' l end.

(** ** Inspection *)

Definition redirected : string := fail "path is missing, redirected or not the expected file type".

(** [lstat] follows the look at the kind. *)
Definition inspect (path : bytes) (directory : bool) : proc World Physical :=
  f <- look ;
  guard (is_kind (if directory then Directory else Regular) path f) redirected ;;
  f <- look ;
  n <- lift (of_option (fail "cannot inspect file metadata") (f !! path)) ;
  guard (0 <=? node_size (node_stat n)) (fail "negative native file size") ;;
  ret (physical (node_stat n)).

Definition smallRead (path : bytes) : proc World bytes :=
  state <- inspect path false ;
  guard (negb (maximumMetadataBytes <? physical_size state)) (fail "companion exceeds metadata limit") ;;
  f <- look ;
  bytes <- lift (of_option (fail "cannot read stable metadata companion") (f !! path ≫= node_reads)) ;
  guard (len bytes =? physical_size state) (fail "cannot read stable metadata companion") ;;
  again <- inspect path false ;
  guard (bool_decide (version again = version state)) (fail "companion changed while reading") ;;
  ret bytes.

Definition companion (path : bytes) : proc World json :=
  text <- smallRead path ; lift (companion_of real_cast json_parse text).

Definition sidecar (path : bytes) : bytes := path ++ companionSuffix.

(** ** Staged files *)

Definition new_node (t : nat) (path content : bytes) : Node :=
  {| node_kind := Regular; node_stat := os_stat W t path; node_reads := Some content |}.

(** [Stage]: the staged file is removed on the way out; after [publish] there is
    nothing left under its name. *)
Definition staged {A} (parent nonce : bytes) (body : bytes → proc World A) : proc World A :=
  let path := slash parent (lit ".iifile-stage-" ++ nonce) in
  attempt "temporary lease unavailable" ;;
  f <- look ;
  guard (negb (exists_node path f)) (fail "cannot reserve staged file") ;;
  attempt "cannot reserve staged file" ;;
  change_fs (λ t, <[path := new_node t path []]>) ;;
  λ w, let '(r, w') := body path w in (r, put_fs (delete path (fs w')) w').

Definition write_staged (path content : bytes) : proc World unit :=
  attempt "cannot write staged output" ;;
  change_fs (λ t, <[path := new_node t path content]>).

(** [Stage::publish]: an exclusive link, or a replacement by name. *)
Definition publish_stage (path destination content : bytes) (replace : bool) : proc World unit :=
  attempt "cannot flush staged file" ;;
  (if replace then
     f <- look ;
     f' <- look ;
     guard (negb (exists_node destination f) || is_kind Regular destination f')
       (fail "metadata destination is redirected or not a file")
   else ret tt) ;;
  attempt "native replacement failed" ;;
  (if replace then ret tt else
     f <- look ;
     guard (negb (exists_node destination f))
       (fail "exclusive publication failed or is unsupported on this filesystem")) ;;
  change_fs (λ t f, <[destination := new_node t destination content]> (delete path f)) ;;
  attempt "cannot flush publication directory".

(** ** [Impl] *)
Context (d : Impl).

Definition privateDirectory : bytes := lit ".iisacc-file-provider".
Definition state_path : bytes := slash (root d) privateDirectory.
Definition database_path : bytes := slash state_path (lit "catalog.sqlite3").

Definition intact : proc World unit :=
  r <- inspect (root d) true ;
  guard (bool_decide (identity r = rootIdentity d)) (fail "catalog root or database was replaced") ;;
  s <- inspect state_path true ;
  guard (bool_decide (identity s = stateIdentity d)) (fail "catalog root or database was replaced") ;;
  f <- inspect database_path false ;
  guard (bool_decide (identity f = databaseIdentity d)) (fail "catalog root or database was replaced").

Definition writable : proc World unit :=
  intact ;; guard (negb (readOnly d)) (fail "classification catalog is read-only").

(** The walk of [path] from [at_] along the names. *)
Fixpoint walk_path (parents : bool) (at_ : bytes) (names : list bytes) : proc World bytes :=
  match names with
  | [] => ret at_
  | name :: rest =>
      let at_ := slash at_ name in
      let parent := negb (bool_decide (rest = [])) in
      f <- look ;
      (if parent && negb (exists_node at_ f) && parents then
         attempt "cannot create directory" ;;
         change_fs (λ t, <[at_ := {| node_kind := Directory; node_stat := os_stat W t at_; node_reads := None |}]>)
       else ret tt) ;;
      f <- (if parent && negb (exists_node at_ f) && parents then look else ret f) ;
      guard (negb (is_kind Link at_ f || (parent && negb (is_kind Directory at_ f))))
        (fail "file path is missing or redirected") ;;
      walk_path parents at_ rest
  end.

Definition path (relative : bytes) (parents : bool) : proc World bytes :=
  intact ;;
  value <- lift (relativePath relative false) ;
  walk_path parents (root d) (path_names value).

Fixpoint walk_present (at_ : bytes) (names : list bytes) : proc World bool :=
  match names with
  | [] => ret true
  | name :: rest =>
      let at_ := slash at_ name in
      attempt "cannot inspect path" ;;
      f <- look ;
      if (exists_node at_ f : bool) then
        _ <- inspect at_ (negb (bool_decide (rest = []))) ;
        walk_present at_ rest
      else ret false
  end.

Definition present (relative : bytes) : proc World bool :=
  intact ;;
  value <- lift (relativePath relative false) ;
  walk_present (root d) (path_names value).

(** The companion that another catalog entry wrote may be forked, an unrelated or a
    newer one is kept. *)
Definition may_replace (previous : json) (f : CatalogFile) (key : bytes) (db : Db) : result string unit :=
  (previousKey ← at_string previous "fileKey";
   jr ← at_key previous (lit "revision");
   r ← get_u64 real_cast jr;
   if bool_decide (previousKey ≠ key) then
     match file_by_key previousKey db with
     | None => Err (fail "metadata companion belongs to a different or newer file revision")
     | Some (_, row) =>
         jm ← at_key previous (lit "metadata");
         _ ← check (negb (bool_decide (row_path row = file_path f)))
               (fail "metadata companion belongs to a different or newer file revision");
         m ← parseMetadata jm;
         check (bool_decide (m = file_metadata f) && negb (row_revision row <? r))
           (fail "metadata companion belongs to a different or newer file revision")
     end
   else check (negb (file_revision f <? r)) (fail "metadata companion belongs to a newer file revision")).

Definition publish (key : bytes) : proc World bool :=
  writable ;;
  transaction (
    f <- query (require json_parse key) ;
    if negb (metadataPending f) then ret false else
    file <- path (file_path f) false ;
    physical <- inspect file false ;
    guard (bool_decide (version physical = contentVersion f))
      (fail "file changed before companion publication; register it again") ;;
    let target := sidecar file in
    fs <- look ;
    (if (exists_node target fs : bool)
     then previous <- companion target ; query (may_replace previous f key)
     else ret tt) ;;
    json <- query (document f) ;
    guard (negb (maximumMetadataBytes <? len json)) (fail "companion exceeds byte limit") ;;
    nonce <- newKey [] ;
    staged (parent_of file) nonce (λ stage,
      write_staged stage json ;;
      publish_stage stage target json (exists_node target fs)) ;;
    execute (λ db, Ok (set_pending (filter (λ r, r.1 ≠ file_index f) (db_pending db)) db)) ;;
    ret true).

Definition publishResult (key : bytes) : proc World MetadataWrite :=
  error <- catch (_ <- publish key ; ret []) (λ m, ret (lit m)) ;
  f <- alone (require json_parse key) ;
  ret {| written_file := f; metadataWritten := negb (metadataPending f); metadataError := error |}.

(** ** Registration *)

(** The entry a registration is about: the one at its path, or the one whose file
    was moved there. *)
Definition existing_entry (relative : bytes) (p : Physical) : proc World (option CatalogFile) :=
  found <- query (find json_parse relative true) ;
  match found with
  | Some f => ret (Some f)
  | None =>
      same <- query (λ db, Ok (file_by_identity (identity p) db)) ;
      match same with
      | None => ret None
      | Some (_, row) =>
          there <- present (row_path row) ;
          guard (negb there) (fail "managed hard-link aliases require separate files") ;;
          f <- query (require json_parse (row_key row)) ;
          ret (Some f)
      end
  end.

Definition restore (j : json) (m : FileMetadata) : proc World FileMetadata := λ w,
  match restoreCollections j m (db w) with
  | Ok (m, d) => (Ok m, put_db d w)
  | Err e => (Err e, w)
  end.

(** The companion beside a managed file, if there is one. *)
Definition companion_beside (relative : bytes) : proc World (option json) :=
  file <- path relative false ;
  fs <- look ;
  if (exists_node (sidecar file) fs : bool)
  then j <- companion (sidecar file) ; ret (Some j)
  else ret None.

Definition companion_key (j : json) : result string bytes := at_string j "fileKey".
Definition companion_revision (j : json) : result string Z := (r ← at_key j (lit "revision"); get_u64 real_cast r).
Definition companion_metadata (j : json) : result string FileMetadata := (m ← at_key j (lit "metadata"); parseMetadata m).

(** The annotations of a file that has an entry: a companion of the same entry that
    is not older replaces them. *)
Definition known_metadata (relative : bytes) (e : CatalogFile) : proc World FileMetadata :=
  beside <- companion_beside relative ;
  match beside with
  | None => ret (file_metadata e)
  | Some j =>
      k <- lift (companion_key j) ;
      r <- lift (companion_revision j) ;
      if bool_decide (k = file_key e) && (file_revision e <=? r) then
        m <- lift (companion_metadata j) ; restore j m
      else ret (file_metadata e)
  end.

(** Key, revision and annotations of a file that has none. *)
Definition new_identity (relative key : bytes) : proc World (bytes * Z * FileMetadata) :=
  beside <- companion_beside relative ;
  match beside with
  | None => ret (key, 1, {| title := []; description := []; keywords := []; rating := 0; color := None_;
                            fields := []; collections := [] |})
  | Some j =>
      k <- lift (companion_key j) ;
      m <- lift (companion_metadata j) ;
      r <- lift (companion_revision j) ;
      m <- restore j m ;
      owner <- query (λ db, Ok (file_by_key k db)) ;
      match owner with
      | Some (_, row) =>
          if bool_decide (row_path row = relative) then ret (k, Z.max 1 r, m) else
          key <- newKey (lit "file-") ; ret (key, 1, m)
      | None => ret (k, Z.max 1 r, m)
      end
  end.

Definition set_physical (p : Physical) (revision : Z) (relative : bytes) (row : FileRow) : FileRow :=
  {| row_key := row_key row; row_path := relative; row_identity := identity p; row_size := physical_size p;
     row_modified := modified p; row_stamp := version p; row_revision := revision; row_rating := row_rating row;
     row_color := row_color row; row_title := row_title row; row_metadata := row_metadata row |}.

Definition fresh_row (p : Physical) (revision : Z) (key relative : bytes) : FileRow :=
  {| row_key := key; row_path := relative; row_identity := identity p; row_size := physical_size p;
     row_modified := modified p; row_stamp := version p; row_revision := revision; row_rating := 0; row_color := 0;
     row_title := []; row_metadata := lit "{}" |}.

(** The UPDATE or the INSERT, with the annotations. *)
Definition write_row (existing : option CatalogFile) (p : Physical) (revision : Z) (key relative : bytes)
    (m : FileMetadata) (db : Db) : result string Db :=
  _ ← integer (physical_size p);
  _ ← integer revision;
  match existing with
  | Some e =>
      db ← update_file (file_index e) (set_physical p revision relative) db;
      annotations (file_index e) relative m db
  | None =>
      '(id, db) ← insert_file (fresh_row p revision key relative) db;
      annotations id relative m db
  end.

Definition write_entry (existing : option CatalogFile) (p : Physical) (revision : Z) (key relative : bytes)
    (m : FileMetadata) : proc World (CatalogFile * bool) :=
  execute (write_row existing p revision key relative m) ;;
  result <- query (require json_parse key) ;
  text <- query (document result) ;
  guard (negb (maximumMetadataBytes <? len text)) (fail "encoded companion exceeds byte limit") ;;
  ret (result, true).

(** Key, revision and annotations of the entry: explicit annotations come first. *)
Definition choose (given : option FileMetadata) (existing : option CatalogFile) (relative key : bytes)
    (revision : Z) : proc World (bytes * Z * FileMetadata) :=
  match given, existing with
  | Some m, _ => m <- lift (normalizeMetadata m) ; ret (key, revision, m)
  | None, Some e => m <- known_metadata relative e ; ret (key, revision, m)
  | None, None => new_identity relative key
  end.

(** The entry and whether the catalog changed. *)
Definition registration (r : FileRegistration) : proc World (CatalogFile * bool) :=
  relative <- lift (relativePath (registered_path r) false) ;
  file <- path relative false ;
  p <- inspect file false ;
  existing <- existing_entry relative p ;
  key <- (match existing with Some e => ret (file_key e) | None => newKey (lit "file-") end) ;
  let revision := match existing with Some e => u64 (file_revision e + 1) | None => 1 end in
  chosen <- choose (registered_metadata r) existing relative key revision ;
  let '(key, revision, m) := chosen in
  match existing with
  | Some e =>
      if bool_decide (file_path e = relative) && bool_decide (contentVersion e = version p)
         && bool_decide (file_metadata e = m)
      then ret (e, false)
      else write_entry existing p revision key relative m
  | None => write_entry existing p revision key relative m
  end.

(** ** Public operations *)

(** The checks of a batch before it starts: the paths seen and the bytes counted. *)
Definition admit_one (st : list bytes * Z) (f : FileRegistration) : result string (list bytes * Z) :=
  _ ← relativePath (registered_path f) false;
  _ ← check (negb (bool_decide (registered_path f ∈ st.1))) (fail "duplicate path in registration batch");
  n ← (match registered_metadata f with
       | Some m => m ← normalizeMetadata m; d ← dump (metadataJson m); Ok (st.2 + len d)
       | None => Ok st.2
       end);
  _ ← check (negb (maximumBatchMetadata <? n)) (fail "registration metadata exceeds batch limit");
  Ok (registered_path f :: st.1, n).

(** Entries, bytes counted, and whether something changed. *)
Definition register_one (st : list CatalogFile * Z * bool) (f : FileRegistration) :
    proc World (list CatalogFile * Z * bool) :=
  let '(result, bytes, mutated) := st in
  r <- registration f ;
  d <- lift (dump (metadataJson (file_metadata r.1))) ;
  let bytes := bytes + len d in
  guard (negb (maximumBatchMetadata <? bytes)) (fail "registration metadata exceeds batch limit") ;;
  ret (result ++ [r.1], bytes, mutated || r.2).

Definition registerFiles (input : list FileRegistration) : proc World (list CatalogFile) :=
  guard (negb (bool_decide (input = []) || (maximumBatch <? len input)))
    (fail "registration batch exceeds file count limit") ;;
  _ <- lift (fold_res admit_one ([], 0) input) ;
  writable ;;
  transaction (
    st <- loop register_one ([], 0, false) input ;
    (if (st.2 : bool) then execute bump else ret tt) ;;
    ret st.1.1).

Definition registerFile (relative : bytes) (m : option FileMetadata) : proc World MetadataWrite :=
  lift (match m with Some m => _ ← normalizeMetadata m; Ok tt | None => Ok tt end) ;;
  registered <- registerFiles [{| registered_path := relative; registered_metadata := m |}] ;
  match registered with
  | f :: _ => publishResult (file_key f)
  | [] => throw "unreachable"
  end.

(** The statements of the transaction of [updateMetadata]. *)
Definition update_entry (key : bytes) (expected : Z) (m : FileMetadata) : proc World unit :=
  file <- query (require json_parse key) ;
  guard (file_revision file =? expected) (fail "classification revision conflict") ;;
  at_ <- path (file_path file) false ;
  p <- inspect at_ false ;
  guard (bool_decide (version p = contentVersion file))
    (fail "file changed; register its current version before editing metadata") ;;
  execute (update_file (file_index file) next_revision) ;;
  execute (annotations (file_index file) (file_path file) m) ;;
  f <- query (require json_parse key) ;
  text <- query (document f) ;
  guard (negb (maximumMetadataBytes <? len text)) (fail "encoded companion exceeds byte limit") ;;
  execute bump.

Definition updateMetadata (key : bytes) (expected : Z) (input : FileMetadata) : proc World MetadataWrite :=
  m <- lift (normalizeMetadata input) ;
  writable ;;
  transaction (update_entry key expected m) ;;
  publishResult key.

Definition lookup (key : bytes) : proc World (option CatalogFile) :=
  intact ;;
  transaction (k <- lift (normalized key 128 false true) ; query (find json_parse k false)).

Definition lookupPath (relative : bytes) : proc World (option CatalogFile) :=
  relative <- lift (relativePath relative false) ;
  intact ;;
  transaction (query (find json_parse relative true)).

Definition vacant (f : Fs) (file : bytes) : bool := negb (exists_node file f).

(** [requireVacant]. *)
Definition presentation_path (file : bytes) : bytes :=
  slash (parent_of file) (lit "." ++ drop (S (length (parent_of file))) file ++ lit ".iisacc-preview").

Definition requireVacant (file : bytes) : proc World unit :=
  f1 <- look ;
  guard (vacant f1 file) (fail "file or companion already exists") ;;
  f2 <- look ;
  guard (vacant f2 (sidecar file)) (fail "file or companion already exists") ;;
  f3 <- look ;
  guard (vacant f3 (presentation_path file)) (fail "file or companion already exists").

(** Publication of the staged file and its entry; the file goes when the entry does
    not come. *)
Definition enter (stage destination content relative : bytes) (sourceMetadata : option json)
    (m : FileMetadata) : proc World CatalogFile :=
  begin_ ;;
  scoped (
    requireVacant destination ;;
    m <- (match sourceMetadata with Some j => restore j m | None => ret m end) ;
    publish_stage stage destination content false ;;
    catch (r <- registration {| registered_path := relative; registered_metadata := Some m |} ;
           execute bump ;; commit ;; ret r.1)
      (λ e, change_fs (λ _, delete destination) ;;
            change_fs (λ _, delete (presentation_path destination)) ;; throw e)).

(** [encode] is what the caller's encoder writes, or throws. *)
Definition createFileWith (relative : bytes) (encode : option (result string bytes)) (input : FileMetadata) :
    proc World MetadataWrite :=
  encode <- lift (of_option (fail "a file encoder is required") encode) ;
  m <- lift (normalizeMetadata input) ;
  writable ;;
  destination <- path relative true ;
  requireVacant destination ;;
  nonce <- newKey [] ;
  registered <- staged (parent_of destination) nonce (λ stage,
    attempt "cannot open staged encoder output" ;;
    content <- lift encode ;
    write_staged stage content ;;
    enter stage destination content relative None m) ;
  publishResult (file_key registered).

Definition createFile (relative bytes : bytes) (input : FileMetadata) : proc World MetadataWrite :=
  createFileWith relative (Some (Ok bytes)) input.

Definition empty_metadata : FileMetadata :=
  {| title := []; description := []; keywords := []; rating := 0; color := None_; fields := []; collections := [] |}.

Definition importFile (source relative : bytes) (input : option FileMetadata) : proc World MetadataWrite :=
  m <- lift (match input with Some m => normalizeMetadata m | None => Ok empty_metadata end) ;
  before <- inspect source false ;
  f <- look ;
  chosen <- (match input with
             | None =>
                 if (exists_node (sidecar source) f : bool) then
                   j <- companion (sidecar source) ;
                   m <- lift (companion_metadata j) ;
                   ret (Some j, m)
                 else ret (None, m)
             | Some _ => ret (None, m)
             end) ;
  writable ;;
  destination <- path relative true ;
  requireVacant destination ;;
  nonce <- newKey [] ;
  registered <- staged (parent_of destination) nonce (λ stage,
    f <- look ;
    content <- lift (of_option (fail "cannot open file import streams") (f !! source ≫= node_reads)) ;
    write_staged stage content ;;
    again <- inspect source false ;
    guard (bool_decide (version again = version before)) (fail "source changed during file import") ;;
    enter stage destination content relative chosen.1 chosen.2) ;
  publishResult (file_key registered).

Definition read (key : bytes) (offset maximumBytes : Z) (expected : bytes) : proc World FileChunk :=
  guard (negb ((maximumBytes =? 0) || (maximumChunk <? maximumBytes))) (fail "file provision exceeds chunk limit") ;;
  intact ;;
  record <- alone (require json_parse key) ;
  file <- path (file_path record) false ;
  before <- inspect file false ;
  id <- alone (λ db, Ok (row_identity <$> row_lookup (file_index record) (db_files db))) ;
  guard (bool_decide (id = Some (identity before))) (fail "file identity changed; register it again") ;;
  guard (negb ((negb (bool_decide (expected = [])) && negb (bool_decide (expected = version before)))
               || (physical_size before <? offset) || (INT64_MAX <? offset)))
    (fail "file content version or range conflict") ;;
  let n := Z.min maximumBytes (physical_size before - offset) in
  f <- look ;
  content <- lift (of_option (fail "cannot provide stable file range") (f !! file ≫= node_reads)) ;
  guard (offset + n <=? len content) (fail "cannot provide stable file range") ;;
  let bytes := take (Z.to_nat n) (drop (Z.to_nat offset) content) in
  again <- inspect file false ;
  guard (bool_decide (version again = version before)) (fail "file changed during provision") ;;
  ret {| chunk_bytes := bytes; chunk_offset := offset; chunk_size := physical_size before;
         chunk_version := version before; eof := offset + len bytes =? physical_size before |}.

(** ** Search *)

(** The WHERE clause that the filter adds, for one row; [expression] is the argument
    of MATCH. *)
Definition in_range (x : Z) (low high : option Z) : bool :=
  match low with Some l => l <=? x | None => true end && match high with Some h => x <=? h | None => true end.
Definition any_of (values selected : list bytes) : bool :=
  bool_decide (selected = []) || existsb (λ v, bool_decide (v ∈ values)) selected.

Definition selects (f : FileFilter) (expression : option bytes) (d : Db) (id : Z) (row : FileRow) : bool :=
  match expression with
  | Some e => match row_lookup id (db_search d) with Some t => fts_match t e | None => false end
  | None => true
  end
  && (bool_decide (pathPrefix f = []) || bool_decide (row_path row = pathPrefix f)
      || (bytes_leb (pathPrefix f ++ lit "/") (row_path row) && bytes_ltb (row_path row) (pathPrefix f ++ lit "0")))
  && in_range (row_rating row) (minimumRating f) (maximumRating f)
  && in_range (row_size row) (minimumSize f) (maximumSize f)
  && forallb (λ t, bool_decide (t ∈ default [] (db_keywords d !! id))) (allKeywords f)
  && any_of (default [] (db_keywords d !! id)) (anyKeywords f)
  && any_of (members_of id d) (filter_collections f)
  && (bool_decide (colors f = []) || existsb (λ c, row_color row =? color_code c) (colors f))
  && forallb (λ kv, bool_decide (assoc kv.1 (default [] (db_fields d !! id)) = Some kv.2)) (filter_fields f).

Definition summary (d : Db) (id : Z) (row : FileRow) : result string CatalogFileSummary :=
  c ← of_option "unreachable"%string (color_of_code (row_color row));
  Ok {| summary_key := row_key row; summary_index := id; summary_revision := row_revision row;
        summary_path := row_path row; summary_size := row_size row; summary_modifiedAtNs := row_modified row;
        summary_contentVersion := row_stamp row; summary_title := row_title row; summary_rating := row_rating row;
        summary_color := c; summary_pending := bool_decide (is_Some (row_lookup id (db_pending d))) |}.

(** [WHERE e.id>? ... ORDER BY e.id LIMIT ?]. *)
Definition select_files (p : Z → FileRow → bool) (after limit : Z) (d : Db) : table FileRow :=
  take (Z.to_nat limit) (filter (λ r, after < r.1 ∧ p r.1 r.2) (db_files d)).

Definition valid_cursor (c : FileCursor) (revision : Z) (signature : bytes) : bool :=
  bool_decide (cursor_catalog c = catalogId d) && (cursor_revision c =? revision)
  && bool_decide (cursor_filter c = signature) && (0 <=? afterIndex c).

Definition search_page (f : FileFilter) (signature : bytes) (cursor : option FileCursor) (limit : Z) (db : Db) :
    result string FilePage :=
  let revision := db_revision db in
  _ ← check (match cursor with Some c => valid_cursor c revision signature | None => true end)
        (fail "search cursor expired or belongs to another filter/catalog");
  e ← (if bool_decide (filter_text f = []) then Ok None else e ← matchExpression (filter_text f); Ok (Some e));
  let rows := select_files (selects f e db) (match cursor with Some c => afterIndex c | None => 0 end) (limit + 1) db in
  items ← fold_res (λ acc r, s ← summary db r.1 r.2; Ok (acc ++ [s])) [] rows;
  Ok (if limit <? len items
      then let items := take (Z.to_nat limit) items in
           {| page_files := items;
              next := s ← last items; Some {| cursor_catalog := catalogId d; cursor_revision := revision;
                                              afterIndex := summary_index s; cursor_filter := signature |} |}
      else {| page_files := items; next := None |}).

Definition search (input : FileFilter) (cursor : option FileCursor) (limit : Z) : proc World FilePage :=
  guard (negb ((limit =? 0) || (maximumPage <? limit))) (fail "search page exceeds limit") ;;
  f <- lift (normalizeFilter input) ;
  signature <- lift (dump (filterJson f)) ;
  intact ;;
  transaction (query (search_page f signature cursor limit)).

Definition count : proc World Z := intact ;; alone (λ db, Ok (len (db_files db))).

(** ** Collections *)

Definition createCollection (input : bytes) : proc World FileCollection :=
  name <- lift (normalized input 512 false true) ;
  writable ;;
  transaction (
    n <- query (λ db, Ok (len (db_collections db))) ;
    guard (negb (4096 <=? n)) (fail "collection count exceeds limit") ;;
    key <- newKey (lit "collection-") ;
    folded <- lift (normalized name 512 true false) ;
    execute (insert_collection key name folded) ;;
    execute bump ;;
    ret {| collection_key := key; collection_name := name |}).

(** The documents of the files of a collection stay within their limit. *)
Definition check_documents (key : bytes) (db : Db) : result string unit :=
  for_each (λ r : Z * FileRow,
    if is_member key db r.1 then
      f ← require json_parse (row_key r.2) db;
      text ← document f db;
      check (negb (maximumMetadataBytes <? len text)) (fail "renamed collection exceeds companion byte limit")
    else Ok tt) (db_files db).

Definition renameCollection (key input : bytes) : proc World unit :=
  name <- lift (normalized input 512 false true) ;
  writable ;;
  transaction (
    folded <- lift (normalized name 512 true false) ;
    execute (rename_row key name folded) ;;
    execute (touch_members key) ;;
    query (check_documents key) ;;
    execute bump).

Definition publishMetadata (limit : Z) : proc World Z :=
  guard (negb ((limit =? 0) || (maximumPage <? limit))) (fail "metadata publication batch exceeds limit") ;;
  writable ;;
  keys <- alone (λ db, Ok (omap (λ r, row_key <$> row_lookup r.1 (db_files db))
                             (take (Z.to_nat limit) (db_pending db)))) ;
  loop (λ n key, p <- publish key ; ret (if (p : bool) then n + 1 else n)) 0 keys.

Definition removeCollection (key : bytes) : proc World unit :=
  writable ;;
  transaction (
    execute (touch_members key) ;;
    execute (delete_collection key) ;;
    execute bump) ;;
  _ <- publishMetadata 256 ; ret tt.

Definition list_collections : proc World (list FileCollection) :=
  intact ;;
  alone (λ db,
    let rows := take 4097 (db_collections db) in
    _ ← check (negb (4096 <? len rows)) (fail "collection listing exceeds limit");
    Ok ((λ c, {| collection_key := coll_key c; collection_name := coll_name c |}) <$> rows)).

(** ** Saved filters *)

(** [INSERT INTO saved_filters ... ON CONFLICT(key) DO UPDATE]. *)
Definition put_filter (r : FilterRow) (db : Db) : result string Db :=
  _ ← bind_text (sf_filter r);
  l ← of_option (fail "UNIQUE constraint failed: saved_filters.folded")
        (insert_by sf_folded r (filter (λ x, sf_key x ≠ sf_key r) (db_saved db)));
  Ok (set_saved l db).

Definition saveFilter (input : bytes) (original : FileFilter) : proc World SavedFileFilter :=
  name <- lift (normalized input 512 false true) ;
  f <- lift (normalizeFilter original) ;
  writable ;;
  transaction (
    fresh <- newKey (lit "filter-") ;
    folded <- lift (normalized name 512 true false) ;
    existing <- query (λ db, Ok (List.find (λ r, bool_decide (sf_folded r = folded)) (db_saved db))) ;
    n <- query (λ db, Ok (len (db_saved db))) ;
    key <- (match existing with
            | Some r => ret (sf_key r)
            | None => guard (negb (4096 <=? n)) (fail "saved filter count exceeds limit") ;; ret fresh
            end) ;
    text <- lift (dump (filterJson f)) ;
    execute (put_filter {| sf_key := key; sf_name := name; sf_folded := folded; sf_filter := text |}) ;;
    execute bump ;;
    ret {| saved_key := key; saved_name := name; saved_filter := f |}).

Definition saved_row (r : FilterRow) : result string SavedFileFilter :=
  f ← parseFilter real_cast json_parse (sf_filter r);
  Ok {| saved_key := sf_key r; saved_name := sf_name r; saved_filter := f |}.

Definition savedFilter (key : bytes) : proc World (option SavedFileFilter) :=
  intact ;;
  alone (λ db,
    k ← normalized key 128 false true;
    match List.find (λ r, bool_decide (sf_key r = k)) (db_saved db) with
    | Some r => f ← parseFilter real_cast json_parse (sf_filter r);
                Ok (Some {| saved_key := key; saved_name := sf_name r; saved_filter := f |})
    | None => Ok None
    end).

Definition savedFilters : proc World (list SavedFileFilter) :=
  intact ;;
  alone (λ db,
    let rows := take 4097 (db_saved db) in
    l ← fold_res (λ acc r, s ← saved_row r; Ok (acc ++ [s])) [] (take 4096 rows);
    _ ← check (negb (4096 <? len rows)) (fail "saved filter listing exceeds limit");
    Ok l).

Definition removeFilter (key : bytes) : proc World unit :=
  writable ;;
  transaction (
    k <- lift (normalized key 128 false true) ;
    execute (λ db,
      _ ← check (existsb (λ r, bool_decide (sf_key r = k)) (db_saved db)) (fail "saved filter does not exist");
      Ok (set_saved (filter (λ r, sf_key r ≠ k) (db_saved db)) db)) ;;
    execute bump).

Definition searchSaved (key : bytes) (cursor : option FileCursor) (limit : Z) : proc World FilePage :=
  saved <- savedFilter key ;
  s <- lift (of_option (fail "saved filter does not exist") saved) ;
  search (saved_filter s) cursor limit.

(** ** Documents *)

Definition pendingMetadata : proc World Z := intact ;; alone (λ db, Ok (len (db_pending db))).

Definition metadataDocument (key : bytes) : proc World bytes :=
  intact ;; transaction (query (λ db, f ← require json_parse key db; document f db)).

(** Without the presentation component there is no such document. *)
Definition presentationDocument (key : bytes) : proc World bytes :=
  intact ;; _ <- alone (require json_parse key) ; ret [].
End catalog.
