(* ===== verification/CatalogOpen.v ===== *)
(** Opening a catalog, and reading the classification of a file without one
    (src/Catalog/FileCatalog.cpp, the constructor of [Impl] and
    [classificationDocument]). *)
From S2P Require Import Prelude Text Paths Unicode Json JsonObject MetadataCodec Proc CatalogData CatalogTables CatalogStore.
Local Open Scope Z_scope.
Local Open Scope proc_scope.

Section opening.
Context `{Utf8proc, !CatalogUnicode} (real_cast : bytes → Z) (json_parse : bytes → option json) (W : Outside).
(** [fs::canonical]: the path without links, when it is asked. *)
Context (canonical : nat → bytes → result string bytes).

Definition absolute (p : bytes) : bool := bool_decide (head p = Some "/"%char).

Definition make_directory (at_ : bytes) : proc World unit :=
  attempt W "cannot create directory" ;;
  change_fs (λ t, <[at_ := {| node_kind := Directory; node_stat := os_stat W t at_; node_reads := None |}]>).

(** [fs::create_directories], from [at_] along the names. *)
Fixpoint make_directories (at_ : bytes) (names : list bytes) : proc World unit :=
  match names with
  | [] => ret tt
  | name :: names =>
      let at_ := slash at_ name in
      f <- look W ;
      (if (exists_node at_ f : bool) then ret tt else make_directory at_) ;;
      make_directories at_ names
  end.

Definition inspect_auxiliary (database : bytes) (u : unit) (suffix : string) : proc World unit :=
  f <- look W ;
  if (exists_node (database ++ lit suffix) f : bool)
  then _ <- inspect W (database ++ lit suffix) false ; ret tt
  else ret tt.

(** The schema, checked again under the writer's lock. *)
Definition initialize_schema (access : Access) : proc World unit :=
  transaction W (
    db <- query (λ db, Ok db) ;
    let initialize := (db_application db =? 0) && (db_version db =? 0) && negb (db_foreign db) in
    guard (negb (initialize && negb (bool_decide (access = Create)))) (fail "classification schema does not exist") ;;
    guard (initialize || ((db_application db =? applicationId) && (db_version db =? 1)))
      (fail "unknown classification catalog") ;;
    if (initialize : bool) then
      id <- newKey W (lit "catalog-") ;
      execute (λ _, Ok (create_schema id))
    else ret tt).

Definition open (input : bytes) (access : Access) : proc World Impl :=
  guard (negb (bool_decide (input = [])) && absolute input) (fail "catalog root must be an absolute local directory") ;;
  f <- look W ;
  (if bool_decide (access = Create) && negb (exists_node input f)
   then make_directories (lit "/") (path_names (drop 1 input)) else ret tt) ;;
  _ <- inspect W input true ;
  root <- (λ w, (canonical (tick w) input, advance w)) ;
  r <- inspect W root true ;
  let state := slash root privateDirectory in
  f <- look W ;
  (if bool_decide (access = Create) && negb (exists_node state f)
   then make_directory state ;; attempt W "cannot set permissions" else ret tt) ;;
  s <- inspect W state true ;
  let path := slash state (lit "catalog.sqlite3") in
  f <- look W ;
  let fresh := negb (exists_node path f) in
  guard (negb (fresh && negb (bool_decide (access = Create)))) (fail "classification catalog does not exist") ;;
  (if fresh then ret tt else _ <- inspect W path false ; ret tt) ;;
  loop (inspect_auxiliary path) tt ["-wal"; "-shm"; "-journal"]%string ;;
  attempt W "SQLite unavailable" ;;
  (if fresh then change_fs (λ t f, if exists_node path f then f else <[path := new_node W t path []]> f) else ret tt) ;;
  (if bool_decide (access = ReadOnly) then ret tt
   else initialize_schema access ;; attempt W "cannot set journal mode") ;;
  version <- alone W (λ db, Ok ((db_application db =? applicationId) && (db_version db =? 1))) ;
  guard version (fail "unknown classification catalog") ;;
  attempt W "cannot configure connection" ;;
  id <- alone W (λ db, Ok (db_id db)) ;
  p <- inspect W path false ;
  ret {| root := root; rootIdentity := identity r; stateIdentity := identity s; databaseIdentity := identity p;
         catalogId := id; readOnly := bool_decide (access = ReadOnly) |}.

(** ** A classification without a catalog *)

(** Every ancestor is a directory and the last name a file. *)
Fixpoint validate (at_ : bytes) (names : list bytes) : proc World unit :=
  match names with
  | [] => ret tt
  | name :: rest =>
      let at_ := slash at_ name in
      _ <- inspect W at_ (negb (bool_decide (rest = []))) ;
      validate at_ rest
  end.

Definition portable_membership (item : json) : result string (bytes * bytes) :=
  rk ← at_string item "key";
  key ← normalized rk 128 false true;
  rn ← at_string item "name";
  name ← normalized rn 512 false true;
  Ok (key, name).

Definition portable_document (stored : json) : result string bytes :=
  cs ← at_key stored (lit "collections");
  named ← fold_res (λ acc c, kn ← portable_membership c; Ok (acc ++ [kn])) [] (elements cs);
  key ← at_key stored (lit "fileKey");
  revision ← at_key stored (lit "revision");
  jm ← at_key stored (lit "metadata");
  m ← parseMetadata jm;
  dump (json_object [(lit "format", JString (lit "iiFileProvider.Metadata")); (lit "schema", JInt 1);
    (lit "fileKey", key); (lit "revision", revision); (lit "metadata", metadataJson m);
    (lit "collections", JArray (membership_json <$> named))]).

(** Nothing for a file without a companion. *)
Definition classificationDocument (asset : bytes) : proc World bytes :=
  guard (negb (bool_decide (asset = [])) && absolute asset && bool_decide (root_normal asset = asset)
         && negb (has_byte NUL asset)) (fail "classification requires an absolute native asset path") ;;
  let names := path_names (drop 1 asset) in
  validate (lit "/") names ;;
  before <- inspect W asset false ;
  f <- look W ;
  if negb (exists_node (sidecar asset) f) then ret [] else
  stored <- companion real_cast json_parse W (sidecar asset) ;
  text <- lift (portable_document stored) ;
  validate (lit "/") names ;;
  again <- inspect W asset false ;
  guard (bool_decide (version again = version before)) (fail "asset changed during classification inspection") ;;
  ret text.
End opening.
