(* ===== verification/CatalogInvariant.v ===== *)
(** When a catalog is consistent, and that its statements keep it so: every row of
    [files] is a canonical classification, the index tables say what its document
    says, memberships name collections, and nothing is listed twice. *)
From S2P Require Import Prelude Text Paths Unicode CoreText Json JsonObject MetadataCodec Table.
From S2P Require Import CatalogData CatalogLaws CatalogTables JsonParser.
Local Open Scope Z_scope.

Section invariant.
Context `{CatalogUnicodeLaws}.

(** ** The invariant *)

(** The folded forms of the keywords. *)
Definition terms_set (words terms : list bytes) : Prop :=
  ∀ t, t ∈ terms ↔ ∃ w, w ∈ words ∧ normalized w 512 true false = Ok t.

Definition search_row (path : bytes) (m : FileMetadata) : FtsRow :=
  {| fts_path := path; fts_title := title m; fts_description := description m;
     fts_keywords := lines (keywords m); fts_fields := fields m ≫= λ kv, lines [kv.1; kv.2] |}.

(** What a row and the index tables say of a file is the classification [m], whose
    memberships are kept elsewhere. *)
Record annotated (d : Db) (id : Z) (row : FileRow) (m : FileMetadata) : Prop := {
  ann_full : metadata_normal (with_collections m (members_of id d));
  ann_rating : 0 <= rating m;
  ann_plain : collections m = [];
  ann_document : dump (metadataJson m) = Ok (row_metadata row);
  ann_columns : row_rating row = rating m ∧ row_color row = color_code (color m) ∧ row_title row = title m;
  ann_keywords : ∃ ks, db_keywords d !! id = Some ks ∧ terms_set (keywords m) ks;
  ann_fields : db_fields d !! id = Some (fields m);
  ann_search : row_lookup id (db_search d) = Some (search_row (row_path row) m)
}.

Record row_ok (row : FileRow) : Prop := {
  ok_key : persistent_key (row_key row) = true;
  ok_path : relativePath (row_path row) false = Ok (row_path row);
  ok_size : 0 <= row_size row;
  ok_revision : 0 < row_revision row <= INT64_MAX
}.

Definition collection_ok (c : CollectionRow) : Prop :=
  membership_fixed (coll_key c) ∧ normalized (coll_name c) 512 false true = Ok (coll_name c) ∧
  normalized (coll_name c) 512 true false = Ok (coll_folded c).

Definition saved_ok (r : FilterRow) : Prop :=
  ∃ f, filter_normal f ∧ filter_fits f ∧ dump (filterJson f) = Ok (sf_filter r).

Definition known_collection (d : Db) (k : bytes) : Prop := ∃ c, c ∈ db_collections d ∧ coll_key c = k.

(** [skip] leaves out the annotations of one file. *)
Record wf_but (skip : option Z) (d : Db) : Prop := {
  wf_files : ordered (db_files d);
  wf_ids : ∀ r, r ∈ db_files d → 0 < r.1 <= db_sequence d;
  wf_keys : NoDup ((row_key ∘ snd) <$> db_files d);
  wf_paths : NoDup ((row_path ∘ snd) <$> db_files d);
  wf_identities : NoDup ((row_identity ∘ snd) <$> db_files d);
  wf_rows : ∀ r, r ∈ db_files d → row_ok r.2;
  wf_annotated : ∀ r, r ∈ db_files d → Some r.1 ≠ skip → ∃ m, annotated d r.1 r.2 m;
  wf_members : ∀ id, set_sorted (members_of id d) ∧ Forall (known_collection d) (members_of id d);
  wf_collections : set_sorted (coll_folded <$> db_collections d) ∧ NoDup (coll_key <$> db_collections d) ∧
    Forall collection_ok (db_collections d) ∧ len (db_collections d) <= 4096;
  wf_saved : set_sorted (sf_folded <$> db_saved d) ∧ NoDup (sf_key <$> db_saved d) ∧
    Forall saved_ok (db_saved d) ∧ len (db_saved d) <= 4096;
  wf_pending : ordered (db_pending d) ∧ ∀ r, r ∈ db_pending d → is_Some (row_lookup r.1 (db_files d));
  wf_search : ordered (db_search d);
  wf_sequence : 0 <= db_sequence d
}.

Abbreviation wf := (wf_but None).

(** ** Documents *)

Lemma stored_json_eq m : stored_json m = metadataJson (with_collections m []).
Proof. reflexivity. Qed.

Lemma dump_first_member k v v' e' l d : dump (JObject ((k, v) :: l)) = Ok d → dump v' = Ok e' →
  (∀ e, dump v = Ok e → len e' <= len e) → ∃ d', dump (JObject ((k, v') :: l)) = Ok d' ∧ len d' <= len d.
Proof.
  cbn [dump]. intros (items & E & Hd)%bind_ok Hv Hshort. apply ok_inj in Hd. subst d.
  apply bind_ok in E as (dk & Hk & E). apply bind_ok in E as (e & He & E). apply bind_ok in E as (ts & Hts & E).
  apply ok_inj in E. subst items. rewrite Hk. cbn [mbind result_bind]. rewrite Hv. cbn [mbind result_bind].
  rewrite Hts. cbn [mbind result_bind]. eexists. split; [done|]. specialize (Hshort e He).
  rewrite !length_app. destruct ts; cbn [join]; rewrite !length_app; lia.
Qed.

(** The document without memberships is printed and is not longer. *)
Lemma plain_normal m : metadata_normal m → metadata_normal (with_collections m []).
Proof.
  intros [Hr Ht Hd Hk [Hn1 Hn2] Hf Hc (d & Hdump & Hlen)].
  split; cbn [with_collections title description keywords rating color fields collections]; try done.
  - repeat constructor.
  - rewrite metadata_object in *. destruct (dump_first_member _ _ (JArray (JString <$> [])) (lit "[]") _ _ Hdump)
      as (d' & Hd' & Hle); [done| |].
    + intros e He. apply dump_array_inv in He as (items & _ & ->). rewrite !length_app. cbn. lia.
    + exists d'. split; [exact Hd'|]. lia.
Qed.

Lemma find_unique {A B} `{EqDecision B} (f : A → B) (t : table A) id a :
  NoDup ((f ∘ snd) <$> t) → (id, a) ∈ t → List.find (λ r, bool_decide (f r.2 = f a)) t = Some (id, a).
Proof.
  induction t as [|[k x] t IH]; [set_solver|]. rewrite fmap_cons. intros [Hx Ht]%NoDup_cons Hin. cbn.
  apply elem_of_cons in Hin as [[= <- <-]|Hin]; [by rewrite bool_decide_true|].
  rewrite bool_decide_false; [by apply IH|]. intros E. apply Hx. cbn. rewrite E.
  by apply (list_elem_of_fmap_2 (f ∘ snd) t (id, a)).
Qed.

(** A key of a file is printable ASCII text, its own normal form. *)
Lemma hex_digit_printable c : is_hex c = true → printable c = true.
Proof.
  unfold is_hex. rewrite bool_decide_eq_true. assert (Forall (λ c, printable c = true) (lit "0123456789abcdef")) as Hall.
  { repeat constructor. }
  rewrite Forall_forall in Hall. apply Hall.
Qed.

Lemma persistent_printable k : persistent_key k = true → Forall (λ c, printable c = true) k ∧ len k = 37.
Proof.
  unfold persistent_key, starts_with. intros E. inv_ok. apply Z.eqb_eq in H3. split; [|done].
  rewrite <-(take_drop 5 k). apply Forall_app. split.
  - change (length (lit "file-")) with 5%nat in *. rewrite H5. repeat constructor.
  - apply Forall_forall. intros c Hc. apply hex_digit_printable. rewrite forallb_forall in H4. by apply H4, list_elem_of_In.
Qed.

Lemma printable_normalized s maximum : Forall (λ c, printable c = true) s → s ≠ [] → len s <= maximum →
  normalized s maximum false true = Ok s.
Proof.
  intros Hs Hne Hlen. apply normalized_ok.
  assert (Forall is_ascii s) as Ha.
  { apply printable_ascii. eapply Forall_impl; [exact Hs|]. intros c Hc. by apply Is_true_true. }
  rewrite Forall_forall in Hs. split_and!; try done.
  - apply bool_decide_eq_false. intros Hc. by specialize (Hs _ Hc).
  - by apply map_ascii.
  - intros _. destruct s as [|c s]; [done|]. cbn. apply andb_false_iff. left. specialize (Hs c ltac:(by left)).
    unfold blank. apply bool_decide_eq_false. intros Hb. revert Hs.
    rewrite !elem_of_cons, elem_of_nil in Hb. by destruct Hb as [->|[->|[->|[->|[]]]]].
Qed.

Lemma persistent_fixed k : persistent_key k = true → membership_fixed k.
Proof.
  intros [Hp Hl]%persistent_printable. apply printable_normalized; [done| |lia]. by intros ->.
Qed.

(** ** Rows by their unique columns *)
Lemma by_key_in skip d id row : wf_but skip d → (id, row) ∈ db_files d → file_by_key (row_key row) d = Some (id, row).
Proof. intros Hw Hin. by apply (find_unique row_key); [apply (wf_keys _ _ Hw)|]. Qed.

Lemma by_path_in skip d id row : wf_but skip d → (id, row) ∈ db_files d →
  file_by_path (row_path row) d = Some (id, row).
Proof. intros Hw Hin. by apply (find_unique row_path); [apply (wf_paths _ _ Hw)|]. Qed.

Lemma by_key_inv k d id row : file_by_key k d = Some (id, row) → (id, row) ∈ db_files d ∧ row_key row = k.
Proof. intros [Hin E]%find_in. by apply bool_decide_eq_true in E. Qed.

Lemma by_path_inv p d id row : file_by_path p d = Some (id, row) → (id, row) ∈ db_files d ∧ row_path row = p.
Proof. intros [Hin E]%find_in. by apply bool_decide_eq_true in E. Qed.

(** ** Changing one row *)

Lemma constraints_ok id row d u : file_constraints id row d = Ok u →
  (∀ r, r ∈ db_files d → r.1 ≠ id →
    row_key r.2 ≠ row_key row ∧ row_path r.2 ≠ row_path row ∧ row_identity r.2 ≠ row_identity row) ∧
  0 <= row_size row ∧ 0 < row_revision row <= INT64_MAX.
Proof.
  unfold file_constraints. cbv zeta. intros E. inv_ok.
  repeat match goal with H : existsb _ _ = false |- _ => rewrite existsb_none, Forall_forall in H end.
  split; [|lia]. intros r Hr Hid.
  assert (r ∈ filter (λ r, r.1 ≠ id) (db_files d)) as Hin by by apply list_elem_of_filter.
  repeat match goal with H : ∀ x, x ∈ filter _ _ → _ |- _ => specialize (H r Hin); apply bool_decide_eq_false in H end.
  done.
Qed.

Lemma nodup_column {B} (f : FileRow → B) id row row' (t : table FileRow) : ordered t → row_lookup id t = Some row →
  NoDup ((f ∘ snd) <$> t) → (∀ r, r ∈ t → r.1 ≠ id → f r.2 ≠ f row') →
  NoDup ((f ∘ snd) <$> row_replace id row' t).
Proof.
  intros Ht Hl Hnd Hnew. apply row_lookup_Some_in in Hl as Hin.
  destruct (row_replace_split id row row' t Ht Hin) as (t1 & t2 & E & ->). rewrite E in Hnd, Hnew, Ht.
  rewrite !fmap_app, !fmap_cons in *. apply ordered_app in Ht as (Ht1 & [Ht2 _]%ordered_cons & Ht3).
  apply NoDup_app in Hnd as (Hn1 & Hn2 & [Hn3 Hn4]%NoDup_cons). rewrite Forall_forall in Ht2.
  assert (∀ r, r ∈ t1 ∨ r ∈ t2 → f r.2 ≠ f row') as Hnew'.
  { intros r Hr. apply Hnew; [rewrite elem_of_app, elem_of_cons; naive_solver|]. destruct Hr as [Hr|Hr].
    - specialize (Ht3 r (id, row) Hr ltac:(by left)). cbn in Ht3. lia.
    - specialize (Ht2 r Hr). cbn in Ht2. lia. }
  apply NoDup_app. split_and!; [done| |].
  - intros x Hx. rewrite elem_of_cons. intros [->|Hx2].
    + apply list_elem_of_fmap in Hx as (r & Er & Hr). by apply (Hnew' r (or_introl Hr)).
    + apply (Hn2 x Hx). by right.
  - apply NoDup_cons. split; [|done]. intros Hx. apply list_elem_of_fmap in Hx as (r & Er & Hr).
    by apply (Hnew' r (or_intror Hr)).
Qed.

Lemma ann_normal d id row m : annotated d id row m → metadata_normal m.
Proof.
  intros Ha. pose proof (plain_normal _ (ann_full _ _ _ _ Ha)) as Hm. pose proof (ann_plain _ _ _ _ Ha) as Hp.
  destruct m. cbn in Hp. by subst.
Qed.

Lemma annotated_frame d d' id row m : annotated d id row m → db_keywords d' = db_keywords d → db_fields d' = db_fields d →
  db_search d' = db_search d → members_of id d' = members_of id d → annotated d' id row m.
Proof. intros [] E1 E2 E3 E4. split; rewrite ?E1, ?E2, ?E3, ?E4; done. Qed.

Lemma annotated_row d id row row' m : annotated d id row m → row_metadata row' = row_metadata row →
  row_rating row' = row_rating row → row_color row' = row_color row → row_title row' = row_title row →
  row_path row' = row_path row → annotated d id row' m.
Proof. intros [] E1 E2 E3 E4 E5. split; rewrite ?E1, ?E2, ?E3, ?E4, ?E5; done. Qed.

Lemma wf_weaken skip d : wf d → wf_but skip d.
Proof. intros Hw. split; try apply Hw. intros r Hr _. by apply (wf_annotated _ _ Hw). Qed.

Lemma wf_close id d : wf_but (Some id) d →
  (∀ row, row_lookup id (db_files d) = Some row → ∃ m, annotated d id row m) → wf d.
Proof.
  intros Hw Hann. split; try apply Hw. intros [k row] Hr _. destruct (decide (k = id)) as [->|Hne].
  - apply Hann, row_lookup_in; [apply Hw|done].
  - apply Hw; [done|]. cbn. congruence.
Qed.

(** A row may be replaced when what is unique stays so. *)
Lemma wf_update id d row row' : wf_but (Some id) d → row_lookup id (db_files d) = Some row →
  (∀ r, r ∈ db_files d → r.1 ≠ id →
    row_key r.2 ≠ row_key row' ∧ row_path r.2 ≠ row_path row' ∧ row_identity r.2 ≠ row_identity row') →
  row_ok row' → wf_but (Some id) (set_files (row_replace id row' (db_files d)) (db_sequence d) d).
Proof.
  intros Hw Hl Hnew Hok. pose proof (wf_files _ _ Hw) as Ho. apply row_lookup_Some_in in Hl as Hin.
  assert (∀ r, r ∈ row_replace id row' (db_files d) ↔ r = (id, row') ∨ (r ∈ db_files d ∧ r.1 ≠ id)) as Hrep.
  { intros r. by apply in_replace with row. }
  split; cbn [set_files db_files db_sequence db_keywords db_fields db_members db_collections db_saved db_pending db_search].
  - by apply row_replace_ordered.
  - intros r [->|[Hr _]]%Hrep; [|by apply Hw]. by apply (wf_ids _ _ Hw (id, row)).
  - eapply nodup_column; [done|done|apply Hw|]. intros. by apply Hnew.
  - eapply nodup_column; [done|done|apply Hw|]. intros. by apply Hnew.
  - eapply nodup_column; [done|done|apply Hw|]. intros. by apply Hnew.
  - intros r [->|[Hr _]]%Hrep; [done|by apply Hw].
  - intros r [->|[Hr Hne]]%Hrep Hskip; [done|]. destruct (wf_annotated _ _ Hw r Hr Hskip) as [m Hm].
    exists m. by eapply annotated_frame.
  - apply (wf_members _ _ Hw).
  - apply Hw.
  - apply Hw.
  - split; [apply Hw|]. intros r Hr. rewrite row_replace_lookup by done.
    destruct (r.1 =? id) eqn:E; [done|]. by apply (wf_pending _ _ Hw).
  - apply Hw.
  - apply Hw.
Qed.

(** ** Annotations *)

Lemma insert_keywords_ok id kws acc ks : fold_res (insert_keyword id) acc kws = Ok ks →
  ∀ t, t ∈ ks ↔ t ∈ acc ∨ ∃ w, w ∈ kws ∧ normalized w 512 true false = Ok t.
Proof.
  revert acc. induction kws as [|w kws IH]; intros acc; cbn [fold_res].
  - intros [= ->] t. split; [by left|]. by intros [?|(? & ?%not_elem_of_nil & _)].
  - intros (acc' & Hk & E)%bind_ok t. unfold insert_keyword in Hk. apply bind_ok in Hk as (term & Hterm & Hk).
    apply bind_ok in Hk as (_ & _ & [= <-]). rewrite (IH _ E t), set_insert_in. split.
    + intros [[->|?]|(w' & Hw & Ht)]; [right|by left|right].
      * exists w. split; [by left|done].
      * exists w'. split; [by right|done].
    + intros [?|(w' & [->|Hw]%elem_of_cons & Ht)]; [left; by right|left; left|right].
      * rewrite Hterm in Ht. by injection Ht.
      * by exists w'.
Qed.

Lemma insert_fields_ok fs acc r : ascending (acc ++ fs) = true → fold_res insert_field acc fs = Ok r → r = acc ++ fs.
Proof.
  revert acc. induction fs as [|[k v] fs IH]; intros acc Ha; cbn [fold_res].
  - intros [= ->]. by rewrite app_nil_r.
  - intros (acc' & Hk & E)%bind_ok. unfold insert_field in Hk. apply of_option_ok in Hk. cbn [fst snd] in Hk.
    assert (ascending (acc ++ [(k, v)]) = true) as Hs.
    { revert Ha. clear. induction acc as [|x acc IH]; cbn [app]; [done|].
      intros [[H1 [H2 _]%Forall_cons]%Forall_app H3]%ascending_cons. apply ascending_cons.
      split; [apply Forall_app; by repeat constructor|]. by apply IH. }
    destruct (ascending_snoc _ _ Hs) as [Hlast _]. rewrite (map_emplace_last k v acc Hlast) in Hk.
    injection Hk as <-. apply IH in E; rewrite <-app_assoc in *; done.
Qed.

Lemma insert_members_ok known cs acc r : set_sorted (acc ++ cs) → fold_res (insert_member known) acc cs = Ok r →
  r = acc ++ cs ∧ Forall (λ k, ∃ c, c ∈ known ∧ coll_key c = k) cs.
Proof.
  revert acc. induction cs as [|k cs IH]; intros acc Ha; cbn [fold_res].
  - intros [= ->]. rewrite app_nil_r. by split.
  - intros (acc' & Hk & E)%bind_ok. unfold insert_member in Hk. apply bind_ok in Hk as (_ & _ & Hk).
    apply bind_ok in Hk as (u & Hknown & [= <-]). apply check_ok, existsb_exists in Hknown as (c & Hc & Ek).
    apply list_elem_of_In in Hc. apply bool_decide_eq_true in Ek.
    assert (set_sorted (acc ++ [k])) as Hs.
    { revert Ha. clear. induction acc as [|x acc IH]; cbn [app]; [repeat constructor|].
      intros Hs. apply StronglySorted_inv in Hs as [Hs [H1 [H2 _]%Forall_cons]%Forall_app].
      constructor; [by apply IH|apply Forall_app; by repeat constructor]. }
    rewrite (set_insert_last k acc) in E by by apply set_sorted_snoc.
    apply IH in E as [-> Hall]; [|by rewrite <-app_assoc]. rewrite <-app_assoc. split; [done|].
    constructor; [by exists c|done].
Qed.

Lemma update_file_ok id f d d' row : row_lookup id (db_files d) = Some row → update_file id f d = Ok d' →
  d' = set_files (row_replace id (f row) (db_files d)) (db_sequence d) d ∧
  (∀ r, r ∈ db_files d → r.1 ≠ id →
    row_key r.2 ≠ row_key (f row) ∧ row_path r.2 ≠ row_path (f row) ∧ row_identity r.2 ≠ row_identity (f row)) ∧
  0 <= row_size (f row) ∧ 0 < row_revision (f row) <= INT64_MAX.
Proof.
  unfold update_file. intros ->. intros ([] & Hc & [= <-])%bind_ok. split; [done|]. by eapply constraints_ok.
Qed.

(** What [annotations] leaves. *)
Definition annotated_db (d : Db) (id : Z) (row : FileRow) (m : FileMetadata) (text : bytes) (ks : list bytes) : Db :=
  set_pending (row_replace id tt (db_pending d))
    (set_index (<[id := ks]> (db_keywords d)) (<[id := fields m]> (db_fields d)) (<[id := collections m]> (db_members d))
       (row_replace id (search_row (row_path row) m) (db_search d))
       (set_files (row_replace id (set_annotations m text row) (db_files d)) (db_sequence d) d)).

Lemma annotations_ok id path m d d' row : metadata_normal m → row_lookup id (db_files d) = Some row →
  row_path row = path → annotations id path m d = Ok d' →
  ∃ text ks, d' = annotated_db d id row m text ks ∧ dump (metadataJson (with_collections m [])) = Ok text ∧
    terms_set (keywords m) ks ∧ Forall (known_collection d) (collections m).
Proof.
  intros Hm Hl Hp. unfold annotations. rewrite stored_json_eq. intros (text & Htext & E)%bind_ok.
  apply bind_ok in E as (_ & _ & E). apply bind_ok in E as (_ & _ & E). apply bind_ok in E as (d1 & Hd1 & E).
  apply (update_file_ok _ _ _ _ row) in Hd1 as (-> & _); [|done].
  apply bind_ok in E as (ks & Hks & E). apply bind_ok in E as (fs & Hfs & E). apply bind_ok in E as (cs & Hcs & E).
  do 4 (apply bind_ok in E as (_ & _ & E)). apply ok_inj in E. subst d'.
  apply insert_fields_ok in Hfs; [|apply (normal_fields _ Hm)]. apply insert_members_ok in Hcs as [-> Hknown];
    [|apply (normal_collections _ Hm)]. cbn [app] in *. subst fs.
  exists text, ks. split; [by subst path|]. split; [done|]. split; [|done].
  intros t. rewrite (insert_keywords_ok _ _ _ _ Hks t). split; [intros [?%not_elem_of_nil|?]; done|by right].
Qed.

Lemma members_of_insert d id c k : default [] (<[id := c]> (db_members d) !! k) = if decide (k = id) then c else members_of k d.
Proof.
  unfold members_of. destruct (decide (k = id)) as [->|Hne]; [by rewrite lookup_insert_eq|by rewrite lookup_insert_ne].
Qed.

Lemma annotated_wf d id row m text ks : wf_but (Some id) d → row_lookup id (db_files d) = Some row →
  metadata_normal m → 0 <= rating m → dump (metadataJson (with_collections m [])) = Ok text →
  terms_set (keywords m) ks → Forall (known_collection d) (collections m) →
  wf (annotated_db d id row m text ks).
Proof.
  intros Hw Hl Hm Hr Htext Hks Hknown. pose proof (wf_files _ _ Hw) as Ho. apply row_lookup_Some_in in Hl as Hin.
  assert (wf_but (Some id) (set_files (row_replace id (set_annotations m text row) (db_files d)) (db_sequence d) d)) as H1'.
  { apply wf_update with row; [done|done| |].
    - intros r Hrin Hne. cbn. pose proof (wf_keys _ _ Hw). pose proof (wf_paths _ _ Hw). pose proof (wf_identities _ _ Hw).
      assert (∀ {B} (f : FileRow → B), NoDup ((f ∘ snd) <$> db_files d) → f r.2 ≠ f row) as Hne'; [|by split_and!; apply Hne'].
      intros B f Hnd E. apply list_elem_of_lookup in Hrin as [i Hi]. apply list_elem_of_lookup in Hin as [j Hj].
      assert (i = j) as ->; [|rewrite Hi in Hj; injection Hj as ->; done].
      eapply NoDup_lookup; [exact Hnd| |]; rewrite list_lookup_fmap, ?Hi, ?Hj; cbn; by rewrite ?E.
    - destruct (wf_rows _ _ Hw _ Hin). by split. }
  apply (wf_close id).
  - split; try apply H1'.
    + intros r Hrin Hskip. destruct (wf_annotated _ _ H1' r Hrin Hskip) as [m' Hm']. exists m'.
      assert (r.1 ≠ id) as Hne by congruence. destruct Hm'. split; try done.
      * unfold members_of. cbn. by rewrite members_of_insert, decide_False.
      * cbn. by rewrite lookup_insert_ne.
      * cbn. by rewrite lookup_insert_ne.
      * cbn. rewrite row_replace_lookup by apply Hw. by destruct (Z.eqb_spec r.1 id).
    + intros k. unfold members_of at 1 2. cbn. rewrite members_of_insert. destruct (decide (k = id)).
      * split; [apply (normal_collections _ Hm)|exact Hknown].
      * apply (wf_members _ _ Hw).
    + split; [apply row_replace_ordered, Hw|]. intros r Hrin. cbn in Hrin |- *. rewrite row_replace_lookup by done.
      apply row_replace_in in Hrin as [->|Hrin]; cbn [fst]; [by rewrite Z.eqb_refl|].
      destruct (r.1 =? id); [done|]. by apply (wf_pending _ _ Hw).
    + apply row_replace_ordered, Hw.
  - intros row'. cbn. rewrite row_replace_lookup, Z.eqb_refl by done. intros [= <-].
    exists (with_collections m []). split; try done.
    + unfold members_of. cbn. rewrite members_of_insert, decide_True by done. by destruct m.
    + exists ks. cbn. split; [by rewrite lookup_insert_eq|done].
    + cbn. by rewrite lookup_insert_eq.
    + cbn. rewrite row_replace_lookup, Z.eqb_refl by apply Hw. done.
Qed.

(** ** New rows *)

Lemma insert_file_wf row d id d' : wf d → row_ok row → insert_file row d = Ok (id, d') →
  wf_but (Some id) d' ∧ row_lookup id (db_files d') = Some row ∧ id = db_sequence d + 1 ∧
  db_files d' = db_files d ++ [(id, row)] ∧ d' = set_files (db_files d ++ [(id, row)]) id d.
Proof.
  intros Hw Hrow. unfold insert_file. cbv zeta. intros ([] & _ & E)%bind_ok.
  apply bind_ok in E as (u & Hc & E). apply bind_ok in E as (t & Ht & E). apply of_option_ok in Ht.
  apply ok_inj in E. injection E as <- <-. destruct (constraints_ok _ _ _ _ Hc) as [Hnew _].
  assert (Forall (λ r, r.1 < db_sequence d + 1) (db_files d)) as Hlow.
  { apply Forall_forall. intros r Hr. apply (wf_ids _ _ Hw) in Hr. lia. }
  rewrite (row_insert_last _ row _ Hlow) in Ht. injection Ht as <-.
  set (id := db_sequence d + 1) in *.
  assert (ordered (db_files d ++ [(id, row)])) as Ho.
  { apply ordered_app. split_and!; [apply Hw|by repeat constructor|]. intros r1 r2 Hr1 ->%list_elem_of_singleton.
    rewrite Forall_forall in Hlow. by apply Hlow. }
  assert (∀ {B} (f : FileRow → B), NoDup ((f ∘ snd) <$> db_files d) → (∀ r, r ∈ db_files d → f r.2 ≠ f row) →
    NoDup ((f ∘ snd) <$> db_files d ++ [(id, row)])) as Hnd.
  { intros B f Hf Hne. rewrite fmap_app. apply NoDup_app. split_and!; [done| |apply NoDup_singleton].
    intros x (r & -> & Hr)%list_elem_of_fmap Hx. apply list_elem_of_singleton in Hx. by apply (Hne r). }
  assert (∀ r, r ∈ db_files d → r.1 ≠ id) as Hids.
  { intros r Hr. rewrite Forall_forall in Hlow. specialize (Hlow r Hr). cbn in Hlow. lia. }
  split_and!; try done.
  - split; cbn [set_files db_files db_sequence db_keywords db_fields db_members db_collections db_saved db_pending db_search];
      try apply Hw; try done.
    + intros r [Hr| ->%list_elem_of_singleton]%elem_of_app; [apply (wf_ids _ _ Hw) in Hr; lia|].
      pose proof (wf_sequence _ _ Hw). cbn. lia.
    + apply Hnd; [apply Hw|]. intros r Hr. by apply Hnew, Hids.
    + apply Hnd; [apply Hw|]. intros r Hr. by apply Hnew, Hids.
    + apply Hnd; [apply Hw|]. intros r Hr. by apply Hnew, Hids.
    + intros r [Hr| ->%list_elem_of_singleton]%elem_of_app; [by apply Hw|done].
    + intros r [Hr| ->%list_elem_of_singleton]%elem_of_app Hskip; [|done].
      destruct (wf_annotated _ _ Hw r Hr) as [m Hm]; [done|]. exists m. by eapply annotated_frame.
    + split; [apply Hw|]. intros r Hr. destruct (proj2 (wf_pending _ _ Hw) r Hr) as [x Hx].
      apply row_lookup_Some_in in Hx. exists x. apply row_lookup_in; [done|]. apply elem_of_app. by left.
    + pose proof (wf_sequence _ _ Hw). lia.
  - apply row_lookup_in; [done|]. apply elem_of_app. right. by left.
Qed.

(** ** Collections and saved filters *)

Lemma insert_by_in {A} (f : A → bytes) x l l' : insert_by f x l = Some l' → ∀ y, y ∈ l' ↔ y = x ∨ y ∈ l.
Proof.
  revert l'. induction l as [|z l IH]; intros l'; cbn [insert_by]; [intros [= <-]; set_solver|].
  destruct (bytes_compare (f x) (f z)); [done|intros [= <-]; set_solver|].
  destruct (insert_by f x l) as [l2|]; [|done]. intros [= <-] y. rewrite !elem_of_cons, (IH l2 eq_refl). set_solver.
Qed.

Lemma insert_by_sorted {A} (f : A → bytes) x l l' : insert_by f x l = Some l' → set_sorted (f <$> l) → set_sorted (f <$> l').
Proof.
  revert l'. induction l as [|z l IH]; intros l'; cbn [insert_by]; [intros [= <-]; repeat constructor|].
  destruct (bytes_compare (f x) (f z)) eqn:E; [done|intros [= <-] Hs|].
  - rewrite !fmap_cons in *. constructor; [done|]. apply bytes_ltb_compare in E. constructor; [done|].
    apply StronglySorted_inv in Hs as [_ Hz]. eapply Forall_impl; [exact Hz|]. intros y. by apply bytes_lt_trans.
  - destruct (insert_by f x l) as [l2|] eqn:E2; [|done]. intros [= <-] Hs. rewrite !fmap_cons in *.
    apply StronglySorted_inv in Hs as [Hs Hz]. constructor; [by apply IH|]. apply Forall_forall.
    intros y (w & -> & Hw)%list_elem_of_fmap. apply (insert_by_in f x l l2 E2) in Hw as [->|Hw]; [by apply bytes_gt_lt|].
    rewrite Forall_forall in Hz. apply Hz. by apply list_elem_of_fmap_2.
Qed.

Lemma insert_by_perm {A} (f : A → bytes) x l l' : insert_by f x l = Some l' → l' ≡ₚ x :: l.
Proof.
  revert l'. induction l as [|z l IH]; intros l'; cbn [insert_by]; [by intros [= <-]|].
  destruct (bytes_compare (f x) (f z)); [done|by intros [= <-]|].
  destruct (insert_by f x l) as [l2|]; [|done]. intros [= <-]. rewrite (IH l2 eq_refl). apply Permutation_swap.
Qed.

Lemma set_sorted_filter {A} (f : A → bytes) (P : A → Prop) `{∀ x, Decision (P x)} l :
  set_sorted (f <$> l) → set_sorted (f <$> filter P l).
Proof.
  induction l as [|x l IH]; [done|]. rewrite fmap_cons. intros [Hs Hx]%StronglySorted_inv. rewrite filter_cons.
  destruct (decide (P x)); [|by apply IH]. rewrite fmap_cons. constructor; [by apply IH|].
  apply Forall_forall. intros y (z & -> & [_ Hz]%list_elem_of_filter)%list_elem_of_fmap. rewrite Forall_forall in Hx.
  apply Hx. by apply list_elem_of_fmap_2.
Qed.

Lemma nodup_filter {A B} (f : A → B) (P : A → Prop) `{∀ x, Decision (P x)} l :
  NoDup (f <$> l) → NoDup (f <$> filter P l).
Proof.
  induction l as [|x l IH]; [done|]. rewrite fmap_cons. intros [Hx Hl]%NoDup_cons. rewrite filter_cons.
  destruct (decide (P x)); [|by apply IH]. rewrite fmap_cons. constructor; [|by apply IH].
  intros (y & Ey & [_ Hy]%list_elem_of_filter)%list_elem_of_fmap. apply Hx. rewrite Ey. by apply list_elem_of_fmap_2.
Qed.

Lemma forall_filter {A} (Q P : A → Prop) `{∀ x, Decision (P x)} l : Forall Q l → Forall Q (filter P l).
Proof. rewrite !Forall_forall. intros Hl x [_ Hx]%list_elem_of_filter. by apply Hl. Qed.

Lemma wf_set_collections skip d c ms : wf_but skip d →
  set_sorted (coll_folded <$> c) ∧ NoDup (coll_key <$> c) ∧ Forall collection_ok c ∧ len c <= 4096 →
  (∀ id, set_sorted (default [] (ms !! id)) ∧ Forall (λ k, ∃ x, x ∈ c ∧ coll_key x = k) (default [] (ms !! id))) →
  (∀ id m, metadata_normal (with_collections m (members_of id d)) → metadata_normal (with_collections m (default [] (ms !! id)))) →
  wf_but skip (set_collections c ms d).
Proof.
  intros Hw Hc Hms Hn. split; try apply Hw; try done. intros r Hr Hskip.
  destruct (wf_annotated _ _ Hw r Hr Hskip) as [m []]. exists m. split; try done. by apply Hn.
Qed.

Lemma insert_collection_wf skip d key name folded d' : wf_but skip d → len (db_collections d) < 4096 →
  collection_ok {| coll_key := key; coll_name := name; coll_folded := folded |} →
  insert_collection key name folded d = Ok d' →
  wf_but skip d' ∧ known_collection d' key ∧ (∀ k, known_collection d k → known_collection d' k) ∧
  ∃ c, d' = set_collections c (db_members d) d.
Proof.
  intros Hw Hn Hok. unfold insert_collection. intros (u & Hkey & E)%bind_ok. apply bind_ok in E as (l & Hl & [= <-]).
  apply check_ok, negb_true_iff, existsb_none in Hkey. rewrite Forall_forall in Hkey. apply of_option_ok in Hl.
  destruct (wf_collections _ _ Hw) as (Hs & Hnd & Hall & _). pose proof (insert_by_perm _ _ _ _ Hl) as Hp.
  assert (∀ k, known_collection d k → ∃ c, c ∈ l ∧ coll_key c = k) as Hold.
  { intros k (c & Hc & Ek). exists c. split; [|done]. apply (insert_by_in _ _ _ _ Hl). by right. }
  split_and!; [| |exact Hold|by eexists].
  - apply wf_set_collections; [done| | |done].
    + split_and!; [by eapply insert_by_sorted| | |].
      * rewrite Hp. rewrite fmap_cons. constructor; [|done]. intros (c & Ec & Hc)%list_elem_of_fmap.
        specialize (Hkey c Hc). apply bool_decide_eq_false in Hkey. by apply Hkey.
      * rewrite Hp. by constructor.
      * rewrite Hp. cbn [length]. lia.
    + intros id. destruct (wf_members _ _ Hw id) as [Hm1 Hm2]. split; [done|].
      eapply Forall_impl; [exact Hm2|]. intros k. apply Hold.
  - eexists. split; [apply (insert_by_in _ _ _ _ Hl); by left|done].
Qed.

Lemma rename_row_wf d key name folded d' : wf d →
  normalized name 512 false true = Ok name → normalized name 512 true false = Ok folded →
  rename_row key name folded d = Ok d' → wf d' ∧ ∃ c, d' = set_collections c (db_members d) d.
Proof.
  intros Hw Hname Hfold. unfold rename_row. intros (u & Hkey & E)%bind_ok. apply bind_ok in E as (l & Hl & [= <-]).
  apply check_ok, existsb_exists in Hkey as (c0 & Hc0 & E0). apply list_elem_of_In in Hc0. apply bool_decide_eq_true in E0.
  apply of_option_ok in Hl. split; [|by eexists]. destruct (wf_collections _ _ Hw) as (Hs & Hnd & Hall & Hlen).
  set (rest := filter (λ c, coll_key c ≠ key) (db_collections d)) in *.
  pose proof (insert_by_perm _ _ _ _ Hl) as Hp. apply wf_set_collections; [done| | |done].
  - split_and!.
    + eapply insert_by_sorted; [exact Hl|]. by apply set_sorted_filter.
    + rewrite Hp, fmap_cons. constructor; [|by apply nodup_filter].
      intros (c & Ec & [Hc _]%list_elem_of_filter)%list_elem_of_fmap. by apply Hc.
    + rewrite Hp. constructor; [|by apply forall_filter]. split_and!; [|done..]. cbn.
      rewrite Forall_forall in Hall. rewrite <-E0. by apply Hall.
    + rewrite Hp. cbn [length]. assert (length rest < length (db_collections d))%nat as Hlt; [|lia].
      unfold rest. apply (length_filter_lt _ _ c0); [done|]. by intros Hne.
  - intros id. destruct (wf_members _ _ Hw id) as [Hm1 Hm2]. split; [done|].
    eapply Forall_impl; [exact Hm2|]. intros k (c & Hc & Ek). destruct (decide (k = key)) as [->|Hne].
    + eexists. split; [apply (insert_by_in _ _ _ _ Hl); by left|done].
    + exists c. split; [|done]. apply (insert_by_in _ _ _ _ Hl). right. apply list_elem_of_filter. split; [congruence|done].
Qed.

(** A classification with fewer memberships is still canonical. *)
Lemma dump_array_ok l items : Forall2 (λ x t, dump x = Ok t) l items →
  dump (JArray l) = Ok (lit "[" ++ join (lit ",") items ++ lit "]").
Proof.
  intros Hl. cbn [dump]. match goal with |- (?r ≫= _) = _ => assert (r = Ok items) as -> end; [|done].
  induction Hl as [|x t l items Hx _ IH]; [done|]. rewrite Hx. cbn [mbind result_bind]. rewrite IH. done.
Qed.

Lemma join_sublist (a b : list bytes) : a `sublist_of` b → (length (join (lit ",") a) <= length (join (lit ",") b))%nat.
Proof.
  induction 1 as [|x a b Hs IH|x a b Hs IH]; [done| |].
  - rewrite !join_cons. destruct a as [|y a]; destruct b as [|z b]; rewrite ?length_app; try lia.
    by apply sublist_nil_r in Hs.
  - rewrite join_cons. destruct b; rewrite ?length_app; [|lia]. apply sublist_nil_r in Hs as ->. cbn. lia.
Qed.

Lemma fewer_items (P : bytes → Prop) `{∀ x, Decision (P x)} c items : Forall2 (λ x t, dump x = Ok t) (JString <$> c) items →
  ∃ items', Forall2 (λ x t, dump x = Ok t) (JString <$> filter P c) items' ∧ items' `sublist_of` items.
Proof.
  revert items. induction c as [|x c IH]; intros items; rewrite ?fmap_cons; intros Hi.
  - inversion Hi. by exists [].
  - inversion Hi as [|? t ? ts Ht Hts]; subst. destruct (IH ts Hts) as (ts' & H1' & H2'). rewrite filter_cons.
    destruct (decide (P x)).
    + exists (t :: ts'). split; [by constructor|by apply sublist_skip].
    + exists ts'. split; [done|by apply sublist_cons].
Qed.

Lemma fewer_normal (P : bytes → Prop) `{∀ x, Decision (P x)} m c : metadata_normal (with_collections m c) →
  metadata_normal (with_collections m (filter P c)).
Proof.
  intros [Hr Ht Hd Hk [Hn1 Hn2] Hf [Hc1 Hc2] (d & Hdump & Hlen)].
  split; cbn [with_collections title description keywords rating color fields collections] in *; try done.
  - pose proof (length_filter P c). lia.
  - split; [|by apply forall_filter]. rewrite <-(list_fmap_id (filter P c)). apply set_sorted_filter. by rewrite list_fmap_id.
  - rewrite metadata_object in *. cbn [with_collections collections] in *.
    assert (∃ e, dump (JArray (JString <$> c)) = Ok e) as [e He].
    { cbn [dump] in Hdump. apply bind_ok in Hdump as (? & E & _). apply bind_ok in E as (? & _ & E).
      apply bind_ok in E as (e & E & _). by exists e. }
    destruct (dump_array_inv _ _ He) as (items & Hi & ->). destruct (fewer_items P c items Hi) as (items' & Hi' & Hsub).
    destruct (dump_first_member _ _ (JArray (JString <$> filter P c)) _ _ _ Hdump (dump_array_ok _ _ Hi')) as (d' & Hd' & Hle).
    + intros e' He'. rewrite He in He'. apply ok_inj in He'. subst e'. rewrite !length_app.
      pose proof (join_sublist _ _ Hsub). lia.
    + exists d'. split; [exact Hd'|]. lia.
Qed.

Lemma delete_collection_wf d key d' : wf d → delete_collection key d = Ok d' → wf d'.
Proof.
  intros Hw. unfold delete_collection. intros (u & Hkey & [= <-])%bind_ok.
  destruct (wf_collections _ _ Hw) as (Hs & Hnd & Hall & Hlen). apply wf_set_collections; [done| | |].
  - split_and!; [by apply set_sorted_filter|by apply nodup_filter|by apply forall_filter|].
    pose proof (length_filter (λ c, coll_key c ≠ key) (db_collections d)). lia.
  - intros id. destruct (wf_members _ _ Hw id) as [Hm1 Hm2]. rewrite lookup_fmap.
    unfold members_of in *. destruct (db_members d !! id) as [l|]; cbn in *; [|by repeat constructor].
    split; [rewrite <-(list_fmap_id (filter _ _)); apply set_sorted_filter; by rewrite list_fmap_id|].
    apply Forall_forall. intros k [Hne Hk]%list_elem_of_filter. rewrite Forall_forall in Hm2.
    destruct (Hm2 k Hk) as (c & Hc & Ek). exists c. split; [|done]. apply list_elem_of_filter. split; [congruence|done].
  - intros id m. unfold members_of. rewrite lookup_fmap. destruct (db_members d !! id) as [l|]; cbn; [|done].
    apply fewer_normal.
Qed.

Lemma wf_set_revision skip n d : wf_but skip d → wf_but skip (set_revision n d).
Proof.
  intros Hw. split; try apply Hw. intros r Hr Hskip. destruct (wf_annotated _ _ Hw r Hr Hskip) as [m Hm].
  exists m. by eapply annotated_frame.
Qed.

Lemma bump_wf d d' : wf d → bump d = Ok d' → wf d' ∧ db_revision d' = db_revision d + 1.
Proof.
  intros Hw. unfold bump. intros (u & _ & [= <-])%bind_ok. split; [by apply wf_set_revision|done].
Qed.

Lemma wf_set_pending p d : wf d → ordered p → (∀ r, r ∈ p → is_Some (row_lookup r.1 (db_files d))) → wf (set_pending p d).
Proof.
  intros Hw Ho Hp. split; try apply Hw; try done. intros r Hr Hskip.
  destruct (wf_annotated _ _ Hw r Hr Hskip) as [m Hm]. exists m. by eapply annotated_frame.
Qed.

Lemma wf_set_saved s d : wf d →
  set_sorted (sf_folded <$> s) ∧ NoDup (sf_key <$> s) ∧ Forall saved_ok s ∧ len s <= 4096 → wf (set_saved s d).
Proof.
  intros Hw Hs. split; try apply Hw; try done. intros r Hr Hskip.
  destruct (wf_annotated _ _ Hw r Hr Hskip) as [m Hm]. exists m. by eapply annotated_frame.
Qed.
End invariant.

(** ** Entries *)
Section entries.
Context `{CatalogUnicodeLaws} (json_parse : bytes → option json).
Context (parse_dump : ∀ j d, json_ok j = true → dump j = Ok d → json_parse d = Some j).

Lemma entry_annotated d id row m : annotated d id row m → entry json_parse id row d = Ok
  {| file_key := row_key row; file_index := id; file_revision := row_revision row; file_path := row_path row;
     file_size := row_size row; modifiedAtNs := row_modified row; contentVersion := row_stamp row;
     file_metadata := with_collections m (members_of id d);
     metadataPending := bool_decide (is_Some (row_lookup id (db_pending d))) |}.
Proof.
  intros Ha. unfold entry, parse_json.
  rewrite (parse_dump _ _ (metadata_json_ok m (ann_normal _ _ _ _ Ha)) (ann_document _ _ _ _ Ha)).
  cbn [of_option mbind result_bind].
  rewrite (metadata_again m (ann_normal _ _ _ _ Ha) (ann_rating _ _ _ _ Ha)). done.
Qed.

(** Every row has an entry. *)
Lemma entry_ok d id row : wf_but None d → (id, row) ∈ db_files d → ∃ m, annotated d id row m ∧
  entry json_parse id row d = Ok
  {| file_key := row_key row; file_index := id; file_revision := row_revision row; file_path := row_path row;
     file_size := row_size row; modifiedAtNs := row_modified row; contentVersion := row_stamp row;
     file_metadata := with_collections m (members_of id d);
     metadataPending := bool_decide (is_Some (row_lookup id (db_pending d))) |}.
Proof.
  intros Hw Hin. destruct (wf_annotated _ _ Hw _ Hin) as [m Hm]; [done|]. exists m. split; [done|].
  by apply entry_annotated.
Qed.
End entries.
