(* ===== verification/CatalogSteps.v ===== *)
(** The catalog's composed statements keep the invariant: raising the revisions of a
    collection's members, taking over the collections of a companion, and writing a
    registered file. *)
From S2P Require Import Prelude Text Paths Unicode CoreText Json JsonObject JsonParser MetadataCodec Table.
From S2P Require Import CatalogData CatalogLaws CatalogTables CatalogStore CatalogInvariant.
Local Open Scope Z_scope.

Section steps.
Context `{CatalogUnicodeLaws}.

Abbreviation wf := (wf_but None).

(** ** Members of a collection *)

(** A statement on [files] that leaves the rest of the catalog. *)
Record files_only (d d' : Db) : Prop := {
  fo_wf : wf d → wf d';
  fo_ids : (db_files d').*1 = (db_files d).*1;
  fo_members : db_members d' = db_members d;
  fo_collections : db_collections d' = db_collections d;
  fo_pending : db_pending d' = db_pending d;
  fo_revision : db_revision d' = db_revision d
}.

Lemma lookup_ids {A} id (t t' : table A) : t'.*1 = t.*1 → is_Some (row_lookup id t) → is_Some (row_lookup id t').
Proof.
  revert t'. induction t as [|[k a] t IH]; intros t' E [r Hr]; [done|].
  destruct t' as [|[k' a'] t']; [done|]. injection E as -> E. cbn in *.
  destruct (id =? k); [by eexists|]. apply IH; [done|by eexists].
Qed.

Lemma replace_ids {A} id (a : A) t : ordered t → is_Some (row_lookup id t) → (row_replace id a t).*1 = t.*1.
Proof.
  induction t as [|[k b] t IH]; cbn; [by intros _ []|]. intros [Hk Ht]%ordered_cons Hs.
  destruct (Z.ltb_spec id k).
  - rewrite (proj2 (Z.eqb_neq id k)) in Hs by lia. rewrite (row_lookup_above id k) in Hs; [by destruct Hs|done|lia].
  - destruct (Z.eqb_spec id k) as [->|]; [done|]. cbn. by rewrite IH.
Qed.

Lemma touch_one_ok d id d' : wf d → update_file id next_revision d = Ok d' → files_only d d' ∧
  ∀ k, row_lookup k (db_files d') = (if k =? id then next_revision else λ r, r) <$> row_lookup k (db_files d).
Proof.
  intros Hw E. destruct (row_lookup id (db_files d)) as [row|] eqn:Hl.
  - destruct (update_file_ok _ _ _ _ row Hl E) as (-> & Hnew & Hsize & Hrev).
    pose proof (wf_files _ _ Hw) as Ho. apply row_lookup_Some_in in Hl as Hin. split.
    + split; try done; [|by apply replace_ids; [|eexists]]. intros _.
      apply (wf_close id).
      * apply wf_update with row; [by apply wf_weaken|done|done|]. destruct (wf_rows _ _ Hw _ Hin). by split.
      * cbn [set_files db_files]. intros row'. rewrite row_replace_lookup, Z.eqb_refl by done. intros [= <-].
        destruct (wf_annotated _ _ Hw _ Hin) as [m Hm]; [done|]. exists m. cbn in Hm.
        eapply (annotated_row _ _ row); [|done..]. by eapply annotated_frame.
    + intros k. cbn [set_files db_files]. rewrite row_replace_lookup by done. destruct (Z.eqb_spec k id) as [->|]; [by rewrite Hl|].
      by destruct (row_lookup k (db_files d)).
  - unfold update_file in E. rewrite Hl in E. injection E as <-. split; [by split|]. intros k.
    destruct (Z.eqb_spec k id) as [->|]; [by rewrite Hl|]. by destruct (row_lookup k (db_files d)).
Qed.

Lemma touch_loop_ok ids d d' : NoDup ids → wf d → fold_res (λ d id, update_file id next_revision d) d ids = Ok d' →
  files_only d d' ∧
  ∀ k, row_lookup k (db_files d') = (if bool_decide (k ∈ ids) then next_revision else λ r, r) <$> row_lookup k (db_files d).
Proof.
  intros Hnd. revert d. induction Hnd as [|id ids Hid _ IH]; intros d Hw; cbn [fold_res].
  - intros [= <-]. split; [by split|]. intros k. by destruct (row_lookup k (db_files d)).
  - intros (d1 & H1' & E)%bind_ok. destruct (touch_one_ok _ _ _ Hw H1') as [F1 L1].
    destruct (IH d1 (fo_wf _ _ F1 Hw) E) as [F2 L2]. split.
    + destruct F1, F2. split; [auto|congruence..].
    + intros k. rewrite L2, L1. destruct (Z.eqb_spec k id) as [->|Hne].
      * rewrite (bool_decide_false (id ∈ ids)), (bool_decide_true (id ∈ id :: ids)) by set_solver.
        by destruct (row_lookup id (db_files d)).
      * assert (bool_decide (k ∈ ids) = bool_decide (k ∈ id :: ids)) as -> by (apply bool_decide_ext; set_solver).
        by destruct (row_lookup k (db_files d)).
Qed.

Lemma pending_all ids p r : r ∈ foldl (λ p id, row_replace id tt p) p ids → r ∈ p ∨ r.1 ∈ ids.
Proof.
  revert p. induction ids as [|id ids IH]; intros p; cbn [foldl]; [by left|].
  intros [Hr|Hr]%IH; [|right; by right]. apply row_replace_in in Hr as [->|Hr]; [right; by left|by left].
Qed.

Lemma pending_ordered ids p : ordered p → ordered (foldl (λ p id, row_replace id tt p) p ids).
Proof. revert p. induction ids as [|id ids IH]; intros p Hp; cbn [foldl]; [done|]. by apply IH, row_replace_ordered. Qed.

Lemma pending_lookup ids p id : ordered p →
  is_Some (row_lookup id (foldl (λ p id, row_replace id tt p) p ids)) ↔ id ∈ ids ∨ is_Some (row_lookup id p).
Proof.
  revert p. induction ids as [|x ids IH]; intros p Hp; cbn [foldl].
  - split; [by right|]. by intros [?%not_elem_of_nil|?].
  - rewrite IH by by apply row_replace_ordered. rewrite row_replace_lookup by done. rewrite elem_of_cons.
    destruct (Z.eqb_spec id x) as [->|]; [|naive_solver]. split; [by left; left|]. intros _. right. by eexists.
Qed.

Lemma wf_ids_nodup skip d : wf_but skip d → NoDup (db_files d).*1.
Proof.
  intros Hw. pose proof (wf_files _ _ Hw) as Ho. induction (db_files d) as [|[k r] t IH]; [constructor|].
  apply ordered_cons in Ho as [Hk Ht]. cbn. constructor; [|by apply IH]. intros (x & -> & Hx)%list_elem_of_fmap.
  rewrite Forall_forall in Hk. specialize (Hk x Hx). lia.
Qed.

(** The members' revisions rise by one and they wait for publication; the others stay. *)
Lemma touch_members_ok key d d' : wf d → touch_members key d = Ok d' →
  wf d' ∧ db_members d' = db_members d ∧ db_collections d' = db_collections d ∧
  (∀ id, row_lookup id (db_files d') =
     (if is_member key d id then next_revision else λ r, r) <$> row_lookup id (db_files d)) ∧
  (∀ id, is_Some (row_lookup id (db_pending d')) ↔
     (is_member key d id = true ∧ is_Some (row_lookup id (db_files d))) ∨ is_Some (row_lookup id (db_pending d))).
Proof.
  intros Hw. unfold touch_members. intros (d1 & E & [= <-])%bind_ok.
  assert (NoDup (member_ids key d)) as Hnd by by apply NoDup_filter, (wf_ids_nodup None).
  destruct (touch_loop_ok _ _ _ Hnd Hw E) as [[Hwf Hids Hm Hc Hp Hr] Hl].
  assert (member_ids key d1 = member_ids key d) as Hsame.
  { unfold member_ids. rewrite Hids. apply list_filter_iff. intros id. unfold is_member, members_of. by rewrite Hm. }
  assert (∀ id, id ∈ member_ids key d ↔ is_member key d id = true ∧ is_Some (row_lookup id (db_files d))) as Hin.
  { intros id. unfold member_ids. rewrite list_elem_of_filter, Is_true_true. apply and_iff_compat_l. split.
    - intros ([k r] & -> & Hr')%list_elem_of_fmap. exists r. apply row_lookup_in; [apply Hw|done].
    - intros [r Hr'%row_lookup_Some_in]. by apply (list_elem_of_fmap_2 fst) in Hr'. }
  rewrite Hsame, Hp. cbn [set_pending db_members db_collections db_files db_pending]. split_and!; try done.
  - apply wf_set_pending; [by apply Hwf|by apply pending_ordered, Hw|]. intros [k u] Hk. cbn.
    apply (lookup_ids k (db_files d)); [done|]. apply pending_all in Hk as [Hk|Hk]; [by apply (wf_pending _ _ Hw) in Hk|].
    by apply Hin in Hk as [_ ?].
  - intros id. rewrite Hl. destruct (row_lookup id (db_files d)) as [row|] eqn:El; [|done]. cbn. f_equal.
    destruct (is_member key d id) eqn:Em.
    + rewrite bool_decide_true; [done|]. apply Hin. by rewrite El.
    + rewrite bool_decide_false; [done|]. rewrite Hin, Em. by intros [? _].
  - intros id. rewrite pending_lookup by apply Hw. by rewrite Hin.
Qed.

(** ** Companion collections *)

(** Only collections were added. *)
Definition collections_added (d d' : Db) : Prop := ∃ c, d' = set_collections c (db_members d) d.

Lemma collections_added_refl d : collections_added d d.
Proof. exists (db_collections d). by destruct d. Qed.

Lemma collections_added_trans d1 d2 d3 : collections_added d1 d2 → collections_added d2 d3 → collections_added d1 d3.
Proof. intros [c ->] [c' ->]. by exists c'. Qed.

Lemma restore_one_ok d remap c d' remap' : wf d → restore_one (d, remap) c = Ok (d', remap') →
  wf d' ∧ collections_added d d'.
Proof.
  intros Hw. unfold restore_one. intros (rk & _ & E)%bind_ok. apply bind_ok in E as (ckey & Hkey & E).
  apply bind_ok in E as (rn & _ & E). apply bind_ok in E as (name & Hname & E). apply bind_ok in E as (folded & Hfold & E).
  destruct (collection_by_key ckey d) as [row|].
  { apply ok_inj in E. injection E as <- <-. split; [done|apply collections_added_refl]. }
  destruct (List.find _ (db_collections d)) as [row|].
  { apply ok_inj in E. injection E as <- <-. split; [done|apply collections_added_refl]. }
  apply bind_ok in E as (u & Hn & E). apply bind_ok in E as (d1 & Hd1 & E). apply ok_inj in E. injection E as <- <-.
  apply check_ok, Z.ltb_lt in Hn. apply insert_collection_wf with (skip := None) in Hd1 as (Hw1 & _ & _ & c' & ->); try done.
  - split; [done|by exists c'].
  - split_and!; [by eapply normalized_again|by eapply normalized_again|done].
Qed.

Lemma normalize_rating m m' : normalizeMetadata m = Ok m' → rating m' = rating m.
Proof. unfold normalizeMetadata. intros E. by inv_ok. Qed.

Lemma restoreCollections_ok j m d m' d' : wf d → restoreCollections j m d = Ok (m', d') →
  wf d' ∧ collections_added d d' ∧ metadata_normal m' ∧ rating m' = rating m.
Proof.
  intros Hw. unfold restoreCollections. intros (cs & _ & E)%bind_ok. apply bind_ok in E as ([d1 remap] & Hd1 & E).
  apply bind_ok in E as (c & _ & E). apply bind_ok in E as (m1 & Hm1 & E). apply ok_inj in E. injection E as <- <-.
  assert (wf d1 ∧ collections_added d d1) as [Hw1 Ha].
  { refine (fold_res_ind (λ st : Db * list (bytes * bytes), wf st.1 ∧ collections_added d st.1) _ _ _ _ _ _ Hd1).
    - split; [done|apply collections_added_refl].
    - intros [d2 r2] x [d3 r3] _ [Hw2 Ha2] E. destruct (restore_one_ok _ _ _ _ _ Hw2 E) as [Hw3 Ha3].
      split; [done|by eapply collections_added_trans]. }
  split_and!; [done|done|by eapply normalize_normal|]. by apply normalize_rating in Hm1.
Qed.

(** ** Registered files *)

Lemma written_row d id row m text ks : wf_but (Some id) d → row_lookup id (db_files d) = Some row →
  row_lookup id (db_files (annotated_db d id row m text ks)) = Some (set_annotations m text row).
Proof. intros Hw Hl. cbn. by rewrite row_replace_lookup, Z.eqb_refl by apply Hw. Qed.

(** Where a registration writes: at the row of the entry, or at a new one. *)
Definition writes_at (existing : option CatalogFile) (d : Db) (id : Z) (key : bytes) : Prop :=
  match existing with
  | Some e => id = file_index e ∧ key = file_key e ∧ ∃ row, (id, row) ∈ db_files d ∧ row_key row = key
  | None => id = db_sequence d + 1
  end.

(** The row that a registration leaves. *)
Record registered_row (p : Physical) (revision : Z) (key relative : bytes) (m : FileMetadata) (row : FileRow) : Prop := {
  reg_key : row_key row = key;
  reg_path : row_path row = relative;
  reg_identity : row_identity row = identity p;
  reg_size : row_size row = physical_size p;
  reg_modified : row_modified row = modified p;
  reg_stamp : row_stamp row = version p;
  reg_revision : row_revision row = revision;
  reg_rating : row_rating row = rating m;
  reg_color : row_color row = color_code (color m);
  reg_title : row_title row = title m;
  reg_document : dump (metadataJson (with_collections m [])) = Ok (row_metadata row)
}.

(** The first statement puts the physical state at the row. *)
Lemma place_row_ok existing p revision key relative m d d' id : wf d →
  relativePath relative false = Ok relative → persistent_key key = true → writes_at existing d id key →
  write_row existing p revision key relative m d = Ok d' →
  ∃ d1 row, wf_but (Some id) d1 ∧ row_lookup id (db_files d1) = Some row ∧ row_path row = relative ∧
    annotations id relative m d1 = Ok d' ∧
    (∀ text, dump (metadataJson (with_collections m [])) = Ok text →
       registered_row p revision key relative m (set_annotations m text row)) ∧
    db_revision d1 = db_revision d ∧ db_members d1 = db_members d ∧
    (∀ k, k ≠ id → row_lookup k (db_files d1) = row_lookup k (db_files d)).
Proof.
  intros Hw Hrel Hkey Hat. unfold write_row. intros (u1 & _ & E)%bind_ok. apply bind_ok in E as (u2 & _ & E).
  destruct existing as [e|].
  - destruct Hat as (-> & Ek & row & Hin & Erow). apply bind_ok in E as (d1 & Hd1 & E).
    assert (row_lookup (file_index e) (db_files d) = Some row) as Hl by (apply row_lookup_in; [apply Hw|done]).
    destruct (update_file_ok _ _ _ _ row Hl Hd1) as (-> & Hnew & Hsize & Hrev).
    eexists _, (set_physical p revision relative row). split_and!; try done.
    + apply wf_update with row; [by apply wf_weaken|done|done|]. split; try done; cbn; by rewrite ?Erow.
    + cbn. by rewrite row_replace_lookup, Z.eqb_refl by apply Hw.
    + intros k Hk. cbn. rewrite row_replace_lookup by apply Hw. by rewrite (proj2 (Z.eqb_neq _ _) Hk).
  - apply bind_ok in E as ([id' d1] & Hd1 & E).
    assert (row_ok (fresh_row p revision key relative)) as Hok.
    { unfold insert_file in Hd1. cbv zeta in Hd1. apply bind_ok in Hd1 as (? & _ & Hd1).
      apply bind_ok in Hd1 as (? & Hc & _). apply constraints_ok in Hc as (_ & Hc1 & Hc2). by split. }
    apply insert_file_wf in Hd1 as (Hw1 & Hl1 & -> & Hf1 & ->); [|done..]. cbn in Hat. subst id.
    eexists _, _. split_and!; try done. intros k Hk. cbn.
    destruct (row_lookup k (db_files d)) as [x|] eqn:Ex.
    + apply row_lookup_in; [apply Hw1|]. apply elem_of_app. left. by apply row_lookup_Some_in.
    + destruct (row_lookup k (db_files d ++ _)) as [x|] eqn:Ex2; [|done]. exfalso.
      apply row_lookup_Some_in, elem_of_app in Ex2 as [Hx|Hx%list_elem_of_singleton]; [|by injection Hx as ->].
      apply (row_lookup_in _ _ _ (wf_files _ _ Hw)) in Hx. by rewrite Hx in Ex.
Qed.

Lemma write_row_ok existing p revision key relative m d d' : wf d → metadata_normal m → 0 <= rating m →
  relativePath relative false = Ok relative → persistent_key key = true →
  (∃ id, writes_at existing d id key) →
  write_row existing p revision key relative m d = Ok d' →
  wf d' ∧ ∃ id row, writes_at existing d id key ∧ row_lookup id (db_files d') = Some row ∧
    registered_row p revision key relative m row ∧ members_of id d' = collections m ∧
    is_Some (row_lookup id (db_pending d')) ∧ db_revision d' = db_revision d ∧
    (∀ k, k ≠ id → row_lookup k (db_files d') = row_lookup k (db_files d) ∧ members_of k d' = members_of k d).
Proof.
  intros Hw Hm Hr Hrel Hkey [id Hat] E.
  destruct (place_row_ok _ _ _ _ _ _ _ _ _ Hw Hrel Hkey Hat E) as (d1 & row & Hw1 & Hl1 & Hp1 & E1 & Hreg & Hrv & Hmem & Hoth).
  destruct (annotations_ok _ _ _ _ _ row Hm Hl1 Hp1 E1) as (text & ks & -> & Htext & Hks & Hknown).
  split; [by apply annotated_wf|]. exists id, (set_annotations m text row).
  split_and!; try done.
  - by apply written_row.
  - by apply Hreg.
  - unfold members_of at 1. cbn. by rewrite lookup_insert_eq.
  - cbn. rewrite row_replace_lookup by apply Hw1. by rewrite Z.eqb_refl.
  - intros k Hk. split.
    + cbn. rewrite row_replace_lookup by apply Hw1. rewrite (proj2 (Z.eqb_neq _ _) Hk). by apply Hoth.
    + unfold members_of. cbn. rewrite lookup_insert_ne by done. by rewrite Hmem.
Qed.
End steps.
