(* ===== verification/CatalogReach.v ===== *)
(** Every operation of the catalog keeps its invariant, whatever the file system does
    and whatever consistent changes other processes commit in between. *)
From stdpp Require Import relations list.
From S2P Require Import Prelude Text Paths Unicode CoreText Json JsonObject JsonParser Sha256 MetadataCodec Table Proc.
From S2P Require Import CatalogData CatalogLaws CatalogTables CatalogStore CatalogOpen CatalogInvariant CatalogSteps.
Local Open Scope Z_scope.
Local Open Scope proc_scope.

(** ** Procedures that leave the database *)

Definition same_db (w w' : World) : Prop := db w' = db w.

#[export] Instance same_db_preorder : PreOrder same_db.
Proof. split; [done|]. unfold same_db. intros x y z E1 E2. congruence. Qed.

Abbreviation quiet := (keeps same_db).

(** Decomposes a procedure into the parts that are known to keep the relation. *)
Ltac quiet_with tac := repeat first
  [ progress intros
  | tac
  | apply keeps_and_then; [apply _| |]
  | apply keeps_catch; [apply _| |]
  | apply keeps_ret, _ | apply keeps_throw, _ | apply keeps_lift, _ | apply keeps_guard, _
  | match goal with |- keeps _ (match ?x with _ => _ end) => destruct x end ].

(** ** Procedures that only look

    What looking and being refused keep, every check of the file system keeps. *)
Section looking.
Context `{CatalogUnicodeLaws} (real_cast : bytes → Z) (json_parse : bytes → option json) (W : Outside) (d : Impl).
Context (R : World → World → Prop) `{!PreOrder R} (R_look : keeps R (look W)) (R_attempt : ∀ m, keeps R (attempt W m)).

Lemma looking_inspect p b : keeps R (inspect W p b).
Proof. unfold inspect. quiet_with ltac:(apply R_look). Qed.
Lemma looking_companion p : keeps R (companion real_cast json_parse W p).
Proof. unfold companion, smallRead. quiet_with ltac:(first [apply looking_inspect | apply R_look]). Qed.
Lemma looking_intact : keeps R (intact W d).
Proof. unfold intact. quiet_with ltac:(apply looking_inspect). Qed.
Lemma looking_writable : keeps R (writable W d).
Proof. unfold writable. quiet_with ltac:(apply looking_intact). Qed.
Lemma looking_walk_path at_ names : keeps R (walk_path W false at_ names).
Proof.
  revert at_. induction names as [|n names IH]; intros at_; cbn [walk_path]; [apply keeps_ret, _|]. cbv zeta.
  apply keeps_and_then; [apply _|apply R_look|intros f]. rewrite andb_false_r.
  quiet_with ltac:(apply IH).
Qed.
Lemma looking_path p : keeps R (path W d p false).
Proof. unfold path. quiet_with ltac:(first [apply looking_intact | apply looking_walk_path]). Qed.
Lemma looking_walk_present at_ names : keeps R (walk_present W at_ names).
Proof.
  revert at_. induction names as [|n names IH]; intros at_; cbn [walk_present];
    quiet_with ltac:(first [apply R_look | apply R_attempt | apply looking_inspect | apply IH]).
Qed.
Lemma looking_present p : keeps R (present W d p).
Proof. unfold present. quiet_with ltac:(first [apply looking_intact | apply looking_walk_present]). Qed.
End looking.

(** ** What other processes leave alone

    A name of the file system that no other process changes shows at every look what
    it showed at the start, until the operation itself writes it. *)
Definition undisturbed (W : Outside) (p : bytes) : Prop := ∀ t f, others W t f !! p = f !! p.

(** The database, and the names nobody else changes, are as they were. *)
Definition kept (W : Outside) (w w' : World) : Prop :=
  db w' = db w ∧ ∀ p, undisturbed W p → fs w' !! p = fs w !! p.

#[export] Instance kept_preorder W : PreOrder (kept W).
Proof.
  split; [done|]. intros x y z [E1 F1] [E2 F2]. split; [congruence|]. intros p Hp. by rewrite F2, F1.
Qed.

(** Where a managed path is in the file system. *)
Definition location (d : Impl) (relative : bytes) : bytes := foldl slash (root d) (path_names relative).

Section undisturbed.
Context `{CatalogUnicodeLaws} (real_cast : bytes → Z) (json_parse : bytes → option json) (W : Outside) (d : Impl).

Lemma walk_path_ok b at_ names w p w' : walk_path W b at_ names w = (Ok p, w') → p = foldl slash at_ names.
Proof.
  revert at_ w. induction names as [|n names IH]; intros at_ w; cbn [walk_path].
  - by intros [-> _]%ret_ok.
  - cbv zeta. intros (f & w1 & _ & E)%and_then_ok. apply and_then_ok in E as (u & w2 & _ & E).
    apply and_then_ok in E as (f2 & w3 & _ & E). apply and_then_ok in E as (u2 & w4 & _ & E). by apply IH in E.
Qed.

Lemma path_ok relative b w p w' : path W d relative b w = (Ok p, w') → p = location d relative.
Proof.
  unfold path. intros (u & w1 & _ & E)%and_then_ok. apply and_then_ok in E as (v & w2 & Hv & E).
  apply lift_ok in Hv as [->%relativePath_id _]. by apply walk_path_ok in E.
Qed.

Lemma kept_look : keeps (kept W) (look W).
Proof. intros w. split; [done|]. intros p Hp. apply Hp. Qed.
Lemma kept_attempt m : keeps (kept W) (attempt W m).
Proof. by intros w. Qed.
Lemma kept_inspect q b : keeps (kept W) (inspect W q b).
Proof. apply looking_inspect; [apply _|apply kept_look]. Qed.
Lemma kept_companion q : keeps (kept W) (companion real_cast json_parse W q).
Proof. apply looking_companion; [apply _|apply kept_look]. Qed.
Lemma kept_writable : keeps (kept W) (writable W d).
Proof. apply looking_writable; [apply _|apply kept_look]. Qed.
Lemma kept_path q : keeps (kept W) (path W d q false).
Proof. apply looking_path; [apply _|apply kept_look]. Qed.

Lemma kept_run {A} (q : proc World A) w r w' : keeps (kept W) q → q w = (r, w') → kept W w w'.
Proof. intros Hq E. exact (keeps_run (kept W) _ _ _ _ Hq E). Qed.

Context (p : bytes) (alone : undisturbed W p).

(** What a look, an inspection and a companion show is what is there. *)
Lemma look_shows w f w' : look W w = (Ok f, w') → f !! p = fs w !! p.
Proof. intros [= <- _]. apply alone. Qed.

Lemma inspect_shows w ph w' : inspect W p false w = (Ok ph, w') →
  ∃ n, fs w !! p = Some n ∧ node_kind n = Regular ∧ ph = physical (node_stat n).
Proof.
  unfold inspect. intros (f & w1 & Hl & E)%and_then_ok. apply and_then_ok in E as (u & w2 & Hg & E).
  apply guard_ok in Hg as [Hk <-]. apply and_then_ok in E as (f2 & w3 & Hl2 & E).
  apply and_then_ok in E as (n & w4 & Hn & E). apply lift_ok in Hn as [Hn%of_option_ok _].
  apply and_then_ok in E as (u2 & w5 & _ & E). apply ret_ok in E as [<- _].
  destruct (kept_run _ _ _ _ kept_look Hl) as [_ F1]. apply look_shows in Hl, Hl2. rewrite F1 in Hl2 by done.
  exists n. split; [by rewrite <-Hl2|]. split; [|done].
  unfold is_kind, kind_at in Hk. apply bool_decide_eq_true in Hk. rewrite Hl, <-Hl2, Hn in Hk. by injection Hk.
Qed.

Lemma companion_shows w j w' : companion real_cast json_parse W p w = (Ok j, w') →
  ∃ n text, fs w !! p = Some n ∧ node_reads n = Some text ∧ companion_of real_cast json_parse text = Ok j.
Proof.
  unfold companion, smallRead. intros (text & w1 & Hr & E)%and_then_ok. apply lift_ok in E as [E _].
  apply and_then_ok in Hr as (st & w2 & Hi & Hr). destruct (kept_run _ _ _ _ (kept_inspect _ _) Hi) as [_ F2].
  apply and_then_ok in Hr as (u & w3 & Hg & Hr). apply guard_ok in Hg as [_ <-].
  apply and_then_ok in Hr as (f & w4 & Hl & Hr). apply look_shows in Hl.
  apply and_then_ok in Hr as (b & w5 & Hb & Hr). apply lift_ok in Hb as [Hb%of_option_ok _].
  apply and_then_ok in Hr as (u2 & w6 & _ & Hr). apply and_then_ok in Hr as (ag & w7 & _ & Hr).
  apply and_then_ok in Hr as (u3 & w8 & _ & Hr). apply ret_ok in Hr as [-> _].
  rewrite Hl, F2 in Hb by done. destruct (fs w !! p) as [n|]; [|done]. by exists n, text.
Qed.
End undisturbed.

Section reach.
Context `{CatalogUnicodeLaws} (real_cast : bytes → Z) (json_parse : bytes → option json).
Context (parse_dump : ∀ j d, json_ok j = true → dump j = Ok d → json_parse d = Some j).
Context (fts_match : FtsRow → bytes → bool) (W : Outside) (d : Impl).

Lemma quiet_look : quiet (look W).
Proof. by intros w. Qed.
Lemma quiet_attempt m : quiet (attempt W m).
Proof. by intros w. Qed.
Lemma quiet_query {A} (f : Db → result string A) : quiet (query f).
Proof. by intros w. Qed.
Lemma quiet_newKey p : quiet (newKey W p).
Proof. by intros w. Qed.
Lemma quiet_change_fs f : quiet (change_fs f).
Proof. by intros w. Qed.

Ltac quiet := quiet_with ltac:(first
  [apply quiet_look | apply quiet_attempt | apply quiet_query | apply quiet_newKey | apply quiet_change_fs]).

Lemma quiet_inspect p b : quiet (inspect W p b).
Proof. apply looking_inspect; [apply _|apply quiet_look]. Qed.
Lemma quiet_companion p : quiet (companion real_cast json_parse W p).
Proof. apply looking_companion; [apply _|apply quiet_look]. Qed.
Lemma quiet_intact : quiet (intact W d).
Proof. apply looking_intact; [apply _|apply quiet_look]. Qed.
Lemma quiet_writable : quiet (writable W d).
Proof. apply looking_writable; [apply _|apply quiet_look]. Qed.

Lemma quiet_walk_path b at_ names : quiet (walk_path W b at_ names).
Proof. revert at_. induction names as [|n names IH]; intros at_; cbn [walk_path]; quiet; apply IH. Qed.
Lemma quiet_path p b : quiet (path W d p b).
Proof. unfold path. quiet_with ltac:(first [apply quiet_intact | apply quiet_walk_path]). Qed.
Lemma quiet_present p : quiet (present W d p).
Proof. apply looking_present; [apply _|apply quiet_look|apply quiet_attempt]. Qed.
Lemma quiet_requireVacant p : quiet (requireVacant W p).
Proof. unfold requireVacant. quiet. Qed.
Lemma quiet_write_staged p c : quiet (write_staged W p c).
Proof. unfold write_staged. quiet. Qed.
Lemma quiet_publish_stage p t c b : quiet (publish_stage W p t c b).
Proof. unfold publish_stage. quiet. Qed.

Lemma staged_keeps {A} (R : World → World → Prop) `{!PreOrder R} parent nonce (body : bytes → proc World A) :
  (∀ w w', same_db w w' → R w w') → (∀ p, keeps R (body p)) → keeps R (staged W parent nonce body).
Proof.
  intros Hq Hb. unfold staged. cbv zeta.
  assert (∀ {B} (p : proc World B), quiet p → keeps R p) as Hk by (intros B p Hp w; apply Hq, Hp).
  apply keeps_and_then; [done|apply Hk, quiet_attempt|intros _].
  apply keeps_and_then; [done|apply Hk, quiet_look|intros f].
  apply keeps_and_then; [done|apply Hk, keeps_guard, _|intros _].
  apply keeps_and_then; [done|apply Hk, quiet_attempt|intros _].
  apply keeps_and_then; [done|apply Hk, quiet_change_fs|intros _]. intros w.
  match goal with |- context [body ?p w] => pose proof (Hb p w) as Hw; destruct (body p w) as [r w'] end.
  cbn in *. etrans; [exact Hw|]. by apply Hq.
Qed.

Lemma quiet_existing_entry p ph : quiet (existing_entry json_parse W d p ph).
Proof. unfold existing_entry. quiet_with ltac:(first [apply quiet_query | apply quiet_present]). Qed.
Lemma quiet_companion_beside p : quiet (companion_beside real_cast json_parse W d p).
Proof. unfold companion_beside. quiet_with ltac:(first [apply quiet_path | apply quiet_look | apply quiet_companion]). Qed.

(** ** The invariant *)

Definition inv (w : World) : Prop := wf_but None (db w).
Definition safely (w w' : World) : Prop := inv w → inv w'.

#[export] Instance safely_preorder : PreOrder safely.
Proof. unfold safely. split; [by intros w|]. intros x y z. auto. Qed.

Abbreviation safe := (keeps safely).

Lemma quiet_safe {A} (p : proc World A) : quiet p → safe p.
Proof. intros Hp w. unfold safely, inv. by rewrite (Hp w). Qed.

(** A quiet part of a run that ended well. *)
Lemma quiet_run {A} (p : proc World A) w a w' : quiet p → p w = (Ok a, w') → db w' = db w.
Proof. intros Hp E. pose proof (Hp w) as Hw. by rewrite E in Hw. Qed.

(** Other processes commit consistent catalogs, and a random key has sixteen bytes. *)
Context (peers : ∀ t db, wf_but None db → wf_but None (writers W t db)).
Context (sixteen : ∀ t, length (random_bytes W t) = 16%nat).

Lemma safe_refresh : safe (refresh W).
Proof. intros w Hw. by apply peers. Qed.

Lemma safe_alone {A} (f : Db → result string A) : safe (alone W f).
Proof. apply keeps_and_then; [apply _|apply safe_refresh|]. intros _. apply quiet_safe, quiet_query. Qed.

Lemma safe_begin : safe (begin_ W).
Proof. apply keeps_and_then; [apply _|apply safe_refresh|]. intros _. apply quiet_safe, quiet_attempt. Qed.

(** What is rolled back need not be consistent. *)
Lemma safe_scoped {A} (p : proc World A) : (∀ w a w', inv w → p w = (Ok a, w') → inv w') → safe (scoped p).
Proof.
  intros Hp w Hw. unfold scoped. destruct (p w) as [[a|m] w'] eqn:E; [|done]. cbn. by eapply Hp.
Qed.

Lemma safe_transaction {A} (p : proc World A) : (∀ w a w', inv w → p w = (Ok a, w') → inv w') → safe (transaction W p).
Proof.
  intros Hp. apply keeps_and_then; [apply _|apply safe_begin|]. intros _. apply safe_scoped.
  intros w a w' Hw E. run_ok. apply quiet_run in E1; [|apply quiet_attempt]. unfold inv. rewrite E1. by eapply Hp.
Qed.

Lemma safe_quiet_transaction {A} (p : proc World A) : quiet p → safe (transaction W p).
Proof. intros Hp. apply safe_transaction. intros w a w' Hw E. unfold inv. by rewrite (quiet_run _ _ _ _ Hp E). Qed.

(** ** Keys *)

Lemma hex_length b : length (b ≫= Sha256.hex_byte) = (2 * length b)%nat.
Proof. induction b as [|c b IH]; [done|]. rewrite bind_cons, length_app, IH. cbn. lia. Qed.

Lemma hex_bytes b : forallb is_hex (b ≫= Sha256.hex_byte) = true.
Proof.
  induction b as [|c b IH]; [done|]. rewrite bind_cons, forallb_app, IH. cbn.
  assert (∀ n, is_hex (hex_digit n) = true) as Hd by (intros n; apply Is_true_true, hex_digit_is_hex).
  by rewrite !Hd.
Qed.

Lemma new_file_key t : persistent_key (lit "file-" ++ (random_bytes W t ≫= Sha256.hex_byte)) = true.
Proof.
  unfold persistent_key, starts_with. rewrite length_app, hex_length, sixteen.
  rewrite take_app_length, drop_app_length' by done. by rewrite hex_bytes, bool_decide_true.
Qed.

Lemma newKey_ok p w k w' : newKey W p w = (Ok k, w') →
  db w' = db w ∧ k = p ++ (random_bytes W (tick w) ≫= Sha256.hex_byte).
Proof. intros E. injection E as <- <-. done. Qed.

(** ** Companions *)

Lemma parse_metadata_ok j m : parseMetadata j = Ok m → metadata_normal m ∧ 0 <= rating m.
Proof.
  unfold parseMetadata. destruct j as [| | | | | |l]; try done. intros (u1 & _ & E)%bind_ok.
  apply bind_ok in E as (t & _ & E). apply bind_ok in E as (de & _ & E). apply bind_ok in E as (k & _ & E).
  apply bind_ok in E as (r & Hr & E). apply bind_ok in E as (n & _ & E). apply bind_ok in E as (c & _ & E).
  apply bind_ok in E as (f & _ & E). apply bind_ok in E as (cs & _ & E).
  split; [by eapply normalize_normal|]. apply normalize_rating in E. rewrite E. cbn.
  destruct (member (lit "rating") l) as [v|]; [|by inv_ok]. unfold jsonInteger in Hr. destruct v; try done. inv_ok. lia.
Qed.

Lemma companion_key_ok text j k : companion_of real_cast json_parse text = Ok j → companion_key j = Ok k →
  persistent_key k = true.
Proof.
  unfold companion_of, companion_key. intros (j0 & _ & E)%bind_ok Hk. destruct j0 as [| | | | | |l]; try done.
  apply bind_ok in E as (f & _ & E). apply bind_ok in E as (u & _ & E). apply bind_ok in E as (key & Hkey & E).
  apply bind_ok in E as (u2 & Hp & E). apply check_ok in Hp. apply bind_ok in E as (jr & _ & E).
  apply bind_ok in E as (r & _ & E). apply bind_ok in E as (u3 & _ & E). apply bind_ok in E as (jm & _ & E).
  apply bind_ok in E as (m & _ & E). apply bind_ok in E as (cs & _ & E). apply bind_ok in E as (u4 & _ & E).
  apply bind_ok in E as (u5 & _ & E). apply ok_inj in E. subst j. rewrite Hk in Hkey. by injection Hkey as ->.
Qed.

Lemma companion_ok p w j w' : companion real_cast json_parse W p w = (Ok j, w') →
  ∃ text, companion_of real_cast json_parse text = Ok j.
Proof. unfold companion. intros E. run_ok. by eexists. Qed.

Lemma companion_beside_ok p w j w' : companion_beside real_cast json_parse W d p w = (Ok (Some j), w') →
  ∃ text, companion_of real_cast json_parse text = Ok j.
Proof.
  unfold companion_beside. intros E. run_ok. destruct (exists_node _ _); [|by run_ok]. run_ok.
  match goal with H : Some _ = Some _ |- _ => injection H as <- end. by eapply companion_ok.
Qed.

(** ** Entries *)

Definition entry_at (db : Db) (e : CatalogFile) : Prop :=
  ∃ row, (file_index e, row) ∈ db_files db ∧ entry json_parse (file_index e) row db = Ok e.

Lemma entry_fields id row db e : entry json_parse id row db = Ok e →
  file_index e = id ∧ file_key e = row_key row ∧ file_path e = row_path row ∧ file_revision e = row_revision row ∧
  contentVersion e = row_stamp row ∧ file_size e = row_size row ∧
  metadataPending e = bool_decide (is_Some (row_lookup id (db_pending db))).
Proof. unfold entry. intros (j & _ & E)%bind_ok. apply bind_ok in E as (m & _ & [= <-]). done. Qed.

Lemma find_entry v b db e : find json_parse v b db = Ok (Some e) →
  entry_at db e ∧ (if b then file_path e else file_key e) = v.
Proof.
  unfold find, entry_of. destruct ((if b then file_by_path else file_by_key) v db) as [[id row]|] eqn:Ef; [|done].
  intros (f & He & [= <-])%bind_ok. destruct (entry_fields _ _ _ _ He) as (Ei & Ek & Ep & _).
  destruct b; [apply by_path_inv in Ef as [Hin Ev]|apply by_key_inv in Ef as [Hin Ev]];
    (split; [exists row; rewrite Ei; by split|congruence]).
Qed.

Lemma require_entry k db e : require json_parse k db = Ok e →
  entry_at db e ∧ ∃ k', normalized k 128 false true = Ok k' ∧ file_key e = k'.
Proof.
  unfold require. intros (k' & Hk & E)%bind_ok. apply bind_ok in E as (o & Hf & E). apply of_option_ok in E. subst o.
  apply find_entry in Hf as [He Ek]. split; [done|]. by exists k'.
Qed.

(** The annotations of an entry are canonical. *)
Lemma entry_normal db e : wf_but None db → entry_at db e → metadata_normal (file_metadata e) ∧ 0 <= rating (file_metadata e) ∧
  persistent_key (file_key e) = true ∧ relativePath (file_path e) false = Ok (file_path e).
Proof.
  intros Hw (row & Hin & He). destruct (entry_ok json_parse parse_dump db _ row Hw Hin) as (m & Hm & E).
  rewrite E in He. destruct (wf_rows _ _ Hw _ Hin). injection He as <-. cbn. split_and!; try done; apply Hm.
Qed.

Lemma existing_entry_ok p ph w e w' : existing_entry json_parse W d p ph w = (Ok (Some e), w') →
  entry_at (db w) e ∧ db w' = db w.
Proof.
  intros E. split; [|by eapply quiet_run; [apply quiet_existing_entry|exact E]].
  unfold existing_entry in E. apply and_then_ok in E as (o & w1 & Hq & E). injection Hq as Hf <-.
  destruct o as [f|].
  { apply ret_ok in E as [[= ->] _]. by apply find_entry in Hf as [? _]. }
  apply and_then_ok in E as (same & w2 & Hq & E). injection Hq as <- <-.
  destruct (file_by_identity _ _) as [[id row]|]; [|by apply ret_ok in E as [? _]].
  apply and_then_ok in E as (there & w2 & Hpr & E). apply and_then_ok in E as (u & w3 & Hg & E).
  apply guard_ok in Hg as [_ <-]. apply and_then_ok in E as (f & w4 & Hq & E). apply ret_ok in E as [[= ->] _].
  injection Hq as Hr <-. apply require_entry in Hr as [Hr _].
  by rewrite (quiet_run _ _ _ _ (quiet_present _) Hpr) in Hr.
Qed.

(** What is found at the path is the entry. *)
Lemma existing_found p ph w o w' e : find json_parse p true (db w) = Ok (Some e) →
  existing_entry json_parse W d p ph w = (Ok o, w') → o = Some e.
Proof.
  intros Hf. unfold existing_entry. intros E. apply and_then_ok in E as (o1 & w1 & Hq & E).
  injection Hq as Ho <-. rewrite Hf in Ho. injection Ho as <-. by apply ret_ok in E as [<- _].
Qed.

Lemma entry_revision db e : wf_but None db → entry_at db e → 0 < file_revision e <= INT64_MAX.
Proof.
  intros Hw (row & Hin & He). destruct (entry_fields _ _ _ _ He) as (_ & _ & _ & -> & _). apply (ok_revision _ (wf_rows _ _ Hw _ Hin)).
Qed.

(** ** Registration *)

Lemma restore_ok j m w m' w' : inv w → restore j m w = (Ok m', w') →
  inv w' ∧ collections_added (db w) (db w') ∧ metadata_normal m' ∧ rating m' = rating m.
Proof.
  intros Hw. unfold restore. destruct (restoreCollections j m (db w)) as [[m1 d1]|] eqn:E; [|done].
  intros [= -> <-]. by eapply restoreCollections_ok.
Qed.

(** Canonical annotations were chosen, and at most collections were added. *)
Definition chosen (w w' : World) (m : FileMetadata) : Prop :=
  inv w' ∧ collections_added (db w) (db w') ∧ metadata_normal m ∧ 0 <= rating m.

Lemma quiet_added w w' : db w' = db w → collections_added (db w) (db w').
Proof. intros ->. apply collections_added_refl. Qed.

Lemma known_metadata_ok p e w m w' : inv w → entry_at (db w) e →
  known_metadata real_cast json_parse W d p e w = (Ok m, w') → chosen w w' m.
Proof.
  intros Hw He. destruct (entry_normal _ _ Hw He) as (Hm & Hr & _). unfold known_metadata.
  intros E. apply and_then_ok in E as (o & w1 & Hb & E).
  pose proof (quiet_run _ _ _ _ (quiet_companion_beside _) Hb) as Hdb.
  assert (inv w1) as Hw1 by (unfold inv; by rewrite Hdb).
  destruct o as [j|]; [|apply ret_ok in E as [<- <-]; split_and!; [done|by apply quiet_added|done..]].
  apply and_then_ok in E as (k & w2 & Hk & E). apply lift_ok in Hk as [_ <-].
  apply and_then_ok in E as (r & w2 & Hr' & E). apply lift_ok in Hr' as [_ <-].
  destruct (_ && _); [|apply ret_ok in E as [<- <-]; split_and!; [done|by apply quiet_added|done..]].
  apply and_then_ok in E as (m1 & w2 & Hm1 & E). apply lift_ok in Hm1 as [Hm1 <-].
  apply bind_ok in Hm1 as (jm & _ & Hm1). apply parse_metadata_ok in Hm1 as [_ Hr1].
  apply restore_ok in E as (H1' & H2' & H3' & H4'); [|done]. rewrite Hdb in H2'. split_and!; try done. lia.
Qed.

Lemma empty_normal : metadata_normal empty_metadata.
Proof.
  split; try done; cbn.
  - apply normalized_ok. split_and!; try done. by apply map_ascii.
  - apply normalized_ok. split_and!; try done. by apply map_ascii.
  - repeat constructor.
  - eexists. split; [reflexivity|]. by vm_compute.
Qed.

Lemma new_identity_ok p key w k r m w' : inv w → persistent_key key = true →
  new_identity real_cast json_parse W d p key w = (Ok (k, r, m), w') → chosen w w' m ∧ persistent_key k = true.
Proof.
  intros Hw Hkey. unfold new_identity. intros E. apply and_then_ok in E as (o & w1 & Hb & E).
  pose proof (quiet_run _ _ _ _ (quiet_companion_beside _) Hb) as Hdb.
  assert (inv w1) as Hw1 by (unfold inv; by rewrite Hdb). destruct o as [j|].
  - apply companion_beside_ok in Hb as [text Hj].
    apply and_then_ok in E as (k1 & w2 & Hk & E). apply lift_ok in Hk as [Hk <-].
    apply (companion_key_ok _ _ _ Hj) in Hk.
    apply and_then_ok in E as (m1 & w2 & Hm1 & E). apply lift_ok in Hm1 as [Hm1 <-].
    apply bind_ok in Hm1 as (jm & _ & Hm1). apply parse_metadata_ok in Hm1 as [_ Hr1].
    apply and_then_ok in E as (r1 & w2 & Hr' & E). apply lift_ok in Hr' as [_ <-].
    apply and_then_ok in E as (m2 & w2 & Hm2 & E). apply restore_ok in Hm2 as (H1' & H2' & H3' & H4'); [|done].
    rewrite Hdb in H2'. apply and_then_ok in E as (o & w3 & Hq & E). injection Hq as <- <-.
    assert (chosen w w2 m2) as Hc by (split_and!; [done..|lia]).
    destruct (file_by_key _ _) as [[id row]|]; [|by apply ret_ok in E as [[= <- <- <-] <-]].
    destruct (bool_decide _); [by apply ret_ok in E as [[= <- <- <-] <-]|].
    apply and_then_ok in E as (k2 & w3 & Hk2 & E). apply ret_ok in E as [[= <- <- <-] <-].
    apply newKey_ok in Hk2 as [Hdb2 ->]. split; [|apply new_file_key]. unfold chosen, inv. by rewrite Hdb2.
  - apply ret_ok in E as [[= <- <- <-] <-]. split; [|done]. split_and!; [done|by apply quiet_added|apply empty_normal|done].
Qed.

(** What a registration may be given: ratings are unsigned. *)
Definition registration_fits (r : FileRegistration) : Prop :=
  match registered_metadata r with Some m => 0 <= rating m | None => True end.

(** An entry stands for what was registered.  It has the path, the annotations that
    were given and the version of the file that is there.  A path that had an entry
    keeps its key: if nothing differs the entry is left as it was, otherwise the
    content or the annotations differ, it has the next revision and waits for
    publication.  No other row changes, and none at all if nothing differs. *)
Record registered (r : FileRegistration) (before after : World) (f : CatalogFile) (changed : bool) : Prop := {
  done_entry : entry_at (db after) f;
  done_path : file_path f = registered_path r;
  done_metadata : ∀ m, registered_metadata r = Some m → normalizeMetadata m = Ok (file_metadata f);
  done_content : undisturbed W (location d (registered_path r)) →
    ∃ n, fs before !! location d (registered_path r) = Some n ∧ node_kind n = Regular ∧
      contentVersion f = version (physical (node_stat n));
  done_again : ∀ e, find json_parse (registered_path r) true (db before) = Ok (Some e) →
    file_key f = file_key e ∧
    if changed
    then file_revision f = file_revision e + 1 ∧
      (contentVersion f ≠ contentVersion e ∨ file_metadata f ≠ file_metadata e)
    else f = e;
  done_pending : changed = true → metadataPending f = true;
  done_others : ∀ k, changed = false ∨ k ≠ file_index f →
    row_lookup k (db_files (db after)) = row_lookup k (db_files (db before)) ∧
    members_of k (db after) = members_of k (db before)
}.

(** A row that was written has the entry of what was written. *)
Lemma written_entry db id row p revision key relative m : wf_but None db → row_lookup id (db_files db) = Some row →
  registered_row p revision key relative m row → members_of id db = collections m → metadata_normal m → 0 <= rating m →
  ∃ f, entry json_parse id row db = Ok f ∧ file_metadata f = m.
Proof.
  intros Hw Hl Hreg Hc Hm Hr. apply row_lookup_Some_in in Hl as Hin.
  destruct (entry_ok json_parse parse_dump db id row Hw Hin) as (m' & Hm' & E). eexists. split; [exact E|]. cbn.
  pose proof (ann_document _ _ _ _ Hm') as D1. pose proof (reg_document _ _ _ _ _ _ Hreg) as D2.
  pose proof (plain_normal m Hm) as Hpn.
  assert (metadataJson m' = metadataJson (with_collections m [])) as Ej.
  { pose proof (parse_dump _ _ (metadata_json_ok m' (ann_normal _ _ _ _ Hm')) D1) as P1.
    pose proof (parse_dump _ _ (metadata_json_ok _ Hpn) D2) as P2. congruence. }
  pose proof (metadata_again m' (ann_normal _ _ _ _ Hm') (ann_rating _ _ _ _ Hm')) as A1.
  rewrite Ej, (metadata_again _ Hpn Hr) in A1. injection A1 as <-. rewrite Hc. by destruct m.
Qed.

Lemma execute_ok f w u w' : execute f w = (Ok u, w') → f (db w) = Ok (db w').
Proof. unfold execute. destruct (f (db w)) as [d'|]; [|done]. by intros [= _ <-]. Qed.

Lemma catalog_query_ok {A} (f : Db → result string A) w a w' : query f w = (Ok a, w') → f (db w) = Ok a ∧ w' = w.
Proof. by intros [= -> ->]. Qed.

Lemma entry_unique db e e' : wf_but None db → entry_at db e → entry_at db e' → file_key e = file_key e' → e = e'.
Proof.
  intros Hw (row & Hin & He) (row' & Hin' & He') Ek.
  destruct (entry_fields _ _ _ _ He) as (_ & Ek1 & _). destruct (entry_fields _ _ _ _ He') as (_ & Ek2 & _).
  pose proof (by_key_in _ _ _ _ Hw Hin) as H1'. pose proof (by_key_in _ _ _ _ Hw Hin') as H2'.
  rewrite <-Ek1, Ek, Ek2, H2' in H1'. injection H1' as E1 E2. rewrite E1, E2 in He'. congruence.
Qed.

Lemma write_entry_ok existing p revision key relative m w f b w' : inv w → metadata_normal m → 0 <= rating m →
  relativePath relative false = Ok relative → persistent_key key = true →
  (∃ id, writes_at existing (db w) id key) →
  write_entry json_parse existing p revision key relative m w = (Ok (f, b), w') →
  inv w' ∧ entry_at (db w') f ∧ file_path f = relative ∧ file_metadata f = m ∧ file_key f = key ∧
  contentVersion f = version p ∧ file_revision f = revision ∧ metadataPending f = true ∧ b = true ∧
  db_revision (db w') = db_revision (db w) ∧
  (∀ k, k ≠ file_index f → row_lookup k (db_files (db w')) = row_lookup k (db_files (db w)) ∧
    members_of k (db w') = members_of k (db w)).
Proof.
  intros Hw Hm Hr Hrel Hkey Hat. unfold write_entry. intros E. apply and_then_ok in E as (u & w1 & Hx & E).
  apply execute_ok in Hx. apply and_then_ok in E as (g & w2 & Hq & E). apply catalog_query_ok in Hq as [Hq ->].
  apply and_then_ok in E as (text & w2 & Ht & E). apply catalog_query_ok in Ht as [_ ->].
  apply and_then_ok in E as (u2 & w2 & Hg & E). apply guard_ok in Hg as [_ <-]. apply ret_ok in E as [[= <- <-] <-].
  destruct (write_row_ok _ _ _ _ _ _ _ _ Hw Hm Hr Hrel Hkey Hat Hx)
    as (Hw1 & id & row & _ & Hl & Hreg & Hmem & Hpend & Hrev & Hoth).
  destruct (written_entry _ _ _ _ _ _ _ _ Hw1 Hl Hreg Hmem Hm Hr) as (f & Hf & Hfm).
  destruct (entry_fields _ _ _ _ Hf) as (Ei & Ek & Ep & Er & Ev & _ & Epd).
  assert (entry_at (db w1) f) as Hent by (exists row; rewrite Ei; split; [by apply row_lookup_Some_in|done]).
  assert (g = f) as ->.
  { apply require_entry in Hq as [Hg (k' & Hk & Egk)]. apply (entry_unique (db w1)); [done..|].
    rewrite (persistent_fixed key Hkey) in Hk. injection Hk as <-. rewrite Egk, Ek. symmetry. apply Hreg. }
  split_and!; try done; rewrite ?Ep, ?Ek, ?Ev, ?Er; try apply Hreg; [|by rewrite Ei].
  rewrite Epd. by apply bool_decide_eq_true.
Qed.

Lemma relativePath_fixed p b r : relativePath p b = Ok r → relativePath r b = Ok r.
Proof. intros E. by pose proof (relativePath_id _ _ _ E) as ->. Qed.

Lemma added_files w w' : collections_added (db w) (db w') → db_files (db w') = db_files (db w).
Proof. by intros [c ->]. Qed.

Lemma choose_ok given existing relative key revision w k r m w' : inv w →
  (match given with Some m => 0 <= rating m | None => True end) →
  (∀ e, existing = Some e → entry_at (db w) e) → persistent_key key = true →
  (∀ e, existing = Some e → key = file_key e) →
  choose real_cast json_parse W d given existing relative key revision w = (Ok (k, r, m), w') →
  chosen w w' m ∧ persistent_key k = true ∧ (∀ e, existing = Some e → k = file_key e ∧ r = revision) ∧
  ∀ m0, given = Some m0 → normalizeMetadata m0 = Ok m.
Proof.
  intros Hw Hfit Hent Hkey Hke E. unfold choose in E. destruct given as [m0|].
  - apply and_then_ok in E as (m1 & w1 & Hn & E). apply lift_ok in Hn as [Hn <-]. apply ret_ok in E as [[= <- <- <-] <-].
    split; [|split_and!; [done|intros e He; by rewrite (Hke e He)|by intros ? [= <-]]]. split_and!; [done|apply collections_added_refl|by eapply normalize_normal|].
    by rewrite (normalize_rating _ _ Hn).
  - destruct existing as [e|].
    + apply and_then_ok in E as (m1 & w1 & Hn & E). apply ret_ok in E as [[= <- <- <-] <-].
      split; [|split_and!; [done|intros e1 He1; by rewrite (Hke e1 He1)|done]]. eapply known_metadata_ok; [done| |exact Hn]. by apply Hent.
    + apply new_identity_ok in E as [Hc Hk]; [|done..]. by split_and!.
Qed.

(** What is inspected at the start of a registration. *)
Lemma inspected_content relative w file w1 p w2 : path W d relative false w = (Ok file, w1) →
  inspect W file false w1 = (Ok p, w2) → undisturbed W (location d relative) →
  ∃ n, fs w !! location d relative = Some n ∧ node_kind n = Regular ∧ version p = version (physical (node_stat n)).
Proof.
  intros Hp Hi Ha. pose proof (path_ok _ _ _ _ _ _ _ Hp) as ->.
  apply inspect_shows in Hi as (n & Hn & Hk & ->); [|done]. exists n. split; [|done].
  destruct (kept_run _ _ _ _ _ (kept_path _ _ _) Hp) as [_ F]. by rewrite <-F.
Qed.

Lemma added_entry w w' e : collections_added (db w) (db w') → entry_at (db w) e → entry_at (db w') e.
Proof. intros [c E] (row & Hin & He). exists row. rewrite E. by split. Qed.

Lemma added_rows w w' k : collections_added (db w) (db w') →
  row_lookup k (db_files (db w')) = row_lookup k (db_files (db w)) ∧ members_of k (db w') = members_of k (db w).
Proof. by intros [c ->]. Qed.

(** The end of a registration, when the entry and its annotations are chosen. *)
Lemma registration_end r p existing key revision m w w5 f b w' :
  let relative := registered_path r in
  inv w5 → collections_added (db w) (db w5) → metadata_normal m → 0 <= rating m →
  relativePath relative false = Ok relative → persistent_key key = true →
  (∀ e, existing = Some e → entry_at (db w) e ∧ key = file_key e ∧ revision = u64 (file_revision e + 1)) →
  (∀ e, find json_parse relative true (db w) = Ok (Some e) → existing = Some e) →
  (∀ m0, registered_metadata r = Some m0 → normalizeMetadata m0 = Ok m) →
  (undisturbed W (location d relative) → ∃ n, fs w !! location d relative = Some n ∧ node_kind n = Regular ∧
     version p = version (physical (node_stat n))) →
  (match existing with
   | Some e =>
       if bool_decide (file_path e = relative) && bool_decide (contentVersion e = version p)
          && bool_decide (file_metadata e = m)
       then ret (e, false)
       else write_entry json_parse existing p revision key relative m
   | None => write_entry json_parse existing p revision key relative m
   end) w5 = (Ok (f, b), w') →
  inv w' ∧ registered r w w' f b ∧ db_revision (db w') = db_revision (db w).
Proof.
  intros relative Hw5 Hadd Hm Hr Hrel Hkey Hex Hfound Hmeta Hcontent E.
  assert (db_revision (db w5) = db_revision (db w)) as Hrev by by destruct Hadd as [c ->].
  assert (∃ id, writes_at existing (db w5) id key) as Hat.
  { destruct existing as [e|]; cbn; [|by eexists]. destruct (Hex e eq_refl) as (Hent & -> & _).
    destruct (added_entry _ _ _ Hadd Hent) as (row & Hin & He). exists (file_index e). split_and!; [done..|].
    exists row. split; [done|]. by destruct (entry_fields _ _ _ _ He) as (_ & -> & _). }
  assert ((∀ e, existing = Some e → file_path e = relative → contentVersion e ≠ version p ∨ file_metadata e ≠ m) →
    write_entry json_parse existing p revision key relative m w5 = (Ok (f, b), w') →
    inv w' ∧ registered r w w' f b ∧ db_revision (db w') = db_revision (db w)) as Hwrite.
  { intros Hdiff Hx. destruct (write_entry_ok _ _ _ _ _ _ _ _ _ _ Hw5 Hm Hr Hrel Hkey Hat Hx)
      as (Hw' & Hent & Hpath & Hfm & Hk & Hv & Hfr & Hpend & -> & Hdr & Hoth).
    split_and!; [done| |congruence]. split; try done.
    - intros m0 Hm0. rewrite Hfm. by apply Hmeta.
    - intros Ha. rewrite Hv. by apply Hcontent.
    - intros e Hf. destruct (Hex e (Hfound e Hf)) as (He & -> & ->). split; [done|]. split.
      + rewrite Hfr. apply u64_small. destruct (entry_revision (db w5) e Hw5 (added_entry _ _ _ Hadd He)) as [??].
        unfold INT64_MAX, UINT64_MAX in *. lia.
      + rewrite Hv, Hfm. destruct (Hdiff e (Hfound e Hf)); [|by left; auto|by right; auto].
        by apply find_entry in Hf as [_ ?].
    - intros k [?|Hne]; [done|]. destruct (Hoth k Hne) as [-> ->]. by apply added_rows. }
  destruct existing as [e|]; [|by apply Hwrite]. destruct (_ && _) eqn:Esame.
  2: { apply Hwrite; [|done]. intros e1 [= <-] Hp. apply andb_false_iff in Esame as [[Es|Es]%andb_false_iff|Es];
    apply bool_decide_eq_false in Es; tauto. }
  apply ret_ok in E as [[= <- <-] <-]. apply andb_true_iff in Esame as [[Ep Ev]%andb_true_iff Eme].
  apply bool_decide_eq_true in Ep, Ev, Eme. destruct (Hex e eq_refl) as (Hent & _).
  split_and!; [done| |done]. split; try done.
  - by eapply added_entry.
  - intros m0 Hm0. rewrite Eme. by apply Hmeta.
  - intros Ha. rewrite Ev. by apply Hcontent.
  - intros e1 [= ->]%Hfound. by split.
  - intros k _. by apply added_rows.
Qed.

Lemma registration_ok r w f b w' : inv w → registration_fits r →
  registration real_cast json_parse W d r w = (Ok (f, b), w') →
  inv w' ∧ registered r w w' f b ∧ db_revision (db w') = db_revision (db w).
Proof.
  intros Hw Hfit. unfold registration. intros E. apply and_then_ok in E as (relative & w1 & Hrel & E).
  apply lift_ok in Hrel as [Hrel <-]. pose proof (relativePath_id _ _ _ Hrel) as Epath. pose proof (relativePath_fixed _ _ _ Hrel) as Hrel2.
  apply and_then_ok in E as (file & w1 & Hp & E). apply and_then_ok in E as (p & w2 & Hlook & E).
  pose proof (inspected_content _ _ _ _ _ _ Hp Hlook) as Hcontent.
  apply quiet_run in Hp; [|apply quiet_path]. pose proof (quiet_run _ _ _ _ (quiet_inspect _ _) Hlook) as Hi.
  apply and_then_ok in E as (existing & w3 & He & E).
  assert (inv w2) as Hw2 by (unfold inv; by rewrite Hi, Hp).
  assert (db w3 = db w2 ∧ ∀ e, existing = Some e → entry_at (db w3) e) as [Hd3 Hent].
  { pose proof (quiet_run _ _ _ _ (quiet_existing_entry _ _) He) as Hd3. split; [done|]. intros e ->.
    apply existing_entry_ok in He as [He _]. by rewrite Hd3. }
  assert (∀ e, find json_parse relative true (db w) = Ok (Some e) → existing = Some e) as Hfound.
  { intros e Hf. rewrite <-Hp, <-Hi in Hf. by apply (existing_found _ _ _ _ _ _ Hf He). }
  assert (inv w3) as Hw3 by (unfold inv; by rewrite Hd3).
  apply and_then_ok in E as (key & w4 & Hk & E).
  assert (db w4 = db w3 ∧ persistent_key key = true ∧ ∀ e, existing = Some e → key = file_key e) as (Hd4 & Hkey & Hke).
  { destruct existing as [e|].
    - apply ret_ok in Hk as [<- <-]. split_and!; [done| |by intros ? [= <-]].
      by apply (entry_normal (db w3) e Hw3), Hent.
    - apply newKey_ok in Hk as [-> ->]. split_and!; [done|apply new_file_key|done]. }
  assert (inv w4) as Hw4 by (unfold inv; by rewrite Hd4).
  apply and_then_ok in E as ([[key' rev'] m] & w5 & Hch & E). cbv beta iota in E.
  destruct (choose_ok _ _ _ _ _ _ _ _ _ _ Hw4 Hfit
    ltac:(intros e He'; rewrite Hd4; by apply Hent) Hkey Hke Hch) as ((Hw5 & Hadd & Hm & Hr) & Hkey' & Hke' & Hmeta).
  subst relative. apply (registration_end r p existing key' rev' m w w5); try done.
  - destruct Hadd as [c Hc]. exists c. rewrite Hc, Hd4, Hd3, Hi, Hp. done.
  - intros e He'. destruct (Hke' e He') as [-> ->]. rewrite He'. split_and!; [|done..].
    destruct (Hent e He') as (row & Hin & Hrow). exists row. rewrite Hd3, Hi, Hp in Hin, Hrow. by split.
Qed.

(** ** Operations *)

Lemma safe_execute f : (∀ d d', wf_but None d → f d = Ok d' → wf_but None d') → safe (execute f).
Proof. intros Hf w Hw. unfold execute. destruct (f (db w)) as [d'|] eqn:E; [|done]. by eapply Hf. Qed.

Lemma safe_bump : safe (execute bump).
Proof. apply safe_execute. intros d1 d2 Hw E. by apply (bump_wf d1 d2 Hw). Qed.

Lemma transaction_safe {A} (p : proc World A) : safe p → safe (transaction W p).
Proof. intros Hp. apply safe_transaction. intros w a w' Hw E. exact (keeps_run safely p w (Ok a) w' Hp E Hw). Qed.

Lemma staged_safe {A} parent nonce (body : bytes → proc World A) : (∀ p, safe (body p)) → safe (staged W parent nonce body).
Proof.
  intros Hb. apply staged_keeps; [apply _| |done]. intros w w' E. unfold safely, inv. by rewrite E.
Qed.

(** Introduces binders, leaving a [keeps] folded. *)
Ltac introduces := match goal with
  | |- keeps _ _ => fail
  | |- ∀ _, _ => intro
  end.

(** Decomposes a procedure into parts that keep the invariant. *)
Ltac safe_with tac := repeat first
  [ introduces
  | tac
  | apply transaction_safe
  | apply staged_safe
  | apply safe_bump
  | apply quiet_safe; first [apply quiet_intact | apply quiet_writable | apply quiet_path | apply quiet_inspect
      | apply quiet_companion | apply quiet_requireVacant | apply quiet_write_staged | apply quiet_publish_stage
      | apply quiet_look | apply quiet_attempt | apply quiet_query | apply quiet_newKey | apply quiet_change_fs]
  | apply safe_alone
  | apply keeps_and_then; [apply _| |]
  | apply keeps_catch; [apply _| |]
  | apply keeps_ret, _ | apply keeps_throw, _ | apply keeps_lift, _ | apply keeps_guard, _
  | match goal with |- keeps _ (match ?x with _ => _ end) => destruct x end ].

(** A metadata write that is no longer pending. *)
Lemma safe_settle id : safe (execute (λ db, Ok (set_pending (filter (λ r, r.1 ≠ id) (db_pending db)) db))).
Proof.
  apply safe_execute. intros d1 d2 Hw [= <-]. apply wf_set_pending; [done| |].
  - by apply ordered_filter, (wf_pending _ _ Hw).
  - intros r [_ Hr]%list_elem_of_filter. by apply (wf_pending _ _ Hw).
Qed.

Lemma publish_safe key : safe (publish real_cast json_parse W d key).
Proof. unfold publish. safe_with ltac:(apply safe_settle). Qed.

Lemma publishResult_safe key : safe (publishResult real_cast json_parse W d key).
Proof. unfold publishResult. safe_with ltac:(apply publish_safe). Qed.

Lemma publishMetadata_safe limit : safe (publishMetadata real_cast json_parse W d limit).
Proof.
  unfold publishMetadata. safe_with fail. generalize 0 as n. match goal with |- ∀ n, keeps _ (loop _ _ ?l) => induction l as [|k l IH] end;
    intros n; cbn [loop]; safe_with ltac:(first [apply publish_safe | apply IH]).
Qed.

(** Several registrations, one after the other. *)
Lemma register_all_ok input st w st' w' : inv w → Forall registration_fits input →
  loop (register_one real_cast json_parse W d) st input w = (Ok st', w') →
  inv w' ∧ db_revision (db w') = db_revision (db w).
Proof.
  revert st w. induction input as [|r input IH]; intros [[l n] b] w Hw Hf E; cbn [loop] in E.
  - by apply ret_ok in E as [<- <-].
  - apply Forall_cons in Hf as [Hr Hf]. apply and_then_ok in E as (st1 & w1 & E1 & E).
    unfold register_one in E1. apply and_then_ok in E1 as ([f c] & w2 & E1 & E2).
    apply registration_ok in E1 as (Hw2 & _ & Hrev); [|done..].
    apply and_then_ok in E2 as (x & w3 & E3 & E2). apply lift_ok in E3 as [_ <-].
    apply and_then_ok in E2 as (u & w3 & E3 & E2). apply guard_ok in E3 as [_ <-]. apply ret_ok in E2 as [<- <-].
    apply IH in E as [Hw' Hrev']; [|done..]. split; [done|]. congruence.
Qed.

Lemma registerFiles_safe input : Forall registration_fits input → safe (registerFiles real_cast json_parse W d input).
Proof.
  intros Hf. unfold registerFiles. do 3 (apply keeps_and_then; [apply _|safe_with fail|intros ?]). apply safe_transaction. intros w l w' Hw E.
  apply and_then_ok in E as (st & w1 & E1 & E). apply register_all_ok in E1 as [Hw1 _]; [|done..].
  apply and_then_ok in E as (u & w2 & E2 & E). apply ret_ok in E as [_ <-].
  destruct (st.2); [|by apply ret_ok in E2 as [_ <-]]. exact (keeps_run safely _ w1 (Ok u) w2 safe_bump E2 Hw1).
Qed.

Lemma registerFile_safe p m : registration_fits {| registered_path := p; registered_metadata := m |} →
  safe (registerFile real_cast json_parse W d p m).
Proof.
  intros Hf. unfold registerFile. safe_with ltac:(first [apply publishResult_safe | apply registerFiles_safe; by constructor]).
Qed.

Lemma enter_safe stage destination content relative j m : 0 <= rating m →
  safe (enter real_cast json_parse W d stage destination content relative j m).
Proof.
  intros Hr. unfold enter. apply keeps_and_then; [apply _|apply safe_begin|intros _]. apply safe_scoped.
  intros w f w' Hw E. apply and_then_ok in E as (u & w1 & Hv & E). apply quiet_run in Hv; [|apply quiet_requireVacant].
  apply and_then_ok in E as (m1 & w2 & Hm1 & E).
  assert (inv w1) as Hw1 by (unfold inv; by rewrite Hv).
  assert (inv w2 ∧ 0 <= rating m1) as [Hw2 Hr2].
  { destruct j as [j|]; [|by apply ret_ok in Hm1 as [<- <-]].
    apply restore_ok in Hm1 as (? & _ & _ & ->); [|done]. done. }
  apply and_then_ok in E as (u2 & w3 & Hp & E). apply quiet_run in Hp; [|apply quiet_publish_stage].
  assert (inv w3) as Hw3 by (unfold inv; by rewrite Hp).
  apply catch_ok in E as [E|(m2 & w4 & _ & E)].
  - apply and_then_ok in E as ([g c] & w4 & Hreg & E). apply registration_ok in Hreg as (Hw4 & _); [|done..].
    apply and_then_ok in E as (u3 & w5 & Hb & E).
    pose proof (keeps_run safely _ w4 (Ok u3) w5 safe_bump Hb Hw4) as Hw5.
    apply and_then_ok in E as (u4 & w6 & Hc & E). apply ret_ok in E as [_ <-].
    apply quiet_run in Hc; [|apply quiet_attempt]. unfold inv. by rewrite Hc.
  - apply and_then_ok in E as (? & ? & _ & E). apply and_then_ok in E as (? & ? & _ & E). done.
Qed.

Lemma normalize_then {A} m (p : FileMetadata → proc World A) : 0 <= rating m →
  (∀ m', 0 <= rating m' → safe (p m')) → safe (m' <- lift (normalizeMetadata m) ; p m').
Proof.
  intros Hr Hp w Hw. unfold and_then, lift. destruct (normalizeMetadata m) as [m'|] eqn:E; [|done].
  apply Hp; [|done]. by rewrite (normalize_rating _ _ E).
Qed.

Lemma createFileWith_safe p encode m : 0 <= rating m → safe (createFileWith real_cast json_parse W d p encode m).
Proof.
  intros Hr. unfold createFileWith.
  safe_with ltac:(first [apply normalize_then; [done|] | by apply enter_safe | apply publishResult_safe]).
Qed.

Lemma importFile_safe source p input : (∀ m, input = Some m → 0 <= rating m) →
  safe (importFile real_cast json_parse W d source p input).
Proof.
  intros Hr. unfold importFile.
  match goal with |- keeps _ (and_then _ ?k) => assert (∀ m, 0 <= rating m → safe (k m)) as Hk end.
  { intros m Hm. do 2 (apply keeps_and_then; [apply _|safe_with fail|intros ?]).
    match goal with |- keeps _ (and_then ?x ?k) =>
      assert (∀ c, 0 <= rating c.2 → safe (k c)) as Hk; [|assert (∀ w c w', x w = (Ok c, w') → 0 <= rating c.2) as Hx] end.
    - intros c Hc. safe_with ltac:(first [by apply enter_safe | apply publishResult_safe]).
    - intros w c w' E. destruct input; [by apply ret_ok in E as [<- _]|].
      destruct (exists_node _ _); [|by apply ret_ok in E as [<- _]].
      apply and_then_ok in E as (j & w1 & _ & E). apply and_then_ok in E as (m1 & w2 & Hm1 & E).
      apply lift_ok in Hm1 as [Hm1 _]. apply ret_ok in E as [<- _].
      apply bind_ok in Hm1 as (jm & _ & Hm1). by apply parse_metadata_ok in Hm1 as [_ Hr1].
    - intros w Hw. unfold and_then at 1.
      match goal with |- context [match ?x w with _ => _ end] =>
        assert (safe x) as Hs by (safe_with fail); pose proof (Hs w Hw) as Hw1; destruct (x w) as [[c|e] w1] eqn:E end; [|done].
      by apply Hk; [eapply Hx|]. }
  intros w Hw. destruct input as [m0|]; [|exact (Hk empty_metadata ltac:(done) w Hw)]. unfold and_then at 1, lift.
  destruct (normalizeMetadata m0) as [m|] eqn:E; [|done]. apply Hk; [|done].
  rewrite (normalize_rating _ _ E). by apply Hr.
Qed.

(** ** Editing the annotations of an entry *)

Definition row_physical (row : FileRow) : Physical :=
  {| identity := row_identity row; version := row_stamp row; physical_size := row_size row; modified := row_modified row |}.

(** What an edit of [e] to [m] leaves. *)
Record edited (e : CatalogFile) (m : FileMetadata) (db db' : Db) (f : CatalogFile) : Prop := {
  edit_entry : entry_at db' f;
  edit_key : file_key f = file_key e;
  edit_path : file_path f = file_path e;
  edit_revision : file_revision f = file_revision e + 1;
  edit_content : contentVersion f = contentVersion e;
  edit_metadata : file_metadata f = m;
  edit_pending : metadataPending f = true;
  edit_others : ∀ k, k ≠ file_index e → row_lookup k (db_files db') = row_lookup k (db_files db) ∧ members_of k db' = members_of k db
}.

Lemma edit_ok e m d1 d2 d3 : wf_but None d1 → entry_at d1 e → metadata_normal m → 0 <= rating m →
  update_file (file_index e) next_revision d1 = Ok d2 → annotations (file_index e) (file_path e) m d2 = Ok d3 →
  wf_but None d3 ∧ db_revision d3 = db_revision d1 ∧ ∃ f, edited e m d1 d3 f.
Proof.
  intros Hw (row & Hin & He) Hm Hr E1 E2. destruct (entry_fields _ _ _ _ He) as (_ & Ek & Ep & Er & Ev & _).
  assert (row_lookup (file_index e) (db_files d1) = Some row) as Hl by (apply row_lookup_in; [apply Hw|done]).
  destruct (update_file_ok _ _ _ _ row Hl E1) as (-> & Hnew & Hsize & Hrev).
  assert (wf_but (Some (file_index e)) (set_files (row_replace (file_index e) (next_revision row) (db_files d1)) (db_sequence d1) d1)) as Hw2.
  { apply wf_update with row; [by apply wf_weaken|done|done|]. destruct (wf_rows _ _ Hw _ Hin). by split. }
  match type of Hw2 with wf_but _ ?x => set (d2 := x) in * end.
  assert (row_lookup (file_index e) (db_files d2) = Some (next_revision row)) as Hl2.
  { cbn. by rewrite row_replace_lookup, Z.eqb_refl by apply Hw. }
  destruct (annotations_ok _ _ _ _ _ (next_revision row) Hm Hl2 (eq_sym Ep) E2) as (text & ks & -> & Htext & Hks & Hknown).
  assert (wf_but None (annotated_db d2 (file_index e) (next_revision row) m text ks)) as Hw3 by by apply annotated_wf.
  split; [done|]. split; [done|].
  pose proof (written_row d2 _ _ m text ks Hw2 Hl2) as Hl3.
  assert (members_of (file_index e) (annotated_db d2 (file_index e) (next_revision row) m text ks) = collections m) as Hmem.
  { unfold members_of. cbn. by rewrite lookup_insert_eq. }
  destruct (written_entry _ _ _ (row_physical row) (row_revision row + 1) (row_key row) (row_path row) m Hw3 Hl3
    ltac:(by split) Hmem Hm Hr) as (f & Hf & Hfm).
  destruct (entry_fields _ _ _ _ Hf) as (Fi & Fk & Fp & Fr & Fv & _ & Fpd). exists f. split; try done.
  - exists (set_annotations m text (next_revision row)). rewrite Fi. split; [by apply row_lookup_Some_in|done].
  - by rewrite Fk, Ek.
  - by rewrite Fp, Ep.
  - by rewrite Fr, Er.
  - by rewrite Fv, Ev.
  - rewrite Fpd. apply bool_decide_eq_true. cbn. rewrite row_replace_lookup by apply Hw. by rewrite Z.eqb_refl.
  - intros k Hk. apply Z.eqb_neq in Hk as Hk'. split.
    + cbn. rewrite row_replace_lookup by apply Hw2. rewrite Hk'. by rewrite row_replace_lookup, Hk' by apply Hw.
    + unfold members_of. cbn. by rewrite lookup_insert_ne by done.
Qed.

Lemma update_entry_ok key expected m w u w' : inv w → metadata_normal m → 0 <= rating m →
  update_entry json_parse W d key expected m w = (Ok u, w') →
  inv w' ∧ db_revision (db w') = db_revision (db w) + 1 ∧
  ∃ e f, require json_parse key (db w) = Ok e ∧ file_revision e = expected ∧ edited e m (db w) (db w') f.
Proof.
  intros Hw Hm Hr. unfold update_entry. intros E.
  apply and_then_ok in E as (e & w1 & Hq & E). apply catalog_query_ok in Hq as [Hq ->].
  apply and_then_ok in E as (u1 & w1 & Hg & E). apply guard_ok in Hg as [Hrev <-].
  apply and_then_ok in E as (p & w1 & Hp & E). apply quiet_run in Hp; [|apply quiet_path].
  apply and_then_ok in E as (ph & w2 & Hi & E). apply quiet_run in Hi; [|apply quiet_inspect].
  apply and_then_ok in E as (u2 & w3 & Hg & E). apply guard_ok in Hg as [_ <-].
  apply and_then_ok in E as (u3 & w3 & Hx & E). apply execute_ok in Hx.
  apply and_then_ok in E as (u4 & w4 & Ha & E). apply execute_ok in Ha.
  apply and_then_ok in E as (g & w5 & Hg & E). apply catalog_query_ok in Hg as [_ ->].
  apply and_then_ok in E as (t & w5 & Ht & E). apply catalog_query_ok in Ht as [_ ->].
  apply and_then_ok in E as (u5 & w5 & Hg & E). apply guard_ok in Hg as [_ <-]. apply execute_ok in E.
  rewrite Hi, Hp in Hx. apply require_entry in Hq as He. destruct He as [He _].
  destruct (edit_ok e m _ _ _ Hw He Hm Hr Hx Ha) as (Hw4 & Hrv & f & Hf).
  destruct (bump_wf _ _ Hw4 E) as [Hw5 Hrv5]. split; [done|]. split; [by rewrite Hrv5, Hrv|].
  exists e, f. split; [done|]. split; [by apply Z.eqb_eq|].
  unfold bump in E. apply bind_ok in E as (u6 & _ & E). apply ok_inj in E. rewrite <-E. by destruct Hf.
Qed.

Lemma updateMetadata_safe key expected m : 0 <= rating m → safe (updateMetadata real_cast json_parse W d key expected m).
Proof.
  intros Hr. unfold updateMetadata. intros w Hw. unfold and_then at 1, lift.
  destruct (normalizeMetadata m) as [m'|] eqn:E; [|done]. revert w Hw.
  change (safe (writable W d ;; (transaction W (update_entry json_parse W d key expected m') ;;
    publishResult real_cast json_parse W d key))).
  apply keeps_and_then; [apply _|safe_with fail|intros _]. apply keeps_and_then; [apply _| |intros _; apply publishResult_safe].
  apply safe_transaction. intros w u w' Hw Hx. apply update_entry_ok in Hx as [? _]; try done.
  - by eapply normalize_normal.
  - by rewrite (normalize_rating _ _ E).
Qed.

(** ** Collections and saved filters *)

Lemma execute_run {A} f (q : proc World A) w a w' : (execute f ;; q) w = (Ok a, w') →
  ∃ w1, f (db w) = Ok (db w1) ∧ q w1 = (Ok a, w').
Proof. intros E. apply and_then_ok in E as (u & w1 & Hx & E). exists w1. by apply execute_ok in Hx. Qed.

Lemma bump_ok w u w' : inv w → execute bump w = (Ok u, w') → inv w' ∧ db_revision (db w') = db_revision (db w) + 1.
Proof. intros Hw E. apply execute_ok in E. by apply bump_wf. Qed.

Lemma new_collection_key t : membership_fixed (lit "collection-" ++ (random_bytes W t ≫= Sha256.hex_byte)).
Proof.
  apply printable_normalized; [|done|].
  - apply Forall_app. split; [repeat constructor|]. apply Forall_forall. intros c Hc. apply hex_digit_printable.
    pose proof (hex_bytes (random_bytes W t)) as Hh. rewrite forallb_forall in Hh. by apply Hh, list_elem_of_In.
  - rewrite length_app, hex_length, sixteen. by vm_compute.
Qed.

Lemma createCollection_safe name : safe (createCollection W d name).
Proof.
  unfold createCollection. intros w Hw. unfold and_then at 1, lift.
  destruct (normalized name 512 false true) as [n|] eqn:En; [|done]. cbv iota beta. revert w Hw.
  match goal with |- ∀ w, inv w → inv (?p w).2 => change (safe p) end.
  apply keeps_and_then; [apply _|safe_with fail|intros _]. apply safe_transaction. intros w c w' Hw E.
  apply and_then_ok in E as (k & w1 & Hq & E). apply catalog_query_ok in Hq as [[= <-] ->].
  apply and_then_ok in E as (u & w1 & Hg & E). apply guard_ok in Hg as [Hn <-].
  apply and_then_ok in E as (key & w1 & Hk & E). apply newKey_ok in Hk as [Hd1 ->].
  apply and_then_ok in E as (folded & w2 & Hf & E). apply lift_ok in Hf as [Hf <-].
  apply execute_run in E as (w2 & Hx & E). apply and_then_ok in E as (u2 & w3 & Hb & E). apply ret_ok in E as [_ <-].
  apply negb_true_iff, Z.leb_gt in Hn. rewrite Hd1 in Hx.
  apply insert_collection_wf with (skip := None) in Hx as (Hw2 & _); [by eapply (bump_ok w2)|done|done|].
  split_and!; [apply new_collection_key|by eapply normalized_again|done].
Qed.

Lemma renameCollection_safe key name : safe (renameCollection json_parse W d key name).
Proof.
  unfold renameCollection. intros w Hw. unfold and_then at 1, lift.
  destruct (normalized name 512 false true) as [n|] eqn:En; [|done]. cbv iota beta. revert w Hw.
  match goal with |- ∀ w, inv w → inv (?p w).2 => change (safe p) end.
  apply keeps_and_then; [apply _|safe_with fail|intros _]. apply safe_transaction. intros w c w' Hw E.
  apply and_then_ok in E as (folded & w1 & Hf & E). apply lift_ok in Hf as [Hf <-].
  apply execute_run in E as (w1 & Hx & E). apply execute_run in E as (w2 & Ht & E).
  apply and_then_ok in E as (u & w3 & Hq & E). apply catalog_query_ok in Hq as [_ ->].
  apply rename_row_wf in Hx as [Hw1 _]; [|done|by eapply normalized_again|done].
  apply touch_members_ok in Ht as [Hw2 _]; [|done]. by eapply (bump_ok w2).
Qed.

Lemma removeCollection_safe key : safe (removeCollection real_cast json_parse W d key).
Proof.
  unfold removeCollection. apply keeps_and_then; [apply _|safe_with fail|intros _].
  apply keeps_and_then; [apply _| |intros _; safe_with ltac:(apply publishMetadata_safe)].
  apply safe_transaction. intros w c w' Hw E. apply execute_run in E as (w1 & Ht & E).
  apply execute_run in E as (w2 & Hx & E). apply touch_members_ok in Ht as [Hw1 _]; [|done].
  apply delete_collection_wf in Hx; [|done]. by eapply (bump_ok w2).
Qed.

Lemma put_filter_wf r d1 d2 : wf_but None d1 → saved_ok r →
  len (filter (λ x, sf_key x ≠ sf_key r) (db_saved d1)) < 4096 → put_filter r d1 = Ok d2 → wf_but None d2.
Proof.
  intros Hw Hr Hn. unfold put_filter. intros (u & _ & E)%bind_ok. apply bind_ok in E as (l & Hl & E).
  apply ok_inj in E. subst d2. apply of_option_ok in Hl. apply wf_set_saved; [done|].
  destruct (wf_saved _ _ Hw) as (Hs & Hnd & Hall & _). pose proof (insert_by_perm _ _ _ _ Hl) as Hp.
  split_and!.
  - eapply insert_by_sorted; [exact Hl|]. by apply set_sorted_filter.
  - rewrite Hp, fmap_cons. constructor; [|by apply nodup_filter].
    intros (x & Ex & [Hx _]%list_elem_of_filter)%list_elem_of_fmap. by apply Hx.
  - rewrite Hp. constructor; [done|by apply forall_filter].
  - apply Permutation_length in Hp. rewrite length_cons in Hp. cbn [set_saved db_saved]. lia.
Qed.

Lemma normalize_filter_fits f f' : filter_fits f → normalizeFilter f = Ok f' → filter_fits f'.
Proof. intros Hf. unfold normalizeFilter. intros E. repeat (apply bind_ok in E as (? & _ & E)). by injection E as <-. Qed.

Lemma saveFilter_safe name f : filter_fits f → safe (saveFilter W d name f).
Proof.
  intros Hfits. unfold saveFilter. intros w Hw. unfold and_then at 1, lift.
  destruct (normalized name 512 false true) as [n|] eqn:En; [|done]. cbv iota beta. unfold and_then at 1, lift.
  destruct (normalizeFilter f) as [f'|] eqn:Ef; [|done]. cbv iota beta. revert w Hw.
  match goal with |- ∀ w, inv w → inv (?p w).2 => change (safe p) end.
  apply keeps_and_then; [apply _|safe_with fail|intros _]. apply safe_transaction. intros w c w' Hw E.
  apply and_then_ok in E as (fresh & w1 & Hk & E). apply newKey_ok in Hk as [Hd1 ->].
  apply and_then_ok in E as (folded & w2 & Hf & E). apply lift_ok in Hf as [Hf <-].
  apply and_then_ok in E as (o & w2 & Hq & E). apply catalog_query_ok in Hq as [Ho ->]. apply ok_inj in Ho. subst o.
  apply and_then_ok in E as (k & w2 & Hq & E). apply catalog_query_ok in Hq as [[= <-] ->].
  apply and_then_ok in E as (key & w2 & Hkey & E).
  apply and_then_ok in E as (text & w3 & Ht & E). apply lift_ok in Ht as [Ht <-].
  apply execute_run in E as (w3 & Hx & E). apply and_then_ok in E as (u2 & w4 & Hb & E). apply ret_ok in E as [_ <-].
  assert (inv w1) as Hw1 by (unfold inv; by rewrite Hd1).
  assert (db w2 = db w1 ∧ len (filter (λ x, sf_key x ≠ key) (db_saved (db w1))) < 4096) as [Hd2 Hn].
  { destruct (List.find _ _) as [r|] eqn:Er.
    - apply ret_ok in Hkey as [<- <-]. split; [done|]. apply find_some in Er as [Hin%list_elem_of_In _].
      pose proof (length_filter_lt (λ x, sf_key x ≠ sf_key r) (db_saved (db w1)) r Hin ltac:(by intros [])) as Hlt.
      pose proof (proj2 (proj2 (proj2 (wf_saved _ _ Hw1)))) as Hmax. lia.
    - apply and_then_ok in Hkey as (u & w4' & Hg & Hkey). apply guard_ok in Hg as [Hg <-]. apply ret_ok in Hkey as [<- <-].
      split; [done|]. apply negb_true_iff, Z.leb_gt in Hg.
      pose proof (length_filter (λ x, sf_key x ≠ lit "filter-" ++ (random_bytes W (tick w) ≫= Sha256.hex_byte)) (db_saved (db w1))).
      lia. }
  rewrite Hd2 in Hx. apply put_filter_wf in Hx; [by eapply (bump_ok w3)|done| |done].
  exists f'. split_and!; [by eapply normalize_filter_normal|by eapply normalize_filter_fits|done].
Qed.

Lemma removeFilter_safe key : safe (removeFilter W d key).
Proof.
  unfold removeFilter. apply keeps_and_then; [apply _|safe_with fail|intros _].
  apply transaction_safe. safe_with ltac:(first [apply safe_bump | apply safe_execute]).
  match goal with H : (_ ≫= _) = Ok _ |- _ => apply bind_ok in H as (u & _ & E) end. apply ok_inj in E. subst.
  match goal with H : wf_but None _ |- _ => pose proof (wf_saved _ _ H) as (Hs & Hnd & Hall & Hlen) end.
  apply wf_set_saved; [done|]. split_and!; [by apply set_sorted_filter|by apply nodup_filter|by apply forall_filter|].
  match goal with |- len (filter ?P ?l) <= _ => pose proof (length_filter P l) end. lia.
Qed.

(** ** Operations that only read *)

Lemma lookup_safe key : safe (lookup json_parse W d key).
Proof. unfold lookup. safe_with fail. Qed.
Lemma lookupPath_safe p : safe (lookupPath json_parse W d p).
Proof. unfold lookupPath. safe_with fail. Qed.
Lemma read_safe key offset n e : safe (read json_parse W d key offset n e).
Proof. unfold read. safe_with fail. Qed.
Lemma search_safe f c n : safe (search fts_match W d f c n).
Proof. unfold search. safe_with fail. Qed.
Lemma count_safe : safe (count W d).
Proof. unfold count. safe_with fail. Qed.
Lemma list_collections_safe : safe (list_collections W d).
Proof. unfold list_collections. safe_with fail. Qed.
Lemma savedFilter_safe key : safe (savedFilter real_cast json_parse W d key).
Proof. unfold savedFilter. safe_with fail. Qed.
Lemma savedFilters_safe : safe (savedFilters real_cast json_parse W d).
Proof. unfold savedFilters. safe_with fail. Qed.
Lemma searchSaved_safe key c n : safe (searchSaved real_cast json_parse fts_match W d key c n).
Proof. unfold searchSaved. safe_with ltac:(first [apply savedFilter_safe | apply search_safe]). Qed.
Lemma pendingMetadata_safe : safe (pendingMetadata W d).
Proof. unfold pendingMetadata. safe_with fail. Qed.
Lemma metadataDocument_safe key : safe (metadataDocument json_parse W d key).
Proof. unfold metadataDocument. safe_with fail. Qed.
Lemma presentationDocument_safe key : safe (presentationDocument json_parse W d key).
Proof. unfold presentationDocument. safe_with fail. Qed.

(** ** Opening, and a classification without a catalog *)

Lemma quiet_validate at_ names : quiet (validate W at_ names).
Proof. revert at_. induction names as [|n names IH]; intros at_; cbn [validate]; quiet_with ltac:(first [apply quiet_inspect | apply IH]). Qed.

Lemma quiet_classificationDocument p : quiet (classificationDocument real_cast json_parse W p).
Proof.
  unfold classificationDocument.
  quiet_with ltac:(first [apply quiet_validate | apply quiet_inspect | apply quiet_look | apply quiet_companion]).
Qed.

Lemma quiet_make_directories at_ names : quiet (make_directories W at_ names).
Proof.
  revert at_. induction names as [|n names IH]; intros at_; cbn [make_directories]; unfold make_directory;
    quiet_with ltac:(first [apply quiet_look | apply quiet_attempt | apply quiet_change_fs | apply IH]).
Qed.

Lemma open_safe canonical input access : (∀ id, wf_but None (create_schema id)) → safe (open W canonical input access).
Proof.
  intros Hs. unfold open, initialize_schema, make_directory. cbn [loop]. unfold inspect_auxiliary.
  safe_with ltac:(first [apply quiet_safe; apply quiet_make_directories
    | apply safe_execute; intros ? ? _ [= <-]; apply Hs
    | match goal with |- keeps _ (λ w, (canonical _ _, advance w)) => by intros w end]).
Qed.
End reach.
