(* ===== verification/CatalogHistory.v ===== *)
(** The histories of a catalog: a catalog is opened, its operations run in any order
    and with any outcome, by any number of connections.  Every state of a history
    satisfies the invariant of CatalogInvariant.v. *)
From stdpp Require Import relations list.
From S2P Require Import Prelude Text Paths Unicode CoreText Json JsonObject JsonParser Sha256 MetadataCodec Table Proc.
From S2P Require Import CatalogData CatalogLaws CatalogTables CatalogStore CatalogOpen.
From S2P Require Import CatalogInvariant CatalogSteps CatalogReach.
Local Open Scope Z_scope.
Local Open Scope proc_scope.

(** The public operations with their arguments. *)
Inductive operation :=
  | RegisterFile (path : bytes) (m : option FileMetadata)
  | RegisterFiles (input : list FileRegistration)
  | UpdateMetadata (key : bytes) (expected : Z) (m : FileMetadata)
  | CreateFile (path : bytes) (encode : option (result string bytes)) (m : FileMetadata)
  | ImportFile (source path : bytes) (m : option FileMetadata)
  | Lookup (key : bytes)
  | LookupPath (path : bytes)
  | Read (key : bytes) (offset maximumBytes : Z) (expected : bytes)
  | SearchFiles (f : FileFilter) (cursor : option FileCursor) (limit : Z)
  | Count
  | CreateCollection (name : bytes)
  | RenameCollection (key name : bytes)
  | RemoveCollection (key : bytes)
  | ListCollections
  | SaveFilter (name : bytes) (f : FileFilter)
  | SavedFilter (key : bytes)
  | SavedFilters
  | RemoveFilter (key : bytes)
  | SearchSaved (key : bytes) (cursor : option FileCursor) (limit : Z)
  | PublishResult (key : bytes)
  | PublishMetadata (limit : Z)
  | PendingMetadata
  | MetadataDocument (key : bytes)
  | PresentationDocument (key : bytes)
  | ClassificationDocument (asset : bytes).

(** Ratings and sizes are unsigned. *)
Definition operation_fits (o : operation) : Prop :=
  match o with
  | RegisterFile _ (Some m) | UpdateMetadata _ _ m | CreateFile _ _ m | ImportFile _ _ (Some m) => 0 <= rating m
  | RegisterFiles input => Forall registration_fits input
  | SaveFilter _ f => filter_fits f
  | _ => True
  end.

(** A database file that was just made. *)
Definition blank_db : Db :=
  {| db_application := 0; db_version := 0; db_foreign := false; db_id := []; db_revision := 0;
     db_files := []; db_sequence := 0; db_keywords := ∅; db_fields := ∅; db_collections := []; db_members := ∅;
     db_saved := []; db_pending := []; db_search := [] |}.

Section history.
Context `{Utf8proc, !CatalogUnicode} (real_cast : bytes → Z) (json_parse : bytes → option json).
Context (fts_match : FtsRow → bytes → bool) (W : Outside) (canonical : nat → bytes → result string bytes).

Definition forget {A} (p : proc World A) : proc World unit := _ <- p ; ret tt.

Definition run (d : Impl) (o : operation) : proc World unit :=
  match o with
  | RegisterFile p m => forget (registerFile real_cast json_parse W d p m)
  | RegisterFiles l => forget (registerFiles real_cast json_parse W d l)
  | UpdateMetadata k e m => forget (updateMetadata real_cast json_parse W d k e m)
  | CreateFile p e m => forget (createFileWith real_cast json_parse W d p e m)
  | ImportFile s p m => forget (importFile real_cast json_parse W d s p m)
  | Lookup k => forget (lookup json_parse W d k)
  | LookupPath p => forget (lookupPath json_parse W d p)
  | Read k o n e => forget (read json_parse W d k o n e)
  | SearchFiles f c n => forget (search fts_match W d f c n)
  | Count => forget (count W d)
  | CreateCollection n => forget (createCollection W d n)
  | RenameCollection k n => forget (renameCollection json_parse W d k n)
  | RemoveCollection k => forget (removeCollection real_cast json_parse W d k)
  | ListCollections => forget (list_collections W d)
  | SaveFilter n f => forget (saveFilter W d n f)
  | SavedFilter k => forget (savedFilter real_cast json_parse W d k)
  | SavedFilters => forget (savedFilters real_cast json_parse W d)
  | RemoveFilter k => forget (removeFilter W d k)
  | SearchSaved k c n => forget (searchSaved real_cast json_parse fts_match W d k c n)
  | PublishResult k => forget (publishResult real_cast json_parse W d k)
  | PublishMetadata n => forget (publishMetadata real_cast json_parse W d n)
  | PendingMetadata => forget (pendingMetadata W d)
  | MetadataDocument k => forget (metadataDocument json_parse W d k)
  | PresentationDocument k => forget (presentationDocument json_parse W d k)
  | ClassificationDocument a => forget (classificationDocument real_cast json_parse W a)
  end.

(** What one call can do, whether it returns or throws. *)
Inductive step : World → World → Prop :=
  | step_open input access w : step w (open W canonical input access w).2
  | step_run d o w : operation_fits o → step w (run d o w).2.

Definition reachable (w : World) : Prop := ∃ w0, db w0 = blank_db ∧ rtc step w0 w.
End history.

Section invariant.
Context `{CatalogUnicodeLaws} (real_cast : bytes → Z) (json_parse : bytes → option json).
Context (parse_dump : ∀ j d, json_ok j = true → dump j = Ok d → json_parse d = Some j).
Context (fts_match : FtsRow → bytes → bool) (W : Outside) (canonical : nat → bytes → result string bytes).
Context (peers : ∀ t db, wf_but None db → wf_but None (writers W t db)).
Context (sixteen : ∀ t, length (random_bytes W t) = 16%nat).

Lemma empty_catalog_wf d : db_files d = [] → db_sequence d = 0 → db_members d = ∅ → db_collections d = [] → db_saved d = [] →
  db_pending d = [] → db_search d = [] → wf_but None d.
Proof.
  intros E1 E2 E3 E4 E5 E6 E7. split; rewrite ?E1, ?E2, ?E3, ?E4, ?E5, ?E6, ?E7; try (intros ? []%not_elem_of_nil).
  all: try (by constructor).
  - intros id. unfold members_of. rewrite E3, lookup_empty. split; constructor.
  - split_and!; [constructor..|done].
  - split_and!; [constructor..|done].
  - split; [constructor|]. intros r []%not_elem_of_nil.
  - done.
Qed.

Lemma run_safe d o : operation_fits o → keeps safely (run real_cast json_parse fts_match W d o).
Proof.
  intros Ho. destruct o; cbn [run]; unfold forget; (apply keeps_and_then; [apply _| |intros ?; apply keeps_ret, _]).
  - apply registerFile_safe; try done; by destruct m.
  - by apply registerFiles_safe.
  - by apply updateMetadata_safe.
  - by apply createFileWith_safe.
  - apply importFile_safe; try done; by intros ? ->.
  - by apply lookup_safe.
  - by apply lookupPath_safe.
  - by apply read_safe.
  - by apply search_safe.
  - by apply count_safe.
  - by apply createCollection_safe.
  - by apply renameCollection_safe.
  - by apply removeCollection_safe.
  - by apply list_collections_safe.
  - by apply saveFilter_safe.
  - by apply savedFilter_safe.
  - by apply savedFilters_safe.
  - by apply removeFilter_safe.
  - by apply searchSaved_safe.
  - by apply publishResult_safe.
  - by apply publishMetadata_safe.
  - by apply pendingMetadata_safe.
  - by apply metadataDocument_safe.
  - by apply presentationDocument_safe.
  - apply quiet_safe, quiet_classificationDocument.
Qed.

Lemma reachable_catalog_inv w : reachable real_cast json_parse fts_match W canonical w → inv w.
Proof.
  intros (w0 & E & Hsteps). assert (inv w0) as H0' by (unfold inv; by rewrite E; apply empty_catalog_wf).
  clear E. induction Hsteps as [|w1 w2 w3 Hs _ IH]; [done|]. apply IH. destruct Hs as [input access w|d o w Ho].
  - apply open_safe; try done. intros id. by apply empty_catalog_wf.
  - by apply run_safe.
Qed.
End invariant.
