(* ===== verification/CatalogReading.v ===== *)
(** What the catalog answers: the statement of a search selects exactly the files
    whose classification meets the filter, and the pages of a search give each of
    them once, in order. *)
From stdpp Require Import list.
From S2P Require Import Prelude Text Paths Unicode Json JsonObject JsonParser MetadataCodec Table Proc.
From S2P Require Import CatalogData CatalogLaws CatalogTables CatalogStore CatalogInvariant CatalogReach.
Local Open Scope Z_scope.

(** ** Paths below a directory *)

(** The paths between [p/] and [p0] are those that begin with [p/]: the separator is
    followed by the digit nought. *)
Lemma below_range p x : bytes_leb (p ++ lit "/") x && bytes_ltb x (p ++ lit "0") = starts_with (p ++ lit "/") x.
Proof.
  unfold bytes_leb, bytes_ltb, starts_with. revert x. induction p as [|c p IH]; intros x.
  - destruct x as [|y x]; [done|]. cbn. rewrite take_0.
    change (byteZ "/"%char) with 47. change (byteZ "0"%char) with 48.
    destruct (Z.compare_spec (byteZ y) 47) as [E|E|E]; destruct (Z.compare_spec (byteZ y) 48) as [E'|E'|E']; try lia; cbn.
    + assert (y = "/"%char) as -> by (apply byteZ_inj; exact E). rewrite bool_decide_true by done. by destruct x.
    + rewrite bool_decide_false; [done|]. intros [= ->]. by vm_compute in E.
    + rewrite bool_decide_false; [by destruct x|]. intros [= ->]. by vm_compute in E.
    + rewrite bool_decide_false; [done|]. intros [= ->]. by vm_compute in E.
  - destruct x as [|y x]; [done|]. cbn. rewrite (Z.compare_antisym (byteZ c) (byteZ y)).
    destruct (Z.compare_spec (byteZ c) (byteZ y)) as [E|E|E]; cbn.
    + apply byteZ_inj in E as ->. rewrite IH. apply bool_decide_ext. split; [intros E; by f_equal|intros E; by injection E].
    + rewrite bool_decide_false; [done|]. intros [= ->]. lia.
    + rewrite bool_decide_false; [done|]. intros [= ->]. lia.
Qed.

(** ** What a filter asks of a classification *)

Lemma assoc_elem (k v : bytes) (l : string_map) : ascending l = true → assoc k l = Some v ↔ (k, v) ∈ l.
Proof.
  induction l as [|[k' v'] l IH]; intros Ha; cbn [assoc]; [split; [done|by intros ?%not_elem_of_nil]|].
  apply ascending_cons in Ha as [Hk Hl]. cbn [fst snd]. rewrite elem_of_cons. destruct (decide (k = k')) as [->|Hne].
  - rewrite bool_decide_true by done. split; [intros [= ->]; by left|]. intros [[= ->]|Hin]; [done|].
    rewrite Forall_forall in Hk. specialize (Hk _ Hin). cbn in Hk. by rewrite bytes_ltb_irrefl in Hk.
  - rewrite bool_decide_false, IH by done. split; [by right|]. by intros [[= ->]|?].
Qed.

Section meaning.
Context `{CatalogUnicodeLaws} (fts_match : FtsRow → bytes → bool).

(** The folded form of one of the keywords. *)
Definition has_keyword (m : FileMetadata) (t : bytes) : Prop := ∃ w, w ∈ keywords m ∧ normalized w 512 true false = Ok t.

Definition within (x : Z) (low high : option Z) : Prop :=
  (∀ l, low = Some l → l <= x) ∧ (∀ h, high = Some h → x <= h).

(** The filter as its fields are documented; [expression] is the full-text query. *)
Record fits_filter (f : FileFilter) (expression : option bytes) (path : bytes) (size : Z) (m : FileMetadata) : Prop := {
  meets_text : ∀ e, expression = Some e → fts_match (search_row path m) e = true;
  meets_prefix : pathPrefix f = [] ∨ path = pathPrefix f ∨ starts_with (pathPrefix f ++ lit "/") path = true;
  meets_rating : within (rating m) (minimumRating f) (maximumRating f);
  meets_size : within size (minimumSize f) (maximumSize f);
  meets_all : Forall (has_keyword m) (allKeywords f);
  meets_any : anyKeywords f = [] ∨ Exists (has_keyword m) (anyKeywords f);
  meets_collections : filter_collections f = [] ∨ Exists (λ k, k ∈ collections m) (filter_collections f);
  meets_colors : colors f = [] ∨ color m ∈ colors f;
  meets_fields : Forall (λ kv, kv ∈ fields m) (filter_fields f)
}.

Lemma in_range_spec x low high : in_range x low high = true ↔ within x low high.
Proof.
  unfold in_range, within. rewrite andb_true_iff.
  destruct low as [l|], high as [h|]; rewrite ?Z.leb_le; naive_solver.
Qed.

Lemma any_of_spec (P : bytes → Prop) values selected : (∀ v, v ∈ values ↔ P v) →
  any_of values selected = true ↔ selected = [] ∨ Exists P selected.
Proof.
  intros HP. unfold any_of. rewrite orb_true_iff, bool_decide_eq_true, existsb_exists, Exists_exists.
  apply or_iff_compat_l. split.
  - intros (x & Hx%list_elem_of_In & E%bool_decide_eq_true). exists x. by rewrite <-HP.
  - intros (x & Hx & E%HP). exists x. by rewrite <-list_elem_of_In, bool_decide_eq_true.
Qed.

Lemma color_code_inj c c' : color_code c = color_code c' → c = c'.
Proof. by destruct c, c'. Qed.

(** The index tables answer what the classification says. *)
Lemma selects_fits d id row m f e : annotated d id row m →
  selects fts_match f e d id row = true ↔
  fits_filter f e (row_path row) (row_size row) (with_collections m (members_of id d)).
Proof.
  intros Ha. destruct (ann_columns _ _ _ _ Ha) as (Er & Ec & _). destruct (ann_keywords _ _ _ _ Ha) as (ks & Ek & Hks).
  destruct (normal_fields _ (ann_normal _ _ _ _ Ha)) as [Hasc _].
  unfold selects. rewrite (ann_search _ _ _ _ Ha), (ann_fields _ _ _ _ Ha), Ek, Er, Ec. cbn [default from_option Datatypes.id].
  rewrite below_range, !andb_true_iff, !in_range_spec.
  rewrite (any_of_spec (has_keyword m)) by apply Hks. rewrite (any_of_spec (λ k, k ∈ members_of id d)) by done.
  split.
  - intros ((((((((S1 & S2) & S3) & S4) & S5) & S6) & S7) & S8) & S9).
    split; cbn [rating keywords collections color fields with_collections]; try done.
    + by intros e' ->.
    + rewrite !orb_true_iff, !bool_decide_eq_true in S2. tauto.
    + apply Forall_forall. intros t Ht. rewrite forallb_forall in S5.
      apply list_elem_of_In, S5, bool_decide_eq_true in Ht. by apply Hks.
    + apply orb_true_iff in S8 as [S8%bool_decide_eq_true|S8]; [by left|right].
      apply existsb_exists in S8 as (c & Hc%list_elem_of_In & E%Z.eqb_eq). by apply color_code_inj in E as ->.
    + apply Forall_forall. intros [k v] Hkv. rewrite forallb_forall in S9. apply assoc_elem; [done|].
      apply list_elem_of_In, S9, bool_decide_eq_true in Hkv. done.
  - intros [S1 S2 S3 S4 S5 S6 S7 S8 S9]. cbn [rating keywords collections color fields with_collections] in *.
    split_and!; try done.
    + destruct e; [|done]. by apply S1.
    + rewrite !orb_true_iff, !bool_decide_eq_true. tauto.
    + apply forallb_forall. intros t Ht%list_elem_of_In. rewrite Forall_forall in S5. by apply bool_decide_eq_true, (Hks t), S5.
    + apply orb_true_iff. destruct S8 as [->|S8]; [by left|right]. apply existsb_exists. exists (color m).
      split; [by apply list_elem_of_In|]. apply Z.eqb_refl.
    + apply forallb_forall. intros [k v] Hkv%list_elem_of_In. rewrite Forall_forall in S9.
      by apply bool_decide_eq_true, assoc_elem, S9.
Qed.

(** The summary of a row is that of its entry. *)
Definition summary_of (id : Z) (row : FileRow) (c : ColorLabel) (pending : bool) : CatalogFileSummary :=
  {| summary_key := row_key row; summary_index := id; summary_revision := row_revision row;
     summary_path := row_path row; summary_size := row_size row; summary_modifiedAtNs := row_modified row;
     summary_contentVersion := row_stamp row; summary_title := row_title row; summary_rating := row_rating row;
     summary_color := c; summary_pending := pending |}.

Lemma summary_ok d id row m : annotated d id row m →
  summary d id row = Ok (summary_of id row (color m) (bool_decide (is_Some (row_lookup id (db_pending d))))).
Proof.
  intros Ha. destruct (ann_columns _ _ _ _ Ha) as (_ & Ec & _). unfold summary. rewrite Ec. by destruct (color m).
Qed.
End meaning.

(** ** Pages *)

Section paging.
Context `{CatalogUnicodeLaws} (fts_match : FtsRow → bytes → bool) (d : Impl).

Definition expression_of (f : FileFilter) : result string (option bytes) :=
  if bool_decide (filter_text f = []) then Ok None else e ← matchExpression (filter_text f); Ok (Some e).

(** The reader that follows the cursors, [fuel] pages at most. *)
Fixpoint search_all (f : FileFilter) (signature : bytes) (limit : Z) (fuel : nat) (cursor : option FileCursor) (db : Db) :
    result string (list CatalogFileSummary) :=
  match fuel with
  | 0%nat => Err "more pages"%string
  | S fuel =>
      page ← search_page fts_match d f signature cursor limit db;
      match next page with
      | None => Ok (page_files page)
      | Some c => rest ← search_all f signature limit fuel (Some c) db; Ok (page_files page ++ rest)
      end
  end.

Definition summarize (db : Db) (r : Z * FileRow) : CatalogFileSummary :=
  summary_of r.1 r.2 (default None_ (color_of_code (row_color r.2))) (bool_decide (is_Some (row_lookup r.1 (db_pending db)))).

Lemma summarize_ok db r : wf_but None db → r ∈ db_files db → summary db r.1 r.2 = Ok (summarize db r).
Proof.
  intros Hw Hr. destruct (wf_annotated _ _ Hw r Hr) as [m Hm]; [done|]. destruct r as [id row]. cbn [fst snd] in *.
  rewrite (summary_ok _ _ _ _ Hm). unfold summarize. cbn [fst snd]. destruct (ann_columns _ _ _ _ Hm) as (_ & -> & _).
  by destruct (color m).
Qed.

Lemma summaries_ok db rows acc : wf_but None db → (∀ r, r ∈ rows → r ∈ db_files db) →
  fold_res (λ acc r, s ← summary db r.1 r.2; Ok (acc ++ [s])) acc rows = Ok (acc ++ (summarize db <$> rows)).
Proof.
  intros Hw. revert acc. induction rows as [|r rows IH]; intros acc Hr; cbn [fold_res]; [by rewrite app_nil_r|].
  rewrite summarize_ok by (try done; apply Hr; by left). cbn [mbind result_bind]. rewrite IH by (intros x Hx; apply Hr; by right).
  by rewrite <-app_assoc.
Qed.

Definition selected_rows (f : FileFilter) (e : option bytes) (after : Z) (db : Db) : table FileRow :=
  filter (λ r, after < r.1 ∧ selects fts_match f e db r.1 r.2) (db_files db).

Definition position (cursor : option FileCursor) : Z := match cursor with Some c => afterIndex c | None => 0 end.
Definition accepted (cursor : option FileCursor) (signature : bytes) (db : Db) : bool :=
  match cursor with Some c => valid_cursor d c (db_revision db) signature | None => true end.

Lemma page_unfold f e signature cursor limit db : wf_but None db → expression_of f = Ok e → accepted cursor signature db = true →
  search_page fts_match d f signature cursor limit db =
  let items := summarize db <$> take (Z.to_nat (limit + 1)) (selected_rows f e (position cursor) db) in
  Ok (if limit <? len items
      then {| page_files := take (Z.to_nat limit) items;
              next := s ← last (take (Z.to_nat limit) items);
                Some {| cursor_catalog := catalogId d; cursor_revision := db_revision db;
                        afterIndex := summary_index s; cursor_filter := signature |} |}
      else {| page_files := items; next := None |}).
Proof.
  intros Hw He Hc. unfold search_page. unfold accepted in Hc. rewrite Hc. cbn [check mbind result_bind].
  unfold expression_of in He. rewrite He. cbn [mbind result_bind]. rewrite summaries_ok; [|done|].
  - cbn [mbind result_bind app]. unfold select_files, position. by destruct (limit <? _).
  - intros r Hr. unfold select_files in Hr. apply elem_of_take in Hr as (i & Hr & _).
    by apply list_elem_of_lookup_2, list_elem_of_filter in Hr as [_ ?].
Qed.

Lemma search_all_rows f e signature limit fuel cursor db : wf_but None db → 0 < limit → expression_of f = Ok e →
  accepted cursor signature db = true → (length (selected_rows f e (position cursor) db) < fuel)%nat →
  search_all f signature limit fuel cursor db = Ok (summarize db <$> selected_rows f e (position cursor) db).
Proof.
  intros Hw Hl He. revert cursor. induction fuel as [|fuel IH]; intros cursor Hc Hf; [lia|].
  cbn [search_all]. rewrite (page_unfold _ _ _ _ _ _ Hw He Hc). cbn [mbind result_bind]. cbv zeta.
  set (F := selected_rows f e (position cursor) db) in *.
  rewrite length_fmap, length_take, <-fmap_take, take_take.
  replace (Z.to_nat limit `min` Z.to_nat (limit + 1))%nat with (Z.to_nat limit) by lia.
  destruct (Z.ltb_spec limit (Z.of_nat (Z.to_nat (limit + 1) `min` length F))) as [Hmore|Hless]; cbn [next page_files].
  2: { rewrite take_ge; [done|lia]. }
  rewrite fmap_last. destruct (last (take (Z.to_nat limit) F)) as [[i x]|] eqn:El.
  2: { apply last_None in El. destruct F; [simpl in *; lia|]. by destruct (Z.to_nat limit) eqn:?; [lia|]. }
  cbn [fmap option_fmap option_map mbind option_bind].
  assert ((i, x) ∈ db_files db) as Hin.
  { apply last_Some_elem_of, elem_of_take in El as (j & El & _). apply list_elem_of_lookup_2 in El.
    by apply list_elem_of_filter in El as [_ ?]. }
  pose proof (page_rest_at (λ r, selects fts_match f e db r.1 r.2) _ _ _ _ (wf_files _ _ Hw) El) as Hrest.
  fold (selected_rows f e (position cursor) db) F in Hrest. cbn [fst] in Hrest.
  match goal with |- context [search_all _ _ _ _ (Some ?c) _] =>
    assert (selected_rows f e (position (Some c)) db = drop (Z.to_nat limit) F) as Hd by exact Hrest;
    rewrite (IH (Some c)); rewrite ?Hd end.
  - cbn [mbind result_bind]. by rewrite <-fmap_app, take_drop.
  - unfold accepted, valid_cursor. cbn. rewrite !bool_decide_true, Z.eqb_refl by done. cbn.
    apply Z.leb_le. pose proof (wf_ids _ _ Hw _ Hin). cbn in *. lia.
  - rewrite length_drop. destruct F; [by rewrite take_nil in El|]. cbn in *. lia.
Qed.
End paging.
