(* ===== verification/CatalogCompanion.v ===== *)
(** Companions: the document that is published beside a file is read back as the
    same classification, and restoring it in the catalog it came from changes
    nothing. *)
From stdpp Require Import list.
From S2P Require Import Prelude Text Paths Unicode CoreText Json JsonObject JsonParser Sha256 MetadataCodec Table Proc.
From S2P Require Import CatalogData CatalogLaws CatalogTables CatalogStore.
From S2P Require Import CatalogInvariant CatalogSteps CatalogReach.
Local Open Scope Z_scope.
Local Open Scope proc_scope.

Section companion.
Context `{CatalogUnicodeLaws} (real_cast : bytes → Z) (json_parse : bytes → option json).
Context (parse_dump : ∀ j d, json_ok j = true → dump j = Ok d → json_parse d = Some j).

(** ** The memberships of a document *)

(** A membership that names a collection of the catalog. *)
Record membership_ok (d : Db) (kn : bytes * bytes) : Prop := {
  named_key : normalized kn.1 128 false true = Ok kn.1;
  named_name : normalized kn.2 512 false true = Ok kn.2;
  named_folded : is_ok (normalized kn.2 512 true false) = true;
  named_row : ∃ c, collection_by_key kn.1 d = Some c ∧ coll_key c = kn.1
}.

Lemma by_collection_key d k c : collection_by_key k d = Some c → c ∈ db_collections d ∧ coll_key c = k.
Proof. unfold collection_by_key. intros [Hin%list_elem_of_In E%bool_decide_eq_true]%find_some. done. Qed.

Lemma known_named d k : wf_but None d → known_collection d k →
  ∃ c, collection_by_key k d = Some c ∧ membership_ok d (k, coll_name c).
Proof.
  intros Hw (c0 & Hin & Ek). destruct (collection_by_key k d) as [c|] eqn:E.
  - destruct (by_collection_key _ _ _ E) as [Hc Ekc]. exists c. split; [done|].
    destruct (wf_collections _ _ Hw) as (_ & _ & Hall & _). rewrite Forall_forall in Hall. destruct (Hall c Hc) as (C1 & C2 & C3).
    rewrite Ekc in C1. split; cbn; [done|done|by rewrite C3|by exists c].
  - exfalso. unfold collection_by_key in E. pose proof (List.find_none _ _ E c0 ltac:(by apply list_elem_of_In)) as Hn. cbn in Hn. by rewrite bool_decide_true in Hn.
Qed.

Lemma named_ok d ks : wf_but None d → Forall (known_collection d) ks →
  (named_memberships ks d).*1 = ks ∧ Forall (membership_ok d) (named_memberships ks d).
Proof.
  intros Hw. induction 1 as [|k ks Hk _ [IH1 IH2]]; [done|].
  destruct (known_named d k Hw Hk) as (c & Hc & Hm). unfold named_memberships in *. cbn [omap list_omap].
  rewrite Hc. cbn [mbind option_bind fmap list_fmap fst]. split; [by f_equal|by constructor].
Qed.

Lemma membership_key kn : at_string (membership_json kn) "key" = Ok kn.1.
Proof. reflexivity. Qed.
Lemma membership_name kn : at_string (membership_json kn) "name" = Ok kn.2.
Proof. reflexivity. Qed.

Lemma memberships_check d all named keys : Forall (membership_ok d) named → NoDup named.*1 →
  (∀ k, k ∈ named.*1 → k ∈ all ∧ k ∉ keys) →
  is_ok (fold_res (companion_membership all) keys (membership_json <$> named)) = true.
Proof.
  revert keys. induction named as [|kn named IH]; intros keys; [done|]. cbn [fmap list_fmap fold_res].
  intros [Hm Hn]%Forall_cons [Hk Hnd]%NoDup_cons Hall. destruct (Hall kn.1 ltac:(by left)) as [Hin Hout].
  assert (companion_membership all keys (membership_json kn) = Ok (kn.1 :: keys)) as ->.
  { unfold companion_membership. rewrite membership_key, membership_name. cbn [mbind result_bind].
    rewrite (named_key _ _ Hm). cbn [mbind result_bind]. rewrite (named_name _ _ Hm). cbn [mbind result_bind].
    by rewrite bool_decide_false, bool_decide_true. }
  cbn [mbind result_bind]. apply IH; [done..|]. intros k Hk'. destruct (Hall k ltac:(by right)). split; [done|].
  rewrite not_elem_of_cons. split; [by intros ->|done].
Qed.

Lemma restore_again d named remap : Forall (membership_ok d) named →
  fold_res restore_one (d, remap) (membership_json <$> named) = Ok (d, reverse ((λ kn, (kn.1, kn.1)) <$> named) ++ remap).
Proof.
  revert remap. induction named as [|kn named IH]; intros remap; [done|]. cbn [fmap list_fmap fold_res].
  intros [Hm Hn]%Forall_cons.
  assert (restore_one (d, remap) (membership_json kn) = Ok (d, (kn.1, kn.1) :: remap)) as ->.
  { unfold restore_one. rewrite membership_key. cbn [mbind result_bind].
    rewrite (named_key _ _ Hm). cbn [mbind result_bind]. rewrite membership_name. cbn [mbind result_bind].
    rewrite (named_name _ _ Hm). cbn [mbind result_bind]. pose proof (named_folded _ _ Hm) as Hf.
    destruct (normalized kn.2 512 true false) as [f|]; [|done]. cbn [mbind result_bind].
    by destruct (named_row _ _ Hm) as (c & -> & ->). }
  cbn [mbind result_bind]. rewrite IH by done. by rewrite reverse_cons, <-app_assoc.
Qed.

Lemma remap_same ks (l : list (bytes * bytes)) : (∀ k v, (k, v) ∈ l → v = k) → (∀ k, k ∈ ks → k ∈ l.*1) →
  ∀ acc, fold_res (λ acc k, k' ← of_option (fail "companion has unknown collection membership") (assoc k l);
        Ok (acc ++ [k'])) acc ks = Ok (acc ++ ks).
Proof.
  intros Hsame. induction ks as [|k ks IH]; intros Hks acc; cbn [fold_res]; [by rewrite app_nil_r|].
  assert (assoc k l = Some k) as ->.
  { specialize (Hks k ltac:(by left)). clear IH. induction l as [|[k' v] l IHl]; [by apply not_elem_of_nil in Hks|].
    cbn [assoc fst snd]. destruct (decide (k = k')) as [<-|Hne].
    - rewrite bool_decide_true by done. f_equal. apply Hsame. by left.
    - rewrite bool_decide_false by done. apply IHl; [intros k2 v2 Hin; apply Hsame; by right|].
      by apply elem_of_cons in Hks as [?|?]. }
  cbn [of_option mbind result_bind]. rewrite IH by (intros x Hx; apply Hks; by right). by rewrite <-app_assoc.
Qed.

(** ** The document *)

Lemma document_object f named : document_json f named = JObject
  [(lit "collections", JArray (membership_json <$> named)); (lit "fileKey", JString (file_key f));
   (lit "format", JString (lit "iiFileProvider.Metadata")); (lit "metadata", metadataJson (file_metadata f));
   (lit "path", JString (file_path f)); (lit "revision", JInt (file_revision f)); (lit "schema", JInt 1)].
Proof. reflexivity. Qed.

Lemma document_json_ok f named : metadata_normal (file_metadata f) → json_ok (document_json f named) = true.
Proof.
  intros Hm. rewrite document_object. pose proof (metadata_json_ok _ Hm) as H1'.
  assert (json_ok (JArray (membership_json <$> named)) = true) as H2'.
  { cbn [json_ok]. induction named as [|kn named IH]; [done|]. cbn [fmap list_fmap forallb]. by rewrite IH. }
  revert H1' H2'. generalize (metadataJson (file_metadata f)), (JArray (membership_json <$> named)).
  intros a b Ha Hb. cbn [json_ok forallb snd]. by rewrite Ha, Hb.
Qed.

(** What the members of a document are. *)
Lemma document_parts f named : let j := document_json f named in
  at_string j "fileKey" = Ok (file_key f) ∧ at_key j (lit "revision") = Ok (JInt (file_revision f)) ∧
  at_key j (lit "metadata") = Ok (metadataJson (file_metadata f)) ∧
  at_key j (lit "collections") = Ok (JArray (membership_json <$> named)).
Proof. cbv zeta. rewrite document_object. split_and!; reflexivity. Qed.

Lemma entry_memberships d e : wf_but None d → entry_at json_parse d e →
  NoDup (collections (file_metadata e)) ∧ Forall (known_collection d) (collections (file_metadata e)).
Proof.
  intros Hw (row & Hin & He). destruct (entry_ok json_parse parse_dump d _ row Hw Hin) as (m & Hm & E).
  rewrite E in He. injection He as <-. cbn. destruct (wf_members _ _ Hw (file_index e)) as [Hs Hk].
  split; [by apply set_sorted_nodup|done].
Qed.

(** A document is read back, whole. *)
Lemma document_again d e doc : wf_but None d → entry_at json_parse d e → document e d = Ok doc →
  let j := document_json e (named_memberships (collections (file_metadata e)) d) in
  companion_of real_cast json_parse doc = Ok j ∧ companion_key j = Ok (file_key e) ∧
  companion_revision real_cast j = Ok (file_revision e) ∧ companion_metadata j = Ok (file_metadata e) ∧
  restoreCollections j (file_metadata e) d = Ok (file_metadata e, d).
Proof.
  intros Hw He Hdoc. cbv zeta. destruct (entry_normal json_parse parse_dump d e Hw He) as (Hm & Hr & Hkey & _).
  destruct (entry_memberships d e Hw He) as [Hnd Hknown]. destruct (entry_revision json_parse d e Hw He) as [Hr1 Hr2].
  destruct (named_ok d _ Hw Hknown) as [Hnames Hnamed]. unfold document in Hdoc.
  set (named := named_memberships _ d) in *. destruct (document_parts e named) as (Pk & Pr & Pm & Pc).
  pose proof (metadata_again _ Hm Hr) as Hagain.
  assert (companion_metadata (document_json e named) = Ok (file_metadata e)) as Hcm.
  { unfold companion_metadata. rewrite Pm. exact Hagain. }
  split_and!; [|exact Pk| |exact Hcm|].
  - unfold companion_of, parse_json. rewrite (parse_dump _ _ (document_json_ok e named Hm) Hdoc). cbn [of_option mbind result_bind].
    rewrite Pk, Pr, Pm, Pc. rewrite document_object at 1.
    match goal with |- context [value_as get_string (lit "format") [] ?l] =>
      change (value_as get_string (lit "format") [] l) with (@Ok string _ (lit "iiFileProvider.Metadata"));
      change (value_as (get_int real_cast) (lit "schema") 0 l) with (@Ok string _ 1) end.
    cbn [mbind result_bind]. rewrite bool_decide_true by done. cbn [mbind result_bind check Z.eqb Pos.eqb].
    rewrite Hkey. cbn [mbind result_bind check jsonInteger]. rewrite (proj2 (Z.ltb_ge _ 0)), (proj2 (Z.ltb_ge INT64_MAX _)) by lia.
    cbn [mbind result_bind check negb]. rewrite (proj2 (Z.eqb_neq _ 0)) by lia. cbn [mbind result_bind check negb].
    rewrite Hagain. cbn [mbind result_bind is_array json_size elements].
    rewrite length_fmap, <-Hnames, length_fmap, Z.eqb_refl. cbn [mbind result_bind check andb].
    pose proof (memberships_check d (named.*1) named [] Hnamed) as Hc. destruct (fold_res _ _ _); [done|].
    discriminate Hc; [by rewrite Hnames|]. intros k Hk. by split; [|apply not_elem_of_nil].
  - unfold companion_revision. rewrite Pr. cbn. f_equal. apply u64_small. unfold INT64_MAX, UINT64_MAX in *. lia.
  - unfold restoreCollections. rewrite Pc. cbn [mbind result_bind elements]. rewrite (restore_again d) by done.
    cbn [mbind result_bind]. rewrite remap_same; [|..].
    + cbn [mbind result_bind app]. assert (with_collections (file_metadata e) (collections (file_metadata e)) = file_metadata e) as ->
        by by destruct (file_metadata e). by rewrite (normal_normalize _ Hm).
    + intros k v. rewrite app_nil_r, elem_of_reverse. by intros (kn & [= -> ->] & _)%list_elem_of_fmap.
    + intros k Hk. rewrite app_nil_r, fmap_reverse, <-list_fmap_compose. apply elem_of_reverse. by rewrite <-Hnames in Hk.
Qed.
End companion.

(** ** Publication *)

Section publication.
Context `{CatalogUnicodeLaws} (real_cast : bytes → Z) (json_parse : bytes → option json).
Context (parse_dump : ∀ j d, json_ok j = true → dump j = Ok d → json_parse d = Some j).
Context (W : Outside) (d : Impl).

(** A transaction that committed: it started from what other processes had left. *)
Lemma committed_at {A} (p : proc World A) w a w' : transaction W p w = (Ok a, w') →
  ∃ w1 w2, begin_ W w = (Ok tt, w1) ∧ db w1 = writers W (tick w) (db w) ∧ p w1 = (Ok a, w2) ∧ db w' = db w2 ∧ fs w' = fs w2.
Proof.
  unfold transaction. intros E. apply and_then_ok in E as ([] & w1 & Hb & E). pose proof Hb as Hb'.
  apply and_then_ok in Hb as (u1 & w0 & Hr & Hb). injection Hr as _ <-.
  unfold attempt in Hb. injection Hb as _ <-. unfold scoped in E.
  match type of E with context [match ?r with _ => _ end] => destruct r as [[a1|m] w2] eqn:E2 end; [|done].
  injection E as -> ->. apply and_then_ok in E2 as (a2 & w3 & Hp & E2).
  apply and_then_ok in E2 as (u2 & w4 & Hc & E2). injection Hc as _ <-. apply ret_ok in E2 as [-> <-].
  eexists _, w3; split_and!; [exact Hb'| |exact Hp|done|done]; done.
Qed.

Lemma committed_ok {A} (p : proc World A) w a w' : transaction W p w = (Ok a, w') →
  ∃ w1 w2, db w1 = writers W (tick w) (db w) ∧ p w1 = (Ok a, w2) ∧ db w' = db w2 ∧ fs w' = fs w2.
Proof. intros (w1 & w2 & _ & Hx)%committed_at. by exists w1, w2. Qed.

Lemma staged_ok {A} parent nonce (body : bytes → proc World A) w a w' :
  staged W parent nonce body w = (Ok a, w') →
  let path := slash parent (lit ".iifile-stage-" ++ nonce) in
  ∃ w1 w2, db w1 = db w ∧ body path w1 = (Ok a, w2) ∧ db w' = db w2 ∧ fs w' = delete path (fs w2).
Proof.
  unfold staged. cbv zeta. intros E. apply and_then_ok in E as (u1 & w1 & H1' & E). injection H1' as _ <-.
  apply and_then_ok in E as (f & w2 & H1' & E). injection H1' as _ <-.
  apply and_then_ok in E as (u2 & w3 & H1' & E). apply guard_ok in H1' as [_ <-].
  apply and_then_ok in E as (u3 & w4 & H1' & E). injection H1' as _ <-.
  apply and_then_ok in E as (u4 & w5 & H1' & E). injection H1' as _ <-.
  match type of E with context [body ?p ?w] => destruct (body p w) as [r w6] eqn:E2 end. injection E as -> <-.
  eexists _, w6; split_and!; [|exact E2|done|done]; done.
Qed.

Lemma publish_stage_ok path destination content replace w u w' :
  publish_stage W path destination content replace w = (Ok u, w') →
  db w' = db w ∧ ∃ t, fs w' !! destination = Some (new_node W t destination content).
Proof.
  intros E. split; [by apply (quiet_run _ _ _ _ (quiet_publish_stage W path destination content replace) E)|].
  unfold publish_stage in E. apply and_then_ok in E as (u1 & w1 & _ & E). apply and_then_ok in E as (u2 & w2 & _ & E).
  apply and_then_ok in E as (u3 & w3 & _ & E). apply and_then_ok in E as (u4 & w4 & _ & E).
  apply and_then_ok in E as (u5 & w5 & Hx & E). injection Hx as _ <-. injection E as _ <-.
  exists (tick w4). cbn. by rewrite lookup_insert_eq.
Qed.

Lemma sidecar_not_staged parent nonce file : forallb is_hex nonce = true → nonce ≠ [] →
  slash parent (lit ".iifile-stage-" ++ nonce) ≠ sidecar file.
Proof.
  intros Hhex Hne E. apply (f_equal last) in E. unfold sidecar in E. rewrite (last_app _ companionSuffix) in E.
  assert (last (slash parent (lit ".iifile-stage-" ++ nonce)) = last nonce) as El.
  { unfold slash. destruct (ends_with _ _); rewrite !last_app; by destruct (last nonce) eqn:En; [|apply last_None in En]. }
  rewrite El in E. change (last companionSuffix) with (Some "n"%char) in E. cbn in E.
  apply last_Some_elem_of in E. rewrite forallb_forall in Hhex. by specialize (Hhex _ ltac:(by apply list_elem_of_In)).
Qed.

(** Staging and publishing a document touches the stage and the published name. *)
Lemma stage_kept q parent nonce content target b w r w' : undisturbed W q →
  q ≠ slash parent (lit ".iifile-stage-" ++ nonce) → q ≠ target →
  staged W parent nonce (λ stage, write_staged W stage content ;; publish_stage W stage target content b) w = (r, w') →
  fs w' !! q = fs w !! q.
Proof.
  intros Ha Hs Ht. set (R := λ w w' : World, fs w' !! q = fs w !! q).
  assert (PreOrder R) as HR by (unfold R; split; [done|intros x y z ??; congruence]).
  assert (keeps R (look W)) as Hl by (intros v; apply Ha).
  assert (∀ m, keeps R (attempt W m)) as Hat by by intros m v.
  assert (∀ p n, p ≠ q → keeps R (change_fs (λ t, <[p := n t]>))) as Hnew.
  { intros p n Hp v. unfold R. cbn. by rewrite lookup_insert_ne. }
  intros E. refine (keeps_run R _ _ _ _ _ E). unfold staged. cbv zeta.
  quiet_with ltac:(first [apply Hl | apply Hat | by apply Hnew]).
  intros v. set (body := write_staged _ _ _ ;; _).
  assert (keeps R body) as Hb.
  { unfold body, write_staged, publish_stage. quiet_with ltac:(first [apply Hl | apply Hat | by apply Hnew]).
    intros v1. unfold R. cbn. by rewrite lookup_insert_ne, lookup_delete_ne. }
  specialize (Hb v). destruct (body v) as [x v1]. unfold R in *. cbn in *. by rewrite lookup_delete_ne.
Qed.

Context (sixteen : ∀ t, length (random_bytes W t) = 16%nat).

(** What a publication found and left.  The file is at the place of the entry's path;
    [before] is the catalog it worked on.  A name that no other process changes was,
    when it was checked, what it is in [w]: the file had the content the entry was
    registered for, and a companion that was there is one that may be replaced. *)
Record published (key : bytes) (w w' : World) (before : Db) (f : CatalogFile) (doc : bytes) : Prop := {
  pub_entry : require json_parse key before = Ok f;
  pub_pending : metadataPending f = true;
  pub_content : undisturbed W (location d (file_path f)) →
    ∃ n, fs w !! location d (file_path f) = Some n ∧ node_kind n = Regular ∧
      version (physical (node_stat n)) = contentVersion f;
  pub_previous : undisturbed W (sidecar (location d (file_path f))) →
    ∀ n, fs w !! sidecar (location d (file_path f)) = Some n →
    ∃ text previous, node_reads n = Some text ∧
      companion_of real_cast json_parse text = Ok previous ∧ may_replace real_cast previous f key before = Ok tt;
  pub_document : document f before = Ok doc ∧ len doc <= maximumMetadataBytes;
  pub_written : ∃ t, fs w' !! sidecar (location d (file_path f)) =
    Some (new_node W t (sidecar (location d (file_path f))) doc);
  pub_others : ∀ q, undisturbed W q → q ≠ sidecar (location d (file_path f)) →
    (∀ nonce, q ≠ slash (parent_of (location d (file_path f))) (lit ".iifile-stage-" ++ nonce)) →
    fs w' !! q = fs w !! q;
  pub_catalog : db w' = set_pending (filter (λ r, r.1 ≠ file_index f) (db_pending before)) before
}.

(** The check of a companion that is there. *)
Lemma previous_ok target key f w fs0 w1 u w2 : look W w = (Ok fs0, w1) →
  (if (exists_node target fs0 : bool)
   then previous <- companion real_cast json_parse W target ; query (may_replace real_cast previous f key)
   else ret tt) w1 = (Ok u, w2) →
  kept W w w2 ∧
  (undisturbed W target → ∀ n, fs w !! target = Some n → ∃ text previous, node_reads n = Some text ∧
     companion_of real_cast json_parse text = Ok previous ∧ may_replace real_cast previous f key (db w) = Ok tt).
Proof.
  intros Hl E. pose proof (kept_run _ _ _ _ _ (kept_look _) Hl) as K1. destruct (exists_node target fs0) eqn:Ex.
  - apply and_then_ok in E as (j & w3 & Hc & Hm). apply catalog_query_ok in Hm as [Hm ->].
    pose proof (kept_run _ _ _ _ _ (kept_companion real_cast json_parse _ _) Hc) as K2.
    assert (kept W w w3) as K by by etrans. split; [done|]. intros Ha n Hn.
    apply companion_shows in Hc as (n' & text & Hn' & Ht & Hj); [|done].
    destruct K1 as [_ F1], K as [D _]. rewrite F1, Hn in Hn' by done. injection Hn' as <-.
    exists text, j. destruct u. by rewrite D in Hm.
  - apply ret_ok in E as [_ <-]. split; [done|]. intros Ha n Hn. exfalso.
    pose proof (look_shows _ _ Ha _ _ _ Hl) as Hs. unfold exists_node in Ex. apply bool_decide_eq_false in Ex.
    apply Ex. rewrite Hs, Hn. by eexists.
Qed.

Lemma publish_ok key w b w' : publish real_cast json_parse W d key w = (Ok b, w') →
  ∃ t f, let before := writers W t (db w) in
  if b then ∃ doc, published key w w' before f doc
  else require json_parse key before = Ok f ∧ metadataPending f = false ∧ db w' = before ∧
    ∀ q, undisturbed W q → fs w' !! q = fs w !! q.
Proof.
  unfold publish. intros E. apply and_then_ok in E as (u & w0 & Hwr & E).
  apply (kept_run _ _ _ _ _ (kept_writable _ _)) in Hwr as [D0 F0].
  apply committed_at in E as (w1 & w2 & Hb & Hd1 & E & Hdb & Hfs). rewrite D0 in Hd1.
  assert (∀ q, undisturbed W q → fs w1 !! q = fs w !! q) as F1.
  { intros q Hq. rewrite <-F0 by done. apply and_then_ok in Hb as (u1 & w9 & Hr & Hb).
    injection Hr as _ <-. unfold attempt in Hb. by injection Hb as _ <-. }
  apply and_then_ok in E as (f & w3 & Hq & E). apply catalog_query_ok in Hq as [Hf ->].
  exists (tick w0), f. cbv zeta. rewrite <-Hd1. destruct (metadataPending f) eqn:Hpend; cbn [negb] in E.
  2: { apply ret_ok in E as [<- <-]. split_and!; try done. intros q Hq. rewrite Hfs. by apply F1. }
  apply and_then_ok in E as (file & w4 & Hfile & E). pose proof (path_ok _ _ _ _ _ _ _ Hfile) as ->.
  pose proof (kept_run _ _ _ _ _ (kept_path _ _ _) Hfile) as K4.
  apply and_then_ok in E as (p & w5 & Hp & E).
  pose proof (kept_run _ _ _ _ _ (kept_inspect _ _ _) Hp) as K5.
  apply and_then_ok in E as (u1 & w6 & Hg & E). apply guard_ok in Hg as [Hv <-]. apply bool_decide_eq_true in Hv.
  cbv zeta in E. apply and_then_ok in E as (seen & w6 & Hl & E). apply and_then_ok in E as (u2 & w7 & Hprev & E).
  destruct (previous_ok _ _ _ _ _ _ _ _ Hl Hprev) as [K7 Hprevious].
  assert (kept W w1 w5) as K15 by (etrans; [exact K4|exact K5]).
  assert (kept W w1 w7) as [D7 F7] by (etrans; [exact K15|exact K7]).
  destruct K4 as [D4 F4], K15 as [D5 F5].
  apply and_then_ok in E as (doc & w8 & Hq & E). apply catalog_query_ok in Hq as [Hdoc ->].
  apply and_then_ok in E as (u3 & w8 & Hg & E). apply guard_ok in Hg as [Hlen <-]. apply negb_true_iff, Z.ltb_ge in Hlen.
  apply and_then_ok in E as (nonce & w8 & Hk & E). pose proof Hk as Hk'. apply newKey_ok in Hk as [D8 ->].
  assert (fs w8 = fs w7) as F8 by by injection Hk' as <-.
  apply and_then_ok in E as (u4 & w9 & Hst & E). pose proof Hst as Hst'.
  apply staged_ok in Hst as (w10 & w11 & D10 & Hbody & D9 & F9).
  apply and_then_ok in Hbody as (u5 & w12 & Hws & Hps). apply quiet_run in Hws; [|apply quiet_write_staged].
  apply publish_stage_ok in Hps as [D11 [t Hnode]].
  apply and_then_ok in E as (u6 & w13 & Hx & E). apply ret_ok in E as [<- <-]. injection Hx as _ <-.
  cbn [put_db fs db] in *. exists doc. split; try done.
  - intros Ha. apply inspect_shows in Hp as (n & Hn & Hkind & ->); [|done]. rewrite F4, F1 in Hn by done. by exists n.
  - intros Ha n Hn. rewrite <-D5. apply Hprevious; [done|]. by rewrite F5, F1.
  - by rewrite <-D7.
  - exists t. rewrite Hfs, F9, lookup_delete_ne; [done|].
    apply sidecar_not_staged; [apply hex_bytes|]. intros Hnil. apply (f_equal length) in Hnil.
    unfold app in Hnil. by rewrite hex_length, sixteen in Hnil.
  - intros q Hq Hside Hstage. rewrite Hfs, (stage_kept _ _ _ _ _ _ _ _ _ Hq (Hstage _) Hside Hst'), F8, F7 by done.
    by apply F1.
  - rewrite Hdb. congruence.
Qed.
End publication.
