(* ===== verification/CatalogProperties.v ===== *)
(** What the catalog promises, over every history of its operations, with other
    processes committing to the same catalog in between. *)
From stdpp Require Import relations list.
From S2P Require Import Prelude Text Paths Unicode CoreText Json JsonObject JsonParser Sha256 MetadataCodec Table Proc.
From S2P Require Import CatalogData CatalogLaws CatalogTables CatalogStore CatalogOpen.
From S2P Require Import CatalogInvariant CatalogSteps CatalogReach CatalogHistory CatalogReading CatalogCompanion.
Local Open Scope Z_scope.

Lemma rolled_back {A} W (p : proc World A) w m w' : transaction W p w = (Err m, w') →
  db w' = writers W (tick w) (db w).
Proof.
  unfold transaction. intros E. apply and_then_err in E as [E|(u & w1 & Hb & E)].
  - apply and_then_err in E as [E|(u & w1 & Hr & E)]; [done|]. injection Hr as _ <-. by injection E as _ <-.
  - apply and_then_ok in Hb as (u1 & w2 & Hr & Hb). injection Hr as _ <-. injection Hb as _ <-.
    unfold scoped in E. match type of E with context [match ?r with _ => _ end] => destruct r as [[a|e] w3] end; [done|].
    by injection E as _ <-.
Qed.

Section properties.
Context `{CatalogUnicodeLaws} (real_cast : bytes → Z) (json_parse : bytes → option json).
Context (parse_dump : ∀ j d, json_ok j = true → dump j = Ok d → json_parse d = Some j).
Context (fts_match : FtsRow → bytes → bool) (W : Outside) (canonical : nat → bytes → result string bytes).
Context (peers : ∀ t db, wf_but None db → wf_but None (writers W t db)).
Context (sixteen : ∀ t, length (random_bytes W t) = 16%nat).

(** C11 However opening, the operations and their failures interleave, and whatever
    consistent changes other processes commit, the catalog stays well formed: keys,
    paths, file identities and names are unique, rows are numbered in order, every
    classification is canonical, the index tables, the search table and the
    memberships say what it says, memberships name collections that exist, saved
    filters are canonical, what is pending is a file, and the limits hold. *)
Theorem catalog_invariant w : reachable real_cast json_parse fts_match W canonical w → wf_but None (db w).
Proof. by apply reachable_catalog_inv. Qed.

(** C25 Every row of a reachable catalog is typed: it decodes to an entry that lookup
    finds by its key and by its path, whose annotations are a fixed point of
    normalization, whose key is a persistent key and whose path is a managed path, and
    a search can show it. *)
Theorem entries_are_typed w id row : reachable real_cast json_parse fts_match W canonical w → (id, row) ∈ db_files (db w) →
  ∃ e s, entry json_parse id row (db w) = Ok e ∧ summary (db w) id row = Ok s ∧
    require json_parse (row_key row) (db w) = Ok e ∧ find json_parse (row_path row) true (db w) = Ok (Some e) ∧
    normalizeMetadata (file_metadata e) = Ok (file_metadata e) ∧ persistent_key (file_key e) = true ∧
    relativePath (file_path e) false = Ok (file_path e) ∧ 0 <= file_size e ∧ 0 < file_revision e <= INT64_MAX.
Proof.
  intros Hw%reachable_catalog_inv Hin; [|done..]. destruct (entry_ok json_parse parse_dump (db w) id row Hw Hin) as (m & Hm & E).
  eexists _, _. split; [exact E|]. split; [exact (summary_ok _ _ _ _ Hm)|].
  destruct (wf_rows _ _ Hw _ Hin) as [Hkey Hpath Hsize Hrev]. cbn [snd] in *.
  split_and!; try done; cbn [file_metadata file_key file_path file_size file_revision].
  - unfold require. rewrite (persistent_fixed _ Hkey). cbn [mbind result_bind]. unfold find. cbv iota.
    rewrite (by_key_in _ _ _ _ Hw Hin). cbn [entry_of mbind result_bind]. by rewrite E.
  - unfold find. cbv iota. rewrite (by_path_in _ _ _ _ Hw Hin). cbn [entry_of mbind result_bind]. by rewrite E.
  - apply normal_normalize, (ann_full _ _ _ _ Hm).
  - apply Hrev.
  - apply Hrev.
Qed.

(** C24 A registration of a well-formed catalog leaves it well formed and answers with
    the entry of what was registered: at the managed path, with the given annotations
    in canonical form and the version of the file that is there.  A path that had an
    entry keeps its key.  If neither the content nor the annotations differ the entry
    and every row stay as they are and nothing is reported as changed; otherwise one
    of the two does differ, the entry has exactly the next revision and waits for
    publication, and every other row stays.  A batch that fails leaves no trace in the
    catalog. *)
Theorem registration_is_exact d r w : wf_but None (db w) → registration_fits r →
  (∀ f changed w', registration real_cast json_parse W d r w = (Ok (f, changed), w') →
     wf_but None (db w') ∧ registered json_parse W d r w w' f changed ∧ db_revision (db w') = db_revision (db w)) ∧
  (∀ input m w', registerFiles real_cast json_parse W d input w = (Err m, w') →
     db w' = db w ∨ ∃ t, db w' = writers W t (db w)).
Proof.
  intros Hw Hr. split; [intros f changed w' E; by apply registration_ok in E|].
  intros input m w' E. unfold registerFiles in E. apply and_then_err in E as [E|(u & w1 & Hg & E)].
  { apply guard_err in E as ->. by left. }
  apply guard_ok in Hg as [_ <-]. apply and_then_err in E as [E|(st & w1 & Hg & E)].
  { apply lift_err in E as ->. by left. }
  apply lift_ok in Hg as [_ <-]. apply and_then_err in E as [E|(u1 & w1 & Hwr & E)].
  { left. by apply (keeps_run same_db _ _ _ _ (quiet_writable W d) E). }
  right. apply rolled_back in E. rewrite E. apply quiet_run in Hwr; [|apply quiet_writable]. rewrite Hwr. by eexists.
Qed.

(** C12 Editing annotations is a compare-and-swap: the transaction commits only if the
    entry has the revision the caller saw, it then gives exactly this entry the new
    annotations and the next revision and marks it pending, leaves every other file as
    it was and moves the catalog's revision by one; afterwards no edit that expects
    the old revision succeeds. *)
Theorem edits_are_compare_and_swap d key expected m w u w' : wf_but None (db w) → metadata_normal m → 0 <= rating m →
  transaction W (update_entry json_parse W d key expected m) w = (Ok u, w') →
  let before := writers W (tick w) (db w) in
  wf_but None (db w') ∧ db_revision (db w') = db_revision before + 1 ∧
  ∃ e f, require json_parse key before = Ok e ∧ file_revision e = expected ∧ edited json_parse e m before (db w') f ∧
    ∀ w2 m2 u2 w3, db w2 = db w' → update_entry json_parse W d key expected m2 w2 ≠ (Ok u2, w3).
Proof.
  intros Hw Hm Hr E. apply committed_ok in E as (w1 & w2 & Hd1 & E & Hd2 & _). cbv zeta. rewrite <-Hd1.
  assert (inv w1) as Hw1 by (unfold inv; rewrite Hd1; by apply peers).
  destruct (update_entry_ok json_parse parse_dump W d _ _ _ _ _ _ Hw1 Hm Hr E) as (Hw2 & Hrev & e & f & Hq & He & Hf).
  rewrite Hd2. split; [done|]. split; [done|]. exists e, f. split_and!; [done..|].
  intros w3 m2 u2 w4 Hd3 E2. apply and_then_ok in E2 as (g & w5 & Hg & E2). apply catalog_query_ok in Hg as [Hg ->].
  apply and_then_ok in E2 as (u3 & w6 & Hgr & _). apply guard_ok in Hgr as [Hgr _]. apply Z.eqb_eq in Hgr.
  rewrite Hd3, ?Hd2 in Hg. apply require_entry in Hg as (Hge & k & Hk & Hgk). apply require_entry in Hq as (_ & k' & Hk' & Hek).
  rewrite Hk in Hk'. injection Hk' as <-. destruct Hf as [F1 F2 F3 F4 F5 F6 F7 F8].
  assert (g = f) as -> by (apply (entry_unique json_parse (db w2)); [done..|congruence]). lia.
Qed.

(** C13 A search shows exactly the files whose classification meets the filter: from
    the first page and following the cursors, with any page size, it ends and gives
    the summary of each such file once, in the order of the index; a cursor of another
    catalog, another filter or an earlier revision is refused. *)
Theorem search_is_exact d f signature limit fuel db first : wf_but None db → 0 < limit →
  search_page fts_match d f signature None limit db = Ok first → (length (db_files db) < fuel)%nat →
  ∃ e xs, expression_of f = Ok e ∧ search_all fts_match d f signature limit fuel None db = Ok xs ∧
    StronglySorted Z.lt (summary_index <$> xs) ∧
    (∀ x, x ∈ xs ↔ ∃ id row en, (id, row) ∈ db_files db ∧ entry json_parse id row db = Ok en ∧ summary db id row = Ok x ∧
       fits_filter fts_match f e (file_path en) (file_size en) (file_metadata en)) ∧
    (∀ c, valid_cursor d c (db_revision db) signature = false → is_ok (search_page fts_match d f signature (Some c) limit db) = false).
Proof.
  intros Hw Hl Hfirst Hfuel. assert (∃ e, expression_of f = Ok e) as [e He].
  { unfold search_page in Hfirst. cbv zeta in Hfirst. apply bind_ok in Hfirst as (u & _ & Hfirst).
    apply bind_ok in Hfirst as (e & He & _). by exists e. }
  exists e, (summarize db <$> selected_rows fts_match f e 0 db). split; [done|].
  assert (ordered (selected_rows fts_match f e 0 db)) as Ho by apply ordered_filter, (wf_files _ _ Hw).
  split_and!.
  - apply search_all_rows; try done. eapply Nat.le_lt_trans; [apply length_filter|done].
  - rewrite <-list_fmap_compose. exact Ho.
  - intros x. rewrite list_elem_of_fmap. split.
    + intros ([id row] & -> & [[_ Hs] Hin]%list_elem_of_filter). cbn [fst snd] in Hs.
      destruct (entry_ok json_parse parse_dump db id row Hw Hin) as (m & Hm & E). eexists id, row, _.
      split_and!; [done|exact E|by apply (summarize_ok db (id, row))|].
      apply (selects_fits fts_match _ _ _ _ f e Hm). by apply Is_true_true.
    + intros (id & row & en & Hin & E & Hx & Hm). exists (id, row).
      pose proof (summarize_ok db (id, row) Hw Hin) as Hx'. cbn [fst snd] in Hx'. split; [congruence|].
      apply list_elem_of_filter. split; [|done]. split; [apply (wf_ids _ _ Hw _ Hin)|].
      destruct (entry_ok json_parse parse_dump db id row Hw Hin) as (m & Hma & E'). rewrite E' in E. injection E as <-.
      by apply Is_true_true, (selects_fits fts_match _ _ _ _ f e Hma).
  - intros c Hc. unfold search_page. by rewrite Hc.
Qed.

(** C14 A publication that reports success has checked and written what it should.
    The file at the entry's path had the version the entry was registered for, and a
    companion that stood beside it could be read and is one this entry may replace
    (both are what is in the file system at the start, where no other process changes
    these names); the companion now holds, as a whole, the document of the entry, no
    other name but the stage has changed, and only the entry's pending mark is gone
    from the catalog.  The document is read back as the same key, revision and
    annotations, and restoring it changes nothing.  A publication that reports that
    there was nothing to do had no pending entry and has changed nothing. *)
Theorem publication_is_faithful d key w b w' : wf_but None (db w) →
  publish real_cast json_parse W d key w = (Ok b, w') →
  ∃ t f, let before := writers W t (db w) in
  if b then
    wf_but None (db w') ∧ row_lookup (file_index f) (db_pending (db w')) = None ∧
    ∃ doc j, published real_cast json_parse W d key w w' before f doc ∧
      companion_of real_cast json_parse doc = Ok j ∧ companion_key j = Ok (file_key f) ∧
      companion_revision real_cast j = Ok (file_revision f) ∧ companion_metadata j = Ok (file_metadata f) ∧
      restoreCollections j (file_metadata f) before = Ok (file_metadata f, before)
  else
    require json_parse key before = Ok f ∧ metadataPending f = false ∧ db w' = before ∧
    ∀ q, undisturbed W q → fs w' !! q = fs w !! q.
Proof.
  intros Hw E. destruct (publish_ok real_cast json_parse W d sixteen key w b w' E) as (t & f & Hp).
  exists t, f. cbv zeta in *. destruct b; [|done]. destruct Hp as [doc Hp]. pose proof Hp as [Hq _ _ _ [Hdoc _] _ _ Hdb].
  assert (wf_but None (writers W t (db w))) as Hwb by by apply peers.
  apply require_entry in Hq as [He _]. rewrite Hdb. split_and!.
  - apply wf_set_pending; [done| |].
    + by apply ordered_filter, (wf_pending _ _ Hwb).
    + intros r [_ Hr]%list_elem_of_filter. by apply (wf_pending _ _ Hwb).
  - cbn. destruct (row_lookup _ _) as [x|] eqn:El; [|done]. by apply row_lookup_Some_in, list_elem_of_filter in El as [? _].
  - eexists doc, _. split; [exact Hp|]. apply (document_again real_cast json_parse parse_dump _ f doc Hwb He Hdoc).
Qed.

(** C26 Classifications and filters have one canonical form: normalization is
    idempotent, and what it gives is written as a document that is read back as the
    same classification or filter. *)
Theorem classifications_are_canonical :
  (∀ m m' doc, 0 <= rating m → normalizeMetadata m = Ok m' → dump (metadataJson m') = Ok doc →
     normalizeMetadata m' = Ok m' ∧ (j ← parse_json json_parse doc; parseMetadata j) = Ok m') ∧
  (∀ f f' doc, filter_fits f → normalizeFilter f = Ok f' → dump (filterJson f') = Ok doc →
     normalizeFilter f' = Ok f' ∧ parseFilter real_cast json_parse doc = Ok f').
Proof.
  split.
  - intros m m' doc Hr E Hdoc. apply normalize_normal in E as Hm. split; [by apply normal_normalize|].
    unfold parse_json. rewrite (parse_dump _ _ (metadata_json_ok m' Hm) Hdoc). cbn [of_option mbind result_bind].
    apply metadata_again; [done|]. by rewrite (normalize_rating _ _ E).
  - intros f f' doc Hf E Hdoc. apply normalize_filter_normal in E as Hn. split; [by apply filter_normal_normalize|].
    apply filter_again; try done. by eapply normalize_filter_fits.
Qed.

(** C27 Exactly the relative paths are managed whose names are all portable and none of
    the provider's own: a managed path is the sequence of its parts, no part is empty,
    a dot or two dots, so that it stays below the root, and the companion of a file is
    never a managed file itself. *)
Theorem managed_paths_are_exact text :
  (∀ r, relativePath text false = Ok r ↔
     r = text ∧ is_ok (normalized text 4096 false true) = true ∧ has_byte NUL text = false ∧
     Forall managed_name (split_slashes text) ∧ hidden_suffix text = false) ∧
  (∀ r, relativePath text false = Ok r → path_names text = split_slashes text ∧ Forall plain_name (path_names text)) ∧
  (∀ r, relativePath (text ++ companionSuffix) false ≠ Ok r).
Proof.
  split_and!; [intros r; apply relativePath_ok| |apply companion_unmanaged].
  intros r E. assert (Forall plain_name (path_names text) ∧ lexically_normal text = text) as [Hn Hc].
  { unfold relativePath in E. apply bind_ok in E as (t & _ & E). rewrite andb_false_r in E.
    apply bind_ok in E as (u & _ & E). apply bind_ok in E as (u2 & Hl & E). apply bind_ok in E as (u3 & Hn & E).
    apply check_ok, bool_decide_eq_true in Hl. split; [|done]. apply for_each_ok in Hn.
    eapply Forall_impl; [exact Hn|]. intros p [Hp _]%check_name_ok. by apply managed_plain. }
  split; [by apply canonical_parts|done].
Qed.
End properties.
