(* ===== verification/CatalogExamples.v ===== *)
(** A concrete catalog: a directory with two photographs is opened, one of them is
    registered with annotations, searched, edited and published, and a filter is
    saved.  The theorems about the catalog are applied to it, so that their hypotheses
    are seen to hold of a run of the code. *)
From stdpp Require Import list relations.
From S2P Require Import Prelude Text Paths Unicode CoreText UnicodePlain Json JsonObject JsonParser MetadataCodec.
From S2P Require Import Sha256 Table Proc CatalogData CatalogLaws CatalogTables CatalogStore CatalogOpen.
From S2P Require Import CatalogInvariant CatalogSteps CatalogReach CatalogHistory CatalogReading CatalogCompanion.
From S2P Require Import CatalogProperties.
Local Open Scope Z_scope.

Definition latin_word (c : Z) : bool :=
  ((48 <=? c) && (c <=? 57)) || ((65 <=? c) && (c <=? 90)) || ((97 <=? c) && (c <=? 122)).

#[export] Instance plain_catalog_unicode : CatalogUnicode := {|
  utf8proc_casefold s := if is_ok (scalars s) then Some (tolower <$> s) else None;
  utf8proc_word := latin_word
|}.

Definition fold_point (c : Z) : Z := if (65 <=? c) && (c <=? 90) then c + 32 else c.

Lemma tolower_high c : 128 <= byteZ c → tolower c = c.
Proof. by destruct c as [[] [] [] [] [] [] [] []]. Qed.

Lemma tolower_low c : 0 <= c < 128 → tolower (Zbyte c) = Zbyte (fold_point c).
Proof.
  intros Hc. assert (∀ n, (n < 128)%nat → tolower (Zbyte (Z.of_nat n)) = Zbyte (fold_point (Z.of_nat n))) as Hn.
  { intros n Hn. do 128 (destruct n as [|n]; [reflexivity|]). lia. }
  rewrite <-(Z2Nat.id c) by lia. apply Hn. lia.
Qed.

Lemma fold_scalar c : scalar c = true → scalar (fold_point c) = true.
Proof. unfold scalar, fold_point. destruct ((65 <=? c) && (c <=? 90)) eqn:E; [lia|done]. Qed.

Lemma fold_utf8 points : Forall scalar points → tolower <$> utf8 points = utf8 (fold_point <$> points).
Proof.
  induction 1 as [|c points Hc _ IH]; [done|]. rewrite fmap_cons, !utf8_cons, fmap_app, IH. f_equal. clear IH.
  apply Is_true_true in Hc. unfold scalar in Hc. destruct (Z.ltb_spec c 128).
  - rewrite (proj2 (encode_point1 c ltac:(lia))).
    assert (0 <= fold_point c < 128) as Hf by (unfold fold_point; destruct ((65 <=? c) && (c <=? 90)) eqn:E; lia).
    rewrite (proj2 (encode_point1 (fold_point c) ltac:(lia))). cbn. f_equal. apply tolower_low. lia.
  - assert (fold_point c = c) as -> by (unfold fold_point; destruct ((65 <=? c) && (c <=? 90)) eqn:E; lia).
    pose proof (encode_high c ltac:(done) ltac:(done)) as Hh. induction Hh as [|b l Hb _ IH]; [done|].
    rewrite fmap_cons, IH. f_equal. by apply tolower_high.
Qed.

Lemma tolower_twice c : tolower (tolower c) = tolower c.
Proof. by destruct c as [[] [] [] [] [] [] [] []]. Qed.
Lemma tolower_nul c : tolower c = NUL → c = NUL.
Proof. by destruct c as [[] [] [] [] [] [] [] []]. Qed.
Lemma tolower_blank c : blank (tolower c) = blank c.
Proof. by destruct c as [[] [] [] [] [] [] [] []]. Qed.

Lemma casefold_spec s t : utf8proc_casefold s = Some t ↔ is_ok (scalars s) = true ∧ t = tolower <$> s.
Proof. cbn. destruct (is_ok (scalars s)); naive_solver. Qed.

Lemma folded_text s : is_ok (scalars s) = true → ∃ points, Forall scalar points ∧ tolower <$> s = utf8 points.
Proof.
  destruct (scalars s) as [points|] eqn:E; [|done]. intros _. apply scalars_inv in E as [Hp ->].
  exists (fold_point <$> points). split; [|by apply fold_utf8]. apply Forall_fmap. eapply Forall_impl; [exact Hp|].
  intros c Hc. by apply Is_true_true, fold_scalar, Is_true_true.
Qed.

Lemma folded_ok s : is_ok (scalars s) = true → is_ok (scalars (tolower <$> s)) = true.
Proof. intros (points & Hp & ->)%folded_text. by rewrite scalars_utf8. Qed.

#[export] Instance plain_catalog_unicode_laws : CatalogUnicodeLaws.
Proof.
  split.
  - intros k s t. cbn. destruct (is_ok (scalars s)); [by intros [= ->]|done].
  - intros s t [Hs ->]%casefold_spec. by apply folded_text.
  - intros s t [Hs ->]%casefold_spec. cbn. by rewrite folded_ok.
  - intros s t [Hs ->]%casefold_spec. apply casefold_spec. split; [by apply folded_ok|].
    rewrite <-list_fmap_compose. apply list_fmap_ext. intros _ c _. symmetry. apply tolower_twice.
  - intros s t [Hs ->]%casefold_spec. unfold has_byte. rewrite !bool_decide_eq_false.
    intros Hn (c & E & Hc)%list_elem_of_fmap. symmetry in E. apply tolower_nul in E as ->. done.
  - intros s t [Hs ->]%casefold_spec. rewrite !forallb_forall. intros Hb c Hc. rewrite <-tolower_blank. apply Hb.
    by apply in_map.
  - intros s Hs. apply casefold_spec. by rewrite scalars_ascii.
  - done.
Qed.

(** ** The outside *)

Definition no_real (_ : bytes) : Z := 0.

Definition stat (ino size : Z) : NodeStat :=
  {| node_dev := 1; node_ino := ino; node_size := size; mtime_sec := 7; mtime_nsec := 0; ctime_sec := 7; ctime_nsec := 0 |}.

(** The companion that is published below, and its size. *)
Definition companion1 : bytes := lit "/box/a.jpg.iisacc.json".
Definition companion1_size : Z := 283.

(** Nothing else happens, and every call succeeds. *)
Definition calm : Outside :=
  {| others := λ _ f, f; writers := λ _ db, db; permits := λ _, true;
     random_bytes := λ t, replicate 16 (Zbyte (Z.of_nat t)); os_stat := λ t p, stat (100 + Z.of_nat t) (if bool_decide (p = companion1) then companion1_size else 0) |}.

Definition as_it_is (_ : nat) (p : bytes) : result string bytes := Ok p.

(** The full-text index finds nothing. *)
Definition no_match (_ : FtsRow) (_ : bytes) : bool := false.

Definition folder (ino : Z) : Node := {| node_kind := Directory; node_stat := stat ino 0; node_reads := None |}.
Definition file_of (ino : Z) (s : bytes) : Node :=
  {| node_kind := Regular; node_stat := stat ino (len s); node_reads := Some s |}.

Definition box0 : World :=
  {| tick := 0; db := blank_db;
     fs := <[lit "/box" := folder 1]> (<[lit "/box/a.jpg" := file_of 2 (lit "pixels")]> ∅) |}.

Definition result_of {A} (a : A) (r : result string A * World) : A := match r.1 with Ok x => x | Err _ => a end.

Definition nowhere : Impl :=
  {| root := []; rootIdentity := []; stateIdentity := []; databaseIdentity := []; catalogId := []; readOnly := true |}.

Definition opened := open calm as_it_is (lit "/box") Create box0.
Definition box : Impl := Eval vm_compute in result_of nowhere opened.
Definition box1 : World := opened.2.

Example box_opens : opened.1 = Ok box.
Proof. by vm_compute. Qed.

Definition dawn : FileMetadata :=
  {| title := lit "Dawn"; description := lit "the sea"; keywords := [lit "Sea"]; rating := 4; color := Blue;
     fields := [(lit "place", lit "Brest")]; collections := [] |}.

Definition photo : FileRegistration := {| registered_path := lit "a.jpg"; registered_metadata := Some dawn |}.

Definition box2 : World := (registerFiles no_real json_parse calm box [photo] box1).2.

Definition nothing : Z * FileRow :=
  (0, {| row_key := []; row_path := []; row_identity := []; row_size := 0; row_modified := 0; row_stamp := [];
         row_revision := 0; row_rating := 0; row_color := 0; row_title := []; row_metadata := [] |}).
Definition row1 : Z * FileRow := Eval vm_compute in default nothing (head (db_files (db box2))).
Definition key1 : bytes := row_key row1.2.

(** ** Its history *)

Lemma calm_peers t d : wf_but None d → wf_but None (writers calm t d).
Proof. done. Qed.

Lemma calm_sixteen t : length (random_bytes calm t) = 16%nat.
Proof. apply length_replicate. Qed.

Lemma photo_fits : registration_fits photo.
Proof. by vm_compute. Qed.

Lemma box1_reachable : reachable no_real json_parse no_match calm as_it_is box1.
Proof. exists box0. split; [done|]. apply rtc_once, step_open. Qed.

Lemma box2_reachable : reachable no_real json_parse no_match calm as_it_is box2.
Proof.
  exists box0. split; [done|]. apply (rtc_l _ _ box1); [apply step_open|]. apply rtc_once.
  assert (box2 = (run no_real json_parse no_match calm box (RegisterFiles [photo]) box1).2) as ->.
  { cbn [run]. unfold forget, and_then, box2. by destruct (registerFiles _ _ _ _ _ _) as [[|] ?]. }
  apply step_run. constructor; [apply photo_fits|constructor].
Qed.

Lemma box1_wf : wf_but None (db box1).
Proof. exact (reachable_catalog_inv no_real json_parse json_parse_dump no_match calm as_it_is calm_peers calm_sixteen box1 box1_reachable). Qed.

Lemma box2_wf : wf_but None (db box2).
Proof. exact (reachable_catalog_inv no_real json_parse json_parse_dump no_match calm as_it_is calm_peers calm_sixteen box2 box2_reachable). Qed.

Lemma row1_in : row1 ∈ db_files (db box2).
Proof. assert (db_files (db box2) = [row1]) as -> by by vm_compute. by left. Qed.

(** ** The theorems on the example *)

Lemma catalog_invariant_witness : wf_but None (db box2).
Proof.
  exact (catalog_invariant no_real json_parse json_parse_dump no_match calm as_it_is calm_peers calm_sixteen box2 box2_reachable).
Defined.

Lemma entries_are_typed_witness : ∃ e, entry json_parse row1.1 row1.2 (db box2) = Ok e ∧
  normalizeMetadata (file_metadata e) = Ok (file_metadata e).
Proof.
  destruct (entries_are_typed no_real json_parse json_parse_dump no_match calm as_it_is calm_peers calm_sixteen
    box2 row1.1 row1.2 box2_reachable row1_in) as (e & s & E & _ & _ & _ & Hm & _).
  exists e. by split.
Defined.

Definition registered1 := registration no_real json_parse calm box photo box1.

(** Registering the same file again changes nothing. *)
Definition registered2 := registration no_real json_parse calm box photo box2.

Example registered_again : match registered2 with (Ok (f, changed), _) => (file_key f, changed) = (key1, false) | _ => False end.
Proof. by vm_compute. Qed.

Lemma registration_is_exact_witness :
  (∃ f changed w', registered1 = (Ok (f, changed), w') ∧ file_path f = lit "a.jpg" ∧
     normalizeMetadata dawn = Ok (file_metadata f)) ∧
  ∃ e f changed w', registered2 = (Ok (f, changed), w') ∧ find json_parse (lit "a.jpg") true (db box2) = Ok (Some e) ∧
    if changed then file_revision f = file_revision e + 1 else f = e.
Proof.
  split.
  - destruct registered1 as [[[f changed]|m] w'] eqn:E; [|by vm_compute in E].
    destruct (registration_is_exact no_real json_parse json_parse_dump calm calm_sixteen box photo box1 box1_wf photo_fits)
      as [Hok _].
    destruct (Hok f changed w' E) as (_ & Hf & _). exists f, changed, w'.
    destruct Hf as [_ Hpath Hmeta _ _ _ _]. split; [done|]. split; [exact Hpath|by apply Hmeta].
  - destruct registered2 as [[[f changed]|m] w'] eqn:E; [|by vm_compute in E].
    destruct (registration_is_exact no_real json_parse json_parse_dump calm calm_sixteen box photo box2 box2_wf photo_fits)
      as [Hok _].
    destruct (Hok f changed w' E) as (_ & Hf & _).
    destruct (find json_parse (lit "a.jpg") true (db box2)) as [[e|]|] eqn:Ef; [|by vm_compute in Ef..].
    exists e, f, changed, w'. split; [done|]. split; [done|].
    destruct Hf as [_ _ _ _ Hagain _ _]. destruct (Hagain e Ef) as [_ Hc]. destruct changed; [apply Hc|exact Hc].
Defined.

Definition dusk : FileMetadata :=
  {| title := lit "Dusk"; description := []; keywords := [lit "Sea"; lit "night"]; rating := 5; color := Purple;
     fields := []; collections := [] |}.

Lemma dusk_normal : metadata_normal dusk.
Proof. apply (normalize_normal dusk dusk). by vm_compute. Qed.

Definition edited1 := transaction calm (update_entry json_parse calm box key1 1 dusk) box2.

Lemma edits_are_compare_and_swap_witness : edited1.1 = Ok tt ∧
  ∃ e f, require json_parse key1 (db box2) = Ok e ∧ edited json_parse e dusk (db box2) (db edited1.2) f.
Proof.
  assert (edited1.1 = Ok tt) as E by by vm_compute. split; [exact E|].
  assert (edited1 = (Ok tt, edited1.2)) as E2 by (rewrite <-E; apply surjective_pairing).
  destruct (edits_are_compare_and_swap json_parse json_parse_dump calm calm_peers box key1 1 dusk box2 tt edited1.2
    box2_wf dusk_normal ltac:(by vm_compute) E2) as (_ & _ & e & f & He & _ & Hf & _).
  cbn [writers calm] in He, Hf. exists e, f. split; [exact He|exact Hf].
Defined.

(** The blue photographs of the sea with three stars or more. *)
Definition sea : FileFilter :=
  {| filter_text := []; pathPrefix := []; allKeywords := [lit "sea"]; anyKeywords := []; colors := [Blue];
     filter_collections := []; minimumRating := Some 3; maximumRating := None; minimumSize := None; maximumSize := None;
     filter_fields := [(lit "place", lit "Brest")] |}.

Definition sea_page : FilePage := Eval vm_compute in
  match search_page no_match box sea [] None 1 (db box2) with Ok p => p | Err _ => {| page_files := []; next := None |} end.

Example sea_found : summary_key <$> page_files sea_page = [key1].
Proof. by vm_compute. Qed.

Lemma search_is_exact_witness : ∃ xs, search_all no_match box sea [] 1 2 None (db box2) = Ok xs ∧ length xs = 1%nat.
Proof.
  destruct (search_is_exact json_parse json_parse_dump no_match box sea [] 1 2 (db box2) sea_page box2_wf)
    as (e & xs & _ & Hxs & _).
  - reflexivity.
  - by vm_compute.
  - vm_compute. lia.
  - exists xs. split; [exact Hxs|]. vm_compute in Hxs. by injection Hxs as <-.
Defined.

Definition published1 := publish no_real json_parse calm box key1 box2.

Lemma calm_undisturbed p : undisturbed calm p.
Proof. done. Qed.

(** Edited once more and published over its own companion; a companion of another
    file is not replaced. *)
Definition edited2 := transaction calm (update_entry json_parse calm box key1 1 dusk) published1.2.
Definition published2 := publish no_real json_parse calm box key1 edited2.2.

Example published_twice : published1.1 = Ok true ∧ edited2.1 = Ok tt ∧ published2.1 = Ok true ∧
  is_Some (fs edited2.2 !! companion1).
Proof. split_and!; [by vm_compute..|]. vm_compute. by eexists. Qed.

Example foreign_companion_is_kept :
  let alien := file_of 9 (lit "{}") in
  let w := put_fs (<[companion1 := alien]> (fs box2)) box2 in
  let p := publish no_real json_parse calm box key1 w in
  is_ok p.1 = false ∧ fs p.2 !! companion1 = Some alien.
Proof. by vm_compute. Qed.

Lemma edited2_wf : wf_but None (db edited2.2).
Proof.
  assert (wf_but None (db published1.2)) as Hw.
  { apply (publish_safe no_real json_parse calm box calm_peers key1 box2 box2_wf). }
  refine (safe_transaction calm calm_peers _ _ published1.2 Hw). intros w u w' Hinv E.
  apply (update_entry_ok json_parse json_parse_dump) in E as [? _]; [done..|apply dusk_normal|by vm_compute].
Qed.

Lemma publication_is_faithful_witness : published2.1 = Ok true ∧ ∃ f doc,
  published no_real json_parse calm box key1 edited2.2 published2.2 (db edited2.2) f doc ∧
  location box (file_path f) = lit "/box/a.jpg" ∧
  ∃ n text previous, fs edited2.2 !! companion1 = Some n ∧ node_reads n = Some text ∧
    companion_of no_real json_parse text = Ok previous ∧
    may_replace no_real previous f key1 (db edited2.2) = Ok tt.
Proof.
  assert (published2.1 = Ok true) as E by apply published_twice. split; [exact E|].
  assert (published2 = (Ok true, published2.2)) as E2 by (rewrite <-E; apply surjective_pairing).
  destruct (publication_is_faithful no_real json_parse json_parse_dump calm calm_peers calm_sixteen box key1 edited2.2 true
    published2.2 edited2_wf E2) as (t & f & _ & _ & doc & j & Hp & _).
  cbn [writers calm] in Hp. exists f, doc. split; [exact Hp|]. destruct Hp as [Hf _ _ Hprev _ _ _ _].
  assert (file_path f = lit "a.jpg") as Hpath.
  { destruct (require json_parse key1 (db edited2.2)) as [g|] eqn:Eg; [|done]. injection Hf as <-.
    vm_compute in Eg. injection Eg as <-. by vm_compute. }
  rewrite Hpath in *. assert (location box (lit "a.jpg") = lit "/box/a.jpg") as Hl by by vm_compute.
  rewrite Hl in Hprev. split; [exact Hl|]. destruct published_twice as (_ & _ & _ & [n Hn]).
  destruct (Hprev (calm_undisturbed _) n Hn) as (text & previous & Hx). exists n, text, previous. by split.
Defined.

Lemma classifications_are_canonical_witness : ∃ m doc, normalizeMetadata dawn = Ok m ∧ dump (metadataJson m) = Ok doc ∧
  (j ← parse_json json_parse doc; parseMetadata j) = Ok m.
Proof.
  destruct (classifications_are_canonical no_real json_parse json_parse_dump) as [Hm _].
  destruct (normalizeMetadata dawn) as [m|] eqn:E; [|by vm_compute in E].
  destruct (dump (metadataJson m)) as [doc|] eqn:Ed.
  - destruct (Hm dawn m doc ltac:(by vm_compute) E Ed) as [_ Hread]. by exists m, doc.
  - exfalso. vm_compute in E. injection E as <-. by vm_compute in Ed.
Defined.
