(* ===== verification/NativeFiles.v ===== *)
(** The native file operations (src/Native/src/Core/File.cpp: [ReadFile], [File],
    [StagedFile]; src/Native/src/Filesystem/AtomicSave.cpp and AtomicPublication.cpp:
    [publishFile], [AtomicSave]), as their POSIX branches have them.

    The disk maps paths to nodes.  Each system call is one step: first others may have
    changed the disk ([others]), then the call is refused ([permits]) or takes effect
    on the disk as it is at that moment; the change is put in the log together with the
    disk it found.  A file is known under one spelling of its path.  A write may be cut short ([written]); what is read from an open file
    is what it holds then ([in_place]).  [SourceAccess], which orders the readers and
    writers of one process, the temporary lease and the presentation component do not
    change a file that an operation names; a lease can be refused. *)
From S2P Require Import Prelude Text Paths MetadataCodec TemporaryLease Proc.
Local Open Scope Z_scope.
Local Open Scope proc_scope.

(** ** Errors and results *)

Inductive FileCode := IoFailure | LimitExceeded | AlreadyExists | Conflict | InvalidPath.

#[export] Instance FileCode_eq_dec : EqDecision FileCode.
Proof. solve_decision. Defined.

(** [FileError] has a code, other exceptions have none. *)
Record Exception := { code : option FileCode; what : string }.

Definition file_error (c : FileCode) (message : string) : Exception := {| code := Some c; what := message |}.
Definition io_failure : string → Exception := file_error IoFailure.
Definition system_error (message : string) : Exception := {| code := None; what := message |}.

Record PublishResult := { succeeded : bool; diagnosticSuffix : string; message : string }.

Definition published_ok : PublishResult := {| succeeded := true; diagnosticSuffix := ""; message := "" |}.
Definition refused (suffix text : string) : PublishResult := {| succeeded := false; diagnosticSuffix := suffix; message := text |}.

(** ** The disk *)

Inductive Kind := Regular | Directory | Symlink | Special.

#[export] Instance Kind_eq_dec : EqDecision Kind.
Proof. solve_decision. Defined.

(** [content] of a link is its target. *)
Record Node := { kind : Kind; content : bytes; mode : Z }.

Abbreviation Disk := (gmap bytes Node).

Inductive Change :=
  | Made (path : bytes) (n : Node)                 (* a directory, or an empty file *)
  | Wrote (path : bytes) (n : Node)                (* in place *)
  | Moded (path : bytes) (m : Z)
  | Moved (source destination : bytes) (n : Node)  (* [rename] *)
  | Linked (source destination : bytes) (n : Node) (* [link] *)
  | Removed (path : bytes).

Definition apply (c : Change) (d : Disk) : Disk :=
  match c with
  | Made p n | Wrote p n => <[p := n]> d
  | Moded p m => alter (λ n, {| kind := kind n; content := content n; mode := m |}) p d
  | Moved s t n => <[t := n]> (delete s d)
  | Linked s t n => <[t := n]> d
  | Removed p => delete p d
  end.

Record Site := { tick : nat; disk : Disk; log : list (Disk * Change) }.

Record System := {
  others : nat → Disk → Disk;
  permits : nat → bool;
  written : nat → bytes → nat;
  in_place : nat → bytes → bytes;
  nonces : nat → bytes;
  weakly_canonical : nat → bytes → result string bytes;
  cwd : bytes;
  umask : Z
}.

Abbreviation io := (fallible Site Exception).

Section files.
Context (W : System).

(** A look at the disk. *)
Definition look : io Disk := λ w,
  let d := others W (tick w) (disk w) in (Ok d, {| tick := S (tick w); disk := d; log := log w |}).

(** A call that takes effect on the disk it finds, or fails there; nothing may have to
    be done. *)
Definition call (denied : Exception) (f : Disk → result Exception (option Change)) : io unit := λ w,
  let d := others W (tick w) (disk w) in
  let still := {| tick := S (tick w); disk := d; log := log w |} in
  if negb (permits W (tick w)) then (Err denied, still) else
  match f d with
  | Err e => (Err e, still)
  | Ok None => (Ok tt, still)
  | Ok (Some c) => (Ok tt, {| tick := S (tick w); disk := apply c d; log := log w ++ [(d, c)] |})
  end.

(** A call that changes no file that is modelled. *)
Definition attempt (denied : Exception) : io unit := call denied (λ _, Ok None).

(** A status that throws what it cannot find out, and a lock on the file. *)
Definition status : io Disk := attempt (system_error "cannot get status") ;; look.
Definition access : io unit := attempt (system_error "source access").

(** Whether a call succeeds whose error is dropped. *)
Definition succeeds (p : io unit) : io bool := catch (p ;; ret true) (λ _, ret false).

Definition at_tick {A} (f : nat → A) : io A := λ w, (Ok (f (tick w)), w).

(** ** Paths *)

Definition absolute (path : bytes) : bytes :=
  if bool_decide (head path = Some "/"%char) then path else slash (cwd W) path.

Definition named (path : bytes) : bool :=
  negb (bool_decide (path = []) || bool_decide (filename path = []) || has_byte NUL path).

Definition checkedPath (path : bytes) : result Exception bytes :=
  _ ← check (named path) (file_error InvalidPath "A nonempty output filename without NUL is required");
  Ok (absolute path).

Definition parentOf (path : bytes) : bytes :=
  if bool_decide (parent_path path = []) then cwd W else parent_path path.

Definition lstat (path : bytes) (d : Disk) : option Kind := kind <$> d !! path.
Definition is_kind (k : Kind) (path : bytes) (d : Disk) : bool := bool_decide (lstat path d = Some k).
Definition exists_ (path : bytes) (d : Disk) : bool := bool_decide (is_Some (d !! path)).

(** [stat]: where the links lead, if there are not too many. *)
Fixpoint follow (links : nat) (d : Disk) (path : bytes) : option Node :=
  match d !! path with
  | Some n =>
      if bool_decide (kind n = Symlink) then
        match links with
        | S links =>
            follow links d (if bool_decide (head (content n) = Some "/"%char) then content n
                            else slash (parent_path path) (content n))
        | O => None
        end
      else Some n
  | None => None
  end.
Definition stat (d : Disk) (path : bytes) : option Node := follow 40 d path.

(** ** Directories *)

(** The last name of a new entry: a path that ends in a slash, or in a dot name, is that
    of a directory. *)
Definition nameable (path : bytes) : bool :=
  negb (bool_decide (filename path = []) || bool_decide (filename path = lit ".") || bool_decide (filename path = lit "..")).

(** The paths of the directories on the way, the first one below the root first; names of
    dots are passed over. *)
Definition prefixes (path : bytes) : list bytes :=
  filter nameable
    (((λ n, take n path) <$> filter (λ n, byte_at path n = "/"%char) (seq 1 (length path - 1))) ++ [path]).

Definition new_directory : Node := {| kind := Directory; content := []; mode := Z.ldiff 511 (umask W) |}.

Definition make_directory (path : bytes) : io unit :=
  call (io_failure "Cannot create directory") (λ d,
    match d !! path with
    | None => Ok (Some (Made path new_directory))
    | Some _ => if bool_decide (kind <$> stat d path = Some Directory) then Ok None
                else Err (io_failure "Cannot create directory")
    end).

Fixpoint each {A} (f : A → io unit) (l : list A) : io unit :=
  match l with [] => ret tt | x :: l => f x ;; each f l end.

Definition createDirectories (path : bytes) : io unit :=
  if bool_decide (path = []) then ret tt else each make_directory (prefixes path).

(** ** Staged files *)

Definition new_file (m : Z) : Node := {| kind := Regular; content := []; mode := Z.ldiff m (umask W) |}.

(** [open] with [O_CREAT | O_EXCL]. *)
Definition create_exclusive (path : bytes) (m : Z) : io unit :=
  call (io_failure "Open file") (λ d,
    if (exists_ path d : bool) then Err (file_error AlreadyExists "Open file") else Ok (Some (Made path (new_file m)))).

Definition reserve (path : bytes) : io bool := succeeds (create_exclusive path 438).

Definition stage_prefix : bytes := lit ".iifile-stage-".
Definition lease_unavailable : Exception := system_error "temporary lease unavailable".

(** [TemporaryLease] in shared mode. *)
Definition lease (directory : bytes) : io unit :=
  (match validate directory with Ok _ => ret tt | Err m => throw (system_error m) end) ;;
  attempt lease_unavailable.

Fixpoint reserve_stage (attempts : nat) (parent extension : bytes) : io bytes :=
  match attempts with
  | O => throw (io_failure "Cannot reserve a native staged file")
  | S attempts =>
      nonce <- at_tick (nonces W) ;
      let path := slash parent (stage_prefix ++ nonce ++ extension) in
      done <- reserve path ;
      if (done : bool) then ret path else reserve_stage attempts parent extension
  end.

(** The constructor of [StagedFile]. *)
Definition new_stage (destination : bytes) : io bytes :=
  guard (named destination) (io_failure "A nonempty output filename without NUL is required") ;;
  let target := absolute destination in
  let parent := parentOf target in
  createDirectories parent ;;
  lease parent ;;
  reserve_stage 128 parent (extension target).

Definition remove_call (path : bytes) : io unit :=
  call (io_failure "Cannot remove file") (λ d, Ok (if (exists_ path d : bool) then Some (Removed path) else None)).

(** [std::filesystem::remove] with its error ignored. *)
Definition discard (path : bytes) : io unit := catch (remove_call path) (λ _, ret tt).

(** The scope of a [StagedFile]; [body] also says whether it was published. *)
Definition with_stage {A} (destination : bytes) (body : bytes → io (A * bool)) : io A :=
  stage <- new_stage destination ;
  λ w, match body stage w with
       | (Ok (a, true), w') => (Ok a, w')
       | (Ok (a, false), w') => (Ok a, (discard stage w').2)
       | (Err e, w') => (Err e, (discard stage w').2)
       end.

(** A write to the regular file at a path; what is unlinked is written to no path. *)
Definition put (path bytes : bytes) (d : Disk) : option Change :=
  n ← d !! path; Some (Wrote path {| kind := kind n; content := bytes; mode := mode n |}).

(** [std::ofstream] with [trunc]. *)
Definition open_truncated (path : bytes) : io unit :=
  call (io_failure "Cannot open staged output") (λ d,
    match lstat path d with
    | None => Ok (Some (Made path (new_file 438)))
    | Some Regular => Ok (put path [] d)
    | Some _ => Err (io_failure "Cannot open staged output")
    end).

Definition writeStaged (path bytes : bytes) : io unit :=
  open_truncated path ;;
  guard (len bytes <=? INT64_MAX) (file_error LimitExceeded "Output exceeds stream limits") ;;
  n <- at_tick (λ t, written W t bytes) ;
  call (io_failure "Cannot write staged output") (λ d, Ok (put path (take n bytes) d)) ;;
  guard (length bytes <=? n)%nat (io_failure "Cannot write staged output") ;;
  attempt (io_failure "Cannot close staged output").

(** ** Publication *)

(** [rename] replaces what is not a directory. *)
Definition rename (source destination : bytes) (d : Disk) : result Exception (option Change) :=
  match d !! source with
  | None => Err (io_failure "No such file or directory")
  | Some n =>
      if negb (nameable destination) || is_kind Directory destination d then Err (io_failure "Is a directory") else
      if bool_decide (source = destination) then Ok None else Ok (Some (Moved source destination n))
  end.

Definition chmod (path : bytes) (m : Z) : io unit :=
  call (system_error "cannot set permissions") (λ d,
    if (exists_ path d : bool) then Ok (Some (Moded path m)) else Err (system_error "cannot set permissions")).

Definition canonical (path : bytes) : io bytes :=
  attempt (system_error "weakly_canonical") ;;
  r <- at_tick (λ t, weakly_canonical W t path) ;
  match r with Ok p => ret p | Err e => throw (system_error e) end.

Definition publish (temporary destination : bytes) : io PublishResult :=
  catch (
    a <- canonical (parentOf temporary) ;
    b <- canonical (parentOf destination) ;
    if negb (bool_decide (a = b)) then
      ret (refused "cross_directory" "Staged files must be published in their original directory") else
    d <- status ;
    if negb (is_kind Regular temporary d) then
      ret (refused "invalid_staging" "Staging input is not a regular file") else
    d <- status ;
    if is_kind Symlink destination d || is_kind Directory destination d then
      ret (refused "invalid_destination" "Cannot replace a symlink or directory") else
    (match d !! destination with Some n => chmod temporary (mode n) | None => ret tt end) ;;
    done <- succeeds (call (io_failure "rename") (rename temporary destination)) ;
    ret (if (done : bool) then published_ok else refused "rename_failed" "rename"))
  (λ e, ret (refused "commit_failed" (what e))).

Definition write (destination bytes : bytes) : io unit :=
  with_stage destination (λ stage,
    writeStaged stage bytes ;;
    r <- publish stage (absolute destination) ;
    guard (succeeded r) (io_failure (message r)) ;;
    ret (tt, true)).

(** [link] never replaces. *)
Definition link (source destination : bytes) (d : Disk) : result Exception (option Change) :=
  match d !! source with
  | None => Err (io_failure "Exclusive file publication failed")
  | Some n =>
      if negb (nameable destination) then Err (io_failure "Exclusive file publication failed") else
      if (exists_ destination d : bool) then Err (file_error AlreadyExists "Exclusive file publication failed")
      else Ok (Some (Linked source destination n))
  end.

Definition create (destination bytes : bytes) : io unit :=
  target <- lift (checkedPath destination) ;
  with_stage target (λ stage,
    writeStaged stage bytes ;;
    call (io_failure "Exclusive file publication failed") (link stage target) ;;
    discard stage ;;
    ret (tt, false)).
(** ** Reading *)

(** [ReadFile]: the file as it was opened, the size seen before, the position, and
    whether the stream met the end. *)
Record ReadFile := { opened : Node; size : Z; pos : Z; ended : bool }.

Definition openRead (path : bytes) : io ReadFile :=
  target <- lift (checkedPath path) ;
  access ;;
  attempt (io_failure "Cannot inspect input file") ;;
  d <- look ;
  n <- lift (of_option (io_failure "Cannot inspect input file") (stat d target)) ;
  guard (bool_decide (kind n = Regular)) (io_failure "Cannot inspect input file") ;;
  attempt (io_failure "Cannot open input file") ;;
  d <- look ;
  o <- lift (of_option (io_failure "Cannot open input file") (stat d target)) ;
  ret {| opened := o; size := len (content n); pos := 0; ended := false |}.

(** [read(count)] of an open file: the bytes and the file after it. *)
Definition read_some (f : ReadFile) (count : Z) : io (bytes * ReadFile) :=
  guard (0 <=? count) (io_failure "Invalid input read length") ;;
  attempt (io_failure "Input file read failed") ;;
  now <- at_tick (λ t, in_place W t (content (opened f))) ;
  let data := if ended f then [] else take (Z.to_nat count) (drop (Z.to_nat (pos f)) now) in
  ret (data, {| opened := opened f; size := size f; pos := pos f + len data; ended := ended f || (len data <? count) |}).

(** [seek]: whether the position is one a stream has. *)
Definition seek (f : ReadFile) (offset : Z) : io (bool * ReadFile) :=
  if INT64_MAX <? offset then ret (false, f) else
  done <- succeeds (attempt (io_failure "seek")) ;
  ret (done, {| opened := opened f; size := size f; pos := if (done : bool) then offset else pos f; ended := negb done |}).

Definition read (path : bytes) (maximum : Z) : io bytes :=
  input <- openRead path ;
  guard (negb ((maximum <? size input) || (INT64_MAX <? size input)))
    (file_error LimitExceeded "Input file exceeds the configured byte limit") ;;
  r <- read_some input (size input) ;
  guard (len r.1 =? size input) (io_failure "Input file changed or ended during reading") ;;
  ret r.1.

Definition update (destination expected replacement : bytes) : io unit :=
  target <- lift (checkedPath destination) ;
  attempt (io_failure "Cannot inspect update target") ;;
  d <- look ;
  guard (exists_ target d) (file_error Conflict "Update destination was removed") ;;
  guard (is_kind Regular target d) (file_error Conflict "Update destination must be a regular file") ;;
  let maximum := if len expected =? UINT64_MAX then UINT64_MAX else len expected + 1 in
  catch (found <- read target maximum ;
         guard (bool_decide (found = expected)) (file_error Conflict "File changed before update"))
    (λ e, if bool_decide (code e = Some LimitExceeded)
          then throw (file_error Conflict "File size changed before update") else throw e) ;;
  write target replacement.

(** ** [publishFile] *)

(** [atomic_detail::checked]. *)
Definition checked (path : bytes) : result Exception bytes :=
  _ ← check (named path) (file_error InvalidPath "A local filename without NUL is required");
  Ok (root_normal (absolute path)).

(** [newPermissions]: a probe shows what the mask leaves of the mode. *)
Definition newPermissions (stage : bytes) : io Z :=
  let probe := stage ++ lit ".permission-probe" in
  catch (create_exclusive probe 438) (λ _, throw (io_failure "Cannot reserve permission probe")) ;;
  d <- look ;
  shown <- succeeds (attempt (io_failure "fstat")) ;
  removed <- succeeds (remove_call probe) ;
  closed <- succeeds (attempt (io_failure "close")) ;
  guard (shown && removed && closed) (io_failure "Cannot inspect/retire permission probe") ;;
  ret (Z.ldiff 438 (umask W)).

(** [renameat2] with [RENAME_NOREPLACE]. *)
Definition rename_exclusive (source destination : bytes) (d : Disk) : result Exception (option Change) :=
  match d !! source with
  | None => Err (io_failure "No such file or directory")
  | Some n =>
      if negb (nameable destination) then Err (io_failure "Is a directory") else
      if (exists_ destination d : bool) then Err (file_error AlreadyExists "File exists")
      else Ok (Some (Moved source destination n))
  end.

Definition moveFile (source destination : bytes) (overwrite : bool) : io unit :=
  call (io_failure "rename") (if overwrite then rename source destination else rename_exclusive source destination).

Definition publishFile (stageName destinationName : bytes) (overwrite : bool) (permissions : option Z) : io PublishResult :=
  catch (
    stage <- lift (checked stageName) ;
    destination <- lift (checked destinationName) ;
    d <- status ;
    if bool_decide (stage = destination) || negb (is_kind Regular stage d) then
      ret (refused "invalid_source" "Publication requires a distinct regular staged file") else
    shown <- succeeds (attempt (io_failure "lstat")) ;
    if negb shown then ret (refused "destination_status_failed" "lstat") else
    d <- look ;
    if exists_ destination d && negb (is_kind Regular destination d) then
      ret (refused "invalid_path" "Destination must be a regular file, not a link or directory") else
    if negb overwrite && exists_ destination d then ret (refused "already_exists" "Destination already exists") else
    (if (exists_ destination d : bool) then access else ret tt) ;;
    m <- (match permissions, d !! destination with
          | Some m, _ => ret m
          | None, Some n => ret (mode n)
          | None, None => newPermissions stage
          end) ;
    allowed <- succeeds (chmod stage m) ;
    if negb allowed then ret (refused "temporary_permissions_failed" "chmod") else
    catch (moveFile stage destination overwrite ;; ret published_ok)
      (λ e, ret (refused (if bool_decide (code e = Some AlreadyExists) then "already_exists" else "atomic_commit_failed")
                   (what e))))
  (λ e, ret (refused "atomic_commit_failed" (what e))).
End files.
