(* ===== verification/NativeSave.v ===== *)
(** [AtomicSave] (src/Native/src/Filesystem/AtomicSave.cpp) with what it uses of [Device]
    (src/Native/src/Filesystem/Device.cpp): an output is written to a staged file and
    takes the place of its destination in one step, or not at all. *)
From S2P Require Import Prelude Text Paths Proc NativeFiles.
Local Open Scope Z_scope.
Local Open Scope proc_scope.

(** [AtomicSave::Impl]; [output] and [broken] are the device's. *)
Record Save := {
  output : bool;
  broken : bool;
  destination : bytes;
  stage : bytes;
  permissions : option Z;
  cancelled : bool;
  committed : bool
}.

Definition new_save : Save :=
  {| output := false; broken := false; destination := []; stage := []; permissions := None;
     cancelled := false; committed := false |}.

Definition set_output (o b : bool) (s : Save) : Save :=
  {| output := o; broken := b; destination := destination s; stage := stage s; permissions := permissions s;
     cancelled := cancelled s; committed := committed s |}.
Definition set_target (d : bytes) (s : Save) : Save :=
  {| output := output s; broken := broken s; destination := d; stage := stage s; permissions := None;
     cancelled := false; committed := false |}.
Definition set_stage (p : bytes) (s : Save) : Save :=
  {| output := output s; broken := broken s; destination := destination s; stage := p; permissions := permissions s;
     cancelled := cancelled s; committed := committed s |}.
Definition set_permissions (m : Z) (s : Save) : Save :=
  {| output := output s; broken := broken s; destination := destination s; stage := stage s; permissions := Some m;
     cancelled := cancelled s; committed := committed s |}.
Definition set_cancelled (s : Save) : Save :=
  {| output := output s; broken := broken s; destination := destination s; stage := stage s;
     permissions := permissions s; cancelled := true; committed := committed s |}.
Definition set_committed (s : Save) : Save :=
  {| output := output s; broken := broken s; destination := destination s; stage := []; permissions := permissions s;
     cancelled := cancelled s; committed := true |}.

Abbreviation save_io := (fallible (Site * Save) Exception).

Section save.
Context (W : System).

Definition on_site {A} (p : io A) : save_io A := λ ws, let '(r, w) := p ws.1 in (r, (w, ws.2)).
Definition save : save_io Save := λ ws, (Ok ws.2, ws).
Definition change (f : Save → Save) : save_io unit := λ ws, (Ok tt, (ws.1, f ws.2)).

(** ** The device *)

(** [Device::close]: the descriptor is gone even if the call fails. *)
Definition close_output : save_io unit :=
  s <- save ;
  if negb (output s) then ret tt else
  closed <- on_site (succeeds (attempt W (io_failure "Close file"))) ;
  change (set_output false (broken s || negb closed)) ;;
  guard closed (io_failure "Close file").

(** [Device::write]: what is not written breaks the device. *)
Definition append (path bytes : bytes) (d : Disk) : option Change :=
  n ← d !! path; Some (Wrote path {| kind := kind n; content := content n ++ bytes; mode := mode n |}).

Definition write_output (data : bytes) : save_io unit :=
  s <- save ;
  if negb (output s) then change (set_output false true) ;; throw (io_failure "Invalid write") else
  if bool_decide (data = []) then ret tt else
  n <- on_site (at_tick (λ t, written W t data)) ;
  done <- on_site (succeeds (call W (io_failure "Write file") (λ d, Ok (append (stage s) (take n data) d)))) ;
  if negb (done && (length data <=? n)%nat)
  then change (set_output true true) ;; throw (io_failure "Write file") else ret tt.

(** [flush(true)]. *)
Definition sync_output : save_io unit :=
  synced <- on_site (succeeds (attempt W (io_failure "Sync file"))) ;
  if (synced : bool) then ret tt else
  s <- save ; change (set_output (output s) true) ;; throw (io_failure "Sync file").

(** ** [AtomicSave] *)

(** [Impl::discard] and the destructor. *)
Definition discard_save : save_io unit :=
  catch close_output (λ _, ret tt) ;;
  s <- save ;
  if bool_decide (stage s = []) then ret tt else
  on_site (discard W (stage s)) ;; change (set_stage []).

Definition token : bytes := lit "XXXXXX".

(** The last occurrence of the token gives way to the nonce. *)
Definition fill (pattern nonce : bytes) : bytes :=
  match last (filter (λ i, starts_with token (drop i pattern)) (seq 0 (length pattern))) with
  | Some i => take i pattern ++ nonce ++ drop (i + 6) pattern
  | None => pattern ++ lit "." ++ nonce
  end.

(** [Device::openTemporary]. *)
Fixpoint open_temporary (attempts : nat) (pattern : bytes) : io bytes :=
  match attempts with
  | O => throw (io_failure "Cannot reserve a temporary file")
  | S attempts =>
      nonce <- at_tick (nonces W) ;
      let name := fill pattern nonce in
      reserved <- catch (create_exclusive W name 384 ;; attempt W (io_failure "Inspect descriptor") ;; ret true)
                    (λ e, if bool_decide (code e = Some AlreadyExists) then ret false else throw e) ;
      if (reserved : bool) then ret name else open_temporary attempts pattern
  end.

Definition open_save (name : bytes) : save_io unit :=
  s <- save ;
  guard (negb (output s)) (io_failure "Atomic output is already open") ;;
  discard_save ;;
  target <- lift (checked W name) ;
  change (set_target target) ;;
  let parent := parent_path target in
  on_site (
    d <- status W ;
    guard (bool_decide (kind <$> stat d parent = Some Directory)) (file_error InvalidPath "Atomic output parent does not exist") ;;
    d <- status W ;
    guard (negb (exists_ target d) || is_kind Regular target d) (file_error InvalidPath "Atomic output must be a regular file") ;;
    attempt W (system_error "canonical") ;;
    attempt W lease_unavailable) ;;
  catch (name <- on_site (open_temporary 128 (slash parent (stage_prefix ++ token) ++ extension target)) ;
         change (set_output true false) ;;
         change (set_stage name))
    (λ e, discard_save ;; throw e).

Definition setPermissions (m : Z) : save_io bool :=
  s <- save ;
  if negb (output s) then ret false else
  on_site (call W (io_failure "Set permissions") (λ d, Ok (if (exists_ (stage s) d : bool) then Some (Moded (stage s) (Z.land m 511)) else None))) ;;
  change (set_permissions m) ;;
  ret true.

Definition cancel : save_io unit := change set_cancelled ;; discard_save.

Definition commit (overwrite : bool) : save_io PublishResult :=
  s <- save ;
  if committed s then ret (refused "already_published" "Atomic output was already published") else
  if cancelled s || negb (output s) || broken s then
    discard_save ;; ret (refused "cancelled_or_failed" "Atomic output was cancelled, closed or failed") else
  catch (
    sync_output ;;
    close_output ;;
    r <- on_site (publishFile W (stage s) (destination s) overwrite (permissions s)) ;
    (if succeeded r then change set_committed else discard_save) ;;
    ret r)
  (λ e, discard_save ;; ret (refused "write_failed" (what e))).
End save.
