(* ===== verification/NativeLaws.v ===== *)
(** What the native file operations do to a destination: it is changed at most once, in
    one step, to the complete content, and exactly if the operation succeeds. *)
From stdpp Require Import relations list.
From S2P Require Import Prelude Text Paths MetadataCodec TemporaryLease Proc NativeFiles.
Local Open Scope Z_scope.
Local Open Scope proc_scope.

(** ** What a change concerns *)

Definition touches (p : bytes) (c : Change) : Prop :=
  match c with
  | Made q _ | Wrote q _ | Moded q _ | Removed q => q = p
  | Moved s t _ => s = p ∨ t = p
  | Linked _ t _ => t = p
  end.

#[export] Instance touches_dec p c : Decision (touches p c).
Proof. destruct c; cbn; apply _. Defined.

Lemma apply_other p c d : ¬ touches p c → apply c d !! p = d !! p.
Proof.
  destruct c as [q n|q n|q m|s t n|s t n|q]; cbn; intros Hp.
  - by rewrite lookup_insert_ne.
  - by rewrite lookup_insert_ne.
  - by rewrite lookup_alter_ne.
  - rewrite lookup_insert_ne, lookup_delete_ne by naive_solver. done.
  - by rewrite lookup_insert_ne.
  - by rewrite lookup_delete_ne.
Qed.

(** Changes that leave a path alone. *)
Definition untouched (p : bytes) (l : list (Disk * Change)) : Prop := Forall (λ e, ¬ touches p e.2) l.

(** What an operation did is appended to the log. *)
Definition spares (p : bytes) (w w' : Site) : Prop := ∃ l, log w' = log w ++ l ∧ untouched p l.

#[export] Instance spares_preorder p : PreOrder (spares p).
Proof.
  split.
  - intros w. exists []. split; [by rewrite app_nil_r|constructor].
  - intros w1 w2 w3 (l1 & E1 & H1) (l2 & E2 & H2). exists (l1 ++ l2). rewrite E2, E1, <-app_assoc.
    split; [done|by apply Forall_app].
Qed.

(** A path that holds a regular file with these bytes. *)
Definition holds (p b : bytes) (w : Site) : Prop := ∃ n, disk w !! p = Some n ∧ kind n = Regular ∧ content n = b.

(** What [p] holds, it goes on holding. *)
Definition preserves (p : bytes) (w w' : Site) : Prop := ∀ b, holds p b w → holds p b w'.

#[export] Instance preserves_preorder p : PreOrder (preserves p).
Proof. split; [by intros w b|]. intros w1 w2 w3 H1 H2 b Hb. by apply H2, H1. Qed.

(** ** Steps *)

Section laws.
Context (W : System).

(** Others leave the staged files of a lease alone. *)
Definition stage_name (p : bytes) : Prop := starts_with stage_prefix (filename p) = true.
Context (private : ∀ t d p, stage_name p → others W t d !! p = d !! p).
Context (nonces_plain : ∀ t, no_slash (nonces W t)).

Lemma look_spares p : keeps (spares p) (look W).
Proof. intros w. exists []. cbn. split; [by rewrite app_nil_r|constructor]. Qed.

Lemma look_preserves p : stage_name p → keeps (preserves p) (look W).
Proof. intros Hp w b (n & Hn & ?). exists n. cbn. by rewrite private. Qed.

Lemma at_tick_same {A} (R : Site → Site → Prop) `{!PreOrder R} (f : nat → A) : keeps R (at_tick f).
Proof. intros w. cbn. reflexivity. Qed.

Lemma call_spares p e f : (∀ d c, f d = Ok (Some c) → ¬ touches p c) → keeps (spares p) (call W e f).
Proof.
  intros Hf w. unfold call. destruct (negb _); [by apply (look_spares p w)|].
  destruct (f _) as [[c|]|] eqn:E; [|by apply (look_spares p w)..].
  eexists. cbn. split; [done|]. repeat constructor. by eapply Hf.
Qed.

Lemma call_preserves p e f : stage_name p → (∀ d c, f d = Ok (Some c) → ¬ touches p c ∨
    ∀ n, d !! p = Some n → ∃ n', apply c d !! p = Some n' ∧ kind n' = kind n ∧ content n' = content n) →
  keeps (preserves p) (call W e f).
Proof.
  intros Hp Hf w b Hb. apply (look_preserves p Hp w) in Hb. unfold call. destruct (negb _); [done|].
  destruct (f _) as [[c|]|] eqn:E; [|done..]. destruct Hb as (n & Hn & Hk & Hc). cbn in Hn.
  apply Hf in E as [Hno|Hyes].
  - exists n. cbn. by rewrite apply_other.
  - destruct (Hyes n Hn) as (n' & Hn' & Ek & Ec). exists n'. cbn. rewrite Ek, Ec. done.
Qed.

Lemma attempt_spares p e : keeps (spares p) (attempt W e).
Proof. by apply call_spares. Qed.

Lemma attempt_preserves p e : stage_name p → keeps (preserves p) (attempt W e).
Proof. intros Hp. by apply call_preserves. Qed.

Lemma status_spares p : keeps (spares p) (status W).
Proof. apply keeps_and_then; [apply _|apply attempt_spares|intros _; apply look_spares]. Qed.

Lemma status_preserves p : stage_name p → keeps (preserves p) (status W).
Proof. intros Hp. apply keeps_and_then; [apply _|by apply attempt_preserves|intros _; by apply look_preserves]. Qed.

Lemma succeeds_keeps (R : Site → Site → Prop) `{!PreOrder R} p : keeps R p → keeps R (succeeds p).
Proof.
  intros Hp. unfold succeeds. apply keeps_catch; [apply _| |intros; apply keeps_ret, _].
  apply keeps_and_then; [apply _|done|intros; apply keeps_ret, _].
Qed.

Lemma discard_spares p q : q ≠ p → keeps (spares p) (discard W q).
Proof.
  intros Hq. apply keeps_catch; [apply _| |intros; apply keeps_ret, _]. apply call_spares.
  intros d c. destruct (exists_ q d); [|done]. by intros [= <-].
Qed.

(** Decomposes a procedure. *)
Ltac parts tac := repeat first
  [ match goal with |- keeps _ _ => fail 1 | |- ∀ _, _ => intro end
  | tac
  | apply keeps_and_then; [apply _| |]
  | apply keeps_catch; [apply _| |]
  | apply succeeds_keeps; [apply _|]
  | apply at_tick_same, _
  | apply keeps_ret, _ | apply keeps_throw, _ | apply keeps_lift, _ | apply keeps_guard, _
  | match goal with |- keeps _ (match ?x with _ => _ end) => destruct x end ].

(** ** Staged files *)

Lemma prefixes_shorter p q : q ∈ prefixes p → (length q <= length p)%nat.
Proof.
  unfold prefixes. intros [_ Hq]%list_elem_of_filter. revert Hq. intros [(n & -> & _)%list_elem_of_fmap|Hq%list_elem_of_singleton]%elem_of_app.
  - rewrite length_take. lia.
  - by subst q.
Qed.

Lemma createDirectories_spares p q : (length q < length p)%nat → keeps (spares p) (createDirectories W q).
Proof.
  intros Hq. unfold createDirectories. destruct (bool_decide _); [apply keeps_ret, _|].
  assert (Forall (λ x, x ≠ p) (prefixes q)) as Hall.
  { apply Forall_forall. intros x Hx%prefixes_shorter ->. lia. }
  induction Hall as [|x l Hx _ IH]; cbn [each]; [apply keeps_ret, _|].
  apply keeps_and_then; [apply _| |by intros _]. apply call_spares. intros d c.
  destruct (d !! x); [by destruct (bool_decide _)|]. by intros [= <-].
Qed.

Lemma create_exclusive_spares p q m : q ≠ p → keeps (spares p) (create_exclusive W q m).
Proof. intros Hq. apply call_spares. intros d c. destruct (exists_ q d); [done|]. by intros [= <-]. Qed.

(** The name of a staged file. *)
Lemma stage_path parent nonce ext : no_slash nonce → no_slash ext →
  stage_name (slash parent (stage_prefix ++ nonce ++ ext)).
Proof.
  intros Hn He. unfold stage_name. rewrite filename_slash.
  - unfold starts_with. rewrite take_app_length. by apply bool_decide_eq_true.
  - unfold no_slash in *. rewrite !not_elem_of_app. split_and!; [|done..]. by apply (bool_decide_eq_false ("/"%char ∈ stage_prefix)).
Qed.

Lemma call_ok e f w u w' : call W e f w = (Ok u, w') →
  (f (others W (tick w) (disk w)) = Ok None ∧ disk w' = others W (tick w) (disk w) ∧ log w' = log w) ∨
  ∃ c, f (others W (tick w) (disk w)) = Ok (Some c) ∧ disk w' = apply c (others W (tick w) (disk w)) ∧
    log w' = log w ++ [(others W (tick w) (disk w), c)].
Proof.
  unfold call. destruct (negb _); [done|]. destruct (f _) as [[c|]|] eqn:E; [|intros [= _ <-]; by left|done].
  intros [= _ <-]. right. by exists c.
Qed.

Lemma succeeds_true p w w' : succeeds p w = (Ok true, w') → p w = (Ok tt, w').
Proof.
  unfold succeeds. intros [E|(m & w1 & _ & E)]%catch_ok.
  - apply and_then_ok in E as ([] & w1 & E & [_ <-]%ret_ok). done.
  - by apply ret_ok in E as [? _].
Qed.

Lemma reserve_stage_spares p n parent ext : no_slash ext → ¬ stage_name p → keeps (spares p) (reserve_stage W n parent ext).
Proof.
  intros He Hp. induction n as [|n IH]; cbn [reserve_stage]; [apply keeps_throw, _|]. intros w. unfold and_then at 1. cbn [at_tick].
  assert (keeps (spares p) (reserve W (slash parent (stage_prefix ++ nonces W (tick w) ++ ext)))) as Hk.
  { apply succeeds_keeps; [apply _|]. apply create_exclusive_spares. intros <-. by apply Hp, stage_path. }
  cbv zeta. revert w Hk. intros w Hk. apply keeps_and_then; [apply _|exact Hk|]. intros [|]; [apply keeps_ret, _|apply IH].
Qed.

Lemma reserve_stage_ok n parent ext w p w' : no_slash ext → reserve_stage W n parent ext w = (Ok p, w') →
  stage_name p ∧ holds p [] w'.
Proof.
  intros He. revert w. induction n as [|n IH]; intros w; cbn [reserve_stage]; [done|]. intros E.
  apply and_then_ok in E as (nonce & w1 & Hn & E). injection Hn as <- <-. cbv zeta in E.
  apply and_then_ok in E as (b & w1 & Hr & E). destruct b; [|by eapply IH].
  apply ret_ok in E as [<- <-]. apply succeeds_true in Hr. split; [by apply stage_path|].
  apply call_ok in Hr as [(E & _)|(c & E & Hd & _)]; destruct (exists_ _ _); try done.
  injection E as <-. exists (new_file W 438). rewrite Hd. cbn. by rewrite lookup_insert_eq.
Qed.

(** A destination: it has a name, which is not that of a staged file. *)
Record proper (destination : bytes) : Prop := {
  proper_named : named (absolute W destination) = true;
  proper_name : ¬ stage_name (absolute W destination)
}.

Lemma absolute_parent path : parent_path (absolute W path) ≠ [].
Proof.
  assert ("/"%char ∈ absolute W path) as Hin.
  { unfold absolute. destruct (bool_decide _) eqn:E.
    - apply bool_decide_eq_true in E. destruct path; [done|]. injection E as ->. by left.
    - unfold slash. destruct (ends_with _ _) eqn:E2; rewrite !elem_of_app; [|right; left; by left]. left.
      unfold ends_with in E2. apply andb_true_iff in E2 as [_ E2]. apply bool_decide_eq_true in E2.
      eapply elem_of_sublist; [|apply (sublist_drop _ (length (cwd W) - length (lit "/")))]. rewrite E2. by left. }
  unfold parent_path. destruct (find_byte _ _) as [n|] eqn:E.
  - destruct (bool_decide _) eqn:E2; [done|]. by apply bool_decide_eq_false in E2.
  - apply find_byte_None in E. rewrite Forall_forall in E.
    by specialize (E "/"%char ltac:(by rewrite elem_of_reverse)).
Qed.

Lemma proper_shorter dest : proper dest → (length (parentOf W (absolute W dest)) < length (absolute W dest))%nat.
Proof.
  intros [Hn _]. unfold parentOf. rewrite bool_decide_false by apply absolute_parent. apply parent_shorter.
  unfold named in Hn. rewrite !negb_orb, !andb_true_iff in Hn. destruct Hn as [[_ Hn] _].
  apply negb_true_iff, bool_decide_eq_false in Hn. done.
Qed.

Lemma new_stage_spares dest : proper dest → keeps (spares (absolute W dest)) (new_stage W dest).
Proof.
  intros Hp. unfold new_stage. cbv zeta. apply keeps_and_then; [apply _|apply keeps_guard, _|intros _].
  apply keeps_and_then; [apply _|by apply createDirectories_spares, proper_shorter|intros _].
  apply keeps_and_then; [apply _| |intros _].
  { apply keeps_and_then; [apply _|destruct (validate _); [apply keeps_ret, _|apply keeps_throw, _]|intros _; apply attempt_spares]. }
  apply reserve_stage_spares; [apply extension_no_slash|apply Hp].
Qed.

Lemma new_stage_ok dest w p w' : new_stage W dest w = (Ok p, w') → stage_name p ∧ holds p [] w'.
Proof.
  unfold new_stage. cbv zeta. intros E. apply and_then_ok in E as (u & w1 & _ & E).
  apply and_then_ok in E as (u2 & w2 & _ & E). apply and_then_ok in E as (u3 & w3 & _ & E).
  apply reserve_stage_ok in E; [done|apply extension_no_slash].
Qed.

(** ** Writing a staged file *)

Lemma put_touches p q b d c : put q b d = Some c → q ≠ p → ¬ touches p c.
Proof. unfold put. destruct (d !! q); [|done]. by intros [= <-]. Qed.

Lemma writeStaged_spares p q b : q ≠ p → keeps (spares p) (writeStaged W q b).
Proof.
  intros Hq. unfold writeStaged, open_truncated.
  parts ltac:(first [apply attempt_spares | apply call_spares; intros d c E]).
  - destruct (lstat q d) as [[]|]; try done; [|by injection E as <-]. injection E as E. by eapply put_touches.
  - injection E as E. by eapply put_touches.
Qed.

Lemma put_holds e p b w u w' x : stage_name p → holds p x w →
  call W e (λ d, Ok (put p b d)) w = (Ok u, w') → holds p b w'.
Proof.
  intros Hp Hx. apply (look_preserves p Hp w) in Hx as (n & Hn & Hk & _). cbn in Hn.
  intros [(E & _)|(c & E & Hd & _)]%call_ok; unfold put in E; rewrite Hn in E; [done|]. injection E as <-.
  eexists. rewrite Hd. cbn. by rewrite lookup_insert_eq.
Qed.

Lemma writeStaged_ok p b x w u w' : stage_name p → holds p x w → writeStaged W p b w = (Ok u, w') → holds p b w'.
Proof.
  intros Hp Hx. unfold writeStaged. intros E. apply and_then_ok in E as (u1 & w1 & Ho & E).
  assert (holds p [] w1) as H1.
  { pose proof (look_preserves p Hp w _ Hx) as (n & Hn & Hk & _). cbn in Hn. unfold open_truncated in Ho.
    apply call_ok in Ho as [(Ef & _)|(c & Ef & Hd & _)]; unfold lstat in Ef; rewrite Hn in Ef; cbn in Ef; rewrite Hk in Ef;
      unfold put in Ef; rewrite Hn in Ef; [done|]. injection Ef as <-. eexists. rewrite Hd. cbn. by rewrite lookup_insert_eq. }
  apply and_then_ok in E as (u2 & w2 & Hg & E). apply guard_ok in Hg as [_ <-].
  apply and_then_ok in E as (n & w2 & Hn & E). injection Hn as <- <-.
  apply and_then_ok in E as (u3 & w3 & Hput & E). apply (put_holds _ _ _ _ _ _ _ Hp H1) in Hput.
  apply and_then_ok in E as (u4 & w4 & Hg & E). apply guard_ok in Hg as [Hlen <-].
  apply Nat.leb_le in Hlen. rewrite take_ge in Hput by done.
  exact (keeps_run (preserves p) _ _ _ _ (attempt_preserves p _ Hp) E _ Hput).
Qed.

(** ** Publication *)

(** The decisive change: a staged file comes to the target in one step. *)
Definition delivers (stage target b : bytes) (c : Change) : Prop :=
  ∃ n, (c = Moved stage target n ∨ c = Linked stage target n) ∧ kind n = Regular ∧ content n = b.

(** What was done up to the decisive change, and that change. *)
Definition moves (stage target b : bytes) (ok : Disk → Prop) (w w' : Site) : Prop :=
  ∃ l d c, log w' = log w ++ l ++ [(d, c)] ∧ untouched target l ∧ delivers stage target b c ∧ ok d.

Lemma moves_after stage target b ok w w1 w2 :
  spares target w w1 → moves stage target b ok w1 w2 → moves stage target b ok w w2.
Proof.
  intros (l1 & E1 & H1) (l2 & d & c & E2 & H2 & Hn). exists (l1 ++ l2), d, c. rewrite E2, E1, <-!app_assoc.
  split_and!; try done; [by apply Forall_app|apply Hn..].
Qed.

Lemma canonical_keeps (R : Site → Site → Prop) `{!PreOrder R} p : (∀ e, keeps R (attempt W e)) → keeps R (canonical W p).
Proof. intros Ha. unfold canonical. parts ltac:(apply Ha). Qed.

Lemma chmod_spares p q m : q ≠ p → keeps (spares p) (chmod W q m).
Proof. intros Hq. apply call_spares. intros d c. destruct (exists_ q d); [|done]. by intros [= <-]. Qed.

Lemma chmod_preserves p m : stage_name p → keeps (preserves p) (chmod W p m).
Proof.
  intros Hp. apply call_preserves; [done|]. intros d c. destruct (exists_ p d); [|done]. intros [= <-]. right.
  intros n Hn. cbn. rewrite lookup_alter_eq, Hn. by eexists.
Qed.

Lemma rename_moves stage target d c : stage ≠ target → rename stage target d = Ok c →
  ∃ n, d !! stage = Some n ∧ c = Some (Moved stage target n).
Proof.
  intros Hne. unfold rename. destruct (d !! stage) as [n|]; [|done]. destruct (_ || _); [done|].
  rewrite bool_decide_false by done. intros [= <-]. by exists n.
Qed.

(** ** Runs with a decisive change at their end *)

Section outcome.
Context (stage target b : bytes) (ok : Disk → Prop) (Hs : stage_name stage) (Hne : stage ≠ target).

(** The run ends with the decisive change exactly if its result says so. *)
Definition outcome {A} (good : A → bool) (p : io A) : Prop := ∀ w r w', holds stage b w → p w = (r, w') →
  match r with
  | Ok a => if good a then moves stage target b ok w w' else spares target w w'
  | Err _ => spares target w w'
  end.

Lemma outcome_step {A B} good (p : io A) (f : A → io B) : keeps (spares target) p → keeps (preserves stage) p →
  (∀ a, outcome good (f a)) → outcome good (and_then p f).
Proof.
  intros Hp Hq Hf w r w' Hb. unfold and_then. pose proof (Hp w) as S1. pose proof (Hq w b Hb) as P1.
  destruct (p w) as [[a|e] w1]; [|by intros [= <- <-]]. intros E. specialize (Hf a _ _ _ P1 E).
  destruct r as [x|]; [destruct (good x)|]; [by eapply moves_after|by etrans..].
Qed.

Lemma outcome_lift {A B} (good : B → bool) (x : A) (f : A → io B) : outcome good (f x) → outcome good (and_then (lift (Ok x)) f).
Proof. done. Qed.

Lemma outcome_ret {A} (good : A → bool) a : good a = false → outcome good (ret a).
Proof. intros Ha w r w' _ [= <- <-]. rewrite Ha. reflexivity. Qed.

Lemma outcome_catch {A} good (p : io A) h : outcome good p → (∀ e, ∃ a, h e = ret a ∧ good a = false) →
  outcome good (catch p h).
Proof.
  intros Hp Hh w r w' Hb. unfold catch. pose proof (Hp w) as Hw. destruct (p w) as [[a|e] w1].
  - intros [= <- <-]. exact (Hw (Ok a) w1 Hb eq_refl).
  - specialize (Hw _ _ Hb eq_refl). cbn in Hw. destruct (Hh e) as (a & -> & Ha). intros [= <- <-]. by rewrite Ha.
Qed.

Lemma outcome_call {A} (good : A → bool) e f a :
  (∀ d c, f d = Ok c → ∃ n, d !! stage = Some n ∧ (c = Some (Moved stage target n) ∨ c = Some (Linked stage target n)) ∧ ok d) →
  good a = true → outcome good (call W e f ;; ret a).
Proof.
  intros Hf Ha w r w' Hb%(look_preserves stage Hs w). destruct Hb as (n & Hn & Hk & Hc). cbn in Hn. unfold and_then, call.
  assert (spares target w {| tick := S (tick w); disk := others W (tick w) (disk w); log := log w |}) as Hstill
    by apply (look_spares target w).
  destruct (negb _); [by intros [= <- <-]|]. destruct (f _) as [c|] eqn:E; [|by intros [= <- <-]].
  apply Hf in E as (n' & Hn' & E & Hok). rewrite Hn in Hn'. injection Hn' as <-.
  assert (∃ c', c = Some c' ∧ delivers stage target b c') as (c' & -> & Hd).
  { destruct E as [-> | ->]; (eexists; split; [done|]; exists n; tauto). }
  intros [= <- <-]. rewrite Ha. exists [], (others W (tick w) (disk w)), c'. by split_and!; [|constructor| |].
Qed.

(** A call whose error only decides the result. *)
Lemma outcome_succeeds {A} (good : A → bool) e f g :
  (∀ d c, f d = Ok c → ∃ n, d !! stage = Some n ∧ (c = Some (Moved stage target n) ∨ c = Some (Linked stage target n)) ∧ ok d) →
  good (g true) = true → good (g false) = false →
  outcome good (done <- succeeds (call W e f) ; ret (g done)).
Proof.
  intros Hf Ht Hff w r w' Hb. pose proof (outcome_call (λ _ : bool, true) e f true Hf eq_refl w) as H0.
  unfold succeeds, catch, and_then in *. destruct (call W e f w) as [[[]|e'] w1]; cbn in *.
  - intros [= <- <-]. rewrite Ht. exact (H0 (Ok true) w1 Hb eq_refl).
  - intros [= <- <-]. rewrite Hff. exact (H0 (Err e') w1 Hb eq_refl).
Qed.
End outcome.

Lemma publish_outcome stage target b : stage_name stage → stage ≠ target →
  outcome stage target b (λ _, True) succeeded (publish W stage target).
Proof.
  intros Hs Hne. unfold publish. apply outcome_catch; [|by intros e; eexists].
  assert (∀ p, keeps (spares target) (canonical W p)) as Hc by (intros p; apply canonical_keeps; [apply _|intros; apply attempt_spares]).
  assert (∀ p, keeps (preserves stage) (canonical W p)) as Hc' by (intros p; apply canonical_keeps; [apply _|intros; by apply attempt_preserves]).
  apply outcome_step; [done..|intros a]. apply outcome_step; [done..|intros a'].
  destruct (negb _); [by apply outcome_ret|]. apply outcome_step; [apply status_spares|by apply status_preserves|intros d1].
  destruct (negb _); [by apply outcome_ret|]. apply outcome_step; [apply status_spares|by apply status_preserves|intros d2].
  destruct (_ || _); [by apply outcome_ret|]. apply outcome_step.
  - destruct (d2 !! target); [by apply chmod_spares|apply keeps_ret, _].
  - destruct (d2 !! target); [by apply chmod_preserves|apply keeps_ret, _].
  - intros _. apply (outcome_succeeds _ _ _ _ Hs succeeded _ _
      (λ done : bool, if done then published_ok else refused "rename_failed" "rename")); [|done..].
    intros d c (n & Hn & ->)%rename_moves; [|done]. exists n. auto.
Qed.

(** ** [publishFile] *)

Lemma probe_name stage : stage_name stage → stage_name (stage ++ lit ".permission-probe").
Proof.
  unfold stage_name. intros Hs. rewrite filename_app.
  - unfold starts_with in *. apply bool_decide_eq_true in Hs. apply bool_decide_eq_true.
    rewrite take_app_le; [done|]. rewrite <-Hs at 1. rewrite length_take. lia.
  - by apply (bool_decide_eq_false ("/"%char ∈ lit ".permission-probe")).
Qed.

Lemma remove_call_spares p q : q ≠ p → keeps (spares p) (remove_call W q).
Proof. intros Hq. apply call_spares. intros d c. destruct (exists_ q d); [|done]. by intros [= <-]. Qed.

Lemma call_other_preserves p e f : stage_name p → (∀ d c, f d = Ok (Some c) → ¬ touches p c) → keeps (preserves p) (call W e f).
Proof. intros Hp Hf. apply call_preserves; [done|]. intros d c Hc. left. by eapply Hf. Qed.

Lemma newPermissions_keeps (R : Site → Site → Prop) `{!PreOrder R} stage p : stage ++ lit ".permission-probe" ≠ p →
  (∀ e f, (∀ d c, f d = Ok (Some c) → ¬ touches p c) → keeps R (call W e f)) → keeps R (look W) →
  keeps R (newPermissions W stage).
Proof.
  intros Hne Hc Hl. unfold newPermissions.
  parts ltac:(first [exact Hl | apply Hc; intros d c; try (destruct (exists_ _ _); [|done]); by intros [= <-]
    | apply Hc; intros d c; try (destruct (exists_ _ _); [done|]); by intros [= <-]]).
Qed.

Lemma rename_exclusive_moves stage target d c : rename_exclusive stage target d = Ok c →
  ∃ n, d !! stage = Some n ∧ c = Some (Moved stage target n) ∧ d !! target = None.
Proof.
  unfold rename_exclusive, exists_. destruct (d !! stage) as [n|]; [|done]. destruct (negb _); [done|].
  case_bool_decide as Hn; [done|]. intros [= <-]. exists n. split_and!; [done..|]. by apply eq_None_not_Some.
Qed.

Lemma publishFile_outcome stageName destinationName overwrite permissions stage target b :
  checked W stageName = Ok stage → checked W destinationName = Ok target → stage_name stage → ¬ stage_name target →
  outcome stage target b (λ d, overwrite = false → d !! target = None) succeeded
    (publishFile W stageName destinationName overwrite permissions).
Proof.
  intros E1 E2 Hs Ht. assert (stage ≠ target) as Hne by (by intros ->). unfold publishFile. rewrite E1, E2.
  apply outcome_catch; [|by intros e; eexists].
  apply outcome_lift, outcome_lift. apply outcome_step; [apply status_spares|by apply status_preserves|intros d1].
  destruct (_ || _); [by apply outcome_ret|].
  apply outcome_step; [apply succeeds_keeps; [apply _|apply attempt_spares]|apply succeeds_keeps; [apply _|by apply attempt_preserves]|intros shown].
  destruct (negb shown); [by apply outcome_ret|]. apply outcome_step; [apply look_spares|by apply look_preserves|intros d2].
  destruct (_ && _); [by apply outcome_ret|]. destruct (_ && _); [by apply outcome_ret|].
  apply outcome_step; [destruct (exists_ _ _); [apply attempt_spares|apply keeps_ret, _]|
    destruct (exists_ _ _); [by apply attempt_preserves|apply keeps_ret, _]|intros _].
  apply outcome_step; [| |intros m].
  { destruct permissions; [apply keeps_ret, _|]. destruct (d2 !! target); [apply keeps_ret, _|].
    apply (newPermissions_keeps _ _ target); [intros E; apply Ht; rewrite <-E; by apply probe_name|intros; by apply call_spares|apply look_spares]. }
  { destruct permissions; [apply keeps_ret, _|]. destruct (d2 !! target); [apply keeps_ret, _|].
    apply (newPermissions_keeps _ _ stage); [|intros; by apply call_other_preserves|by apply look_preserves].
    intros E%(f_equal length). rewrite length_app in E. cbn in E. lia. }
  apply outcome_step; [apply succeeds_keeps; [apply _|by apply chmod_spares]|apply succeeds_keeps; [apply _|by apply chmod_preserves]|intros allowed].
  destruct (negb allowed); [by apply outcome_ret|]. apply outcome_catch; [|by intros e; eexists].
  apply (outcome_call _ _ _ _ Hs); [|done]. intros d c. destruct overwrite.
  - intros (n & Hn & ->)%rename_moves; [|done]. exists n. split_and!; [done|auto|done].
  - intros (n & Hn & -> & Hd)%rename_exclusive_moves. exists n. auto.
Qed.

(** ** Whole operations *)

(** A target is changed by one step of the run, which gives it the complete content. *)
Definition arrives (target b : bytes) (ok : Disk → Prop) (w w' : Site) : Prop :=
  ∃ l1 d c stage l2, log w' = log w ++ l1 ++ (d, c) :: l2 ∧ untouched target l1 ∧ untouched target l2 ∧
    delivers stage target b c ∧ stage_name stage ∧ ok d.

Lemma moves_arrives stage target b ok w w1 w2 : stage_name stage →
  moves stage target b ok w w1 → spares target w1 w2 → arrives target b ok w w2.
Proof.
  intros Hs (l & d & c & E & Hl & Hc & Hok) (l2 & E2 & H2). exists l, d, c, stage, l2.
  rewrite E2, E, <-!app_assoc. done.
Qed.

Lemma arrives_after target b ok w w1 w2 : spares target w w1 → arrives target b ok w1 w2 → arrives target b ok w w2.
Proof.
  intros (l0 & E0 & H0) (l1 & d & c & stage & l2 & E & H1 & H2 & Hc). exists (l0 ++ l1), d, c, stage, l2.
  rewrite E, E0, <-!app_assoc. split_and!; [done|by apply Forall_app|done|apply Hc..].
Qed.

Lemma arrives_before target b ok w w1 w2 : arrives target b ok w w1 → spares target w1 w2 → arrives target b ok w w2.
Proof.
  intros (l1 & d & c & stage & l2 & E & H1 & H2 & Hc) (l3 & E3 & H3). exists l1, d, c, stage, (l2 ++ l3).
  rewrite E3, E, <-!app_assoc. split_and!; [done|done|by apply Forall_app|apply Hc..].
Qed.

(** The result tells whether the target was changed. *)
Definition atomic {A : Type} (target b : bytes) (ok : Disk → Prop) (p : io A) : Prop := ∀ w r w', p w = (r, w') →
  match r with Ok _ => arrives target b ok w w' | Err _ => spares target w w' end.

Lemma atomic_step {A B} target b ok (p : io A) (f : A → io B) : keeps (spares target) p →
  (∀ a, atomic target b ok (f a)) → atomic target b ok (and_then p f).
Proof.
  intros Hp Hf w r w'. unfold and_then. pose proof (Hp w) as S1. destruct (p w) as [[a|e] w1]; [|by intros [= <- <-]].
  intros E%Hf. destruct r; [by eapply arrives_after|by etrans].
Qed.

Lemma with_stage_atomic {A} dest b ok (body : bytes → io (A * bool)) : proper dest →
  (∀ stage w r w', stage_name stage → stage ≠ absolute W dest → holds stage [] w → body stage w = (r, w') →
     match r with Ok _ => arrives (absolute W dest) b ok w w' | Err _ => spares (absolute W dest) w w' end) →
  atomic (absolute W dest) b ok (with_stage W dest body).
Proof.
  intros Hp Hb w r w'. unfold with_stage. unfold and_then.
  pose proof (new_stage_spares dest Hp w) as S1. destruct (new_stage W dest w) as [[stage|e] w1] eqn:E1; [|by intros [= <- <-]].
  apply new_stage_ok in E1 as [Hs Hh]. assert (stage ≠ absolute W dest) as Hne by (intros ->; by apply Hp).
  specialize (Hb stage w1). destruct (body stage w1) as [[[a []]|e] w2]; specialize (Hb _ _ Hs Hne Hh eq_refl); cbn in Hb;
    intros [= <- <-]; cbn.
  - by eapply arrives_after.
  - eapply arrives_after; [done|]. eapply arrives_before; [done|]. by apply discard_spares.
  - etrans; [done|]. etrans; [done|]. by apply discard_spares.
Qed.

Lemma write_atomic dest b : proper dest → atomic (absolute W dest) b (λ _, True) (write W dest b).
Proof.
  intros Hp. apply with_stage_atomic; [done|]. intros stage w r w' Hs Hne Hh E. unfold and_then at 1 in E.
  pose proof (writeStaged_spares (absolute W dest) stage b Hne w) as S1.
  destruct (writeStaged W stage b w) as [[u|e] w1] eqn:E1; [|by injection E as <- <-].
  eapply writeStaged_ok in E1; [|done..]. unfold and_then at 1 in E.
  pose proof (publish_outcome stage (absolute W dest) b Hs Hne w1) as Ho. cbn in S1.
  destruct (publish W stage (absolute W dest) w1) as [[p|e] w2]; specialize (Ho _ _ E1 eq_refl); cbn in Ho.
  - unfold guard, check, lift in E. destruct (succeeded p); cbn in E; injection E as <- <-; [|by etrans].
    eapply arrives_after; [done|]. by eapply moves_arrives.
  - injection E as <- <-. by etrans.
Qed.

Lemma link_moves stage target d c : link stage target d = Ok c →
  ∃ n, d !! stage = Some n ∧ c = Some (Linked stage target n) ∧ d !! target = None.
Proof.
  unfold link, exists_. destruct (d !! stage) as [n|]; [|done]. destruct (negb _); [done|]. case_bool_decide as Hn; [done|]. intros [= <-]. exists n.
  split_and!; [done..|]. by apply eq_None_not_Some.
Qed.

(** ** Exclusive creation and guarded replacement *)

Context (rooted : head (cwd W) = Some "/"%char).

Lemma absolute_idem path : absolute W (absolute W path) = absolute W path.
Proof.
  assert (head (absolute W path) = Some "/"%char) as E.
  { unfold absolute. case_bool_decide; [done|]. unfold slash. destruct (cwd W) as [|c l]; [done|]. by destruct (ends_with _ _). }
  unfold absolute at 1. by rewrite bool_decide_true.
Qed.

Lemma absolute_proper dest : proper dest → proper (absolute W dest).
Proof. intros [H1 H2]. by split; rewrite absolute_idem. Qed.

Lemma checkedPath_ok path target : checkedPath W path = Ok target → target = absolute W path.
Proof. unfold checkedPath. intros (? & _ & [= <-])%bind_ok. done. Qed.

Lemma discard_ends q : ends (discard W q).
Proof. apply ends_catch. intros _. apply ends_ret. Qed.

Lemma create_atomic dest b : proper dest →
  atomic (absolute W dest) b (λ d, d !! absolute W dest = None) (create W dest b).
Proof.
  intros Hp w r w'. unfold create. unfold and_then at 1, lift. destruct (checkedPath W dest) as [target|e] eqn:E; [|by intros [= <- <-]].
  apply checkedPath_ok in E as ->. revert w r w'.
  match goal with |- ∀ w r w', with_stage W _ ?body w = _ → _ =>
    pose proof (with_stage_atomic (absolute W dest) b (λ d, d !! absolute W dest = None) body (absolute_proper _ Hp)) as Hw end.
  rewrite absolute_idem in Hw. apply Hw. clear Hw. intros stage w r w' Hs Hne Hh E.
  unfold and_then at 1 in E. pose proof (writeStaged_spares (absolute W dest) stage b Hne w) as S1.
  destruct (writeStaged W stage b w) as [[u|e] w1] eqn:E1; [|by injection E as <- <-]. cbn in S1.
  eapply writeStaged_ok in E1; [|done..].
  pose proof (outcome_call stage (absolute W dest) b (λ d, d !! absolute W dest = None) Hs (λ _, true)
    (io_failure "Exclusive file publication failed") (link stage (absolute W dest)) tt) as Ho.
  specialize (Ho ltac:(intros d c (n & Hn & -> & Hd)%link_moves; exists n; auto) eq_refl w1).
  unfold and_then at 1 in E. unfold and_then at 1 in Ho.
  destruct (call W _ (link stage (absolute W dest)) w1) as [[[]|e] w2]; specialize (Ho _ _ E1 eq_refl); cbn in Ho.
  - unfold and_then in E. pose proof (discard_spares (absolute W dest) stage Hne w2) as S2.
    destruct (discard_ends stage w2) as ([] & w3 & E3). rewrite E3 in E, S2. injection E as <- <-.
    eapply arrives_after; [done|]. by eapply moves_arrives.
  - injection E as <- <-. by etrans.
Qed.

Lemma openRead_keeps (R : Site → Site → Prop) `{!PreOrder R} path :
  keeps R (look W) → (∀ e, keeps R (attempt W e)) → keeps R (openRead W path).
Proof. intros Hl Ha. unfold openRead. parts ltac:(first [apply Hl | apply Ha]). Qed.

Lemma read_keeps (R : Site → Site → Prop) `{!PreOrder R} path maximum :
  keeps R (look W) → (∀ e, keeps R (attempt W e)) → keeps R (read W path maximum).
Proof. intros Hl Ha. unfold read, read_some. parts ltac:(first [apply openRead_keeps; [apply _|done..] | apply Ha]). Qed.

Lemma update_atomic dest expected b : proper dest → atomic (absolute W dest) b (λ _, True) (update W dest expected b).
Proof.
  intros Hp w r w'. unfold update. unfold and_then at 1, lift. destruct (checkedPath W dest) as [target|e] eqn:E; [|by intros [= <- <-]].
  apply checkedPath_ok in E as ->. revert w r w'. cbv zeta.
  match goal with |- ∀ w r w', ?p w = _ → _ => change (atomic (absolute W dest) b (λ _, True) p) end.
  apply atomic_step; [apply attempt_spares|intros _]. apply atomic_step; [apply look_spares|intros d].
  apply atomic_step; [apply keeps_guard, _|intros _]. apply atomic_step; [apply keeps_guard, _|intros _].
  apply atomic_step; [|intros _; rewrite <-(absolute_idem dest) at 1; by apply write_atomic, absolute_proper].
  apply keeps_catch; [apply _| |intros e; destruct (bool_decide _); apply keeps_throw, _].
  apply keeps_and_then; [apply _| |intros; apply keeps_guard, _].
  apply read_keeps; [apply _|apply look_spares|intros; apply attempt_spares].
Qed.
End laws.

(** ** Without others *)

Section calm.
Context (W : System).
Context (calm : ∀ t d, others W t d = d) (still : ∀ t b, in_place W t b = b).

Lemma look_calm : keeps (λ w w', disk w' = disk w) (look W).
Proof. intros w. apply calm. Qed.

Lemma attempt_calm e : keeps (λ w w', disk w' = disk w) (attempt W e).
Proof. intros w. unfold attempt, call. destruct (negb _); apply calm. Qed.

Lemma read_ok path maximum w b w' : read W path maximum w = (Ok b, w') →
  disk w' = disk w ∧ ∃ n, stat (disk w) (absolute W path) = Some n ∧ kind n = Regular ∧ content n = b ∧ len b <= maximum.
Proof.
  unfold read, openRead, read_some. intros E.
  apply and_then_ok in E as (f & w1 & Ho & E). apply and_then_ok in Ho as (target & w2 & Ht & Ho).
  apply lift_ok in Ht as [->%checkedPath_ok <-]. apply and_then_ok in Ho as (u0 & w0 & H0%(keeps_run _ _ _ _ _ (attempt_calm _)) & Ho).
  apply and_then_ok in Ho as (u & w3 & H1%(keeps_run _ _ _ _ _ (attempt_calm _)) & Ho).
  apply and_then_ok in Ho as (d1 & w4 & Hd1 & Ho). pose proof (keeps_run _ _ _ _ _ look_calm Hd1) as H2. injection Hd1 as E1 _.
  rewrite calm, H1, H0 in E1. subst d1.
  apply and_then_ok in Ho as (n & w5 & [Hn <-]%lift_ok & Ho). apply and_then_ok in Ho as (u2 & w5 & [Hk <-]%guard_ok & Ho).
  apply and_then_ok in Ho as (u3 & w6 & H3%(keeps_run _ _ _ _ _ (attempt_calm _)) & Ho).
  apply and_then_ok in Ho as (d2 & w7 & Hd2 & Ho). pose proof (keeps_run _ _ _ _ _ look_calm Hd2) as H4. injection Hd2 as E2 _.
  rewrite calm, H3, H2, H1, H0 in E2. subst d2.
  apply and_then_ok in Ho as (o & w8 & [Hno <-]%lift_ok & [<- <-]%ret_ok). cbn [opened size pos ended] in E.
  rewrite of_option_ok in Hn, Hno. rewrite Hn in Hno. injection Hno as <-. apply bool_decide_eq_true in Hk.
  apply and_then_ok in E as (u4 & w8 & [Hm <-]%guard_ok & E). apply negb_true_iff, orb_false_iff in Hm as [Hm _].
  apply and_then_ok in E as ([data f'] & w9 & Hr & E).
  apply and_then_ok in Hr as (u5 & w10 & [_ <-]%guard_ok & Hr).
  apply and_then_ok in Hr as (u6 & w11 & H5%(keeps_run _ _ _ _ _ (attempt_calm _)) & Hr).
  apply and_then_ok in Hr as (now & w12 & Hnow & Hr). injection Hnow as <- <-. rewrite still in Hr. cbn [opened pos ended] in Hr.
  apply ret_ok in Hr as [[= Hd <-] <-]. rewrite Nat2Z.id, drop_0, take_ge in Hd by done. subst data.
  apply and_then_ok in E as (u7 & w13 & [_ <-]%guard_ok & [<- <-]%ret_ok). split; [congruence|].
  exists n. split_and!; [done..|cbn]. lia.
Qed.

(** [update] replaces what is expected. *)
Lemma update_expected dest expected b w u w' : head (cwd W) = Some "/"%char → update W dest expected b w = (Ok u, w') →
  ∃ n, disk w !! absolute W dest = Some n ∧ kind n = Regular ∧ content n = expected.
Proof.
  intros Hr. unfold update. intros E. apply and_then_ok in E as (target & w1 & [->%checkedPath_ok <-]%lift_ok & E).
  apply and_then_ok in E as (u1 & w1 & H1%(keeps_run _ _ _ _ _ (attempt_calm _)) & E).
  apply and_then_ok in E as (d & w2 & Hd & E). pose proof (keeps_run _ _ _ _ _ look_calm Hd) as H2.
  injection Hd as Hd _. rewrite calm, H1 in Hd. subst d.
  apply and_then_ok in E as (u2 & w3 & [_ <-]%guard_ok & E). apply and_then_ok in E as (u3 & w3 & [Hk <-]%guard_ok & E).
  cbv zeta in E. apply and_then_ok in E as (u4 & w4 & [Hc|(e & w5 & _ & Hc)]%catch_ok & _).
  - apply and_then_ok in Hc as (found & w5 & Hread & [Hf _]%guard_ok). apply bool_decide_eq_true in Hf. subst found.
    apply read_ok in Hread as (_ & n & Hn & Hreg & Hcont & _). rewrite absolute_idem, H2, H1 in Hn by done.
    apply bool_decide_eq_true in Hk. unfold lstat in Hk. apply fmap_Some in Hk as (m & Hm & Hkm).
    unfold stat in Hn. cbn [follow] in Hn. rewrite Hm, bool_decide_false in Hn by (rewrite <-Hkm; done). injection Hn as ->.
    by exists n.
  - by destruct (bool_decide _).
Qed.
End calm.
