(* ===== verification/NativeSaveLaws.v ===== *)
(** What [AtomicSave] promises: a commit that succeeds puts everything that was written in
    the place of the destination, in one step; nothing else ever changes the destination. *)
From stdpp Require Import relations list.
From S2P Require Import Prelude Text Paths MetadataCodec Proc NativeFiles NativeSave NativeLaws.
Local Open Scope Z_scope.
Local Open Scope proc_scope.

(** ** Names of temporary files *)

Lemma last_filter_max (P : nat → Prop) `{∀ i, Decision (P i)} n i j :
  last (filter P (seq 0 n)) = Some i → (j < n)%nat → P j → (j <= i)%nat.
Proof.
  induction n as [|n IH]; [lia|]. rewrite seq_S, filter_app. cbn [Nat.add]. intros E Hj Hp. rewrite (filter_singleton P n []) in E.
  destruct (decide (P n)) as [Hn|Hn].
  - rewrite (last_snoc n) in E. injection E as <-. lia.
  - rewrite app_nil_r in E. destruct (decide (j = n)) as [->|]; [done|]. apply IH; [done|lia|done].
Qed.

(** A pattern whose token follows [pre] keeps what is before. *)
Lemma fill_prefix pre ext nonce : ∃ rest, fill (pre ++ token ++ ext) nonce = pre ++ rest ∧
  ∀ c, c ∈ rest → c ∈ token ++ ext ∨ c ∈ nonce.
Proof.
  unfold fill. destruct (last _) as [i|] eqn:E.
  - assert (length pre <= i)%nat as Hi.
    { eapply last_filter_max; [exact E| |].
      - rewrite !length_app. cbn. lia.
      - unfold starts_with. rewrite drop_app_length, take_app_length. apply Is_true_true, bool_decide_eq_true. done. }
    exists (take (i - length pre) (token ++ ext) ++ nonce ++ drop (i + 6) (pre ++ token ++ ext)). split.
    + rewrite take_app_ge by done. by rewrite <-app_assoc.
    + intros c. rewrite drop_app_ge by lia. rewrite !elem_of_app. intros [Hc|[Hc|Hc]]; [|tauto|].
      * eapply elem_of_sublist in Hc; [|apply sublist_take]. apply elem_of_app in Hc. tauto.
      * eapply elem_of_sublist in Hc; [|apply sublist_drop]. apply elem_of_app in Hc. tauto.
  - exfalso. rewrite last_None in E. apply filter_nil_not_elem_of with (x := length pre) in E.
    + apply E, elem_of_seq. rewrite !length_app. cbn. lia.
    + unfold starts_with. rewrite drop_app_length, take_app_length. by apply Is_true_true, bool_decide_eq_true.
Qed.

(** ** Sessions *)

(** What can be done with an open output; what it throws is dropped. *)
Inductive Use := Write (data : bytes) | SetPermissions (m : Z) | Cancel.

#[export] Instance Use_eq_dec : EqDecision Use.
Proof. solve_decision. Defined.

Definition use (W : System) (u : Use) : save_io unit :=
  catch (match u with
         | Write data => write_output W data
         | SetPermissions m => b <- setPermissions W m ; ret tt
         | Cancel => cancel W
         end) (λ _, ret tt).

Fixpoint uses (W : System) (l : list Use) : save_io unit :=
  match l with [] => ret tt | u :: l => use W u ;; uses W l end.

(** All that was to be written. *)
Fixpoint written_by (l : list Use) : bytes :=
  match l with Write data :: l => data ++ written_by l | _ :: l => written_by l | [] => [] end.

Definition is_cancel (u : Use) : bool := match u with Cancel => true | _ => false end.

Section save.
Context (W : System).
Context (private : ∀ t d p, stage_name p → others W t d !! p = d !! p).
Context (nonces_plain : ∀ t, no_slash (nonces W t)) (nonces_text : ∀ t, has_byte NUL (nonces W t) = false).

Lemma checked_ok name target : checked W name = Ok target → target = root_normal (absolute W name).
Proof. unfold checked. intros (? & _ & [= <-])%bind_ok. done. Qed.

Lemma named_iff path : named path = true ↔ path ≠ [] ∧ filename path ≠ [] ∧ has_byte NUL path = false.
Proof.
  unfold named. rewrite negb_true_iff, !orb_false_iff, !bool_decide_eq_false. tauto.
Qed.

Lemma checked_from_root names : names ≠ [] → Forall clean_name names → named (from_root names) = true →
  checked W (from_root names) = Ok (from_root names).
Proof.
  intros Hne Hn Hnamed. unfold checked. rewrite Hnamed. cbn [check mbind result_bind].
  unfold absolute. rewrite bool_decide_true by done. by rewrite root_normal_fixed.
Qed.

(** A target and the files beside it. *)
Lemma target_names name target : checked W name = Ok target → named target = true →
  ∃ names last, Forall clean_name (names ++ [last]) ∧ target = from_root (names ++ [last]).
Proof.
  intros ->%checked_ok (_ & Hf & _)%named_iff. apply root_normal_names in Hf as (names & Hne & Hn & ->).
  destruct names as [|x names _] using rev_ind; [done|]. by exists names, x.
Qed.

Lemma target_checked name target : checked W name = Ok target → named target = true → checked W target = Ok target.
Proof.
  intros E Hn. destruct (target_names name target E Hn) as (names & x & Hc & ->). apply checked_from_root; [by destruct names|done|done].
Qed.

Lemma beside_checked name target other : checked W name = Ok target → named target = true → clean_name other →
  has_byte NUL other = false → checked W (slash (parent_path target) other) = Ok (slash (parent_path target) other).
Proof.
  intros E Hn Ho Hz. destruct (target_names name target E Hn) as (names & x & Hc & ->).
  apply Forall_app in Hc as [Hc Hx]. apply Forall_singleton in Hx as [Hx1 Hx2]. rewrite parent_from_root by done.
  assert (filename (slash (from_root names) other) = other) as Hf by (apply filename_slash, Ho).
  apply named_iff in Hn as (_ & _ & Hz'). rewrite <-(slash_from_root names x) in Hz' by done.
  rewrite (slash_from_root names other) in * by done. apply checked_from_root; [by destruct names|by apply Forall_app; split; [|constructor]|].
  apply named_iff. split_and!; [done| |].
  - rewrite Hf. apply Ho.
  - rewrite <-slash_from_root by done. unfold slash, has_byte in *. apply bool_decide_eq_false in Hz, Hz'. apply bool_decide_eq_false.
    destruct (ends_with _ _); rewrite !elem_of_app in *; naive_solver.
Qed.

Definition pattern_of (target : bytes) : bytes := slash (parent_path target) (stage_prefix ++ token) ++ extension target.

Lemma slash_app at_ a b : slash at_ (a ++ b) = slash at_ a ++ b.
Proof. unfold slash. destruct (ends_with _ _); by rewrite <-!app_assoc. Qed.

Lemma pattern_named name target t : checked W name = Ok target → named target = true →
  stage_name (fill (pattern_of target) (nonces W t)) ∧
  checked W (fill (pattern_of target) (nonces W t)) = Ok (fill (pattern_of target) (nonces W t)).
Proof.
  intros E Hn. unfold pattern_of. rewrite slash_app, <-app_assoc.
  destruct (fill_prefix (slash (parent_path target) stage_prefix) (extension target) (nonces W t)) as (rest & -> & Hrest).
  rewrite <-slash_app. pose proof Hn as (_ & _ & Hz)%named_iff. apply bool_decide_eq_false in Hz.
  pose proof (nonces_text t) as Ht. apply bool_decide_eq_false in Ht.
  assert (no_slash rest ∧ NUL ∉ rest) as [Hr Hr'].
  { split; intros [Hc%elem_of_app|Hc]%Hrest.
    - destruct Hc as [Hc|Hc]; [by apply (bool_decide_eq_false ("/"%char ∈ token)) in Hc|by apply extension_no_slash in Hc].
    - by apply nonces_plain in Hc.
    - destruct Hc as [Hc|Hc]; [by apply (bool_decide_eq_false (NUL ∈ token)) in Hc|by apply extension_sub in Hc].
    - done. }
  assert (no_slash (stage_prefix ++ rest)) as Hs.
  { unfold no_slash. rewrite not_elem_of_app. split; [by apply (bool_decide_eq_false ("/"%char ∈ stage_prefix))|done]. }
  split.
  - unfold stage_name. rewrite filename_slash by done. unfold starts_with. rewrite take_app_length. by apply bool_decide_eq_true.
  - eapply beside_checked; [done|done| |].
    + split; [by split_and!|done].
    + apply bool_decide_eq_false. rewrite not_elem_of_app. split; [by apply (bool_decide_eq_false (NUL ∈ stage_prefix))|done].
Qed.

Lemma open_temporary_ok name target n w p w' : checked W name = Ok target → named target = true →
  open_temporary W n (pattern_of target) w = (Ok p, w') → stage_name p ∧ checked W p = Ok p ∧ holds p [] w'.
Proof.
  intros E Hn. revert w. induction n as [|n IH]; intros w; cbn [open_temporary]; [done|]. intros R.
  apply and_then_ok in R as (nonce & w1 & Hnonce & R). injection Hnonce as <- <-. cbv zeta in R.
  destruct (pattern_named name target (tick w) E Hn) as [Hs Hc].
  apply and_then_ok in R as (b & w1 & Hr & R). destruct b; [|by eapply IH]. apply ret_ok in R as [<- <-].
  split_and!; [done..|]. apply catch_ok in Hr as [Hr|(e & w2 & _ & Hr)].
  - apply and_then_ok in Hr as ([] & w2 & Hcr & Hr). apply and_then_ok in Hr as ([] & w3 & Ha & [_ <-]%ret_ok).
    eapply (keeps_run (preserves _) _ _ _ _ (attempt_preserves W private _ _ Hs) Ha).
    apply call_ok in Hcr as [(Hf & _)|(c & Hf & Hd & _)]; destruct (exists_ _ _); try done.
    injection Hf as <-. exists (new_file W 384). rewrite Hd. cbn. by rewrite lookup_insert_eq.
  - destruct (bool_decide _); [by apply ret_ok in Hr as [? _]|done].
Qed.

Lemma open_temporary_spares name target n p : checked W name = Ok target → named target = true → ¬ stage_name p →
  keeps (spares p) (open_temporary W n (pattern_of target)).
Proof.
  intros E Hn Hp. induction n as [|n IH]; cbn [open_temporary]; [apply keeps_throw, _|]. intros w.
  unfold and_then at 1. cbn [at_tick]. destruct (pattern_named name target (tick w) E Hn) as [Hs _].
  cbv zeta. revert Hs. generalize (fill (pattern_of target) (nonces W (tick w))). intros q Hs. revert w.
  match goal with |- ∀ w, spares p w (?f w).2 => change (keeps (spares p) f) end.
  apply keeps_and_then; [apply _| |intros [|]; [apply keeps_ret, _|apply IH]].
  apply keeps_catch; [apply _| |intros e; destruct (bool_decide _); [apply keeps_ret, _|apply keeps_throw, _]].
  apply keeps_and_then; [apply _|apply create_exclusive_spares; by intros ->|intros _].
  apply keeps_and_then; [apply _|apply attempt_spares|intros _; apply keeps_ret, _].
Qed.

(** ** The invariant of a session *)

Record sound (target data : bytes) (gone : bool) (ws : Site * Save) : Prop := {
  at_target : destination ws.2 = target;
  uncommitted : committed ws.2 = false;
  gone_is : cancelled ws.2 = gone;
  staged : stage ws.2 = [] ∨ stage_name (stage ws.2) ∧ checked W (stage ws.2) = Ok (stage ws.2);
  complete : output ws.2 = true → broken ws.2 = false →
    stage_name (stage ws.2) ∧ checked W (stage ws.2) = Ok (stage ws.2) ∧ holds (stage ws.2) data ws.1
}.

(** What a session does to the site. *)
Definition via (R : Site → Site → Prop) (ws ws' : Site * Save) : Prop := R ws.1 ws'.1.

#[local] Instance via_preorder R `{!PreOrder R} : PreOrder (via R).
Proof. split; [intros ws; unfold via; reflexivity|]. intros a b c H1 H2. unfold via in *. by etrans. Qed.

Abbreviation leaves p := (via (spares p)).

Lemma on_site_keeps {A} R (q : io A) : keeps R q → keeps (via R) (on_site q).
Proof. intros Hq ws. unfold via, on_site. pose proof (Hq ws.1) as Hw. by destruct (q ws.1). Qed.

Lemma change_keeps R `{!PreOrder R} f : keeps (via R) (change f).
Proof. intros ws. unfold via. cbn. reflexivity. Qed.

Lemma save_keeps R `{!PreOrder R} : keeps (via R) save.
Proof. intros ws. unfold via. cbn. reflexivity. Qed.

Lemma on_site_ok {A} (q : io A) ws a ws' : on_site q ws = (Ok a, ws') → ∃ w, q ws.1 = (Ok a, w) ∧ ws' = (w, ws.2).
Proof. unfold on_site. destruct (q ws.1) as [r w] eqn:E. intros [= -> <-]. by exists w. Qed.

(** The target is nobody's staged file. *)
Context (target : bytes) (Hne : target ≠ []) (Htarget : ¬ stage_name target).

Lemma staged_other q : q = [] ∨ stage_name q → q ≠ target.
Proof. intros [->|Hq]; [done|by intros ->]. Qed.

Lemma close_keeps R `{!PreOrder R} : (∀ e, keeps R (attempt W e)) → keeps (via R) (close_output W).
Proof.
  intros Ha. unfold close_output. apply keeps_and_then; [apply _|by apply save_keeps|intros s]. destruct (negb _); [apply keeps_ret, _|].
  apply keeps_and_then; [apply _|apply on_site_keeps, succeeds_keeps; [apply _|apply Ha]|intros closed].
  apply keeps_and_then; [apply _|by apply change_keeps|intros _; apply keeps_guard, _].
Qed.

Lemma close_leaves : keeps (leaves target) (close_output W).
Proof. apply close_keeps; [apply _|intros; apply attempt_spares]. Qed.

Lemma sync_keeps R `{!PreOrder R} : (∀ e, keeps R (attempt W e)) → keeps (via R) (sync_output W).
Proof.
  intros Ha. unfold sync_output. apply keeps_and_then; [apply _|apply on_site_keeps, succeeds_keeps; [apply _|apply Ha]|intros []].
  - apply keeps_ret, _.
  - apply keeps_and_then; [apply _|by apply save_keeps|intros s].
    apply keeps_and_then; [apply _|by apply change_keeps|intros _; apply keeps_throw, _].
Qed.

(** [flush] can break the output. *)
Lemma sync_state ws : ∃ r w b, sync_output W ws = (r, (w, set_output (output ws.2) b ws.2)).
Proof.
  unfold sync_output, and_then, on_site. destruct (succeeds _ ws.1) as [[synced|e] w] eqn:E.
  - destruct synced; cbn.
    + exists (Ok tt), w, (broken ws.2). unfold ret. do 2 f_equal. by destruct (ws.2).
    + by eexists _, _, _.
  - exfalso. unfold succeeds, catch in E. by destruct (and_then _ _ ws.1) as [[?|?] ?].
Qed.

(** [close] closes. *)
Lemma close_state ws : ∃ r w b, close_output W ws = (r, (w, set_output false b ws.2)).
Proof.
  unfold close_output, and_then. cbn [save]. destruct (output ws.2) eqn:E; cbn [negb].
  - unfold on_site. destruct (succeeds _ ws.1) as [[closed|e] w] eqn:Es.
    + cbn [change fst snd]. destruct closed; by eexists _, _, _.
    + exfalso. unfold succeeds, catch in Es. by destruct (and_then _ _ ws.1) as [[?|?] ?].
  - destruct ws as [w s]. cbn in E. exists (Ok tt), w, (broken s). destruct s; cbn in *. by subst.
Qed.

Lemma discard_save_state ws : ∃ w b, discard_save W ws = (Ok tt, (w, set_stage [] (set_output false b ws.2))).
Proof.
  unfold discard_save, and_then, catch. destruct (close_state ws) as (r & w & b & ->).
  assert (∀ w', ∃ w'' b', (if bool_decide (stage (set_output false b ws.2) = []) then ret tt
      else (λ s, match on_site (discard W (stage (set_output false b ws.2))) s with
                 | (Ok _, s') => change (set_stage []) s' | (Err m, s') => (Err m, s') end))
      (w', set_output false b ws.2) = (Ok tt, (w'', set_stage [] (set_output false b' ws.2)))) as Hd.
  { intros w'. case_bool_decide as Hs.
    - exists w', b. unfold ret. do 2 f_equal. destruct ws as [? s]. destruct s; cbn in *. by subst.
    - unfold on_site. cbn [fst snd]. destruct (discard_ends W (stage (set_output false b ws.2)) w') as ([] & w'' & ->).
      by exists w'', b. }
  destruct r; apply Hd.
Qed.

Lemma discard_leaves ws : stage ws.2 = [] ∨ stage_name (stage ws.2) → leaves target ws (discard_save W ws).2.
Proof.
  intros Hs%staged_other. unfold discard_save, and_then, catch. pose proof (close_leaves ws) as H1.
  destruct (close_state ws) as (r & w & b & E). rewrite E in *. unfold via in *. cbn [fst snd] in H1.
  assert (∀ w', spares target w w' → spares target ws.1 w') as Ht by (intros w' Hw; by etrans).
  destruct r; unfold save, ret; cbn [fst snd];
    (destruct (bool_decide _); [by apply Ht|]); unfold on_site; cbn [fst snd];
    pose proof (discard_spares W target (stage (set_output false b ws.2)) Hs w) as H2;
    destruct (discard_ends W (stage (set_output false b ws.2)) w) as ([] & w'' & Ew); rewrite Ew in *; by apply Ht.
Qed.

Lemma discard_sound data gone ws w b : sound target data gone ws → sound target data gone (w, set_stage [] (set_output false b ws.2)).
Proof. intros [H1 H2 H3 _ _]. split; [done..|by left|done]. Qed.

Lemma write_sound data gone c ws r ws' : sound target data gone ws → write_output W c ws = (r, ws') →
  leaves target ws ws' ∧ sound target (data ++ c) gone ws'.
Proof.
  intros Hs. unfold write_output. unfold and_then at 1, save. destruct (output ws.2) eqn:Eo; cbn [negb].
  - case_bool_decide as Ec.
    { intros [= <- <-]. split; [reflexivity|]. subst c. by rewrite app_nil_r. }
    unfold and_then at 1, on_site at 1. cbn [at_tick fst snd]. unfold and_then at 1, on_site at 1. cbn [fst snd].
    set (n := written W (tick ws.1) c).
    set (f := λ d, Ok (append (stage ws.2) (take n c) d)).
    pose proof (succeeds_keeps (spares target) (call W (io_failure "Write file") f)) as Hk.
    specialize (Hk (call_spares W target _ f ltac:(intros d ch; unfold f, append; destruct (d !! stage ws.2); [|done];
      intros [= <-]; apply staged_other; destruct (staged _ _ _ _ Hs) as [?|[? _]]; auto)) ws.1).
    destruct (succeeds _ ws.1) as [[done|e] w] eqn:Es; cbn [fst snd] in *; [|intros [= <- <-]].
    + destruct (done && (length c <=? n)%nat) eqn:Ed; cbn [negb].
      * intros [= <- <-]. split; [exact Hk|]. apply andb_true_iff in Ed as [-> Hn]. apply Nat.leb_le in Hn.
        destruct Hs as [H1 H2 H3 H4 H5]. split; [done..|]. intros Ho Hb. cbn [fst snd] in *.
        destruct (H5 Ho Hb) as (Hst & Hc & n' & Hn' & Hk' & Hcont). split_and!; [done..|].
        apply succeeds_true in Es. assert (others W (tick ws.1) (disk ws.1) !! stage ws.2 = Some n') as Hl by by rewrite private.
        apply call_ok in Es as [(Hf & _)|(ch & Hf & Hd & _)]; unfold f, append in Hf; rewrite Hl in Hf; [done|]. injection Hf as <-.
        eexists. rewrite Hd. cbn. rewrite lookup_insert_eq. split_and!; [done|done|]. cbn. by rewrite Hcont, take_ge.
      * unfold and_then, change, throw. cbn [fst snd]. intros [= <- <-]. split; [exact Hk|].
        destruct Hs as [H1 H2 H3 H4 H5]. by split.
    + exfalso. unfold succeeds, catch in Es. by destruct (and_then _ _ ws.1) as [[?|?] ?].
  - unfold and_then, change, throw. intros [= <- <-]. split; [unfold via; reflexivity|].
    destruct Hs as [H1 H2 H3 H4 H5]. by split.
Qed.

(** A step of the site that keeps the staged file. *)
Lemma site_sound data gone ws w : sound target data gone ws →
  (stage_name (stage ws.2) → preserves (stage ws.2) ws.1 w) → sound target data gone (w, ws.2).
Proof.
  intros [H1 H2 H3 H4 H5] Hp. split; [done..|]. intros Ho Hb. destruct (H5 Ho Hb) as (Hs & Hc & Hh).
  split_and!; [done..|]. by apply Hp.
Qed.

Lemma permissions_sound data gone m ws r ws' : sound target data gone ws → setPermissions W m ws = (r, ws') →
  leaves target ws ws' ∧ sound target data gone ws'.
Proof.
  intros Hs. unfold setPermissions. unfold and_then at 1, save. destruct (output ws.2) eqn:Eo; cbn [negb];
    [|intros [= <- <-]; split; [reflexivity|done]].
  unfold and_then at 1, on_site. set (f := λ d, Ok (if (exists_ (stage ws.2) d : bool) then Some (Moded (stage ws.2) (Z.land m 511)) else None)).
  assert (keeps (spares target) (call W (io_failure "Set permissions") f)) as Hk.
  { apply call_spares. intros d c. unfold f. destruct (exists_ _ _); [|done]. intros [= <-].
    apply staged_other. destruct (staged _ _ _ _ Hs) as [?|[? _]]; auto. }
  assert (stage_name (stage ws.2) → keeps (preserves (stage ws.2)) (call W (io_failure "Set permissions") f)) as Hp.
  { intros Hst. apply call_preserves; [done..|]. intros d c. unfold f. destruct (exists_ _ _); [|done]. intros [= <-].
    right. intros n Hn. cbn. rewrite lookup_alter_eq, Hn. by eexists. }
  specialize (Hk ws.1). assert (sound target data gone ((call W (io_failure "Set permissions") f ws.1).2, ws.2)) as Hsite.
  { apply site_sound; [done|]. intros Hst. apply (Hp Hst). }
  destruct (call W _ f ws.1) as [[[]|e] w]; cbn [fst snd] in *.
  - unfold and_then, change, ret. intros [= <- <-]. split; [exact Hk|]. destruct Hsite as [H1 H2 H3 H4 H5]. by split.
  - intros [= <- <-]. by split.
Qed.

Lemma cancel_sound data gone ws r ws' : sound target data gone ws → cancel W ws = (r, ws') →
  leaves target ws ws' ∧ sound target data true ws'.
Proof.
  intros Hs. unfold cancel, and_then, change. assert (sound target data true (ws.1, set_cancelled ws.2)) as Hs'
    by (destruct Hs as [H1 H2 H3 H4 H5]; by split).
  pose proof (discard_leaves (ws.1, set_cancelled ws.2)) as Hl.
  destruct (discard_save_state (ws.1, set_cancelled ws.2)) as (w & b & E). rewrite E in *. intros [= <- <-]. split.
  - apply Hl. destruct (staged _ _ _ _ Hs) as [?|[? _]]; auto.
  - apply (discard_sound data true _ w b Hs').
Qed.

Lemma use_sound data gone u ws : sound target data gone ws → ∃ ws', use W u ws = (Ok tt, ws') ∧
  leaves target ws ws' ∧ sound target (data ++ written_by [u]) (gone || is_cancel u) ws'.
Proof.
  intros Hs. unfold use, catch. destruct u as [c|m|]; cbn [written_by is_cancel]; rewrite ?app_nil_r, ?orb_false_r, ?orb_true_r.
  - destruct (write_output W c ws) as [r ws'] eqn:E. apply (write_sound data gone) in E; [|done]. exists ws'.
    destruct r as [[]|]; by split.
  - unfold and_then, ret. destruct (setPermissions W m ws) as [r ws'] eqn:E. apply (permissions_sound data gone) in E; [|done].
    exists ws'. destruct r; by split.
  - destruct (cancel W ws) as [r ws'] eqn:E. apply (cancel_sound data gone) in E; [|done]. exists ws'. destruct r as [[]|]; by split.
Qed.

Lemma written_by_app l k : written_by (l ++ k) = written_by l ++ written_by k.
Proof. induction l as [|[c|m|] l IH]; cbn; [done|by rewrite IH, <-app_assoc|done|done]. Qed.

Lemma uses_sound data gone l ws : sound target data gone ws → ∃ ws', uses W l ws = (Ok tt, ws') ∧
  leaves target ws ws' ∧ sound target (data ++ written_by l) (gone || existsb is_cancel l) ws'.
Proof.
  revert data gone ws. induction l as [|u l IH]; intros data gone ws Hs; cbn [uses].
  - exists ws. cbn. rewrite app_nil_r, orb_false_r. split_and!; [done|reflexivity|done].
  - destruct (use_sound data gone u ws Hs) as (ws1 & E1 & L1 & S1). destruct (IH _ _ _ S1) as (ws2 & E2 & L2 & S2).
    exists ws2. unfold and_then. rewrite E1. split_and!; [done|by etrans|].
    change (u :: l) with ([u] ++ l). rewrite written_by_app, existsb_app, app_assoc, orb_assoc. cbn [existsb]. by rewrite orb_false_r.
Qed.

(** ** Opening and committing *)

Context (name : bytes) (Hchecked : checked W name = Ok target) (Hnamed : named target = true).

Lemma open_sound ws r ws' : stage ws.2 = [] → open_save W name ws = (r, ws') →
  leaves target ws ws' ∧ match r with Ok _ => sound target [] false ws' | Err _ => True end.
Proof.
  intros Hstage. unfold open_save. unfold and_then at 1, save. unfold and_then at 1, guard, check, lift.
  destruct (negb (output ws.2)); [|by intros [= <- <-]]. unfold and_then at 1.
  pose proof (discard_leaves ws (or_introl Hstage)) as L1. destruct (discard_save_state ws) as (w & b & E).
  rewrite E in *. cbn [snd] in L1. clear E. unfold and_then at 1. rewrite Hchecked.
  unfold and_then at 1, change at 1. cbn [fst snd]. set (s1 := set_target target _). cbv zeta. unfold and_then at 1.
  match goal with |- context [on_site ?q (w, s1)] => set (checks := q); assert (keeps (spares target) checks) as Hk end.
  { apply keeps_and_then; [apply _|apply status_spares|intros d1]. apply keeps_and_then; [apply _|apply keeps_guard, _|intros _].
    apply keeps_and_then; [apply _|apply status_spares|intros d2]. apply keeps_and_then; [apply _|apply keeps_guard, _|intros _].
    apply keeps_and_then; [apply _|apply attempt_spares|intros _]. apply attempt_spares. }
  specialize (Hk w). unfold on_site at 1. cbn [fst snd]. destruct (checks w) as [[u|e] w1]; cbn [fst snd] in Hk;
    [|intros [= <- <-]; split; [unfold via in *; cbn in *; by etrans|done]].
  change (_ ++ extension target) with (pattern_of target).
  assert (leaves target ws (w1, s1)) as L2 by (unfold via in *; cbn in *; by etrans).
  unfold catch, and_then at 1, on_site at 1. cbn [fst snd].
  pose proof (open_temporary_spares name target 128 target Hchecked Hnamed Htarget w1) as Ht.
  destruct (open_temporary W 128 (pattern_of target) w1) as [[p|e] w2] eqn:Eo; cbn [fst snd] in *.
  - apply (open_temporary_ok name target) in Eo as (Hs & Hc & Hh); [|done..].
    unfold and_then, change. cbn [fst snd]. intros [= <- <-]. split; [unfold via in *; cbn in *; by etrans|].
    split; [done..| |]; [by right|]. by intros _ _.
  - unfold and_then, throw. pose proof (discard_leaves (w2, s1) (or_introl eq_refl)) as L3.
    destruct (discard_save_state (w2, s1)) as (w3 & b3 & E3). rewrite E3 in *. intros [= <- <-].
    split; [unfold via in *; cbn in *; by repeat (etrans; [eassumption|])|done].
Qed.

(** A refusal after which the output is gone. *)
Lemma refusal_leaves ws (q : PublishResult) : stage ws.2 = [] ∨ stage_name (stage ws.2) →
  ∃ ws', (discard_save W ;; ret q)%proc ws = (Ok q, ws') ∧ leaves target ws ws'.
Proof.
  intros Hs%discard_leaves. unfold and_then. destruct (discard_save_state ws) as (w & b & E). rewrite E in *. by eexists.
Qed.

Lemma commit_outcome data gone overwrite ws r ws' : sound target data gone ws → commit W overwrite ws = (r, ws') →
  ∃ p, r = Ok p ∧ if succeeded p
    then gone = false ∧ arrives target data (λ d, overwrite = false → d !! target = None) ws.1 ws'.1
    else leaves target ws ws'.
Proof.
  intros Hs. pose proof Hs as [H1 H2 H3 H4 H5]. unfold commit. unfold and_then at 1, save. rewrite H2.
  assert (stage ws.2 = [] ∨ stage_name (stage ws.2)) as Hst by tauto.
  assert (∀ suffix m, ∃ ws', (discard_save W ;; ret (refused suffix m)) ws = (Ok (refused suffix m), ws') ∧ leaves target ws ws') as Href
    by (intros; by apply refusal_leaves).
  destruct (_ || _) eqn:Eb.
  { destruct (Href "cancelled_or_failed"%string "Atomic output was cancelled, closed or failed"%string) as (ws1 & -> & L1).
    intros [= <- <-]. by eexists. }
  apply orb_false_iff in Eb as [Eb Hb]. apply orb_false_iff in Eb as [Hg Ho%negb_false_iff].
  destruct (H5 Ho Hb) as (Hsn & Hsc & Hh). 
  unfold catch. unfold and_then at 1.
  pose proof (sync_keeps (spares target) ltac:(intros; apply attempt_spares) ws) as L1.
  pose proof (sync_keeps (preserves (stage ws.2)) ltac:(intros; by apply attempt_preserves) ws) as P1.
  destruct (sync_state ws) as (r1 & w1 & b1 & E1). rewrite E1 in *. unfold via in L1, P1. cbn [fst snd] in L1, P1.
  assert (∀ w s m, spares target ws.1 w → stage s = stage ws.2 → ∃ ws', (discard_save W ;; ret (refused "write_failed" m))%proc
    (w, s) = (Ok (refused "write_failed" m), ws') ∧ leaves target ws ws') as Hfail.
  { intros w s m Hw Es. rewrite <-Es in Hst. destruct (refusal_leaves (w, s) (refused "write_failed" m) Hst) as (ws2 & -> & L2).
    exists ws2. split; [done|]. unfold via in *. cbn [fst snd] in L2. by etrans. }
  destruct r1 as [[]|e]; [|destruct (Hfail w1 (set_output (output ws.2) b1 ws.2) (what e) L1 eq_refl) as (ws2 & E & L2); rewrite E; intros [= <- <-]; by eexists].
  unfold and_then at 1. set (ws1 := (w1, set_output (output ws.2) b1 ws.2)).
  pose proof (close_leaves ws1) as L2.
  pose proof (close_keeps (preserves (stage ws.2)) ltac:(intros; by apply attempt_preserves) ws1) as P2.
  destruct (close_state ws1) as (r2 & w2 & b2 & E2). rewrite E2 in *. unfold via in L2, P2. cbn [fst snd ws1] in L2, P2.
  assert (spares target ws.1 w2) as L3 by by etrans.
  destruct r2 as [[]|e]; [|destruct (Hfail w2 (set_output false b2 ws1.2) (what e) L3 eq_refl) as (ws2 & E & L4); rewrite E; intros [= <- <-]; by eexists].
  unfold and_then at 1, on_site at 1. cbn [fst snd]. set (s2 := set_output false b2 _). change (stage s2) with (stage ws.2).
  pose proof (publishFile_outcome W private (stage ws.2) (destination ws.2) overwrite (permissions ws.2) (stage ws.2) target data
    Hsc ltac:(rewrite H1; by eapply target_checked) Hsn Htarget w2) as Ho'.
  change (destination s2) with (destination ws.2). change (permissions s2) with (permissions ws.2).
  destruct (publishFile W _ _ _ _ w2) as [[p|e] w3]; specialize (Ho' _ _ (P2 _ (P1 _ Hh)) eq_refl); cbn in Ho'.
  - unfold and_then at 1. destruct (succeeded p) eqn:Ep.
    + unfold change, ret. intros [= <- <-]. exists p. split; [done|]. rewrite Ep. split; [congruence|].
      eapply arrives_after; [exact L3|]. eapply moves_arrives; [done|exact Ho'|reflexivity].
    + pose proof (discard_leaves (w3, s2) Hst) as L4. destruct (discard_save_state (w3, s2)) as (w4 & b4 & E4). rewrite E4 in *.
      intros [= <- <-]. exists p. split; [done|]. rewrite Ep. unfold via in *. cbn [fst snd] in *. etrans; [exact L3|]. by etrans.
  - destruct (Hfail w3 s2 (what e)) as (ws2 & E & L4); [by etrans|done|]. rewrite E. intros [= <- <-]. by eexists.
Qed.
End save.
