(* ===== verification/NativeProperties.v ===== *)
(** What the native file operations promise of a file: it is replaced in one step by the
    complete content, and exactly when they say so. *)
From stdpp Require Import list strings.
From S2P Require Import Prelude Text Paths MetadataCodec Proc NativeFiles NativeSave NativeLaws.
From S2P Require Import NativeSaveLaws.
Local Open Scope Z_scope.
Local Open Scope proc_scope.

(** Others leave files with the names of staged files alone; a nonce is part of a name. *)
Definition private (W : System) : Prop := ∀ t d p, stage_name p → others W t d !! p = d !! p.
Definition plain_nonces (W : System) : Prop := ∀ t, no_slash (nonces W t) ∧ has_byte NUL (nonces W t) = false.

(** Nobody else changes the disk, or a file that is being read. *)
Definition undisturbed (W : System) : Prop := (∀ t d, others W t d = d) ∧ ∀ t b, in_place W t b = b.

(** C16 Whatever others do to the disk meanwhile and whichever call is refused, [write],
    [create] and [update] change their destination in one step, to the complete content,
    if they succeed, and not at all if they throw; [create] finds nothing there in that
    step, and [update], when nobody else interferes, replaces what was expected. *)
Theorem writes_are_atomic W destination bytes expected :
  private W → plain_nonces W → head (cwd W) = Some "/"%char → proper W destination →
  let target := absolute W destination in
  atomic target bytes (λ _, True) (write W destination bytes) ∧
  atomic target bytes (λ d, d !! target = None) (create W destination bytes) ∧
  atomic target bytes (λ _, True) (update W destination expected bytes) ∧
  (undisturbed W → ∀ w w', update W destination expected bytes w = (Ok tt, w') →
     ∃ n, disk w !! target = Some n ∧ kind n = Regular ∧ content n = expected).
Proof.
  intros Hp Hn Hr Hd. assert (∀ t, no_slash (nonces W t)) as Hs by (intros t; apply Hn). cbv zeta. split_and!.
  - by apply write_atomic.
  - by apply create_atomic.
  - by apply update_atomic.
  - intros [Hc Hi] w w'. by apply update_expected.
Qed.

(** C17 A session of an [AtomicSave]: whatever is written, given permissions or cancelled
    in between, with whichever errors, a commit that succeeds was not cancelled and has put
    everything that was to be written in the place of the destination, in one step, over
    nothing if it may not overwrite; otherwise the destination is not changed.  A session
    that does not open does not change it either. *)
Theorem saves_are_atomic W name target l overwrite ws r1 ws1 :
  private W → plain_nonces W → checked W name = Ok target → named target = true → ¬ stage_name target →
  stage ws.2 = [] → open_save W name ws = (r1, ws1) →
  match r1 with
  | Err _ => spares target ws.1 ws1.1
  | Ok _ => ∃ ws2 p ws3, uses W l ws1 = (Ok tt, ws2) ∧ commit W overwrite ws2 = (Ok p, ws3) ∧
      if succeeded p
      then (Cancel ∉ l) ∧ arrives target (written_by l) (λ d, overwrite = false → d !! target = None) ws.1 ws3.1
      else spares target ws.1 ws3.1
  end.
Proof.
  intros Hp Hn Hc Hnamed Ht Hs. assert (∀ t, no_slash (nonces W t)) as Hns by (intros t; apply Hn).
  assert (∀ t, has_byte NUL (nonces W t) = false) as Hnt by (intros t; apply Hn).
  assert (target ≠ []) as Hne by by apply named_iff in Hnamed as [? _].
  intros E. eapply (open_sound W Hp Hns Hnt target Hne Ht) in E as [L1 S1]; [|done..].
  destruct r1 as [u|e]; [|exact L1].
  destruct (uses_sound W Hp target Hne Ht [] false l ws1 S1) as (ws2 & E2 & L2 & S2).
  destruct (commit W overwrite ws2) as [r ws3] eqn:E3.
  destruct (commit_outcome W Hp target Hne Ht name Hc Hnamed _ _ overwrite ws2 r ws3 S2 E3) as (p & -> & Ho).
  exists ws2, p, ws3. split_and!; [done..|]. destruct (succeeded p).
  - destruct Ho as [Hg Ha]. split.
    + intros Hin%list_elem_of_In. assert (existsb is_cancel l = true) as Hx by (apply existsb_exists; by exists Cancel). by rewrite Hx in Hg.
    + eapply arrives_after; [exact L1|]. by eapply arrives_after.
  - unfold via in *. etrans; [exact L1|]. by etrans.
Qed.

(** ** A small disk *)

Definition quiet (allow : nat → bool) : System := {|
  others := λ _ d, d;
  permits := allow;
  written := λ _ b, length b;
  in_place := λ _ b, b;
  nonces := λ t, replicate t "7"%char;
  weakly_canonical := λ _ p, Ok p;
  cwd := lit "/home";
  umask := 18 |}.

Definition willing : System := quiet (λ _, true).

Definition home : Disk :=
  <[lit "/home/a.txt" := {| kind := Regular; content := lit "old"; mode := 384 |}]>
  {[ lit "/home" := {| kind := Directory; content := []; mode := 493 |} ]}.

Definition start : Site := {| tick := 0; disk := home; log := [] |}.

Definition shown (p : bytes) (w : Site) : option bytes := content <$> disk w !! p.
Definition names_of (w : Site) : list bytes := (map_to_list (disk w)).*1.
Definition result_of {A B} (r : result Exception A * B) : option (option FileCode) :=
  match r.1 with Ok _ => None | Err e => Some (code e) end.

Example write_replaces : let w := (write willing (lit "a.txt") (lit "new") start).2 in
  shown (lit "/home/a.txt") w = Some (lit "new") ∧ length (names_of w) = 2%nat ∧
  (mode <$> disk w !! lit "/home/a.txt") = Some 384.
Proof. vm_compute. done. Qed.

Example refused_write_leaves : let '(r, w) := write (quiet (λ t, negb (t =? 12)%nat)) (lit "a.txt") (lit "new") start in
  result_of (r, w) = Some (Some IoFailure) ∧ shown (lit "/home/a.txt") w = Some (lit "old") ∧ length (names_of w) = 2%nat.
Proof. vm_compute. done. Qed.

(** A destination with a dot name is refused although it names a file that could be
    written: the lease wants a normal path, and [absolute] does not make one. *)
Example dotted_destination_is_refused : let '(r, w) := write willing (lit "./b.txt") (lit "new") start in
  result_of (r, w) = Some None ∧ map_to_list (disk w) = map_to_list home.
Proof. vm_compute. done. Qed.

Lemma quiet_private allow : private (quiet allow).
Proof. by intros t d p. Qed.

Lemma quiet_undisturbed allow : undisturbed (quiet allow).
Proof. by split. Qed.

Lemma quiet_nonces allow : plain_nonces (quiet allow).
Proof.
  intros t. split; [intros Hin|apply bool_decide_eq_false; intros Hin]; cbn in Hin; by apply elem_of_replicate in Hin as [? _].
Qed.

Lemma a_proper allow : proper (quiet allow) (lit "a.txt").
Proof. split; [vm_compute; done|]. unfold stage_name. vm_compute. done. Qed.

(** A file is replaced; a file that is there is not created again; a file is updated
    from the expected content. *)
Lemma writes_are_atomic_witness :
  (∃ w, write willing (lit "a.txt") (lit "new") start = (Ok tt, w) ∧
     arrives (lit "/home/a.txt") (lit "new") (λ _, True) start w) ∧
  (∃ e w, create willing (lit "a.txt") (lit "new") start = (Err e, w) ∧ spares (lit "/home/a.txt") start w) ∧
  (∃ w n, update willing (lit "a.txt") (lit "old") (lit "new") start = (Ok tt, w) ∧
     disk start !! lit "/home/a.txt" = Some n ∧ content n = lit "old").
Proof.
  destruct (writes_are_atomic willing (lit "a.txt") (lit "new") (lit "old") (quiet_private _) (quiet_nonces _) eq_refl (a_proper _))
    as (H1 & H2 & _ & H4).
  split; [|split].
  - exists (write willing (lit "a.txt") (lit "new") start).2.
    assert (write willing (lit "a.txt") (lit "new") start = (Ok tt, (write willing (lit "a.txt") (lit "new") start).2)) as E
      by (vm_compute; reflexivity).
    split; [exact E|exact (H1 _ _ _ E)].
  - exists (file_error AlreadyExists "Exclusive file publication failed"), (create willing (lit "a.txt") (lit "new") start).2.
    assert (create willing (lit "a.txt") (lit "new") start = (Err (file_error AlreadyExists "Exclusive file publication failed"),
      (create willing (lit "a.txt") (lit "new") start).2)) as E by (vm_compute; reflexivity).
    split; [exact E|exact (H2 _ _ _ E)].
  - assert (update willing (lit "a.txt") (lit "old") (lit "new") start
      = (Ok tt, (update willing (lit "a.txt") (lit "old") (lit "new") start).2)) as E by (vm_compute; reflexivity).
    destruct (H4 (quiet_undisturbed _) _ _ E) as (n & Hn & _ & Hc).
    exists (update willing (lit "a.txt") (lit "old") (lit "new") start).2, n. split; [exact E|by split].
Defined.

(** Two pieces are written and committed over the file. *)
Definition opened_save : Site * Save := (open_save willing (lit "docs/../a.txt") (start, new_save)).2.

Lemma saves_are_atomic_witness : ∃ ws2 p ws3,
  uses willing [Write (lit "ne"); SetPermissions 384; Write (lit "w")] opened_save = (Ok tt, ws2) ∧
  commit willing true ws2 = (Ok p, ws3) ∧ succeeded p = true ∧
  arrives (lit "/home/a.txt") (lit "new") (λ d, true = false → d !! lit "/home/a.txt" = None) start ws3.1.
Proof.
  assert (open_save willing (lit "docs/../a.txt") (start, new_save) = (Ok tt, opened_save)) as E by (vm_compute; reflexivity).
  assert (¬ stage_name (lit "/home/a.txt")) as Hs by (unfold stage_name; vm_compute; done).
  destruct (saves_are_atomic willing (lit "docs/../a.txt") (lit "/home/a.txt") [Write (lit "ne"); SetPermissions 384; Write (lit "w")] true
    (start, new_save) (Ok tt) opened_save (quiet_private _) (quiet_nonces _) eq_refl eq_refl Hs eq_refl E) as (ws2 & p & ws3 & E2 & E3 & H).
  assert ((uses willing [Write (lit "ne"); SetPermissions 384; Write (lit "w")] opened_save).2 = ws2) as Ews by by rewrite E2.
  assert (succeeded p = true) as Hp.
  { assert (match (commit willing true ws2).1 with Ok q => succeeded q | Err _ => false end = true) as Hc
      by (rewrite <-Ews; vm_compute; reflexivity). by rewrite E3 in Hc. }
  rewrite Hp in H. exists ws2, p, ws3. split; [exact E2|]. split; [exact E3|]. split; [exact Hp|exact (proj2 H)].
Defined.

(** A write that is cut short spoils the output: the commit is refused. *)
Example broken_save_is_refused :
  let W := {| others := λ _ d, d; permits := λ _, true; written := λ _ b, (length b - 1)%nat; in_place := λ _ b, b;
              nonces := λ t, replicate t "7"%char; weakly_canonical := λ _ p, Ok p; cwd := lit "/home"; umask := 18 |} in
  let '(r, ws) := commit W true (uses W [Write (lit "new")] (open_save W (lit "a.txt") (start, new_save)).2).2 in
  (diagnosticSuffix <$> match r with Ok p => Some p | Err _ => None end) = Some "cancelled_or_failed"%string ∧
  shown (lit "/home/a.txt") ws.1 = Some (lit "old") ∧ length (names_of ws.1) = 2%nat.
Proof. vm_compute. done. Qed.
