(* ===== verification/OntologyData.v ===== *)
(** The data of the semantic filesystem and its canonical documents
    (src/Objects/OntologyFileSystem.h, the free functions of
    src/Objects/OntologyFileSystem.cpp): resources, values, classes, properties,
    entities, queries and directories, and how they are written to and read from
    the tables. *)
From stdpp Require Import sorting.
From S2P Require Import Prelude Text Json JsonObject.
Local Open Scope Z_scope.

(** ** Doubles

    The floating-point numbers of the platform and their shortest decimal text,
    which the JSON library prints and reads. *)
Class Doubles := {
  double : Type;
  double_eq_dec :: EqDecision double;
  zero : double;
  finite : double → bool;              (* std::isfinite *)
  is_zero : double → bool;             (* v == 0.0, which -0.0 satisfies *)
  double_text : double → bytes;
  text_double : bytes → double;
  double_int : double → Z              (* static_cast<int> *)
}.

(** The text of a finite double is a short literal of a real number, and reading
    it gives the double back. *)
Class DoublesLaws `{Doubles} : Prop := {
  zero_finite : finite zero = true;
  zero_is_zero : is_zero zero = true;
  double_literal d : finite d = true → real_literal (double_text d) = true;
  double_short d : finite d = true → len (double_text d) <= 1024;
  double_again d : finite d = true → text_double (double_text d) = d
}.

(** ** Data *)

Inductive OntologyResource :=
  | File (key : bytes)
  | Entity (key : bytes).

Inductive OntologyValueKind := KResource | KText | KInteger | KReal | KBoolean.

Record OntologyClass := {
  class_key : bytes;
  class_label : bytes;
  class_description : bytes;
  class_parents : list bytes
}.

Record OntologyProperty := {
  property_key : bytes;
  property_label : bytes;
  property_kind : OntologyValueKind;
  domainClass : bytes;
  rangeClass : bytes;
  singleValue : bool;
  acyclic : bool
}.

Record OntologyEntity := { entity_key : bytes; entity_label : bytes; entity_description : bytes }.

#[export] Instance OntologyResource_eq_dec : EqDecision OntologyResource.
Proof. solve_decision. Defined.
#[export] Instance OntologyValueKind_eq_dec : EqDecision OntologyValueKind.
Proof. solve_decision. Defined.
#[export] Instance OntologyClass_eq_dec : EqDecision OntologyClass.
Proof. solve_decision. Defined.
#[export] Instance OntologyProperty_eq_dec : EqDecision OntologyProperty.
Proof. solve_decision. Defined.
#[export] Instance OntologyEntity_eq_dec : EqDecision OntologyEntity.
Proof. solve_decision. Defined.

(** [static_cast<int>(kind)] and back. *)
Definition kind_code (k : OntologyValueKind) : Z :=
  match k with KResource => 0 | KText => 1 | KInteger => 2 | KReal => 3 | KBoolean => 4 end.
Definition kind_of_code (z : Z) : option OntologyValueKind :=
  match z with
  | 0 => Some KResource | 1 => Some KText | 2 => Some KInteger | 3 => Some KReal
  | 4 => Some KBoolean | _ => None
  end.

Definition NUL : ascii := Zbyte 0.

Definition text (s : bytes) (maximum : Z) (required : bool) : result string unit :=
  _ ← check (negb ((required && bool_decide (s = [])) || (maximum <? len s) || has_byte NUL s))
        "invalid ontology text or byte limit";
  _ ← dump (JString s);
  Ok tt.

Definition pageLimit (limit : Z) : result string unit :=
  check ((0 <? limit) && (limit <=? 1024)) "invalid ontology page limit".

Definition resource_key (r : OntologyResource) : bytes := match r with File k | Entity k => k end.

Definition node_key (r : OntologyResource) : bytes :=
  match r with File k => lit "file:" ++ k | Entity k => lit "entity:" ++ k end.

Definition nodeKey (r : OntologyResource) : result string bytes :=
  _ ← text (resource_key r) 1024 true; Ok (node_key r).

Definition resourceKey (key : bytes) : result string OntologyResource :=
  if starts_with (lit "file:") key then Ok (File (drop 5 key)) else
  if starts_with (lit "entity:") key then Ok (Entity (drop 7 key)) else
  Err "corrupt ontology resource key".

(** [j.get<int>()], [j.get<bool>()]. *)
Definition i32 (z : Z) : Z := let u := u32 z in if u <=? INT32_MAX then u else u - 2 ^ 32.
Definition type_error : string := "[json.exception.type_error.302]".
Definition get_bool (j : json) : result string bool :=
  match j with JBool b => Ok b | _ => Err type_error end.

(** [directoryPath]: the parts between slashes. *)
Fixpoint split_path (s : bytes) : list bytes :=
  match s with
  | [] => [[]]
  | c :: s =>
      if bool_decide (c = "/"%char) then [] :: split_path s else
      match split_path s with part :: parts => (c :: part) :: parts | [] => [[c]] end
  end.

Definition directoryPath (path : bytes) : result string unit :=
  _ ← text path 4096 true;
  _ ← check (negb (starts_with (lit "/") path || ends_with (lit "/") path
                   || existsb (one_of "\:") path)) "ontology directory path must be relative";
  check (forallb (λ part, negb (bool_decide (part = []) || bool_decide (part = lit ".")
                                || bool_decide (part = lit ".."))) (split_path path))
    "ontology directory traversal".

(** [std::sort] of strings. *)
Definition bytes_le (a b : bytes) : Prop := bytes_leb a b = true.
#[export] Instance bytes_le_dec : RelDecision bytes_le.
Proof. intros a b. unfold bytes_le. apply _. Defined.
Definition sort_bytes : list bytes → list bytes := merge_sort bytes_le.

(** [std::adjacent_find(...) != end]. *)
Fixpoint adjacent_find (l : list bytes) : bool :=
  match l with
  | a :: l => match l with b :: _ => bool_decide (a = b) | [] => false end || adjacent_find l
  | [] => false
  end.

Fixpoint each_text (l : list bytes) : result string unit :=
  match l with [] => Ok tt | p :: l => _ ← text p 1024 true; each_text l end.

Definition class_value (c : OntologyClass) : json :=
  json_object [(lit "key", JString (class_key c)); (lit "label", JString (class_label c));
    (lit "description", JString (class_description c));
    (lit "parents", JArray (JString <$> sort_bytes (class_parents c)))].

Definition classJson (c : OntologyClass) : result string json :=
  _ ← text (class_key c) 1024 true;
  _ ← text (class_label c) 4096 false;
  _ ← text (class_description c) 16384 false;
  _ ← check (negb (32 <? len (class_parents c))) "too many direct ontology parents";
  _ ← each_text (class_parents c);
  _ ← check (negb (adjacent_find (sort_bytes (class_parents c)))) "duplicate ontology parent";
  Ok (class_value c).

Definition property_value (p : OntologyProperty) : json :=
  json_object [(lit "key", JString (property_key p)); (lit "label", JString (property_label p));
    (lit "kind", JInt (kind_code (property_kind p))); (lit "domain", JString (domainClass p));
    (lit "range", JString (rangeClass p)); (lit "single", JBool (singleValue p));
    (lit "acyclic", JBool (acyclic p))].

Definition propertyJson (p : OntologyProperty) : result string json :=
  _ ← text (property_key p) 1024 true;
  _ ← text (property_label p) 4096 false;
  _ ← text (domainClass p) 1024 false;
  _ ← text (rangeClass p) 1024 false;
  _ ← check (bool_decide (property_kind p = KResource) ||
             negb (negb (bool_decide (rangeClass p = [])) || acyclic p))
        "invalid ontology property definition";
  Ok (property_value p).

(** An entity's document, as [apply] writes it. *)
Definition entity_value (e : OntologyEntity) : json :=
  json_object [(lit "key", JString (entity_key e)); (lit "label", JString (entity_label e));
    (lit "description", JString (entity_description e))].

Section values.
Context `{Doubles}.

Inductive OntologyValue :=
  | VResource (r : OntologyResource)
  | VText (s : bytes)
  | VInteger (z : Z)
  | VReal (d : double)
  | VBoolean (b : bool).

#[export] Instance OntologyValue_eq_dec : EqDecision OntologyValue.
Proof. solve_decision. Defined.

Definition kind (v : OntologyValue) : OntologyValueKind :=
  match v with
  | VResource _ => KResource | VText _ => KText | VInteger _ => KInteger
  | VReal _ => KReal | VBoolean _ => KBoolean
  end.

Definition valueJson (v : OntologyValue) : result string json :=
  match v with
  | VResource r => k ← nodeKey r; Ok (JString k)
  | VText s => _ ← text s 65536 false; Ok (JString s)
  | VInteger z => Ok (JInt z)
  | VReal d =>
      _ ← check (finite d) "non-finite ontology real";
      Ok (JReal (double_text (if is_zero d then zero else d)))
  | VBoolean b => Ok (JBool b)
  end.

Definition get_int (j : json) : result string Z :=
  match j with
  | JInt z => Ok (i32 z)
  | JReal t => Ok (double_int (text_double t))
  | JBool b => Ok (if b then 1 else 0)
  | _ => Err type_error
  end.

Context (json_parse : bytes → option json).

Definition parse (s : bytes) : result string json :=
  of_option "[json.exception.parse_error]"%string (json_parse s).

Definition decodeValue (code : Z) (document : bytes) : result string OntologyValue :=
  _ ← check (negb (400000 <? len document)) "oversize ontology value";
  j ← parse document;
  v ← match kind_of_code code with
      | Some KResource => s ← get_string j; r ← resourceKey s; Ok (VResource r)
      | Some KText => s ← get_string j; Ok (VText s)
      | Some KInteger =>
          match j with
          | JInt z => _ ← check (z <=? INT64_MAX) "invalid ontology integer"; Ok (VInteger z)
          | _ => Err "invalid ontology integer"
          end
      | Some KReal =>
          match j with JReal t => Ok (VReal (text_double t)) | _ => Err "invalid ontology real" end
      | Some KBoolean => b ← get_bool j; Ok (VBoolean b)
      | None => Err "invalid ontology value kind"
      end;
  again ← valueJson v;
  d ← dump again;
  _ ← check (bool_decide (d = document)) "noncanonical ontology value";
  Ok v.

Definition decodeProperty (document : bytes) : result string OntologyProperty :=
  j ← parse document;
  key ← at_key j (lit "key") ≫= get_string;
  label ← at_key j (lit "label") ≫= get_string;
  code ← at_key j (lit "kind") ≫= get_int;
  domain ← at_key j (lit "domain") ≫= get_string;
  range ← at_key j (lit "range") ≫= get_string;
  single ← at_key j (lit "single") ≫= get_bool;
  acyc ← at_key j (lit "acyclic") ≫= get_bool;
  k ← of_option "invalid ontology property definition" (kind_of_code code);
  let p := {| property_key := key; property_label := label; property_kind := k; domainClass := domain;
              rangeClass := range; singleValue := single; acyclic := acyc |} in
  again ← propertyJson p;
  d ← dump again;
  _ ← check (bool_decide (d = document)) "noncanonical ontology property";
  Ok p.

Record OntologyCondition := { condition_property : bytes; equals : option OntologyValue }.
Record OntologyQuery := {
  query_class : bytes;
  includeSubclasses : bool;
  conditions : list OntologyCondition;
  includeDeleted : bool
}.

#[export] Instance OntologyCondition_eq_dec : EqDecision OntologyCondition.
Proof. solve_decision. Defined.
#[export] Instance OntologyQuery_eq_dec : EqDecision OntologyQuery.
Proof. solve_decision. Defined.

Definition condition_json (c : OntologyCondition) : result string json :=
  _ ← text (condition_property c) 1024 true;
  match equals c with
  | None => Ok (json_object [(lit "property", JString (condition_property c))])
  | Some v =>
      j ← valueJson v;
      Ok (json_object [(lit "property", JString (condition_property c));
                       (lit "kind", JInt (kind_code (kind v))); (lit "value", j)])
  end.

Definition query_value (q : OntologyQuery) (items : list json) : json :=
  json_object [(lit "class", JString (query_class q)); (lit "subclasses", JBool (includeSubclasses q));
    (lit "deleted", JBool (includeDeleted q)); (lit "conditions", JArray items)].

Definition queryJson (q : OntologyQuery) : result string json :=
  _ ← text (query_class q) 1024 false;
  _ ← check (negb (16 <? len (conditions q))) "too many ontology query conditions";
  items ← fold_res (λ acc c, j ← condition_json c; Ok (acc ++ [j])) [] (conditions q);
  d ← dump (query_value q items);
  _ ← check (negb (256 * 1024 <? len d)) "ontology query exceeds 256 KiB";
  Ok (query_value q items).

Definition decode_condition (item : json) : result string OntologyCondition :=
  p ← at_key item (lit "property") ≫= get_string;
  match item with
  | JObject l =>
      if contains (lit "value") l then
        code ← at_key item (lit "kind") ≫= get_int;
        v ← at_key item (lit "value");
        d ← dump v;
        v ← decodeValue code d;
        Ok {| condition_property := p; equals := Some v |}
      else Ok {| condition_property := p; equals := None |}
  | _ => Err "unreachable"
  end.

(** A range-based [for] over a JSON value: the items of an array, the values of an
    object, nothing of null, the value itself otherwise. *)
Definition json_items (j : json) : list json :=
  match j with JNull => [] | JArray l => l | JObject l => l.*2 | _ => [j] end.

Definition decodeQuery (j : json) : result string OntologyQuery :=
  class ← at_key j (lit "class") ≫= get_string;
  subclasses ← at_key j (lit "subclasses") ≫= get_bool;
  deleted ← at_key j (lit "deleted") ≫= get_bool;
  items ← at_key j (lit "conditions");
  cs ← fold_res (λ acc item, c ← decode_condition item; Ok (acc ++ [c])) [] (json_items items);
  let q := {| query_class := class; includeSubclasses := subclasses; conditions := cs;
              includeDeleted := deleted |} in
  again ← queryJson q;
  _ ← check (bool_decide (again = j)) "invalid saved ontology query";
  Ok q.

(** ** Changes *)

Inductive OntologyChange :=
  | ChangeClass (c : OntologyClass)
  | ChangeProperty (p : OntologyProperty)
  | ChangeEntity (e : OntologyEntity)
  | ChangeType (resource : OntologyResource) (class : bytes) (present : bool)
  | ChangeAssertion (subject : OntologyResource) (property : bytes) (value : OntologyValue)
      (present : bool)
  | ChangeDirectory (path label : bytes) (query : OntologyQuery)
  | ChangeRemoveDirectory (path : bytes).
End values.
