(* ===== verification/OntologyCodec.v ===== *)
(** The documents of the semantic filesystem are read back as what was written:
    resources, values, properties and saved queries. *)
From S2P Require Import Prelude Text Unicode Json JsonObject JsonUtf8 JsonParser OntologyData.
Local Open Scope Z_scope.

(** ** Resources *)

Lemma resource_node_key r : resourceKey (node_key r) = Ok r.
Proof. by destruct r. Qed.

#[global] Instance node_key_inj : Inj (=) (=) node_key.
Proof. intros a b E. pose proof (resource_node_key a) as Ha. rewrite E, resource_node_key in Ha. by inv_ok. Qed.

Lemma nodeKey_ok r k : nodeKey r = Ok k → k = node_key r.
Proof. unfold nodeKey. intros E. by inv_ok. Qed.

Lemma text_bound s n b u : text s n b = Ok u → len s <= n ∧ (∃ d, dump (JString s) = Ok d) ∧ (b = true → s ≠ []).
Proof.
  unfold text. intros E. inv_ok. split; [by apply Z.ltb_ge|]. split; [by eexists|].
  intros -> ->. by rewrite bool_decide_true in H.
Qed.

(** A value prints in a bounded number of bytes. *)
Lemma escape_byte_short b : len (escape_byte b) <= 6.
Proof. destruct b as [[] [] [] [] [] [] [] []]; vm_compute; discriminate. Qed.

Lemma escape_text_short s : len (escape_text s) <= 6 * len s.
Proof.
  induction s as [|b s IH]; [done|]. change (escape_text (b :: s)) with (escape_byte b ++ escape_text s).
  rewrite length_app. pose proof (escape_byte_short b). cbn [length]. lia.
Qed.

Lemma dump_string_short s d : dump (JString s) = Ok d → len d <= 6 * len s + 2.
Proof.
  intros E. apply dump_string_bytes in E as ->. rewrite !length_app. pose proof (escape_text_short s).
  unfold quote. cbn [length]. lia.
Qed.

Lemma to_string_short z : - 10 ^ 20 < z < 10 ^ 20 → len (to_string z) <= 21.
Proof.
  assert (∀ z, 0 < z < 10 ^ 20 → len (to_string z) <= 20) as Hpos.
  { intros x [H1 H2]. destruct (to_string_lead x H1) as (c & l & E & Hc).
    pose proof (to_string_digits x ltac:(lia)) as Hd. pose proof (to_string_value x ltac:(lia)) as Hv.
    rewrite E in *. rewrite decimal_value_cons in Hv. apply Forall_cons in Hd as [Hdc Hd].
    pose proof (decimal_value_range l Hd). apply digit_value_range in Hdc.
    assert (digit_value c ≠ 0) as Hne.
    { unfold digit_value. intros H0. apply Hc. apply (inj byteZ). change (byteZ "0"%char) with 48. lia. }
    assert (10 ^ len l < 10 ^ 20) as Hlt by nia. apply Z.pow_lt_mono_r_iff in Hlt; [|lia..].
    cbn [length]. lia. }
  intros Hz. destruct (Z.lt_trichotomy z 0) as [Hneg|[->|Hp]].
  - rewrite to_string_neg by done. pose proof (Hpos (- z) ltac:(lia)). cbn [length]. lia.
  - vm_compute. discriminate.
  - pose proof (Hpos z ltac:(lia)). lia.
Qed.

(** ** Values *)

Lemma kind_of_kind k : kind_of_code (kind_code k) = Some k.
Proof. by destruct k. Qed.

Lemma i32_small z : 0 <= z <= INT32_MAX → i32 z = z.
Proof.
  unfold INT32_MAX. intros Hz. unfold i32, INT32_MAX. rewrite u32_small by lia.
  cbv zeta. destruct (Z.leb_spec z 2147483647); lia.
Qed.

Lemma i32_kind k : i32 (kind_code k) = kind_code k.
Proof. apply i32_small. unfold INT32_MAX. destruct k; simpl; lia. Qed.

Section codec.
Context `{DoublesLaws} (json_parse : bytes → option json).
Context (parse_dump : ∀ j d, json_ok j = true → dump j = Ok d → json_parse d = Some j).

(** What a C++ value can hold: integers are 64 bits wide. *)
Definition value_fits (v : OntologyValue) : Prop :=
  match v with VInteger z => - 2 ^ 63 <= z <= INT64_MAX | _ => True end.

(** The value that is stored: negative zero is stored as zero. *)
Definition canonical_value (v : OntologyValue) : OntologyValue :=
  match v with VReal d => VReal (if is_zero d then zero else d) | _ => v end.

Lemma canonical_kind v : kind (canonical_value v) = kind v.
Proof. by destruct v. Qed.

Lemma value_ok v j : valueJson v = Ok j → json_ok j = true.
Proof.
  destruct v; simpl; intros E; inv_ok; try done. apply double_literal.
  destruct (is_zero d); [apply zero_finite|done].
Qed.

Lemma canonical_json v j : valueJson v = Ok j → valueJson (canonical_value v) = Ok j.
Proof.
  destruct v; simpl; try done. intros E. inv_ok. destruct (is_zero d) eqn:Ez.
  - by rewrite zero_finite, zero_is_zero.
  - by rewrite H1, Ez.
Qed.

Lemma value_short v j d : value_fits v → valueJson v = Ok j → dump j = Ok d → len d <= 400000.
Proof.
  intros Hv E Hd. destruct v as [r|s|z|x|b]; simpl in E; inv_ok.
  - unfold nodeKey in H1. inv_ok. apply text_bound in H2 as (Hl & _ & _). apply dump_string_short in Hd.
    assert (len (node_key r) <= len (resource_key r) + 7); [|lia].
    destruct r; cbn [node_key resource_key]; rewrite length_app;
      [change (length (lit "file:")) with 5%nat|change (length (lit "entity:")) with 7%nat]; lia.
  - apply text_bound in H1 as (Hl & _ & _). apply dump_string_short in Hd. lia.
  - apply ok_inj in Hd. subst d. unfold value_fits, INT64_MAX in Hv.
    pose proof (to_string_short z ltac:(lia)). lia.
  - apply ok_inj in Hd. subst d. assert (finite (if is_zero x then zero else x) = true) as Hf.
    { destruct (is_zero x); [apply zero_finite|done]. }
    pose proof (double_short _ Hf). lia.
  - apply ok_inj in Hd. subst d. destruct b; vm_compute; discriminate.
Qed.

Lemma decode_again v j d : value_fits v → valueJson v = Ok j → dump j = Ok d →
  decodeValue json_parse (kind_code (kind v)) d = Ok (canonical_value v).
Proof.
  intros Hv E Hd. pose proof (value_short v j d Hv E Hd) as Hl. pose proof (value_ok v j E) as Hj.
  pose proof (canonical_json v j E) as Hc. unfold decodeValue.
  rewrite (proj2 (Z.ltb_ge 400000 (len d))) by done. cbn [check negb mbind result_bind].
  unfold parse. rewrite (parse_dump j d Hj Hd). cbn [of_option mbind result_bind]. rewrite kind_of_kind.
  assert (match kind v with
    | KResource => s ← get_string j; r ← resourceKey s; Ok (VResource r)
    | KText => s ← get_string j; Ok (VText s)
    | KInteger => match j with
        | JInt z => _ ← check (z <=? INT64_MAX) "invalid ontology integer"%string; Ok (VInteger z)
        | _ => Err "invalid ontology integer"%string end
    | KReal => match j with JReal t => Ok (VReal (text_double t)) | _ => Err "invalid ontology real"%string end
    | KBoolean => b ← get_bool j; Ok (VBoolean b)
    end = Ok (canonical_value v)) as Hm.
  { clear Hl Hc Hj Hd. destruct v as [r|s|z|x|b]; simpl in E; inv_ok; cbn [kind get_string get_bool mbind result_bind canonical_value].
    - apply nodeKey_ok in H1 as ->. by rewrite resource_node_key.
    - done.
    - simpl in Hv. by rewrite (proj2 (Z.leb_le z INT64_MAX)) by lia.
    - rewrite double_again; [done|]. destruct (is_zero x); [apply zero_finite|done].
    - done. }
  destruct (kind v) eqn:Ek; rewrite Hm; cbn [mbind result_bind]; rewrite Hc; cbn [mbind result_bind];
    rewrite Hd; cbn [mbind result_bind]; by rewrite bool_decide_true by done.
Qed.

(** ** Properties *)

Lemma property_again p j d : propertyJson p = Ok j → dump j = Ok d → decodeProperty json_parse d = Ok p.
Proof.
  intros E Hd. assert (j = property_value p) as -> by (unfold propertyJson in E; by inv_ok).
  unfold decodeProperty, parse. rewrite (parse_dump (property_value p) d eq_refl Hd). cbn [of_option mbind result_bind].
  assert (at_key (property_value p) (lit "key") ≫= get_string = Ok (property_key p)) as -> by reflexivity.
  assert (at_key (property_value p) (lit "label") ≫= get_string = Ok (property_label p)) as -> by reflexivity.
  assert (at_key (property_value p) (lit "kind") ≫= get_int = Ok (i32 (kind_code (property_kind p)))) as ->
    by reflexivity.
  assert (at_key (property_value p) (lit "domain") ≫= get_string = Ok (domainClass p)) as -> by reflexivity.
  assert (at_key (property_value p) (lit "range") ≫= get_string = Ok (rangeClass p)) as -> by reflexivity.
  assert (at_key (property_value p) (lit "single") ≫= get_bool = Ok (singleValue p)) as -> by reflexivity.
  assert (at_key (property_value p) (lit "acyclic") ≫= get_bool = Ok (acyclic p)) as -> by reflexivity.
  cbn [mbind result_bind]. rewrite i32_kind, kind_of_kind. cbn [of_option mbind result_bind].
  destruct p as [k l kd dom ran single acyc]. cbn [property_key property_label property_kind domainClass
    rangeClass singleValue acyclic] in *.
  rewrite E. cbn [mbind result_bind]. rewrite Hd. cbn [mbind result_bind]. by rewrite bool_decide_true by done.
Qed.

(** ** Queries *)

Definition canonical_condition (c : OntologyCondition) : OntologyCondition :=
  {| condition_property := condition_property c; equals := canonical_value <$> equals c |}.

Definition canonical_query (q : OntologyQuery) : OntologyQuery :=
  {| query_class := query_class q; includeSubclasses := includeSubclasses q;
     conditions := canonical_condition <$> conditions q; includeDeleted := includeDeleted q |}.

Definition query_fits (q : OntologyQuery) : Prop :=
  Forall (λ c, ∀ v, equals c = Some v → value_fits v) (conditions q).

Lemma condition_canonical c j : condition_json c = Ok j → condition_json (canonical_condition c) = Ok j.
Proof.
  unfold condition_json. intros E. cbn [canonical_condition condition_property equals].
  destruct (text (condition_property c) 1024 true); cbn [mbind result_bind] in *; [|done].
  destruct (equals c) as [v|]; cbn [fmap option_fmap option_map] in *; [|done].
  apply bind_ok in E as (x & Hx & E). rewrite (canonical_json v x Hx), canonical_kind. done.
Qed.

Lemma condition_ok c j : condition_json c = Ok j → json_ok j = true.
Proof.
  unfold condition_json. intros E. apply bind_ok in E as ([] & _ & E). destruct (equals c) as [v|].
  - apply bind_ok in E as (w & Hx & E). apply ok_inj in E. subst j. apply value_ok in Hx.
    simpl. by rewrite Hx.
  - by apply ok_inj in E as <-.
Qed.

(** A printed document has printed parts. *)
Lemma member_dump k v l d : dump (JObject l) = Ok d → member k l = Some v → ∃ t, dump v = Ok t.
Proof.
  cbn [dump]. intros E Hm. apply bind_ok in E as (items & E & _). revert items E Hm.
  induction l as [|[k' x] l IH]; intros items E Hm; [done|]. simpl in Hm.
  apply bind_ok in E as (dk & _ & E). apply bind_ok in E as (t & Ht & E). apply bind_ok in E as (ts & Hts & _).
  case_bool_decide; [injection Hm as <-; by exists t|by apply (IH ts)].
Qed.

Lemma items_dump l d : dump (JArray l) = Ok d → Forall (λ x, ∃ t, dump x = Ok t) l.
Proof.
  cbn [dump]. intros E. apply bind_ok in E as (items & E & _). revert items E.
  induction l as [|x l IH]; intros items E; [done|].
  apply bind_ok in E as (t & Ht & E). apply bind_ok in E as (ts & Hts & _).
  constructor; [by exists t|by apply (IH ts)].
Qed.

Lemma condition_again c j t : (∀ v, equals c = Some v → value_fits v) → condition_json c = Ok j →
  dump j = Ok t → decode_condition json_parse j = Ok (canonical_condition c).
Proof.
  intros Hv E Ht. unfold condition_json in E. apply bind_ok in E as ([] & _ & E).
  destruct c as [k [v|]]; cbn [equals condition_property canonical_condition fmap option_fmap option_map] in *.
  - apply bind_ok in E as (x & Hx & E). apply ok_inj in E. subst j. unfold json_object in Ht |- *.
    assert (∃ dx, dump x = Ok dx) as [dx Hdx] by (apply (member_dump (lit "value") x _ t Ht); reflexivity).
    change (decode_condition json_parse _) with
      (t ← dump x; v ← decodeValue json_parse (i32 (kind_code (kind v))) t;
       Ok {| condition_property := k; equals := Some v |}).
    rewrite Hdx, i32_kind. cbn [mbind result_bind].
    by rewrite (decode_again v x dx (Hv v eq_refl) Hx Hdx).
  - apply ok_inj in E. subst j. reflexivity.
Qed.

Lemma conditions_fold cs acc items :
  fold_res (λ acc c, j ← condition_json c; Ok (acc ++ [j])) acc cs = Ok items ↔
  ∃ js, Forall2 (λ c j, condition_json c = Ok j) cs js ∧ items = acc ++ js.
Proof.
  revert acc. induction cs as [|c cs IH]; intros acc; simpl.
  - split; [intros [= <-]; exists []; by rewrite app_nil_r|].
    intros (js & Hjs & ->). inversion Hjs. by rewrite app_nil_r.
  - split.
    + intros (acc' & Ha & E)%bind_ok. apply bind_ok in Ha as (j & Hj & Ha). apply ok_inj in Ha. subst acc'.
      apply IH in E as (js & Hjs & ->). exists (j :: js). split; [by constructor|by rewrite <-app_assoc].
    + intros (js & Hjs & ->). inversion Hjs as [|? j ? js' Hj Hjs']; subst. rewrite Hj. cbn [mbind result_bind].
      apply IH. exists js'. split; [done|]. by rewrite <-app_assoc.
Qed.

Lemma query_inv q j : queryJson q = Ok j → ∃ items d, j = query_value q items ∧ dump j = Ok d ∧
  Forall2 (λ c j, condition_json c = Ok j) (conditions q) items.
Proof.
  unfold queryJson. intros E. apply bind_ok in E as ([] & _ & E). apply bind_ok in E as ([] & _ & E).
  apply bind_ok in E as (items & Hi & E). apply bind_ok in E as (d & Hd & E). apply bind_ok in E as ([] & _ & E).
  apply ok_inj in E. subst j. apply conditions_fold in Hi as (js & Hjs & ->). by exists js, d.
Qed.

Lemma query_canonical q j : queryJson q = Ok j → queryJson (canonical_query q) = Ok j.
Proof.
  unfold queryJson. cbn [canonical_query query_class conditions]. intros E.
  apply bind_ok in E as ([] & -> & E). cbn [mbind result_bind]. apply bind_ok in E as ([] & Hn & E).
  rewrite length_fmap, Hn. cbn [mbind result_bind]. apply bind_ok in E as (items & Hi & E).
  assert (fold_res (λ acc c, j ← condition_json c; Ok (acc ++ [j])) [] (canonical_condition <$> conditions q) = Ok items) as ->.
  { apply conditions_fold in Hi as (js & Hjs & ->). apply conditions_fold. exists js. split; [|done].
    rewrite Forall2_fmap_l. eapply Forall2_impl; [exact Hjs|]. intros c x. apply condition_canonical. }
  cbn [mbind result_bind]. exact E.
Qed.

Lemma query_ok q j : queryJson q = Ok j → json_ok j = true.
Proof.
  intros E. destruct (query_inv q j E) as (items & d & -> & _ & Hi).
  assert (forallb json_ok items = true) as Hok.
  { apply forallb_forall. intros x Hx. apply list_elem_of_In, list_elem_of_lookup in Hx as [i Hx].
    destruct (Forall2_lookup_r _ _ _ _ _ Hi Hx) as (c & _ & Hc). by apply (condition_ok c). }
  simpl. by rewrite Hok.
Qed.

Lemma query_again q j : query_fits q → queryJson q = Ok j →
  decodeQuery json_parse j = Ok (canonical_query q).
Proof.
  intros Hf E. pose proof (query_canonical q j E) as Hc.
  destruct (query_inv q j E) as (items & d & Ej & Hd & Hi).
  assert (fold_res (λ acc item, c ← decode_condition json_parse item; Ok (acc ++ [c])) []
            items = Ok (canonical_condition <$> conditions q)) as Hfold.
  { assert (Forall (λ x, ∃ t, dump x = Ok t) items) as Ht.
    { rewrite Ej in Hd. unfold query_value, json_object in Hd.
      destruct (member_dump (lit "conditions") (JArray items) _ d Hd) as [t Ht]; [reflexivity|].
      by apply items_dump in Ht. }
    unfold query_fits in Hf. clear E Hc Ej Hd.
    assert (∀ acc, fold_res (λ acc item, c ← decode_condition json_parse item; Ok (acc ++ [c])) acc
              items = Ok (acc ++ (canonical_condition <$> conditions q))) as Hgen; [|apply Hgen].
    revert Hf Ht. induction Hi as [|c x cs items Hx _ IH]; intros Hf Ht acc; csimpl; [by rewrite app_nil_r|].
    apply Forall_cons in Hf as [Hfc Hf]. apply Forall_cons in Ht as [[t Htx] Ht].
    rewrite (condition_again c x t Hfc Hx Htx). cbn [mbind result_bind]. rewrite IH by done. by rewrite <-app_assoc. }
  subst j. assert (decodeQuery json_parse (query_value q items) =
    (cs ← fold_res (λ acc item, c ← decode_condition json_parse item; Ok (acc ++ [c])) [] items;
     let r := {| query_class := query_class q; includeSubclasses := includeSubclasses q; conditions := cs;
                 includeDeleted := includeDeleted q |} in
     again ← queryJson r;
     _ ← check (bool_decide (again = query_value q items)) "invalid saved ontology query"%string;
     Ok r)) as -> by reflexivity.
  rewrite Hfold. cbn [mbind result_bind]. cbv zeta.
  change {| query_class := query_class q; includeSubclasses := includeSubclasses q;
     conditions := canonical_condition <$> conditions q; includeDeleted := includeDeleted q |}
    with (canonical_query q).
  rewrite Hc. cbn [mbind result_bind]. by rewrite bool_decide_true.
Qed.
End codec.
