(* ===== verification/OntologyStore.v ===== *)
(** The tables of the semantic filesystem (src/Objects/OntologySchema_p.h) and the
    transaction that changes them: [OntologyFileSystem::Impl] and
    [OntologyFileSystem::apply] of src/Objects/OntologyFileSystem.cpp.

    The tables live in the object package; the objects and sessions they refer to
    are read from it and never written.  [apply] works on a copy and either
    commits it or throws and leaves the tables as they were. *)
From S2P Require Import Prelude Text Json JsonObject Table Closure ObjectData ObjectPackage.
From S2P Require Import ObjectStore OntologyData.
Local Open Scope Z_scope.

(** ** Tables *)

Record NodeRow := { node_object : option bytes; node_document : bytes }.

Record StatementRow := {
  st_subject : bytes;
  st_predicate : bytes;
  st_kind : Z;
  st_value : bytes;
  st_object : option bytes
}.

Record EventRow := {
  event_revision : Z;
  event_operation : bytes;
  event_subject : bytes;
  event_before : bytes;
  event_after : bytes
}.

#[export] Instance NodeRow_eq_dec : EqDecision NodeRow.
Proof. solve_decision. Defined.
#[export] Instance StatementRow_eq_dec : EqDecision StatementRow.
Proof. solve_decision. Defined.
#[export] Instance EventRow_eq_dec : EqDecision EventRow.
Proof. solve_decision. Defined.

Record Ontology := {
  revision : Z;                                  (* ontology_state *)
  classes : gmap bytes (bytes * bytes);          (* label, description *)
  parents : gset (bytes * bytes);                (* child, parent *)
  properties : gmap bytes bytes;                 (* document *)
  nodes : gmap bytes NodeRow;
  types : gset (bytes * bytes);                  (* resource_key, class_key *)
  statements : table StatementRow;               (* sequence *)
  statement_counter : Z;
  directories : gmap bytes bytes;                (* path, document *)
  directory_properties : gset (bytes * bytes);   (* path, predicate *)
  commits : gmap Z (bytes * Z);                  (* revision, session_key, at_ns *)
  journal : table EventRow;                      (* sequence *)
  journal_counter : Z
}.

(** What [ontologySchema] creates. *)
Definition empty_ontology : Ontology :=
  {| revision := 0; classes := ∅; parents := ∅; properties := ∅; nodes := ∅; types := ∅;
     statements := []; statement_counter := 0; directories := ∅; directory_properties := ∅;
     commits := ∅; journal := []; journal_counter := 0 |}.

(** The tables [apply] changes one at a time. *)
Definition set_revision (x : Z) (o : Ontology) : Ontology :=
  {| revision := x; classes := classes o; parents := parents o; properties := properties o;
     nodes := nodes o; types := types o; statements := statements o;
     statement_counter := statement_counter o; directories := directories o;
     directory_properties := directory_properties o; commits := commits o; journal := journal o;
     journal_counter := journal_counter o |}.
Definition set_classes (x : gmap bytes (bytes * bytes)) (y : gset (bytes * bytes)) (o : Ontology) : Ontology :=
  {| revision := revision o; classes := x; parents := y; properties := properties o;
     nodes := nodes o; types := types o; statements := statements o;
     statement_counter := statement_counter o; directories := directories o;
     directory_properties := directory_properties o; commits := commits o; journal := journal o;
     journal_counter := journal_counter o |}.
Definition set_properties (x : gmap bytes bytes) (o : Ontology) : Ontology :=
  {| revision := revision o; classes := classes o; parents := parents o; properties := x;
     nodes := nodes o; types := types o; statements := statements o;
     statement_counter := statement_counter o; directories := directories o;
     directory_properties := directory_properties o; commits := commits o; journal := journal o;
     journal_counter := journal_counter o |}.
Definition set_nodes (x : gmap bytes NodeRow) (o : Ontology) : Ontology :=
  {| revision := revision o; classes := classes o; parents := parents o; properties := properties o;
     nodes := x; types := types o; statements := statements o;
     statement_counter := statement_counter o; directories := directories o;
     directory_properties := directory_properties o; commits := commits o; journal := journal o;
     journal_counter := journal_counter o |}.
Definition set_types (x : gset (bytes * bytes)) (o : Ontology) : Ontology :=
  {| revision := revision o; classes := classes o; parents := parents o; properties := properties o;
     nodes := nodes o; types := x; statements := statements o;
     statement_counter := statement_counter o; directories := directories o;
     directory_properties := directory_properties o; commits := commits o; journal := journal o;
     journal_counter := journal_counter o |}.
Definition set_statements (x : table StatementRow) (n : Z) (o : Ontology) : Ontology :=
  {| revision := revision o; classes := classes o; parents := parents o; properties := properties o;
     nodes := nodes o; types := types o; statements := x; statement_counter := n;
     directories := directories o; directory_properties := directory_properties o;
     commits := commits o; journal := journal o; journal_counter := journal_counter o |}.
Definition set_directories (x : gmap bytes bytes) (y : gset (bytes * bytes)) (o : Ontology) : Ontology :=
  {| revision := revision o; classes := classes o; parents := parents o; properties := properties o;
     nodes := nodes o; types := types o; statements := statements o;
     statement_counter := statement_counter o; directories := x; directory_properties := y;
     commits := commits o; journal := journal o; journal_counter := journal_counter o |}.
Definition set_commits (x : gmap Z (bytes * Z)) (o : Ontology) : Ontology :=
  {| revision := revision o; classes := classes o; parents := parents o; properties := properties o;
     nodes := nodes o; types := types o; statements := statements o;
     statement_counter := statement_counter o; directories := directories o;
     directory_properties := directory_properties o; commits := x; journal := journal o;
     journal_counter := journal_counter o |}.
Definition set_journal (x : table EventRow) (n : Z) (o : Ontology) : Ontology :=
  {| revision := revision o; classes := classes o; parents := parents o; properties := properties o;
     nodes := nodes o; types := types o; statements := statements o;
     statement_counter := statement_counter o; directories := directories o;
     directory_properties := directory_properties o; commits := commits o; journal := x;
     journal_counter := n |}.

(** A batch in progress: the tables, the temporary tables of changed nodes and
    properties, and the counters of [apply]. *)
Record Batch := {
  onto : Ontology;
  changed_nodes : gset bytes;
  changed_properties : gset bytes;
  hierarchyChanged : bool;
  journalBytes : Z;
  events : Z
}.

Definition set_onto (f : Ontology → Ontology) (b : Batch) : Batch :=
  {| onto := f (onto b); changed_nodes := changed_nodes b; changed_properties := changed_properties b;
     hierarchyChanged := hierarchyChanged b; journalBytes := journalBytes b; events := events b |}.
Definition changedNode (key : bytes) (b : Batch) : Batch :=
  {| onto := onto b; changed_nodes := {[key]} ∪ changed_nodes b;
     changed_properties := changed_properties b; hierarchyChanged := hierarchyChanged b;
     journalBytes := journalBytes b; events := events b |}.
Definition changedProperty (key : bytes) (b : Batch) : Batch :=
  {| onto := onto b; changed_nodes := changed_nodes b;
     changed_properties := {[key]} ∪ changed_properties b; hierarchyChanged := hierarchyChanged b;
     journalBytes := journalBytes b; events := events b |}.
Definition set_hierarchy (x : bool) (b : Batch) : Batch :=
  {| onto := onto b; changed_nodes := changed_nodes b; changed_properties := changed_properties b;
     hierarchyChanged := hierarchyChanged b || x; journalBytes := journalBytes b; events := events b |}.

Definition maximumBatchChanges : Z := 256.
Definition maximumBatchJournalBytes : Z := 4 * 1024 * 1024.

(** [INSERT INTO ontology_journal(...)] for a change that makes a difference. *)
Definition event (next : Z) (operation : string) (subject before after : bytes) (b : Batch) :
    result string Batch :=
  if bool_decide (before = after) then Ok b else
  let size := journalBytes b + (len before + len after) in
  _ ← check (negb (maximumBatchJournalBytes <? size)) "ontology batch journal exceeds 4 MiB";
  _ ← bind before;
  _ ← bind after;
  n ← next_sequence (journal_counter (onto b));
  t ← of_option unique (row_insert n {| event_revision := next; event_operation := lit operation;
        event_subject := subject; event_before := before; event_after := after |} (journal (onto b)));
  Ok {| onto := set_journal t n (onto b); changed_nodes := changed_nodes b;
        changed_properties := changed_properties b; hierarchyChanged := hierarchyChanged b;
        journalBytes := size; events := events b + 1 |}.

(** ** Reads *)

(** [SELECT 1 FROM ontology_classes WHERE key=?]; the empty key is no class. *)
Definition classExists (o : Ontology) (key : bytes) : result string unit :=
  check (bool_decide (key = []) || bool_decide (is_Some (classes o !! key))) "ontology class not found".

(** The parents of a class, in their order. *)
Definition parents_of (o : Ontology) (key : bytes) : list bytes :=
  sort_bytes (filter (λ e, e.1 = key) (elements (parents o))).*2.

Definition getClass (o : Ontology) (key : bytes) : option OntologyClass :=
  '(label, description) ← classes o !! key;
  Some {| class_key := key; class_label := label; class_description := description;
          class_parents := parents_of o key |}.

(** The lineage of a resource: its classes and all their ancestors. *)
Definition lineage (o : Ontology) (resource : bytes) : gset bytes :=
  reach (elements (parents o)) (list_to_set (filter (λ e, e.1 = resource) (elements (types o))).*2).

Definition hasType (o : Ontology) (resource class : bytes) : bool :=
  bool_decide (class = []) || bool_decide (class ∈ lineage o resource).

(** The resources a relation leads to from a resource. *)
Definition relation_edges (o : Ontology) (predicate : bytes) : list (bytes * bytes) :=
  omap (λ s, if bool_decide (st_predicate s.2 = predicate)
             then object ← st_object s.2; Some (st_subject s.2, object) else None) (statements o).

Definition same_statement (subject predicate : bytes) (kind : Z) (value : bytes) (s : StatementRow) : bool :=
  bool_decide (st_subject s = subject) && bool_decide (st_predicate s = predicate)
  && (st_kind s =? kind) && bool_decide (st_value s = value).

Definition resourceExists (p : Package) (o : Ontology) (r : OntologyResource) (live : bool) :
    result string unit :=
  key ← nodeKey r;
  match r with
  | File k => check (match find_object p k with
                     | Some (_, row) => negb (live && object_deleted row) | None => false end)
                "ontology file is missing or deleted"
  | Entity _ => check (bool_decide (is_Some (nodes o !! key))) "ontology entity not found"
  end.

Definition ensureResource (p : Package) (o : Ontology) (r : OntologyResource) : result string Ontology :=
  _ ← resourceExists p o r true;
  match r with
  | File k =>
      key ← nodeKey r;
      match nodes o !! key with
      | Some _ => Ok o
      | None => Ok (set_nodes (<[key := {| node_object := Some k; node_document := [] |}]> (nodes o)) o)
      end
  | Entity _ => Ok o
  end.

Section apply.
Context `{Doubles} (json_parse : bytes → option json).

Definition getProperty (o : Ontology) (key : bytes) : result string (option OntologyProperty) :=
  match properties o !! key with
  | None => Ok None
  | Some document => p ← decodeProperty json_parse document; Ok (Some p)
  end.

Definition condition_valid (p : Package) (o : Ontology) (c : OntologyCondition) : result string unit :=
  d ← getProperty o (condition_property c);
  d ← of_option "ontology query property not found" d;
  match equals c with
  | None => Ok tt
  | Some v =>
      _ ← check (bool_decide (kind v = property_kind d)) "ontology query value type mismatch";
      match v with VResource r => resourceExists p o r false | _ => Ok tt end
  end.

Definition queryValid (p : Package) (o : Ontology) (q : OntologyQuery) : result string unit :=
  _ ← queryJson q;
  _ ← classExists o (query_class q);
  fold_res (λ _ c, condition_valid p o c) tt (conditions q).

(** One row of [validateStatements]; what the code caches is read again here. *)
Definition validate_statement (o : Ontology) (s : StatementRow) : result string unit :=
  d ← getProperty o (st_predicate s);
  d ← of_option "ontology property domain or value type violation" d;
  _ ← check ((kind_code (property_kind d) =? st_kind s) && hasType o (st_subject s) (domainClass d))
        "ontology property domain or value type violation";
  v ← decodeValue json_parse (st_kind s) (st_value s);
  _ ← match v with
      | VResource r =>
          k ← nodeKey r; check (hasType o k (rangeClass d)) "ontology property range violation"
      | _ => Ok tt
      end;
  _ ← check (negb (singleValue d) ||
             (len (filter (λ x, st_subject x.2 = st_subject s ∧ st_predicate x.2 = st_predicate s)
                     (statements o)) <=? 1)) "ontology single-value property violation";
  if acyclic d then
    match v with
    | VResource r =>
        k ← nodeKey r;
        check (negb (bool_decide (st_subject s ∈ reach (relation_edges o (st_predicate s)) {[k]})))
          "cyclic ontology relation"
    | _ => Err "std::bad_variant_access"
    end
  else Ok tt.

(** The statements a batch can have made wrong. *)
Definition affected (b : Batch) (s : StatementRow) : bool :=
  bool_decide (st_subject s ∈ changed_nodes b)
  || match st_object s with Some k => bool_decide (k ∈ changed_nodes b) | None => false end
  || bool_decide (st_predicate s ∈ changed_properties b).

Definition validateStatements (all : bool) (b : Batch) : result string unit :=
  fold_res (λ _ s, if all || affected b s.2 then validate_statement (onto b) s.2 else Ok tt) tt
    (statements (onto b)).

(** ** One change *)

Definition addParent (child parent : bytes) (o : Ontology) : result string Ontology :=
  _ ← check (negb (bool_decide ((child, parent) ∈ parents o))) unique;
  _ ← check (bool_decide (is_Some (classes o !! child)) && bool_decide (is_Some (classes o !! parent)))
        foreign_key;
  Ok (set_classes (classes o) ({[(child, parent)]} ∪ parents o) o).

Definition ancestors (o : Ontology) (key : bytes) : gset bytes :=
  reach (elements (parents o)) (list_to_set (filter (λ e, e.1 = key) (elements (parents o))).*2).

Definition change_class (next : Z) (c : OntologyClass) (b : Batch) : result string Batch :=
  after ← classJson c;
  let old := getClass (onto b) (class_key c) in
  before ← match old with Some old => j ← classJson old; dump j | None => Ok [] end;
  after ← dump after;
  if bool_decide (before = after) then Ok b else
  _ ← fold_res (λ _ p, classExists (onto b) p) tt (class_parents c);
  let b := set_onto (λ o, set_classes (<[class_key c := (class_label c, class_description c)]> (classes o))
                            (parents o) o) b in
  b ← if match old with
         | None => true
         | Some old => negb (bool_decide (sort_bytes (class_parents old) = sort_bytes (class_parents c)))
         end then
        let b := set_onto (λ o, set_classes (classes o) (filter (λ e, e.1 ≠ class_key c) (parents o)) o) b in
        o ← fold_res (λ o p, addParent (class_key c) p o) (onto b) (class_parents c);
        let b := set_onto (λ _, o) b in
        _ ← check (negb (bool_decide (class_key c ∈ ancestors (onto b) (class_key c))))
              "cyclic ontology class hierarchy";
        Ok (set_hierarchy (match old with Some _ => true | None => false end) b)
      else Ok b;
  event next "class" (class_key c) before after b.

Definition change_property (next : Z) (p : OntologyProperty) (b : Batch) : result string Batch :=
  after ← propertyJson p ≫= dump;
  _ ← classExists (onto b) (domainClass p);
  _ ← classExists (onto b) (rangeClass p);
  old ← getProperty (onto b) (property_key p);
  before ← match old with Some old => propertyJson old ≫= dump | None => Ok [] end;
  if bool_decide (before = after) then Ok b else
  let b := set_onto (λ o, set_properties (<[property_key p := after]> (properties o)) o) b in
  event next "property" (property_key p) before after (changedProperty (property_key p) b).

Definition change_entity (next : Z) (e : OntologyEntity) (b : Batch) : result string Batch :=
  _ ← text (entity_key e) 1024 true;
  _ ← text (entity_label e) 4096 false;
  _ ← text (entity_description e) 16384 false;
  key ← nodeKey (Entity (entity_key e));
  after ← dump (entity_value e);
  let before := from_option node_document [] (nodes (onto b) !! key) in
  if bool_decide (before = after) then Ok b else
  let row := {| node_object := nodes (onto b) !! key ≫= node_object; node_document := after |} in
  event next "entity" key before after
    (set_onto (λ o, set_nodes (<[key := row]> (nodes o)) o) b).

(** [ensureResource] when the change adds, [resourceExists(.., false)] when it removes. *)
Definition use_resource (p : Package) (present : bool) (r : OntologyResource) (b : Batch) :
    result string Batch :=
  if present then o ← ensureResource p (onto b) r; Ok (set_onto (λ _, o) b)
  else _ ← resourceExists p (onto b) r false; Ok b.

Definition change_type (p : Package) (next : Z) (r : OntologyResource) (class : bytes) (present : bool)
    (b : Batch) : result string Batch :=
  _ ← classExists (onto b) class;
  _ ← text class 1024 true;
  b ← use_resource p present r b;
  key ← nodeKey r;
  let found := bool_decide ((key, class) ∈ types (onto b)) in
  _ ← check (negb present || (bool_decide (is_Some (nodes (onto b) !! key))
                              && bool_decide (is_Some (classes (onto b) !! class)))) foreign_key;
  if Bool.eqb found present then Ok b else
  let b := set_onto (λ o, set_types (if present then {[(key, class)]} ∪ types o
                                     else types o ∖ {[(key, class)]}) o) b in
  value ← dump (json_object [(lit "class", JString class)]);
  b ← event next "type" key (if present then [] else value) (if present then value else []) b;
  Ok (changedNode key b).

(** [INSERT OR IGNORE INTO ontology_statements(...)]: an ignored row uses its
    sequence number up. *)
Definition insert_statement (s : StatementRow) (o : Ontology) : result string (bool * Ontology) :=
  n ← next_sequence (statement_counter o);
  if existsb (λ x, same_statement (st_subject s) (st_predicate s) (st_kind s) (st_value s) x.2) (statements o)
  then Ok (false, set_statements (statements o) n o)
  else
    _ ← check (bool_decide (is_Some (nodes o !! st_subject s))
               && bool_decide (is_Some (properties o !! st_predicate s))
               && match st_object s with Some k => bool_decide (is_Some (nodes o !! k)) | None => true end)
          foreign_key;
    t ← of_option unique (row_insert n s (statements o));
    Ok (true, set_statements t n o).

Definition delete_statement (s : StatementRow) (o : Ontology) : bool * Ontology :=
  let same := λ x : Z * StatementRow,
    same_statement (st_subject s) (st_predicate s) (st_kind s) (st_value s) x.2 in
  (existsb same (statements o),
   set_statements (filter (λ x, same x = false) (statements o)) (statement_counter o) o).

Definition change_assertion (p : Package) (next : Z) (r : OntologyResource) (property : bytes)
    (v : OntologyValue) (present : bool) (b : Batch) : result string Batch :=
  _ ← text property 1024 true;
  d ← getProperty (onto b) property;
  d ← of_option "ontology assertion type mismatch" d;
  _ ← check (negb present || bool_decide (property_kind d = kind v)) "ontology assertion type mismatch";
  b ← use_resource p present r b;
  subject ← nodeKey r;
  j ← valueJson v;
  value ← dump j;
  b ← match v with VResource target => use_resource p present target b | _ => Ok b end;
  object ← match v with VResource target => nodeKey target | _ => Ok [] end;
  _ ← bind value;
  let row := {| st_subject := subject; st_predicate := property; st_kind := kind_code (kind v);
                st_value := value; st_object := if bool_decide (object = []) then None else Some object |} in
  '(changes, o) ← if present then insert_statement row (onto b) else Ok (delete_statement row (onto b));
  let b := set_onto (λ _, o) b in
  if negb changes then Ok b else
  document ← dump (json_object [(lit "property", JString property);
                                (lit "kind", JInt (kind_code (kind v))); (lit "value", j)]);
  b ← event next "statement" subject (if present then [] else document) (if present then document else []) b;
  let b := changedNode subject b in
  Ok (if bool_decide (object = []) then b else changedNode object b).

Definition addDirectoryProperty (path predicate : bytes) (o : Ontology) : result string Ontology :=
  _ ← check (bool_decide (is_Some (properties o !! predicate))) foreign_key;
  Ok (set_directories (directories o) ({[(path, predicate)]} ∪ directory_properties o) o).

Definition clear_directory (path : bytes) (o : Ontology) : Ontology :=
  set_directories (directories o) (filter (λ e, e.1 ≠ path) (directory_properties o)) o.

Definition directory_value (label : bytes) (query : json) : json :=
  json_object [(lit "label", JString label); (lit "query", query)].

Definition change_directory (p : Package) (next : Z) (path label : bytes) (q : OntologyQuery)
    (b : Batch) : result string Batch :=
  _ ← directoryPath path;
  _ ← text label 4096 false;
  _ ← queryValid p (onto b) q;
  j ← queryJson q;
  after ← dump (directory_value label j);
  let before := default [] (directories (onto b) !! path) in
  if bool_decide (before = after) then Ok b else
  _ ← bind after;
  let b := set_onto (λ o, set_directories (<[path := after]> (directories o)) (directory_properties o) o) b in
  b ← event next "directory" path before after b;
  o ← fold_res (λ o c, addDirectoryProperty path (condition_property c) o) (clear_directory path (onto b))
        (conditions q);
  Ok (set_onto (λ _, o) b).

Definition remove_directory (next : Z) (path : bytes) (b : Batch) : result string Batch :=
  _ ← directoryPath path;
  match directories (onto b) !! path with
  | None => Ok b
  | Some before =>
      event next "directory" path before []
        (set_onto (λ o, clear_directory path
           (set_directories (delete path (directories o)) (directory_properties o) o)) b)
  end.

Definition change (p : Package) (next : Z) (c : OntologyChange) (b : Batch) : result string Batch :=
  match c with
  | ChangeClass c => change_class next c b
  | ChangeProperty d => change_property next d b
  | ChangeEntity e => change_entity next e b
  | ChangeType r class present => change_type p next r class present b
  | ChangeAssertion r property v present => change_assertion p next r property v present b
  | ChangeDirectory path label q => change_directory p next path label q b
  | ChangeRemoveDirectory path => remove_directory next path b
  end.

(** ** The transaction *)

Definition cancelled : string := "ontology operation cancelled".

(** Each change is preceded by a look at the stop token. *)
Fixpoint changes_loop (p : Package) (stop : nat → bool) (poll : nat) (next : Z)
    (changes : list OntologyChange) (b : Batch) : result string Batch :=
  match changes with
  | [] => Ok b
  | c :: changes =>
      _ ← check (negb (stop poll)) cancelled;
      b ← change p next c b;
      changes_loop p stop (S poll) next changes b
  end.

(** The saved queries that use a changed property. *)
Definition directory_affected (b : Batch) (path : bytes) : bool :=
  existsb (λ e, bool_decide (e.1 = path) && bool_decide (e.2 ∈ changed_properties b))
    (elements (directory_properties (onto b))).

Definition saved_query (document : bytes) : result string OntologyQuery :=
  j ← parse json_parse document; q ← at_key j (lit "query"); decodeQuery json_parse q.

Definition validateDirectories (p : Package) (b : Batch) : result string unit :=
  fold_res (λ _ d, if directory_affected b d.1
                   then q ← saved_query d.2; queryValid p (onto b) q else Ok tt) tt
    (map_to_list (directories (onto b))).

Definition start_batch (o : Ontology) : Batch :=
  {| onto := o; changed_nodes := ∅; changed_properties := ∅; hierarchyChanged := false;
     journalBytes := 0; events := 0 |}.

(** The body of the transaction: the new tables and the revision returned. *)
Definition apply_body (p : Package) (e : Env) (stop : nat → bool) (changes : list OntologyChange)
    (expected : Z) (session : bytes) (o : Ontology) : result string (Z * Ontology) :=
  _ ← check (negb (stop 1%nat)) cancelled;
  let previous := u64 (revision o) in
  _ ← check (negb (negb (expected =? previous) || (INT64_MAX <=? expected))) "ontology revision conflict";
  _ ← check (match sessions p !! session with Some s => endedAtNs s =? 0 | None => false end)
        "ontology requires an active work session";
  let next := previous + 1 in
  b ← changes_loop p stop 2 next changes (start_batch o);
  let last := (2 + length changes)%nat in
  if events b =? 0 then _ ← check (negb (stop last)) cancelled; Ok (previous, onto b) else
  _ ← validateStatements (hierarchyChanged b) b;
  _ ← validateDirectories p b;
  _ ← check (bool_decide (commits (onto b) !! next = None)) unique;
  let o := set_revision next (set_commits (<[next := (session, clock e 0)]> (commits (onto b))) (onto b)) in
  _ ← check (negb (stop last)) cancelled;
  Ok (next, o).

Definition apply (p : Package) (readOnly : bool) (e : Env) (stop : nat → bool)
    (changes : list OntologyChange) (expected : Z) (session : bytes) (o : Ontology) :
    result string Z * Ontology :=
  match
    _ ← check (negb (stop 0%nat)) cancelled;
    _ ← check (negb (bool_decide (changes = []) || (maximumBatchChanges <? len changes)))
          "ontology batch must contain 1 to 256 changes";
    _ ← text session 1024 true;
    _ ← check (negb readOnly) "read-only ontology";
    apply_body p e stop changes expected session o
  with
  | Err m => (Err m, o)
  | Ok (r, o') => match commit_error e with Some m => (Err m, o) | None => (Ok r, o') end
  end.
End apply.
