(* ===== verification/OntologyLaws.v ===== *)
(** What the semantic filesystem keeps true.  A batch validates only the statements
    it can have touched; together with what was true before, that makes every
    statement valid.  The file states the invariant of a batch in progress and
    shows that each change keeps it. *)
From stdpp Require Import relations.
From S2P Require Import Prelude Text Json JsonObject Table Closure ObjectData ObjectPackage ObjectStore.
From S2P Require Import OntologyData OntologyCodec OntologyStore.
Local Open Scope Z_scope.

(** ** Lineages *)

Definition parent (o : Ontology) : relation bytes := λ x y, (x, y) ∈ parents o.
Definition related (o : Ontology) (predicate : bytes) : relation bytes := edge (relation_edges o predicate).

Lemma parent_edges o x y : edge (elements (parents o)) x y ↔ parent o x y.
Proof. unfold edge, parent. apply elem_of_elements. Qed.

Lemma rtc_iff {A} (R R' : relation A) x y : (∀ a b, R a b ↔ R' a b) → rtc R x y ↔ rtc R' x y.
Proof. intros HR. split; apply rtc_subrel; intros a b; apply HR. Qed.

Lemma tc_mono {A} (R R' : relation A) x y : (∀ a b, R a b → R' a b) → tc R x y → tc R' x y.
Proof. intros HR. induction 1; [by apply tc_once, HR|eapply tc_l; [by apply HR|done]]. Qed.

Lemma elem_of_lineage o r c : c ∈ lineage o r ↔ ∃ t, (r, t) ∈ types o ∧ rtc (parent o) t c.
Proof.
  unfold lineage. rewrite elem_of_reach. split.
  - intros (t & Ht & Hc). apply elem_of_list_to_set, list_elem_of_fmap in Ht as ([r' t'] & -> & [Hr Hin]%list_elem_of_filter).
    simpl in *. subst r'. apply elem_of_elements in Hin. exists t'. split; [done|].
    by apply (rtc_iff _ _ _ _ (parent_edges o)).
  - intros (t & Ht & Hc). exists t. split; [|by apply (rtc_iff _ _ _ _ (parent_edges o))].
    apply elem_of_list_to_set, list_elem_of_fmap. exists (r, t). split; [done|].
    by apply list_elem_of_filter; split; [|apply elem_of_elements].
Qed.

(** A resource has a type when one of its classes is the type or descends from it. *)
Lemma hasType_spec o r c : hasType o r c = true ↔ c = [] ∨ ∃ t, (r, t) ∈ types o ∧ rtc (parent o) t c.
Proof. unfold hasType. by rewrite orb_true_iff, !bool_decide_eq_true, elem_of_lineage. Qed.

Lemma hasType_mono o o' r c : (∀ t, (r, t) ∈ types o → (r, t) ∈ types o') → parents o ⊆ parents o' →
  hasType o r c = true → hasType o' r c = true.
Proof.
  rewrite !hasType_spec. intros Ht Hp [->|(t & Hr & Hc)]; [by left|]. right. exists t. split; [by apply Ht|].
  eapply rtc_subrel; [|exact Hc]. intros x y. apply Hp.
Qed.

Lemma ancestors_cycle o c : c ∈ ancestors o c ↔ tc (parent o) c c.
Proof.
  unfold ancestors. rewrite reach_cycle. split; apply tc_mono; intros x y; apply parent_edges.
Qed.

(** ** Relations *)

Lemma related_spec o predicate x y : related o predicate x y ↔
  ∃ n s, (n, s) ∈ statements o ∧ st_predicate s = predicate ∧ st_subject s = x ∧ st_object s = Some y.
Proof.
  unfold related, edge, relation_edges. rewrite list_elem_of_omap. split.
  - intros ([n s] & Hin & E). simpl in E. case_bool_decide; [|done].
    destruct (st_object s) as [k|] eqn:Eo; [|done]. simpl in E. injection E as <- <-. by exists n, s.
  - intros (n & s & Hin & <- & <- & Eo). exists (n, s). split; [done|]. simpl.
    by rewrite bool_decide_true, Eo by done.
Qed.

(** ** Statements *)
Section laws.
Context `{DoublesLaws} (json_parse : bytes → option json).
Context (parse_dump : ∀ j d, json_ok j = true → dump j = Ok d → json_parse d = Some j).

(** A row as [change_assertion] writes it. *)
Definition row_wf (s : StatementRow) : Prop := ∃ v j, value_fits v ∧ valueJson v = Ok j ∧
  dump j = Ok (st_value s) ∧ st_kind s = kind_code (kind v) ∧
  st_object s = match v with VResource r => Some (node_key r) | _ => None end.

Definition property_wf (k document : bytes) : Prop := ∃ p j, property_key p = k ∧ propertyJson p = Ok j ∧
  dump j = Ok document.

Definition count (o : Ontology) (s : StatementRow) : Z :=
  len (filter (λ x, st_subject x.2 = st_subject s ∧ st_predicate x.2 = st_predicate s) (statements o)).

(** The local rules of a statement. *)
Definition fits (o : Ontology) (d : OntologyProperty) (s : StatementRow) : Prop :=
  kind_code (property_kind d) = st_kind s ∧ hasType o (st_subject s) (domainClass d) = true ∧
  (∀ k, st_object s = Some k → hasType o k (rangeClass d) = true) ∧
  (singleValue d = true → count o s <= 1).

Definition valid (o : Ontology) (s : StatementRow) : Prop := ∃ d,
  getProperty json_parse o (st_predicate s) = Ok (Some d) ∧ fits o d s ∧
  (acyclic d = true → ∃ k, st_object s = Some k ∧ ¬ rtc (related o (st_predicate s)) k (st_subject s)).

Lemma validate_statement_spec o s : row_wf s → validate_statement json_parse o s = Ok tt ↔ valid o s.
Proof.
  intros (v & j & Hv & Hj & Hd & Hk & Ho). pose proof (decode_again json_parse parse_dump v j _ Hv Hj Hd) as Hdec.
  unfold validate_statement, valid, fits. destruct (getProperty _ _ _) as [d|e]; cbn [mbind result_bind].
  2: { split; [done|]. by intros (? & ? & _). }
  destruct d as [d|]; cbn [of_option mbind result_bind]; [|split; [done|by intros (? & ? & _)]].
  destruct (kind_code (property_kind d) =? st_kind s) eqn:Ek; cbn [andb check mbind result_bind].
  2: { apply Z.eqb_neq in Ek. split; [done|]. intros (? & [= <-] & (? & _) & _). done. }
  destruct (hasType o (st_subject s) (domainClass d)) eqn:Et; cbn [check mbind result_bind].
  2: { split; [done|]. intros (? & [= <-] & (_ & ? & _) & _). congruence. }
  rewrite Hk, Hdec. cbn [mbind result_bind]. apply Z.eqb_eq in Ek.
  assert (∀ k, bool_decide (st_subject s ∈ reach (relation_edges o (st_predicate s)) {[k]}) = true ↔
    rtc (related o (st_predicate s)) k (st_subject s)) as Hreach.
  { intros k. rewrite bool_decide_eq_true, elem_of_reach. split; [by intros (x & ->%elem_of_singleton & ?)|].
    intros ?. exists k. split; [by apply elem_of_singleton|done]. }
  fold (count o s).
  assert (match canonical_value v with
    | VResource r => k ← nodeKey r; check (hasType o k (rangeClass d)) "ontology property range violation"%string
    | _ => Ok tt end = match st_object s with
    | Some k => check (hasType o k (rangeClass d)) "ontology property range violation"%string
    | None => Ok tt end) as ->.
  { rewrite Ho. destruct v; try done. simpl in Hj |- *. apply bind_ok in Hj as (k & Hnk & _).
    rewrite Hnk. by apply nodeKey_ok in Hnk as ->. }
  assert (match canonical_value v with
    | VResource r => k ← nodeKey r;
        check (negb (bool_decide (st_subject s ∈ reach (relation_edges o (st_predicate s)) {[k]})))
          "cyclic ontology relation"%string
    | _ => Err "std::bad_variant_access"%string end = match st_object s with
    | Some k => check (negb (bool_decide (st_subject s ∈ reach (relation_edges o (st_predicate s)) {[k]})))
          "cyclic ontology relation"%string
    | None => Err "std::bad_variant_access"%string end) as ->.
  { rewrite Ho. destruct v; try done. simpl in Hj |- *. apply bind_ok in Hj as (k & Hnk & _).
    rewrite Hnk. by apply nodeKey_ok in Hnk as ->. }
  rewrite Hk in Ek. clear Hv Hj Hd Hk Ho Hdec. split.
  - intros E. apply bind_ok in E as ([] & Hr & E). apply bind_ok in E as ([] & Hs & E). apply check_ok in Hs.
    exists d. split; [done|]. split.
    + split; [congruence|]. split; [done|]. split.
      * intros k Hk. rewrite Hk in Hr. by apply check_ok in Hr.
      * intros Hsv. rewrite Hsv in Hs. by apply Z.leb_le.
    + intros Ha. rewrite Ha in E. destruct (st_object s) as [k|]; [|done]. exists k. split; [done|].
      apply check_ok, negb_true_iff in E. intros Hr2%Hreach. congruence.
  - intros (d' & [= <-] & (_ & _ & Hr & Hs) & Ha).
    assert (match st_object s with
      | Some k => check (hasType o k (rangeClass d)) "ontology property range violation"%string
      | None => Ok tt end = Ok tt) as ->.
    { destruct (st_object s) as [k|]; [|done]. by rewrite (Hr k eq_refl). }
    cbn [mbind result_bind]. assert (negb (singleValue d) || (count o s <=? 1) = true) as ->.
    { destruct (singleValue d); [|done]. simpl. by apply Z.leb_le, Hs. }
    cbn [check mbind result_bind]. destruct (acyclic d); [|done].
    destruct (Ha eq_refl) as (k & Hk & Hn). rewrite Hk. destruct (bool_decide _) eqn:Eb; [|done].
    by apply Hreach in Eb.
Qed.

(** ** Incremental validation *)

Definition rows_wf (o : Ontology) : Prop := Forall (λ r, row_wf r.2) (statements o).
Definition sound (o : Ontology) : Prop := ∀ r, r ∈ statements o → valid o r.2.

Lemma fold_unit {A} (f : A → result string unit) l :
  fold_res (λ _ x, f x) tt l = Ok tt ↔ ∀ x, x ∈ l → f x = Ok tt.
Proof.
  induction l as [|x l IH]; simpl; [split; [intros _ x ?%not_elem_of_nil; done|done]|]. rewrite bind_ok. split.
  - intros ([] & Hx & Hl) y [->|Hy]%elem_of_cons; [done|]. by apply IH.
  - intros Hall. exists tt. split; [apply Hall; by left|]. apply IH. intros y Hy. apply Hall. by right.
Qed.

Lemma validateStatements_spec all b : rows_wf (onto b) → validateStatements json_parse all b = Ok tt ↔
  ∀ r, r ∈ statements (onto b) → all = true ∨ affected b r.2 = true → valid (onto b) r.2.
Proof.
  intros Hwf. unfold validateStatements.
  rewrite (fold_unit (λ r : Z * StatementRow, if all || affected b r.2
    then validate_statement json_parse (onto b) r.2 else Ok tt)).
  unfold rows_wf in Hwf. rewrite Forall_forall in Hwf.
  split; intros Hall r Hr.
  - intros Hor%orb_true_iff. specialize (Hall r Hr). rewrite Hor in Hall.
    by apply validate_statement_spec; [apply Hwf|].
  - destruct (all || affected b r.2) eqn:E; [|done]. apply validate_statement_spec; [by apply Hwf|].
    by apply Hall; [|apply orb_true_iff].
Qed.

(** What a batch in progress remembers of the tables it started from. *)
Record tracks (o0 : Ontology) (b : Batch) : Prop := {
  tracks_properties k : k ∉ changed_properties b → properties (onto b) !! k = properties o0 !! k;
  tracks_statements r : r ∈ statements (onto b) → r ∈ statements o0 ∨ st_subject r.2 ∈ changed_nodes b;
  tracks_types r c : (r, c) ∈ types o0 → (r, c) ∈ types (onto b) ∨ r ∈ changed_nodes b;
  tracks_parents : hierarchyChanged b = false → parents o0 ⊆ parents (onto b);
  tracks_bytes : 0 <= journalBytes b
}.

Lemma cycle_back {A} (R' R0 : relation A) :
  (∀ a b, R' a b → R0 a b ∨ ¬ rtc R' b a) → ∀ a c, tc R' a c → rtc R' c a → tc R0 a c.
Proof.
  intros Hedge a c. induction 1 as [a c Hac|a b c Hab Hbc IH]; intros Hca.
  - destruct (Hedge a c Hac); [by apply tc_once|done].
  - destruct (Hedge a b Hab) as [H1|Hn].
    + eapply tc_l; [exact H1|]. apply IH. eapply rtc_r; [exact Hca|exact Hab].
    + destruct Hn. transitivity c; [by apply tc_rtc|done].
Qed.

(** No relation that must be acyclic has a cycle. *)
Lemma sound_acyclic o predicate d x : sound o → getProperty json_parse o predicate = Ok (Some d) →
  acyclic d = true → ¬ tc (related o predicate) x x.
Proof.
  intros Hs Hd Ha Hc.
  assert (∀ x y, related o predicate x y → ¬ rtc (related o predicate) y x) as Hedge.
  { clear x Hc. intros x y (n & s & Hin & <- & <- & Ho)%related_spec. destruct (Hs _ Hin) as (d' & Hd' & _ & Hac).
    simpl in *. assert (d' = d) as -> by congruence. destruct (Hac Ha) as (k & Hk & Hn). congruence. }
  inversion Hc as [? ? Hxy|? y ? Hxy Hyx]; subst.
  - by apply (Hedge x x Hxy).
  - apply (Hedge x y Hxy). by apply tc_rtc.
Qed.

Lemma getProperty_lookup o o' k : properties o' !! k = properties o !! k →
  getProperty json_parse o' k = getProperty json_parse o k.
Proof. unfold getProperty. by intros ->. Qed.

Lemma count_le o0 b s : NoDup (statements (onto b)) → tracks o0 b → st_subject s ∉ changed_nodes b →
  count (onto b) s <= count o0 s.
Proof.
  intros Hnd Ht Hs. unfold count. apply Nat2Z.inj_le. apply submseteq_length, NoDup_submseteq.
  - by apply NoDup_filter.
  - intros r [[Hr1 Hr2] Hin]%list_elem_of_filter. apply list_elem_of_filter. split; [done|].
    destruct (tracks_statements _ _ Ht r Hin) as [|Hn]; [done|]. by rewrite Hr1 in Hn.
Qed.

Lemma hasType_kept o0 b r c : tracks o0 b → hierarchyChanged b = false → r ∉ changed_nodes b →
  hasType o0 r c = true → hasType (onto b) r c = true.
Proof.
  intros Ht Hh Hr. apply hasType_mono; [|by apply (tracks_parents _ _ Ht)].
  intros t Hin. by destruct (tracks_types _ _ Ht r t Hin).
Qed.

(** The statements that the batch did not touch stay valid when the others are. *)
Lemma incremental o0 b : rows_wf (onto b) → NoDup (statements (onto b)) → sound o0 → tracks o0 b →
  validateStatements json_parse (hierarchyChanged b) b = Ok tt → sound (onto b).
Proof.
  intros Hwf Hnd H0' Ht Hv. rewrite validateStatements_spec in Hv by done. intros [n s] Hin. simpl.
  destruct (hierarchyChanged b) eqn:Hh; [apply (Hv _ Hin); by left|].
  destruct (affected b s) eqn:Ha; [apply (Hv _ Hin); by right|]. unfold affected in Ha.
  apply orb_false_iff in Ha as [[Hsub Hobj]%orb_false_iff Hpre]. apply bool_decide_eq_false in Hsub, Hpre.
  destruct (tracks_statements _ _ Ht _ Hin) as [Hin0|]; [|done].
  destruct (H0' _ Hin0) as (d & Hd & (Hk & Hdom & Hran & Hsing) & Hac). simpl in *.
  assert (getProperty json_parse (onto b) (st_predicate s) = Ok (Some d)) as Hd'.
  { rewrite (getProperty_lookup o0); [done|]. by apply (tracks_properties _ _ Ht). }
  exists d. split; [done|]. split.
  - split; [done|]. split; [by apply (hasType_kept o0)|]. split.
    + intros k Hko. rewrite Hko in Hobj. apply bool_decide_eq_false in Hobj.
      apply (hasType_kept o0); [done..|]. by apply Hran.
    + intros Hsv. pose proof (count_le o0 b s Hnd Ht Hsub). specialize (Hsing Hsv). lia.
  - intros Hacy. destruct (Hac Hacy) as (k & Hko & _). exists k. split; [done|]. intros Hrtc.
    assert (related (onto b) (st_predicate s) (st_subject s) k) as Hedge by (apply related_spec; by exists n, s).
    apply (sound_acyclic o0 (st_predicate s) d (st_subject s) H0' Hd Hacy).
    apply (cycle_back (related (onto b) (st_predicate s))).
    + intros x y (n2 & s2 & Hin2 & Hp2 & <- & Ho2)%related_spec. destruct (affected b s2) eqn:Ha2.
      * right. destruct (Hv _ Hin2 (or_intror Ha2)) as (d2 & Hd2 & _ & Hac2). simpl in *. rewrite Hp2 in *.
        assert (d2 = d) as -> by congruence. destruct (Hac2 Hacy) as (k2 & Hk2 & Hn2). congruence.
      * left. unfold affected in Ha2. apply orb_false_iff in Ha2 as [[Hs2 _]%orb_false_iff _].
        apply bool_decide_eq_false in Hs2. destruct (tracks_statements _ _ Ht _ Hin2) as [|]; [|done].
        apply related_spec. by exists n2, s2.
    + eapply tc_rtc_r; [by apply tc_once|done].
    + done.
Qed.
End laws.
