(* ===== verification/OntologySteps.v ===== *)
(** Each change of a batch keeps the invariant of the batch: the tables are well
    formed, the batch knows what it touched, and every saved directory is valid or
    uses a property that changed. *)
From stdpp Require Import relations.
From S2P Require Import Prelude Text Json JsonObject Table Closure ObjectData ObjectPackage ObjectStore ObjectSteps.
From S2P Require Import OntologyData OntologyCodec OntologyStore OntologyLaws.
Local Open Scope Z_scope.

Section steps.
Context `{DoublesLaws} (json_parse : bytes → option json).
Context (parse_dump : ∀ j d, json_ok j = true → dump j = Ok d → json_parse d = Some j).
Context (p : Package).

(** ** The invariant *)

(** A node stands for the file or the entity that its key names. *)
Definition node_wf (key : bytes) (n : NodeRow) : Prop := ∃ r, key = node_key r ∧
  node_object n = match r with File k => Some k | Entity _ => None end.

(** A journal in the order of its sequence numbers, no event larger than a batch. *)
Definition log_wf (n : Z) (t : table EventRow) : Prop := ordered t ∧ 0 <= n ∧
  Forall (λ r, 0 < r.1 <= n ∧ len (event_before r.2) + len (event_after r.2) <= maximumBatchJournalBytes) t.

Record tables_wf (o : Ontology) : Prop := {
  wf_properties k document : properties o !! k = Some document → property_wf k document;
  wf_rows : rows_wf o;
  wf_ordered : ordered (statements o);
  wf_counter : Forall (λ r, r.1 <= statement_counter o) (statements o);
  wf_parents c d : (c, d) ∈ parents o → is_Some (classes o !! c) ∧ is_Some (classes o !! d);
  wf_hierarchy c : ¬ tc (parent o) c c;
  wf_types k c : (k, c) ∈ types o → is_Some (nodes o !! k);
  wf_nodes r k : r ∈ statements o → k = st_subject r.2 ∨ st_object r.2 = Some k → is_Some (nodes o !! k);
  wf_resources k n : nodes o !! k = Some n → node_wf k n;
  wf_journal : log_wf (journal_counter o) (journal o);
  wf_documents path document : directories o !! path = Some document → document ≠ []
}.

(** A saved directory whose conditions hold, except on the properties in [changed]. *)
Definition directory_ok (o : Ontology) (changed : gset bytes) (path document : bytes) : Prop := ∃ q,
  saved_query json_parse document = Ok q ∧ (∃ j, queryJson q = Ok j) ∧
  classExists o (query_class q) = Ok tt ∧
  ∀ c, c ∈ conditions q → (path, condition_property c) ∈ directory_properties o ∧
    (condition_property c ∈ changed ∨ condition_valid json_parse p o c = Ok tt).

Record batch_inv (o0 : Ontology) (b : Batch) : Prop := {
  inv_tables : tables_wf (onto b);
  inv_tracks : tracks o0 b;
  inv_directories path document : directories (onto b) !! path = Some document →
    directory_ok (onto b) (changed_properties b) path document
}.

(** ** What one change leaves alone *)

(** Nothing that directories depend on goes away, and a property that differs is
    in [changed]. *)
Record kept (o o' : Ontology) (changed : gset bytes) : Prop := {
  kept_classes k : is_Some (classes o !! k) → is_Some (classes o' !! k);
  kept_nodes k : is_Some (nodes o !! k) → is_Some (nodes o' !! k);
  kept_properties k : k ∉ changed → properties o' !! k = properties o !! k
}.

Lemma kept_refl o changed : kept o o changed.
Proof. by split. Qed.

Lemma classExists_ok o k : classExists o k = Ok tt ↔ k = [] ∨ is_Some (classes o !! k).
Proof. unfold classExists. rewrite check_ok, orb_true_iff, !bool_decide_eq_true. done. Qed.

Lemma resource_kept o o' changed r : kept o o' changed → resourceExists p o r false = Ok tt →
  resourceExists p o' r false = Ok tt.
Proof.
  intros Hk. unfold resourceExists. destruct (nodeKey r) as [k|]; [|done]. cbn [mbind result_bind].
  destruct r; [done|]. rewrite !check_ok, !bool_decide_eq_true. apply (kept_nodes _ _ _ Hk).
Qed.

Lemma condition_kept o o' changed c : kept o o' changed → condition_property c ∉ changed →
  condition_valid json_parse p o c = Ok tt → condition_valid json_parse p o' c = Ok tt.
Proof.
  intros Hk Hc. unfold condition_valid.
  rewrite (getProperty_lookup json_parse o o') by by apply (kept_properties _ _ _ Hk).
  destruct (getProperty _ _ _) as [[d|]|]; try done. cbn [of_option mbind result_bind].
  destruct (equals c) as [v|]; [|done]. destruct (check _ _); [|done]. cbn [mbind result_bind].
  destruct v; try done. by apply (resource_kept _ _ changed).
Qed.

Lemma directory_kept o o' changed changed' path document : kept o o' changed' → changed ⊆ changed' →
  (∀ k, (path, k) ∈ directory_properties o → (path, k) ∈ directory_properties o') →
  directory_ok o changed path document → directory_ok o' changed' path document.
Proof.
  intros Hk Hsub Hdp (q & Hq & Hj & Hc & Hall). exists q. split_and!; try done.
  - apply classExists_ok in Hc. apply classExists_ok. destruct Hc as [|Hc]; [by left|right].
    by apply (kept_classes _ _ _ Hk).
  - intros c Hin. destruct (Hall c Hin) as [H1 H2]. split; [by apply Hdp|].
    destruct (decide (condition_property c ∈ changed')) as [|Hn]; [by left|right].
    destruct H2 as [H2|H2]; [by apply Hsub in H2|]. by apply (condition_kept o _ changed').
Qed.

(** The tables except the journal and the counters. *)
Definition same_core (b b' : Batch) : Prop := ∃ t n j e,
  (0 <= journalBytes b → 0 <= j ∧ (log_wf (journal_counter (onto b)) (journal (onto b)) → log_wf n t)) ∧
  b' = {| onto := set_journal t n (onto b); changed_nodes := changed_nodes b;
          changed_properties := changed_properties b; hierarchyChanged := hierarchyChanged b;
          journalBytes := j; events := e |}.

Definition bounded {A} (n : Z) (t : table A) : Prop := Forall (λ r, r.1 <= n) t.

Lemma log_bounded n t : log_wf n t → bounded n t.
Proof. intros (_ & _ & Ht). eapply Forall_impl; [exact Ht|]. simpl. lia. Qed.

Lemma log_snoc n t e : log_wf n t → len (event_before e) + len (event_after e) <= maximumBatchJournalBytes →
  log_wf (n + 1) (t ++ [(n + 1, e)]).
Proof.
  intros (Ho & Hn & Ht) He. split; [|split; [lia|]].
  - apply ordered_app. split_and!; [done|by repeat constructor|].
    intros x y Hx ->%list_elem_of_singleton. rewrite Forall_forall in Ht. specialize (Ht _ Hx). simpl. lia.
  - apply Forall_app. split; [eapply Forall_impl; [exact Ht|]; simpl; lia|]. repeat constructor; simpl; lia.
Qed.

Lemma event_spec next op subject before after b b' :
  event next op subject before after b = Ok b' → before = after ∧ b' = b ∨
  before ≠ after ∧ ∃ t j, let n := journal_counter (onto b) + 1 in
    b' = {| onto := set_journal t n (onto b); changed_nodes := changed_nodes b;
            changed_properties := changed_properties b; hierarchyChanged := hierarchyChanged b;
            journalBytes := j; events := events b + 1 |} ∧
    j = journalBytes b + (len before + len after) ∧ j <= maximumBatchJournalBytes ∧
    (bounded (journal_counter (onto b)) (journal (onto b)) → t = journal (onto b) ++
      [(n, {| event_revision := next; event_operation := lit op; event_subject := subject;
              event_before := before; event_after := after |})]).
Proof.
  unfold event. case_bool_decide; [intros [= <-]; by left|]. intros E. right. split; [done|]. cbv zeta in E.
  apply bind_ok in E as ([] & Hc & E). apply bind_ok in E as ([] & _ & E). apply bind_ok in E as ([] & _ & E).
  apply bind_ok in E as (n & Hn & E). apply bind_ok in E as (t & Ht & E). apply ok_inj in E.
  apply check_ok, negb_true_iff, Z.ltb_ge in Hc.
  apply next_sequence_ok in Hn as [_ ->]. apply of_option_ok in Ht. exists t. eexists. split; [by subst b'|].
  split; [done|]. split; [done|].
  intros Hb. rewrite row_insert_last in Ht; [by injection Ht|]. eapply Forall_impl; [exact Hb|]. simpl. lia.
Qed.

Lemma event_core next op subject before after b b' :
  event next op subject before after b = Ok b' → same_core b b'.
Proof.
  intros [(_ & ->)|(_ & t & j & -> & Ej & Hj & Ht)]%event_spec.
  - exists (journal (onto b)), (journal_counter (onto b)), (journalBytes b), (events b).
    split; [done|]. by destruct b as [[]].
  - eexists _, _, _, _. split; [|done]. intros Hb. split; [lia|]. intros Hlog.
    rewrite (Ht (log_bounded _ _ Hlog)). apply log_snoc; [done|]. simpl. lia.
Qed.

Lemma batch_core o0 b b' : same_core b b' → batch_inv o0 b → batch_inv o0 b'.
Proof.
  intros (t & n & j & e & Hj & ->) [[] [] Hd]. destruct (Hj tracks_bytes) as [Hj0 Hlog].
  split; [split; try done; by apply Hlog|by split|]. intros path document E.
  apply (directory_kept (onto b) _ (changed_properties b)); [by split|done|done|]. by apply Hd.
Qed.

(** An invariant batch stays so when only nodes appear. *)
Lemma batch_nodes o0 b x : batch_inv o0 b → (∀ k, is_Some (nodes (onto b) !! k) → is_Some (x !! k)) →
  (∀ k n, x !! k = Some n → nodes (onto b) !! k = Some n ∨ node_wf k n) →
  batch_inv o0 (set_onto (set_nodes x) b).
Proof.
  intros [[] [] Hd] Hx Hn. split; [split; try done|by split|].
  3: { cbn. intros k n Hk. destruct (Hn k n Hk); [by apply wf_resources0|done]. }
  { cbn. intros k c Hk. by apply Hx, (wf_types0 k c). }
  { cbn. intros y k Hy Hk. by apply Hx, (wf_nodes0 y). } intros path document E.
  apply (directory_kept (onto b) _ (changed_properties b)); [by split|done|done|]. by apply Hd.
Qed.

Lemma ordered_nodup {A} (t : table A) : ordered t → NoDup t.
Proof.
  induction t as [|[k a] t IH]; [constructor|]. intros [Hk Ht]%ordered_cons. constructor; [|by apply IH].
  intros Hin. rewrite Forall_forall in Hk. specialize (Hk _ Hin). simpl in Hk. lia.
Qed.

(** ** Classes *)

Lemma addParents_spec c ps o o' : fold_res (λ o p, addParent c p o) o ps = Ok o' → ∃ P,
  o' = set_classes (classes o) P o ∧ (∀ e, e ∈ P ↔ e ∈ parents o ∨ e.1 = c ∧ e.2 ∈ ps) ∧
  (∀ d, d ∈ ps → is_Some (classes o !! c) ∧ is_Some (classes o !! d)).
Proof.
  revert o. induction ps as [|d ps IH]; intros o; simpl.
  - intros [= <-]. exists (parents o). split; [by destruct o|]. split; [|by intros d ?%not_elem_of_nil].
    intros e. split; [by left|]. intros [?|[_ ?%not_elem_of_nil]]; done.
  - intros E. apply bind_ok in E as (o1 & Ho1 & E). unfold addParent in Ho1. inv_ok.
    destruct (IH _ E) as (P & -> & HP & Hc). exists P. split; [done|]. split.
    + intros [x y]. specialize (HP (x, y)). cbn in HP |- *. rewrite HP, elem_of_union, elem_of_singleton, elem_of_cons.
      split; [intros [[[= -> ->]|?]|[-> ?]]; auto|intros [?|[-> [->|?]]]; auto].
    + intros y [->|Hy]%elem_of_cons; [done|]. by apply Hc.
Qed.

Lemma inv_class o0 next c b b' : batch_inv o0 b → change_class next c b = Ok b' → batch_inv o0 b'.
Proof.
  intros Hinv E. unfold change_class in E. apply bind_ok in E as (after & _ & E).
  apply bind_ok in E as (before & _ & E). apply bind_ok in E as (text_ & _ & E).
  case_bool_decide as Hsame; [by inv_ok|]. apply bind_ok in E as ([] & _ & E).
  set (info := (class_label c, class_description c)) in *. set (k := class_key c) in *.
  apply bind_ok in E as (b2 & Hb2 & E). apply event_core in E.
  apply (batch_core _ b2); [done|]. clear E.
  assert (batch_inv o0 (set_onto (λ o, set_classes (<[k := info]> (classes o)) (parents o) o) b)) as Hinv1.
  { destruct Hinv as [[] [] Hd]. split; [split; try done| by split |].
    - cbn. intros x y Hxy. rewrite !lookup_insert_is_Some'. destruct (wf_parents0 x y Hxy); auto.
    - intros path document E. apply (directory_kept (onto b) _ (changed_properties b)); [|done|done|by apply Hd].
      split; try done. intros x Hx. cbn. rewrite lookup_insert_is_Some'. auto. }
  destruct (match getClass (onto b) k with Some old => _ | None => true end); [|by inv_ok].
  apply bind_ok in Hb2 as (o2 & Ho2 & Hb2). apply bind_ok in Hb2 as ([] & Hcyc & Hb2).
  apply ok_inj in Hb2. subst b2. apply check_ok, negb_true_iff, bool_decide_eq_false in Hcyc.
  apply addParents_spec in Ho2 as (P & -> & HP & Hfk). cbn [onto set_onto] in Hcyc.
  rewrite ancestors_cycle in Hcyc.
  assert (getClass (onto b) k = None → ∀ d, (k, d) ∉ parents (onto b)) as Hnew.
  { intros Hn d Hin. destruct (wf_parents _ (inv_tables _ _ Hinv) k d Hin) as [[[l t] Hl] _].
    unfold getClass in Hn. by rewrite Hl in Hn. }
  destruct Hinv as [[] [] Hd]. destruct Hinv1 as [[_ _ _ _ Hparents1 _ _ _ _ _ _] _ Hd1].
  split; [split; try done|split; try done|].
  - cbn in HP, Hfk |- *. intros x y [Hxy|[Hk Hy]]%HP; [|simpl in Hk; rewrite Hk; by apply Hfk].
    apply Hparents1. cbn. by apply elem_of_filter in Hxy as [_ ?].
  - intros x Hx. apply (wf_hierarchy0 x).
    apply (cycle_back (parent (set_classes (<[k := info]> (classes (onto b))) P (onto b)))); [|exact Hx|].
    + intros a d Had. apply HP in Had as [Had|[Hk Hin]].
      * left. cbn in Had. by apply elem_of_filter in Had as [_ ?].
      * right. simpl in Hk. rewrite Hk in *. intros Hrtc. apply Hcyc. eapply tc_rtc_r; [apply tc_once|exact Hrtc].
        apply HP. right. done.
    + by apply tc_rtc.
  - cbn. intros [Hh Hold]%orb_false_iff e He. apply HP. left. cbn.
    apply elem_of_filter. split; [|by apply tracks_parents]. intros Hk.
    destruct (getClass (onto b) k) eqn:Eg; [done|]. destruct e as [x y]. simpl in Hk.
    rewrite Hk in He. by apply (Hnew eq_refl y), tracks_parents.
  - intros path document E. specialize (Hd1 path document E).
    eapply directory_kept; [| | |exact Hd1]; [by split|done|done].
Qed.

(** ** Properties and entities *)

Lemma inv_property o0 next d b b' : batch_inv o0 b → change_property json_parse next d b = Ok b' →
  batch_inv o0 b'.
Proof.
  intros Hinv E. unfold change_property in E. apply bind_ok in E as (after & Ha & E).
  apply bind_ok in Ha as (j & Hj & Ha). apply bind_ok in E as ([] & _ & E). apply bind_ok in E as ([] & _ & E).
  apply bind_ok in E as (old & _ & E). apply bind_ok in E as (before & _ & E).
  case_bool_decide; [by inv_ok|]. apply event_core in E. eapply batch_core; [exact E|]. clear E.
  destruct Hinv as [[] [] Hd]. split; [split; try done|split; try done|].
  - cbn. intros k document [[<- <-]|[_ Hk]]%lookup_insert_Some; [by exists d, j|by apply wf_properties0].
  - cbn. intros k Hk. rewrite lookup_insert_ne; [apply tracks_properties|]; set_solver.
  - intros path document E. apply (directory_kept (onto b) _ (changed_properties b)); [|set_solver|done|by apply Hd].
    split; try done. cbn. intros k Hk. apply lookup_insert_ne. set_solver.
Qed.

Lemma inv_entity o0 next e b b' : batch_inv o0 b → change_entity next e b = Ok b' → batch_inv o0 b'.
Proof.
  intros Hinv E. unfold change_entity in E. apply bind_ok in E as ([] & _ & E).
  apply bind_ok in E as ([] & _ & E). apply bind_ok in E as ([] & _ & E). apply bind_ok in E as (k & Hk & E).
  apply nodeKey_ok in Hk. subst k. apply bind_ok in E as (after & _ & E). case_bool_decide; [by inv_ok|].
  apply event_core in E. eapply batch_core; [exact E|].
  apply (batch_nodes _ b); [done|intros x Hx; apply lookup_insert_is_Some'; auto|].
  intros x n [[<- <-]|[_ Hn]]%lookup_insert_Some; [right|by left]. exists (Entity (entity_key e)). split; [done|].
  cbn [node_object]. destruct (nodes (onto b) !! _) as [n|] eqn:En; [|done]. cbn [mbind option_bind].
  destruct (wf_resources _ (inv_tables _ _ Hinv) _ _ En) as (r & Hr & Ho).
  apply (inj node_key) in Hr. by subst r.
Qed.

Lemma inv_use o0 present r b b' : batch_inv o0 b → use_resource p present r b = Ok b' → batch_inv o0 b' ∧
  changed_nodes b' = changed_nodes b.
Proof.
  intros Hinv E. unfold use_resource in E. destruct present.
  - apply bind_ok in E as (o & Ho & E). apply ok_inj in E. subst b'. split; [|done].
    unfold ensureResource in Ho. apply bind_ok in Ho as ([] & _ & Ho).
    destruct r as [k|k]; [|apply ok_inj in Ho; subst o; by destruct b].
    apply bind_ok in Ho as (key & Hk & Ho). apply nodeKey_ok in Hk. subst key.
    destruct (nodes (onto b) !! _) eqn:En.
    + apply ok_inj in Ho. subst o. by destruct b.
    + apply ok_inj in Ho. subst o.
      apply (batch_nodes _ b); [done|intros x Hx; apply lookup_insert_is_Some'; auto|].
      intros x n [[<- <-]|[_ Hn]]%lookup_insert_Some; [right|by left]. by exists (File k).
  - apply bind_ok in E as ([] & _ & E). apply ok_inj in E. by subst b'.
Qed.

Lemma inv_changed o0 k b : batch_inv o0 b → batch_inv o0 (changedNode k b).
Proof.
  intros [[] [] Hd]. split; [by split|split; try done|done].
  - cbn. intros r Hr. destruct (tracks_statements r Hr); [by left|right; set_solver].
  - cbn. intros r c Hr. destruct (tracks_types r c Hr); [by left|right; set_solver].
Qed.

(** The journal of a batch does not know which nodes were touched. *)
Lemma event_changed next op subject before after k b b' :
  event next op subject before after b = Ok b' →
  event next op subject before after (changedNode k b) = Ok (changedNode k b').
Proof.
  unfold event. case_bool_decide; [by intros [= <-]|]. intros E. cbn [journalBytes onto changedNode] in *.
  repeat (apply bind_ok in E as (? & -> & E); cbn [mbind result_bind]). apply ok_inj in E. by subst b'.
Qed.

(** ** Types *)

Lemma inv_type o0 next r class present b b' : batch_inv o0 b →
  change_type p next r class present b = Ok b' → batch_inv o0 b'.
Proof.
  intros Hinv E. unfold change_type in E. apply bind_ok in E as ([] & _ & E).
  apply bind_ok in E as ([] & _ & E). apply bind_ok in E as (b1 & Hb1 & E).
  destruct (inv_use _ _ _ _ _ Hinv Hb1) as [Hinv1 _]. clear Hb1 Hinv b.
  apply bind_ok in E as (key & _ & E). cbv zeta in E. apply bind_ok in E as ([] & Hfk & E).
  destruct (Bool.eqb _ _); [by inv_ok|]. apply bind_ok in E as (value & _ & E).
  apply bind_ok in E as (b2 & E & Hb'). apply ok_inj in Hb'. subst b'.
  apply (event_changed _ _ _ _ _ key), event_core in E.
  eapply batch_core; [exact E|]. clear E.
  apply check_ok in Hfk.
  destruct Hinv1 as [[] [] Hd]. split; [split; try done|split; try done|].
  - cbn. intros x c Hx. destruct present; [|apply (wf_types0 x c); set_solver].
    apply elem_of_union in Hx as [[= -> ->]%elem_of_singleton|Hx]; [|by apply (wf_types0 x c)].
    apply orb_true_iff in Hfk as [?|[Hfk _]%andb_true_iff]; [done|]. by apply bool_decide_eq_true in Hfk.
  - cbn. intros x Hx. destruct (tracks_statements x Hx); [by left|right; set_solver].
  - cbn. intros x c Hx. destruct (decide (x = key)) as [->|Hne]; [right; set_solver|].
    destruct (tracks_types x c Hx); [left|right; set_solver]. destruct present; set_solver.
  - intros path document E. apply (directory_kept (onto b1) _ (changed_properties b1)); [by split|done|done|].
    by apply Hd.
Qed.

(** ** Statements *)

Lemma insert_statement_spec s o changes o' : tables_wf o → row_wf s → insert_statement s o = Ok (changes, o') →
  tables_wf o' ∧ (∃ n, o' = set_statements (statements o') n o) ∧
  (∀ r, r ∈ statements o' → r ∈ statements o ∨ changes = true ∧ r.2 = s).
Proof.
  intros Hwf Hs E. unfold insert_statement, next_sequence in E. apply bind_ok in E as (n & Hn & E).
  apply bind_ok in Hn as ([] & _ & Hn). apply ok_inj in Hn. subst n. destruct Hwf as [].
  destruct (existsb _ _).
  - injection E as <- <-. split; [|split; [by eexists|by left]]. split; try done. cbn.
    eapply Forall_impl; [exact wf_counter0|]. simpl. lia.
  - apply bind_ok in E as ([] & Hfk & E). apply check_ok in Hfk. apply andb_true_iff in Hfk as [Hfk Hfk3].
    apply andb_true_iff in Hfk as [Hfk1 _]. apply bool_decide_eq_true in Hfk1.
    apply bind_ok in E as (t & Ht & E). apply of_option_ok in Ht. injection E as <- <-.
    assert (∀ r, r ∈ t ↔ r = (statement_counter o + 1, s) ∨ r ∈ statements o) as Hin
      by (intros r; by apply (row_insert_in _ _ _ _ _ Ht)).
    split; [split; try done|].
    + apply Forall_forall. cbn. intros r [->|Hr]%Hin; [done|]. unfold rows_wf in wf_rows0.
      rewrite Forall_forall in wf_rows0. by apply wf_rows0.
    + cbn. by apply (row_insert_ordered _ _ _ _ wf_ordered0 Ht).
    + apply Forall_forall. cbn. intros r [->|Hr]%Hin; simpl; [lia|]. rewrite Forall_forall in wf_counter0.
      specialize (wf_counter0 r Hr). simpl in *. lia.
    + cbn. intros r k [->|Hr]%Hin; [|by apply (wf_nodes0 r)]. simpl. intros [->|Ho]; [done|].
      rewrite Ho in Hfk3. by apply bool_decide_eq_true in Hfk3.
    + split; [by eexists|]. cbn. intros r [->|Hr]%Hin; [by right|by left].
Qed.

Lemma filter_ordered {A} (P : Z * A → Prop) `{∀ x, Decision (P x)} (t : table A) :
  ordered t → ordered (filter P t).
Proof.
  induction t as [|[k a] t IH]; [done|]. intros [Hk Ht]%ordered_cons. rewrite filter_cons.
  destruct (decide (P (k, a))); [|by apply IH]. apply ordered_cons. split; [|by apply IH].
  rewrite Forall_forall in *. intros r [_ Hr]%list_elem_of_filter. by apply Hk.
Qed.

Lemma Forall_filtered {A} (Q P : A → Prop) `{∀ x, Decision (P x)} l : Forall Q l → Forall Q (filter P l).
Proof. rewrite !Forall_forall. intros Hl x [_ Hx]%list_elem_of_filter. by apply Hl. Qed.

Lemma delete_statement_spec s o changes o' : tables_wf o → delete_statement s o = (changes, o') →
  tables_wf o' ∧ (∃ n, o' = set_statements (statements o') n o) ∧
  (∀ r, r ∈ statements o' → r ∈ statements o).
Proof.
  intros [] [= <- <-]. split; [split; try done|].
  - unfold rows_wf in *. cbn. by apply Forall_filtered.
  - cbn. by apply filter_ordered.
  - cbn. by apply Forall_filtered.
  - cbn. intros r k [_ Hr]%list_elem_of_filter. by apply (wf_nodes0 r).
  - split; [by eexists|]. cbn. intros r. by rewrite list_elem_of_filter; intros [_ ?].
Qed.

Lemma node_key_nonempty r : node_key r ≠ [].
Proof. by destruct r. Qed.

Lemma inv_statements o0 b o n s : batch_inv o0 b → tables_wf o → o = set_statements (statements o) n (onto b) →
  (∀ r, r ∈ statements o → r ∈ statements (onto b) ∨ r.2 = s ∧ st_subject s ∈ changed_nodes b) →
  batch_inv o0 (set_onto (λ _, o) b).
Proof.
  intros [[] [] Hd] Hwf E Hin. split; [done|split|].
  - cbn. rewrite E. apply tracks_properties.
  - cbn. intros r [Hr|[-> Hr]]%Hin; [by apply tracks_statements|by right].
  - cbn. rewrite E. apply tracks_types.
  - cbn. rewrite E. apply tracks_parents.
  - done.
  - intros path document Ep. rewrite E in Ep |- *.
    apply (directory_kept (onto b) _ (changed_properties b)); [by split|done|done|]. by apply Hd.
Qed.

Lemma inv_assertion o0 next r property v present b b' : value_fits v → batch_inv o0 b →
  change_assertion json_parse p next r property v present b = Ok b' → batch_inv o0 b'.
Proof.
  intros Hv Hinv E. unfold change_assertion in E. apply bind_ok in E as ([] & _ & E).
  apply bind_ok in E as (d & _ & E). apply bind_ok in E as (d' & _ & E). apply bind_ok in E as ([] & _ & E).
  apply bind_ok in E as (b1 & Hb1 & E). destruct (inv_use _ _ _ _ _ Hinv Hb1) as [Hinv1 _]. clear Hb1 Hinv b.
  apply bind_ok in E as (subject & Hs & E). apply bind_ok in E as (j & Hj & E).
  apply bind_ok in E as (value & Hd & E). apply bind_ok in E as (b2 & Hb2 & E).
  assert (batch_inv o0 b2) as Hinv2.
  { destruct v; try (apply ok_inj in Hb2; by subst b2). by apply (inv_use _ _ _ _ _ Hinv1 Hb2). }
  clear Hb2 Hinv1 b1. apply bind_ok in E as (object & Ho & E). apply bind_ok in E as ([] & _ & E). cbv zeta in E.
  apply bind_ok in E as ([changes o] & Ho2 & E). cbv zeta in E. set (row := Build_StatementRow _ _ _ _ _) in *.
  assert (row_wf row) as Hrow.
  { exists v, j. split_and!; [done..|]. unfold row. cbn. destruct v; try (apply ok_inj in Ho; by subst object).
    apply nodeKey_ok in Ho. subst object. by rewrite bool_decide_false by apply node_key_nonempty. }
  assert (tables_wf o ∧ (∃ n, o = set_statements (statements o) n (onto b2)) ∧
    (∀ x, x ∈ statements o → x ∈ statements (onto b2) ∨ changes = true ∧ x.2 = row)) as (Hwf & (n & Heq) & Hin).
  { destruct present.
    - by apply (insert_statement_spec row); [apply Hinv2|..].
    - apply ok_inj in Ho2. destruct (delete_statement_spec row _ _ _ (inv_tables _ _ Hinv2) Ho2) as (H1 & H2 & H3).
      split_and!; [done..|]. intros x Hx. left. by apply H3. }
  destruct changes; cbn [negb] in E.
  - apply bind_ok in E as (document & _ & E). apply bind_ok in E as (b3 & Hb3 & E).
    apply ok_inj in E. assert (batch_inv o0 (changedNode subject b3)) as Hinv3.
    { apply (event_changed _ _ _ _ _ subject), event_core in Hb3.
      eapply batch_core; [exact Hb3|].
      change (changedNode subject (set_onto (λ _, o) b2)) with (set_onto (λ _, o) (changedNode subject b2)).
      apply (inv_statements _ _ _ n row); [by apply inv_changed|done|done|].
      intros x Hx. destruct (Hin x Hx) as [?|[_ ->]]; [by left|right]. split; [done|]. cbn. set_solver. }
    subst b'. destruct (bool_decide _); [done|]. by apply inv_changed.
  - apply ok_inj in E. subst b'. apply (inv_statements _ _ _ n row); [done..|].
    intros x Hx. destruct (Hin x Hx) as [?|[? _]]; [by left|done].
Qed.

(** ** Directories *)

Lemma queryValid_spec o q : queryValid json_parse p o q = Ok tt ↔ (∃ j, queryJson q = Ok j) ∧
  classExists o (query_class q) = Ok tt ∧ ∀ c, c ∈ conditions q → condition_valid json_parse p o c = Ok tt.
Proof.
  pose proof (fold_unit (condition_valid json_parse p o) (conditions q)) as Hfold.
  unfold queryValid. split.
  - intros (j & Hj & E)%bind_ok. apply bind_ok in E as ([] & Hc & Hall). split; [by exists j|]. split; [done|].
    exact (proj1 Hfold Hall).
  - intros ((j & ->) & -> & Hall). cbn [mbind result_bind]. exact (proj2 Hfold Hall).
Qed.

Lemma canonical_valid o c : condition_valid json_parse p o c = Ok tt →
  condition_valid json_parse p o (canonical_condition c) = Ok tt.
Proof.
  unfold condition_valid. cbn [canonical_condition condition_property equals].
  destruct (getProperty _ _ _) as [[d|]|]; try done. cbn [of_option mbind result_bind].
  destruct (equals c) as [v|]; [|done]. cbn [fmap option_fmap option_map]. rewrite canonical_kind.
  destruct (check _ _); [|done]. cbn [mbind result_bind]. by destruct v.
Qed.

Lemma canonical_query_valid o q : queryValid json_parse p o q = Ok tt →
  queryValid json_parse p o (canonical_query q) = Ok tt.
Proof.
  rewrite !queryValid_spec. intros ((j & Hj) & Hc & Hall). split_and!; [by exists j; apply query_canonical|done|].
  cbn. intros c (c' & -> & Hin)%list_elem_of_fmap. by apply canonical_valid, Hall.
Qed.

(** A saved directory is read back as its query. *)
Lemma saved_again label q j after : query_fits q → queryJson q = Ok j →
  dump (directory_value label j) = Ok after → saved_query json_parse after = Ok (canonical_query q).
Proof.
  intros Hf Hj Hd. unfold saved_query, parse.
  assert (json_ok (directory_value label j) = true) as Hok by (simpl; by rewrite (query_ok q j Hj)).
  rewrite (parse_dump _ _ Hok Hd). cbn [of_option mbind result_bind].
  change (at_key (directory_value label j) (lit "query")) with (Ok (E:=string) j). cbn [mbind result_bind].
  by apply query_again.
Qed.

Lemma add_properties_spec path cs o o' :
  fold_res (λ o c, addDirectoryProperty path (condition_property c) o) o cs = Ok o' → ∃ P,
  o' = set_directories (directories o) P o ∧
  (∀ e, e ∈ P ↔ e ∈ directory_properties o ∨ e.1 = path ∧ ∃ c, c ∈ cs ∧ e.2 = condition_property c).
Proof.
  revert o. induction cs as [|c cs IH]; intros o; simpl.
  - intros [= <-]. exists (directory_properties o). split; [by destruct o|].
    intros e. split; [by left|]. intros [?|[_ (c & ?%not_elem_of_nil & _)]]; done.
  - intros E. apply bind_ok in E as (o1 & Ho1 & E). unfold addDirectoryProperty in Ho1. inv_ok.
    destruct (IH _ E) as (P & -> & HP). exists P. split; [done|].
    intros [x y]. rewrite HP. cbn. rewrite elem_of_union, elem_of_singleton. split.
    + intros [[[= -> ->]|?]|[-> (d & Hd & ->)]]; [right|by left|right].
      * split; [done|]. exists c. split; [by left|done].
      * split; [done|]. exists d. split; [by right|done].
    + intros [?|[-> (d & [->|Hd]%elem_of_cons & ->)]]; [by left; right|by left; left|right].
      split; [done|]. by exists d.
Qed.

Lemma inv_directory o0 next path label q b b' : query_fits q → batch_inv o0 b →
  change_directory json_parse p next path label q b = Ok b' → batch_inv o0 b'.
Proof.
  intros Hf Hinv E. unfold change_directory in E. apply bind_ok in E as ([] & _ & E).
  apply bind_ok in E as ([] & _ & E). apply bind_ok in E as ([] & Hq & E). apply bind_ok in E as (j & Hj & E).
  apply bind_ok in E as (after & Ha & E). case_bool_decide; [by inv_ok|]. apply bind_ok in E as ([] & _ & E).
  apply bind_ok in E as (b2 & Hb2 & E). apply bind_ok in E as (o & Ho & E). apply ok_inj in E. subst b'.
  apply event_core in Hb2 as (t & n & jb & ev & Hjn & ->). apply add_properties_spec in Ho as (P & -> & HP).
  cbn in HP. apply canonical_query_valid in Hq. pose proof (saved_again label q j after Hf Hj Ha) as Hsaved.
  assert (after ≠ []) as Hne by (intros ->; unfold directory_value, json_object in Ha; simpl in Ha; inv_ok; done).
  destruct Hinv as [[] [] Hd]. destruct (Hjn tracks_bytes) as [Hj0 Hlog].
  split; [split; try done; [by apply Hlog|]|by split|].
  { cbn. intros x document [[<- <-]|[_ Hx]]%lookup_insert_Some; [done|by apply (wf_documents0 x)]. }
  intros path' document. cbn. intros [[<- <-]|[Hdiff Hp]]%lookup_insert_Some.
  - apply queryValid_spec in Hq as ((j' & Hj') & Hc & Hall). exists (canonical_query q).
    split_and!; [done|by exists j'|done|]. intros c Hin. split.
    + cbn. apply HP. right. split; [done|]. cbn in Hin. apply list_elem_of_fmap in Hin as (c' & -> & Hin).
      by exists c'.
    + right. apply (condition_kept (onto b) _ ∅); [by split|set_solver|by apply Hall].
  - apply (directory_kept (onto b) _ (changed_properties b)); [by split|done| |by apply Hd].
    cbn. intros k Hk. apply HP. left. apply elem_of_filter. by split.
Qed.

Lemma inv_remove o0 next path b b' : batch_inv o0 b → remove_directory next path b = Ok b' → batch_inv o0 b'.
Proof.
  intros Hinv E. unfold remove_directory in E. apply bind_ok in E as ([] & _ & E).
  destruct (directories (onto b) !! path) as [before|]; [|by inv_ok].
  apply event_core in E. eapply batch_core; [exact E|]. clear E.
  destruct Hinv as [[] [] Hd]. split; [split; try done|by split|].
  { cbn. intros x document [_ Hx]%lookup_delete_Some. by apply (wf_documents0 x). }
  intros path' document. cbn. intros [Hne Hp]%lookup_delete_Some.
  apply (directory_kept (onto b) _ (changed_properties b)); [by split|done| |by apply Hd].
  cbn. intros k Hk. apply elem_of_filter. by split.
Qed.

(** ** Batches *)

Definition change_fits (c : OntologyChange) : Prop :=
  match c with
  | ChangeAssertion _ _ v _ => value_fits v
  | ChangeDirectory _ _ q => query_fits q
  | _ => True
  end.

Lemma inv_change o0 next c b b' : change_fits c → batch_inv o0 b →
  change json_parse p next c b = Ok b' → batch_inv o0 b'.
Proof.
  destruct c; simpl; intros Hf Hinv E.
  - by apply (inv_class o0 next c b).
  - by eapply inv_property.
  - by eapply inv_entity.
  - by eapply inv_type.
  - by eapply inv_assertion.
  - by eapply inv_directory.
  - by eapply inv_remove.
Qed.

Lemma inv_loop o0 stop poll next cs b b' : Forall change_fits cs → batch_inv o0 b →
  changes_loop json_parse p stop poll next cs b = Ok b' → batch_inv o0 b'.
Proof.
  intros Hf. revert poll b. induction Hf as [|c cs Hc _ IH]; intros poll b Hinv E; simpl in E; [by inv_ok|].
  apply bind_ok in E as ([] & _ & E). apply bind_ok in E as (b1 & Hb1 & E).
  apply (IH (S poll) b1); [|done]. by apply (inv_change o0 next c b).
Qed.
End steps.
