(* ===== verification/OntologyJournal.v ===== *)
(** A batch and its journal: every change that makes a difference appends one event
    of the batch's revision, and a batch without events has changed nothing that
    can be read. *)
From S2P Require Import Prelude Text Json JsonObject Table Closure ObjectData ObjectPackage ObjectStore ObjectSteps.
From S2P Require Import OntologyData OntologyCodec OntologyStore OntologyLaws OntologySteps.
Local Open Scope Z_scope.

(** The parts that only the journal writes. *)
Record silent (b b' : Batch) : Prop := {
  silent_journal : journal (onto b') = journal (onto b);
  silent_counter : journal_counter (onto b') = journal_counter (onto b);
  silent_commits : commits (onto b') = commits (onto b);
  silent_revision : revision (onto b') = revision (onto b);
  silent_events : events b' = events b
}.

#[export] Instance silent_preorder : PreOrder silent.
Proof. split; [by split|]. intros x y z [] []. split; congruence. Qed.

(** Equal but for the sequence numbers that ignored rows used up. *)
Definition quiet (o o' : Ontology) : Prop := ∃ n, o' = set_statements (statements o) n o.

Lemma quiet_refl o : quiet o o.
Proof. exists (statement_counter o). by destruct o. Qed.

Lemma quiet_trans o1 o2 o3 : quiet o1 o2 → quiet o2 o3 → quiet o1 o3.
Proof. intros [n ->] [m ->]. by exists m. Qed.

Record logs (next : Z) (b b' : Batch) (rows : table EventRow) : Prop := {
  logs_journal : journal (onto b') = journal (onto b) ++ rows;
  logs_revisions : Forall (λ r, event_revision r.2 = next) rows;
  logs_differ : Forall (λ r, event_before r.2 ≠ event_after r.2) rows;
  logs_events : events b' = events b + len rows;
  logs_commits : commits (onto b') = commits (onto b);
  logs_revision : revision (onto b') = revision (onto b);
  logs_quiet : rows = [] → quiet (onto b) (onto b')
}.

Lemma logs_nothing next b b' : silent b b' → quiet (onto b) (onto b') → logs next b b' [].
Proof. intros [] Hq. split; try done; [by rewrite app_nil_r|simpl; lia]. Qed.

Lemma logs_trans next b1 b2 b3 rows1 rows2 : logs next b1 b2 rows1 → logs next b2 b3 rows2 →
  logs next b1 b3 (rows1 ++ rows2).
Proof.
  intros [] []. split.
  - by rewrite logs_journal1, logs_journal0, app_assoc.
  - by apply Forall_app.
  - by apply Forall_app.
  - rewrite length_app. lia.
  - congruence.
  - congruence.
  - intros [-> ->]%app_nil. eapply quiet_trans; [by apply logs_quiet0|by apply logs_quiet1].
Qed.

Lemma logs_event next op subject before after b b1 b2 b3 :
  bounded (journal_counter (onto b)) (journal (onto b)) → before ≠ after → silent b b1 →
  event next op subject before after b1 = Ok b2 → silent b2 b3 → ∃ rows, logs next b b3 rows.
Proof.
  intros Hb Hne [] E []. apply event_spec in E as [[? _]|(_ & t & j & -> & _ & _ & Ht)]; [done|]. simpl in *.
  rewrite silent_journal0, silent_counter0 in Ht. specialize (Ht Hb). eexists [_].
  split; [by rewrite silent_journal1, Ht|by repeat constructor|by repeat constructor|simpl; lia|congruence|congruence|done].
Qed.

Section logs.
Context `{DoublesLaws} (json_parse : bytes → option json) (p : Package).
Context (parse_dump : ∀ j d, json_ok j = true → dump j = Ok d → json_parse d = Some j).

Lemma use_silent present r b b' : use_resource p present r b = Ok b' → silent b b'.
Proof.
  unfold use_resource, ensureResource. destruct present; intros E.
  - apply bind_ok in E as (o & Ho & E). apply ok_inj in E. subst b'. apply bind_ok in Ho as ([] & _ & Ho).
    destruct r as [k0|k0]; [|apply ok_inj in Ho; by subst o]. apply bind_ok in Ho as (key & _ & Ho).
    destruct (nodes (onto b) !! key); apply ok_inj in Ho; by subst o.
  - apply bind_ok in E as ([] & _ & E). apply ok_inj in E. by subst b'.
Qed.

(** A resource with a node is used without a trace. *)
Lemma use_known present r b b' : is_Some (nodes (onto b) !! node_key r) →
  use_resource p present r b = Ok b' → b' = b.
Proof.
  unfold use_resource, ensureResource. intros Hr. destruct present; intros E.
  - apply bind_ok in E as (o & Ho & E). apply ok_inj in E. subst b'. apply bind_ok in Ho as ([] & _ & Ho).
    destruct r as [k0|k0]; [|apply ok_inj in Ho; subst o; by destruct b]. apply bind_ok in Ho as (key & Hk & Ho).
    apply nodeKey_ok in Hk. subst key. destruct Hr as [n Hr]. rewrite Hr in Ho. apply ok_inj in Ho. subst o.
    by destruct b.
  - by apply bind_ok in E as ([] & _ & [= <-]).
Qed.

Lemma use_nodes present r b b' k : use_resource p present r b = Ok b' →
  is_Some (nodes (onto b') !! k) → k ≠ node_key r → is_Some (nodes (onto b) !! k).
Proof.
  unfold use_resource, ensureResource. destruct present; intros E.
  - apply bind_ok in E as (o & Ho & E). apply ok_inj in E. subst b'. apply bind_ok in Ho as ([] & _ & Ho).
    destruct r as [k0|k0]; [|apply ok_inj in Ho; by subst o]. apply bind_ok in Ho as (key & Hk & Ho).
    apply nodeKey_ok in Hk. subst key.
    destruct (nodes (onto b) !! _); apply ok_inj in Ho; subst o; [done|]. cbn.
    intros Hs Hne. by rewrite lookup_insert_ne in Hs.
  - by apply bind_ok in E as ([] & _ & [= <-]).
Qed.

Lemma use_tables present r b b' : use_resource p present r b = Ok b' →
  types (onto b') = types (onto b) ∧ statements (onto b') = statements (onto b).
Proof.
  unfold use_resource, ensureResource. destruct present; intros E.
  - apply bind_ok in E as (o & Ho & E). apply ok_inj in E. subst b'. apply bind_ok in Ho as ([] & _ & Ho).
    destruct r as [k0|k0]; [|apply ok_inj in Ho; by subst o]. apply bind_ok in Ho as (key & _ & Ho).
    destruct (nodes (onto b) !! key); apply ok_inj in Ho; by subst o.
  - by apply bind_ok in E as ([] & _ & [= <-]).
Qed.

Lemma logs_type next r class present b b' : tables_wf (onto b) →
  change_type p next r class present b = Ok b' → ∃ rows, logs next b b' rows.
Proof.
  intros Hwf E. unfold change_type in E. apply bind_ok in E as ([] & _ & E).
  apply bind_ok in E as ([] & _ & E). apply bind_ok in E as (b1 & Hb1 & E).
  pose proof (use_silent _ _ _ _ Hb1) as Hs. destruct (use_tables _ _ _ _ Hb1) as [Ht _].
  apply bind_ok in E as (key & Hk & E). cbv zeta in E. apply bind_ok in E as ([] & _ & E).
  destruct (Bool.eqb _ _) eqn:Ee.
  - apply ok_inj in E. subst b1. exists []. apply logs_nothing; [done|].
    apply eqb_prop in Ee. destruct present.
    + apply bool_decide_eq_true in Ee. rewrite Ht in Ee. apply nodeKey_ok in Hk. subst key.
      apply use_known in Hb1; [subst b'; apply quiet_refl|]. by apply (wf_types _ Hwf _ class).
    + unfold use_resource in Hb1. apply bind_ok in Hb1 as ([] & _ & Hb1). apply ok_inj in Hb1.
      subst b'. apply quiet_refl.
  - apply bind_ok in E as (value & Hv & E). apply bind_ok in E as (b2 & E & Hb'). apply ok_inj in Hb'. subst b'.
    apply (logs_event _ _ _ _ _ _ _ _ _ (log_bounded _ _ (wf_journal _ Hwf))) with (3 := E); [|by etrans; [exact Hs|]|by split].
    assert (value ≠ []) by (intros ->; unfold json_object in Hv; simpl in Hv; inv_ok; done).
    by destruct present.
Qed.

Lemma logs_class next c b b' : tables_wf (onto b) → change_class next c b = Ok b' → ∃ rows, logs next b b' rows.
Proof.
  intros Hwf E. unfold change_class in E. apply bind_ok in E as (after & _ & E).
  apply bind_ok in E as (before & _ & E). apply bind_ok in E as (text_ & _ & E).
  case_bool_decide as Hsame.
  { apply ok_inj in E. subst b'. exists []. by apply logs_nothing, quiet_refl. }
  apply bind_ok in E as ([] & _ & E). apply bind_ok in E as (b2 & Hb2 & E).
  apply (logs_event _ _ _ _ _ _ _ _ _ (log_bounded _ _ (wf_journal _ Hwf)) Hsame) with (2 := E); [|done].
  destruct (match getClass (onto b) _ with Some old => _ | None => true end); [|by apply ok_inj in Hb2; subst b2].
  apply bind_ok in Hb2 as (o2 & Ho2 & Hb2). apply bind_ok in Hb2 as ([] & _ & Hb2).
  apply ok_inj in Hb2. subst b2. apply addParents_spec in Ho2 as (P & -> & _). by split.
Qed.

Lemma logs_property next d b b' : tables_wf (onto b) → change_property json_parse next d b = Ok b' →
  ∃ rows, logs next b b' rows.
Proof.
  intros Hwf E. unfold change_property in E. apply bind_ok in E as (after & _ & E).
  apply bind_ok in E as ([] & _ & E). apply bind_ok in E as ([] & _ & E).
  apply bind_ok in E as (old & _ & E). apply bind_ok in E as (before & _ & E).
  case_bool_decide as Hsame.
  { apply ok_inj in E. subst b'. exists []. by apply logs_nothing, quiet_refl. }
  by apply (logs_event _ _ _ _ _ _ _ _ _ (log_bounded _ _ (wf_journal _ Hwf)) Hsame) with (2 := E).
Qed.

Lemma logs_entity next e b b' : tables_wf (onto b) → change_entity next e b = Ok b' →
  ∃ rows, logs next b b' rows.
Proof.
  intros Hwf E. unfold change_entity in E. apply bind_ok in E as ([] & _ & E).
  apply bind_ok in E as ([] & _ & E). apply bind_ok in E as ([] & _ & E). apply bind_ok in E as (k & _ & E).
  apply bind_ok in E as (after & _ & E). case_bool_decide as Hsame.
  { apply ok_inj in E. subst b'. exists []. by apply logs_nothing, quiet_refl. }
  by apply (logs_event _ _ _ _ _ _ _ _ _ (log_bounded _ _ (wf_journal _ Hwf)) Hsame) with (2 := E).
Qed.

Lemma logs_directory next path label q b b' : tables_wf (onto b) →
  change_directory json_parse p next path label q b = Ok b' → ∃ rows, logs next b b' rows.
Proof.
  intros Hwf E. unfold change_directory in E. apply bind_ok in E as ([] & _ & E).
  apply bind_ok in E as ([] & _ & E). apply bind_ok in E as ([] & _ & E). apply bind_ok in E as (j & _ & E).
  apply bind_ok in E as (after & _ & E). case_bool_decide as Hsame.
  { apply ok_inj in E. subst b'. exists []. by apply logs_nothing, quiet_refl. }
  apply bind_ok in E as ([] & _ & E). apply bind_ok in E as (b2 & Hb2 & E).
  apply bind_ok in E as (o & Ho & E). apply ok_inj in E. subst b'.
  apply (logs_event _ _ _ _ _ _ _ _ _ (log_bounded _ _ (wf_journal _ Hwf)) Hsame) with (2 := Hb2); [done|].
  apply add_properties_spec in Ho as (P & -> & _). by split.
Qed.

Lemma logs_remove next path b b' : tables_wf (onto b) →
  (∀ document, directories (onto b) !! path = Some document → document ≠ []) →
  remove_directory next path b = Ok b' → ∃ rows, logs next b b' rows.
Proof.
  intros Hwf Hd E. unfold remove_directory in E. apply bind_ok in E as ([] & _ & E).
  destruct (directories (onto b) !! path) as [before|].
  - by apply (logs_event _ _ _ _ _ _ _ _ _ (log_bounded _ _ (wf_journal _ Hwf)) (Hd _ eq_refl)) with (2 := E).
  - apply ok_inj in E. subst b'. exists []. by apply logs_nothing, quiet_refl.
Qed.

Lemma same_statement_spec s x :
  same_statement (st_subject s) (st_predicate s) (st_kind s) (st_value s) x = true ↔
  st_subject x = st_subject s ∧ st_predicate x = st_predicate s ∧ st_kind x = st_kind s ∧
  st_value x = st_value s.
Proof.
  unfold same_statement. rewrite !andb_true_iff, !bool_decide_eq_true, Z.eqb_eq. tauto.
Qed.

(** The text of a value determines the node it refers to. *)
Lemma row_object s v j d : row_wf s → valueJson v = Ok j → dump j = Ok d → st_value s = d →
  st_kind s = kind_code (kind v) → st_object s = match v with VResource r => Some (node_key r) | _ => None end.
Proof.
  intros (v' & j' & Hv' & Hj' & Hd' & Hk' & Ho') Hj Hd Hval Hk. rewrite Ho'. rewrite Hk' in Hk. subst d.
  assert (kind v' = kind v) as Hkind by (pose proof (kind_of_kind (kind v')) as E; rewrite Hk, kind_of_kind in E; by injection E).
  assert (j = j') as ->.
  { pose proof (parse_dump _ _ (value_ok _ _ Hj') Hd') as E1.
    pose proof (parse_dump _ _ (value_ok _ _ Hj) Hd) as E2. congruence. }
  destruct v, v'; simpl in Hkind; try done. simpl in Hj, Hj'.
  apply bind_ok in Hj as (k1 & Hk1 & [= <-]). apply bind_ok in Hj' as (k2 & Hk2 & [= E]).
  apply nodeKey_ok in Hk1, Hk2. congruence.
Qed.

Lemma filter_none {A} (f : A → bool) l : existsb f l = false → filter (λ x, f x = false) l = l.
Proof.
  induction l as [|x l IH]; [done|]. simpl. intros [Hx Hl]%orb_false_iff. rewrite filter_cons, decide_True by done.
  by rewrite IH.
Qed.

Lemma use_value v present b b' : match v with VResource target => use_resource p present target b
    | _ => Ok b end = Ok b' →
  silent b b' ∧ statements (onto b') = statements (onto b) ∧
  ((∀ target, v = VResource target → is_Some (nodes (onto b) !! node_key target)) → b' = b) ∧
  (present = false → b' = b).
Proof.
  intros E. destruct v; try (by apply ok_inj in E; subst b').
  split; [by eapply use_silent|]. split; [by apply (use_tables _ _ _ _ E)|]. split.
  - intros Hn. apply (use_known _ _ _ _ (Hn _ eq_refl) E).
  - intros ->. unfold use_resource in E. by apply bind_ok in E as ([] & _ & [= <-]).
Qed.

Lemma logs_assertion next r property v present b b' : tables_wf (onto b) →
  change_assertion json_parse p next r property v present b = Ok b' → ∃ rows, logs next b b' rows.
Proof.
  intros Hwf E. unfold change_assertion in E. apply bind_ok in E as ([] & _ & E).
  apply bind_ok in E as (d & _ & E). apply bind_ok in E as (d' & _ & E). apply bind_ok in E as ([] & _ & E).
  apply bind_ok in E as (b1 & Hb1 & E). apply bind_ok in E as (subject & Hs & E).
  apply nodeKey_ok in Hs. subst subject. apply bind_ok in E as (j & Hj & E).
  apply bind_ok in E as (value & Hd & E). apply bind_ok in E as (b2 & Hb2 & E).
  pose proof (use_silent _ _ _ _ Hb1) as Hs1. destruct (use_tables _ _ _ _ Hb1) as [_ Ht1].
  destruct (use_value _ _ _ _ Hb2) as (Hs2 & Ht2 & Hknown & Habsent).
  apply bind_ok in E as (object & Ho & E). apply bind_ok in E as ([] & _ & E). cbv zeta in E.
  apply bind_ok in E as ([changes o] & Ho2 & E). cbv zeta in E. set (row := Build_StatementRow _ _ _ _ _) in *.
  destruct changes; cbn [negb] in E.
  - apply bind_ok in E as (document & Hdoc & E). apply bind_ok in E as (b3 & Hb3 & E).
    apply (logs_event _ _ _ _ _ _ _ _ _ (log_bounded _ _ (wf_journal _ Hwf))) with (3 := Hb3).
    + assert (document ≠ []) by (intros ->; unfold json_object in Hdoc; simpl in Hdoc; inv_ok; done).
      by destruct present.
    + etrans; [exact Hs1|]. etrans; [exact Hs2|].
      destruct present; [|injection Ho2 as _ <-; by split]. unfold insert_statement in Ho2.
      apply bind_ok in Ho2 as (n & _ & Ho2). destruct (existsb _ _); [done|].
      apply bind_ok in Ho2 as ([] & _ & Ho2). apply bind_ok in Ho2 as (t & _ & [= <-]). by split.
    + apply ok_inj in E. subst b'. by destruct (bool_decide _).
  - apply ok_inj in E. subst b'. exists []. destruct present.
    + unfold insert_statement in Ho2. apply bind_ok in Ho2 as (n & _ & Ho2).
      destruct (existsb _ _) eqn:Ex; [|by apply bind_ok in Ho2 as ([] & _ & Ho2); inv_ok].
      injection Ho2 as <-. rewrite Ht2, Ht1 in Ex. apply existsb_exists in Ex as (x & Hin & Hsame).
      apply list_elem_of_In in Hin. apply same_statement_spec in Hsame as (E1 & E2 & E3 & E4).
      assert (b1 = b) as ->.
      { apply (use_known _ _ _ _) in Hb1; [done|]. apply (wf_nodes _ Hwf x); [done|]. left. by rewrite E1. }
      assert (b2 = b) as ->.
      { apply Hknown. intros target ->. apply (wf_nodes _ Hwf x); [done|]. right.
        pose proof (wf_rows _ Hwf) as Hr. unfold rows_wf in Hr. rewrite Forall_forall in Hr.
        apply (row_object x.2 (VResource target) j value); [by apply Hr|done|done|by rewrite E4|by rewrite E3]. }
      apply logs_nothing; [by split|by eexists].
    + injection Ho2 as Ex <-. rewrite (Habsent eq_refl) in *.
      unfold use_resource in Hb1. apply bind_ok in Hb1 as ([] & _ & Hb1). apply ok_inj in Hb1. subst b1.
      unfold delete_statement. rewrite filter_none by done. apply logs_nothing; [by split|by eexists].
Qed.

(** ** Batches *)

Lemma logs_change o0 next c b b' : batch_inv json_parse p o0 b → change json_parse p next c b = Ok b' →
  ∃ rows, logs next b b' rows.
Proof.
  intros Hinv. pose proof (inv_tables _ _ _ _ Hinv) as Hwf. destruct c; simpl; intros E.
  - by apply (logs_class next c).
  - by apply (logs_property next p0).
  - by apply (logs_entity next e).
  - by eapply logs_type.
  - by eapply logs_assertion.
  - by eapply logs_directory.
  - apply (logs_remove next path); [done| |done]. apply (wf_documents _ Hwf).
Qed.

Lemma logs_loop o0 stop poll next cs b b' : Forall change_fits cs → batch_inv json_parse p o0 b →
  changes_loop json_parse p stop poll next cs b = Ok b' → ∃ rows, logs next b b' rows.
Proof.
  intros Hf. revert poll b. induction Hf as [|c cs Hc _ IH]; intros poll b Hinv E; simpl in E.
  - apply ok_inj in E. subst b'. exists []. by apply logs_nothing, quiet_refl.
  - apply bind_ok in E as ([] & _ & E). apply bind_ok in E as (b1 & Hb1 & E).
    destruct (logs_change _ _ _ _ _ Hinv Hb1) as (rows1 & Hl1).
    destruct (IH (S poll) b1) as (rows2 & Hl2); [by apply (inv_change json_parse parse_dump p o0 next c b)|done|].
    exists (rows1 ++ rows2). by apply (logs_trans _ _ b1).
Qed.
End logs.
