(* ===== verification/OntologyReach.v ===== *)
(** The package and its semantic filesystem together: the states that interleaved
    file operations and semantic batches reach, and the invariant of all of
    them. *)
From stdpp Require Import relations.
From S2P Require Import Prelude Text Json JsonObject Table Closure Sha256 ObjectData ObjectPackage.
From S2P Require Import ObjectStore ObjectInvariant ObjectSteps ObjectSpec ObjectProperties.
From S2P Require Import OntologyData OntologyCodec OntologyStore OntologyLaws OntologySteps OntologyJournal.
Local Open Scope Z_scope.

Section reach.
Context `{DoublesLaws} {Hs : Type} {hashing : StreamHash Hs} {hashing_laws : StreamHashLaws Hs} {sqlite : SqliteJson}.
Context (json_parse : bytes → option json).
Context (parse_dump : ∀ j d, json_ok j = true → dump j = Ok d → json_parse d = Some j).

(** ** The system *)

Inductive system_step : Store * Ontology → Store * Ontology → Prop :=
  | step_files st st' o : step (H:=Hs) json_parse st st' → system_step (st, o) (st', o)
  | step_semantics st o ro e stop cs expected session r o' : Forall change_fits cs →
      apply json_parse (db st) ro e stop cs expected session o = (r, o') →
      system_step (st, o) (st, o').

Definition system_reachable (st : Store) (o : Ontology) : Prop :=
  ∃ container pages st0, create_store container pages = Ok st0 ∧
    rtc system_step (st0, empty_ontology) (st, o).

(** ** The invariant *)

Record consistent (p : Package) (o : Ontology) : Prop := {
  ok_tables : tables_wf o;
  ok_sound : sound json_parse o;
  ok_directories path document : directories o !! path = Some document →
    directory_ok json_parse p o ∅ path document;
  ok_revision : 0 <= revision o <= INT64_MAX;
  ok_commits n : is_Some (commits o !! n) → n <= revision o;
  ok_events : Forall (λ r, is_Some (commits o !! event_revision r.2)) (journal o)
}.

Lemma empty_tables : tables_wf empty_ontology.
Proof.
  split; cbn; try done; try by constructor.
  - intros c Hc. inversion Hc as [? ? E|? ? ? E]; unfold parent in E; simpl in E; set_solver.
  - by intros r k ?%not_elem_of_nil.
  - split; [constructor|]. split; [done|constructor].
Qed.

Lemma empty_consistent p : consistent p empty_ontology.
Proof.
  split; cbn; try done; try (by intros n [? ?]); try by constructor.
  - apply empty_tables.
  - by intros r ?%not_elem_of_nil.
Qed.

Lemma consistent_start p o : consistent p o → batch_inv json_parse p o (start_batch o).
Proof.
  intros []. split; [done| |done]. split; cbn; auto. done.
Qed.

(** ** A committed batch *)

Lemma fold_unit_each {A} (f : A → result string unit) l x : fold_res (λ _ x, f x) tt l = Ok tt → x ∈ l → f x = Ok tt.
Proof. intros Hl. by apply (proj1 (fold_unit f l)). Qed.

(** The final validation leaves no directory in doubt. *)
Lemma directories_validated p o0 b : batch_inv json_parse p o0 b → validateDirectories json_parse p b = Ok tt →
  ∀ path document, directories (onto b) !! path = Some document →
    directory_ok json_parse p (onto b) ∅ path document.
Proof.
  intros Hinv Hv path document Hp. destruct (inv_directories _ _ _ _ Hinv _ _ Hp) as (q & Hq & Hj & Hc & Hall).
  exists q. split_and!; [done..|]. intros c Hin. destruct (Hall c Hin) as [Hdp Hor]. split; [done|]. right.
  destruct Hor as [Hch|]; [|done].
  assert (directory_affected b path = true) as Ha.
  { unfold directory_affected. apply existsb_exists. exists (path, condition_property c).
    split; [by apply list_elem_of_In, elem_of_elements|]. simpl. by rewrite !bool_decide_true by done. }
  unfold validateDirectories in Hv. apply (fold_unit_each (λ d : bytes * bytes, if directory_affected b d.1
    then q ← saved_query json_parse d.2; queryValid json_parse p (onto b) q else Ok tt) _ (path, document)) in Hv.
  - simpl in Hv. rewrite Ha, Hq in Hv. cbn [mbind result_bind] in Hv. by apply queryValid_spec in Hv as (_ & _ & Hv); apply Hv.
  - by apply elem_of_map_to_list.
Qed.

Lemma quiet_consistent p o o' : quiet o o' → tables_wf o' → consistent p o → consistent p o'.
Proof. by intros [n ->] Hwf []; split. Qed.

(** What a successful batch did. *)
Record committed (p : Package) (e : Env) (expected : Z) (session : bytes) (o : Ontology) (v : Z)
    (o' : Ontology) (rows : table EventRow) : Prop := {
  committed_expected : expected = revision o ∧ expected < INT64_MAX;
  committed_session : ∃ s, sessions p !! session = Some s ∧ endedAtNs s = 0;
  committed_journal : journal o' = journal o ++ rows;
  committed_events : Forall (λ r, event_revision r.2 = expected + 1 ∧ event_before r.2 ≠ event_after r.2) rows;
  committed_effect :
    rows = [] ∧ v = expected ∧ quiet o o' ∨
    rows ≠ [] ∧ v = expected + 1 ∧ revision o' = v ∧ commits o' = <[v := (session, clock e 0)]> (commits o)
}.

Lemma body_consistent p e stop cs expected session o v o' : consistent p o → Forall change_fits cs →
  apply_body json_parse p e stop cs expected session o = Ok (v, o') →
  consistent p o' ∧ ∃ rows, committed p e expected session o v o' rows.
Proof.
  intros Hok Hf E. unfold apply_body in E. apply bind_ok in E as ([] & _ & E). cbv zeta in E.
  assert (u64 (revision o) = revision o) as Hu.
  { apply u64_small. pose proof (ok_revision _ _ Hok). unfold INT64_MAX, UINT64_MAX in *. lia. }
  rewrite Hu in E. apply bind_ok in E as ([] & Hexp & E). apply check_ok, negb_true_iff, orb_false_iff in Hexp as [Hexp Hmax].
  apply negb_false_iff, Z.eqb_eq in Hexp. apply Z.leb_gt in Hmax.
  apply bind_ok in E as ([] & Hsess & E). apply check_ok in Hsess. apply bind_ok in E as (b & Hb & E).
  pose proof (inv_loop json_parse parse_dump p o stop 2 _ cs _ _ Hf (consistent_start p o Hok) Hb) as Hinv.
  destruct (logs_loop json_parse p parse_dump o stop 2 _ cs _ _ Hf (consistent_start p o Hok) Hb) as (rows & Hlogs).
  assert (∃ s, sessions p !! session = Some s ∧ endedAtNs s = 0) as Hactive.
  { destruct (sessions p !! session) as [s|]; [|done]. exists s. split; [done|by apply Z.eqb_eq]. }
  destruct Hlogs as [Hj Hr Hdiff Hev Hc Hrev Hq]. cbn [start_batch onto events] in *.
  assert (Forall (λ r : Z * EventRow, event_revision r.2 = expected + 1 ∧ event_before r.2 ≠ event_after r.2) rows) as Hrows.
  { apply Forall_and. split; [|done]. by rewrite Hexp. }
  destruct (Z.eqb_spec (events b) 0) as [H0'|Hne].
  - apply bind_ok in E as ([] & _ & [= <- <-]). assert (rows = []) as -> by (destruct rows; [done|simpl in *; lia]).
    specialize (Hq eq_refl). split; [apply (quiet_consistent p o); [done|apply Hinv|done]|].
    exists []. split; [by split|done|done|done|]. left. by rewrite Hexp.
  - apply bind_ok in E as ([] & Hvs & E). apply bind_ok in E as ([] & Hvd & E).
    apply bind_ok in E as ([] & Hfree & E). apply check_ok, bool_decide_eq_true in Hfree.
    apply bind_ok in E as ([] & _ & [= <- <-]).
    pose proof (directories_validated p o b Hinv Hvd) as Hdirs.
    pose proof (inv_tables _ _ _ _ Hinv) as Hwf.
    pose proof (incremental json_parse parse_dump o b (wf_rows _ Hwf) (ordered_nodup _ (wf_ordered _ Hwf))
      (ok_sound _ _ Hok) (inv_tracks _ _ _ _ Hinv) Hvs) as Hsound.
    split.
    + split; cbn; try done.
      * destruct Hwf. by split.
      * pose proof (ok_revision _ _ Hok). lia.
      * intros n. rewrite lookup_insert_is_Some'. rewrite Hc. intros [<-|Hn]; [lia|].
        pose proof (ok_commits _ _ Hok n Hn). lia.
      * rewrite Hj, Hc. apply Forall_app. split.
        -- eapply Forall_impl; [apply (ok_events _ _ Hok)|]. simpl. intros r Hr'. apply lookup_insert_is_Some'. by right.
        -- eapply Forall_impl; [exact Hr|]. simpl. intros r Hr'. apply lookup_insert_is_Some'. by left.
    + exists rows. split; [by split|done|done|done|]. right. cbn. split; [by intros ->|].
      rewrite Hexp, Hc. done.
Qed.

Lemma apply_consistent p ro e stop cs expected session o r o' : consistent p o → Forall change_fits cs →
  apply json_parse p ro e stop cs expected session o = (r, o') → consistent p o' ∧
  match r with
  | Err _ => o' = o
  | Ok v => ro = false ∧ commit_error e = None ∧ ∃ rows, committed p e expected session o v o' rows
  end.
Proof.
  intros Hok Hf. unfold apply. destruct (_ ← check (negb (stop 0%nat)) _; _) as [[v o1]|m] eqn:E.
  2: { by intros [= <- <-]. }
  apply bind_ok in E as ([] & _ & E). apply bind_ok in E as ([] & _ & E). apply bind_ok in E as ([] & _ & E).
  apply bind_ok in E as ([] & Hro & E). apply check_ok, negb_true_iff in Hro.
  destruct (body_consistent p e stop cs expected session o v o1 Hok Hf E) as [Hok1 Hrows].
  destruct (commit_error e); intros [= <- <-]; [done|]. by split.
Qed.

(** ** Reachable systems *)

Lemma consistent_extends p p' o : extends p p' → consistent p o → consistent p' o.
Proof.
  intros He []. split; try done. intros path document Hp.
  destruct (ok_directories0 path document Hp) as (q & Hq & Hj & Hc & Hall). exists q. split_and!; [done..|].
  intros c Hin. destruct (Hall c Hin) as [Hdp [?|Hv]]; (split; [done|]); [by left|right].
  unfold condition_valid in *. destruct (getProperty _ _ _) as [[d|]|]; try done. cbn [of_option mbind result_bind] in *.
  destruct (equals c) as [v|]; [|done]. destruct (check _ _); [|done]. cbn [mbind result_bind] in *.
  destruct v as [r| | | |]; try done. unfold resourceExists in *. destruct (nodeKey r); [|done].
  cbn [mbind result_bind] in *. destruct r as [k|k]; [|done].
  destruct (find_object p k) as [[i row]|] eqn:Ef; [|done].
  destruct (ext_objects _ _ He _ _ _ Ef) as (row' & -> & _). done.
Qed.

Lemma system_invariant st o : system_reachable st o →
  reachable (H:=Hs) json_parse st ∧ consistent (db st) o.
Proof.
  intros (container & pages & st0 & Hcreate & Hsteps).
  assert (∀ x y, rtc system_step x y → reachable (H:=Hs) json_parse x.1 → consistent (db x.1) x.2 →
    reachable (H:=Hs) json_parse y.1 ∧ consistent (db y.1) y.2) as Hgen.
  { clear Hcreate Hsteps. induction 1 as [x|x y z Hxy _ IH]; [done|]. intros Hr Hok.
    destruct Hxy as [sta stb oa Hstep|sta oa ro e stop cs expected session r ob Hf Ha]; simpl in *.
    - apply IH; [by apply (reachable_steps json_parse sta); [|apply rtc_once]|].
      destruct (reachable_good json_parse sta Hr) as (Hg & A & _ & HA).
      destruct (steps_good json_parse sta stb Hg (ex_intro _ A HA) (rtc_once _ _ Hstep)) as [_ Hgrow].
      by apply (consistent_extends (db sta)); [apply Hgrow|].
    - apply IH; [done|]. by destruct (apply_consistent _ _ _ _ _ _ _ _ _ _ Hok Hf Ha). }
  apply (Hgen _ _ Hsteps); simpl.
  - exists container, pages, st0. done.
  - apply empty_consistent.
Qed.
End reach.
