(* ===== verification/OntologyQueries.v ===== *)
(** The reads of the semantic filesystem: classes, properties, entities, statements,
    saved directories, file queries with their cursors, graph traversal and the
    event journal ([OntologyFileSystem] and [Impl::files] of
    src/Objects/OntologyFileSystem.cpp). *)
From stdpp Require Import sorting.
From S2P Require Import Prelude Text Json JsonObject Table Closure Sha256 ObjectData ObjectPackage ObjectStore.
From S2P Require Import OntologyData OntologyStore.
Local Open Scope Z_scope.

(** ** Tables read in the order of a text key *)

Definition key_le {A} (x y : bytes * A) : Prop := bytes_leb x.1 y.1 = true.
#[export] Instance key_le_dec {A} : RelDecision (@key_le A).
Proof. intros x y. unfold key_le. apply _. Defined.

(** [SELECT ... ORDER BY key]. *)
Definition rows {A} (m : gmap bytes A) : list (bytes * A) := merge_sort key_le (map_to_list m).

(** [... WHERE key>? ... LIMIT ?]. *)
Definition text_page {A} (p : bytes → bool) (after : bytes) (limit : Z) (m : gmap bytes A) :
    list (bytes * A) :=
  take (Z.to_nat limit) (filter (λ r, bytes_ltb after r.1 = true ∧ p r.1 = true) (rows m)).

(** ** Opening *)

(** What the filesystem and the database show when the facade is built. *)
Record Opening := {
  canonical : bool;                 (* fs::canonical(directory) == directory *)
  database_link : bool;             (* objects.sqlite3 is a symbolic link *)
  sidecar_link : bool;              (* -wal, -shm or -journal is one *)
  open_error : option string;
  application_id : Z;
  user_version : Z;
  stored_containers : list bytes
}.

Definition open_ontology (f : Opening) (container : bytes) : result string unit :=
  _ ← check (canonical f && negb (database_link f)) "redirected ontology package";
  _ ← check (negb (sidecar_link f)) "redirected ontology sidecar";
  _ ← match open_error f with Some m => Err m | None => Ok tt end;
  _ ← check ((application_id f =? 0x534F424A) && (user_version f =? 5))
        "ontology requires schema 5; migrate with an ObjectStore writer first";
  check (bool_decide (stored_containers f = [container])) "ontology container mismatch".

(** ** Definitions *)

Definition ontologyClass (o : Ontology) (key : bytes) : result string (option OntologyClass) :=
  _ ← text key 1024 true; Ok (getClass o key).

Definition classes_page (o : Ontology) (after : bytes) (limit : Z) : result string (list OntologyClass) :=
  _ ← text after 1024 false;
  _ ← pageLimit limit;
  Ok ((λ r, {| class_key := r.1; class_label := r.2.1; class_description := r.2.2;
               class_parents := parents_of o r.1 |}) <$> text_page (λ _, true) after limit (classes o)).

(** ** Traversal *)

Inductive OntologyDirection := Outgoing | Incoming.
Record OntologyWalk := { walk_nodes : list (OntologyResource * Z); truncated : bool }.

Definition maximumTraversalRows : Z := 10000.

(** New rows of the recursion: each row once. *)
Fixpoint fresh_rows (seen : gset (bytes * Z)) (l : list (bytes * Z)) : list (bytes * Z) :=
  match l with
  | [] => []
  | r :: l => if decide (r ∈ seen) then fresh_rows seen l else r :: fresh_rows ({[r]} ∪ seen) l
  end.

(** The recursion takes the queued row of least depth, which is the oldest one,
    and queues the rows it leads to; LIMIT counts the rows taken. *)
Fixpoint walk_rows (next : bytes * Z → list (bytes * Z)) (limit : nat) (queue : list (bytes * Z))
    (seen : gset (bytes * Z)) : list (bytes * Z) :=
  match limit, queue with
  | S limit, r :: queue =>
      let new := fresh_rows seen (next r) in
      r :: walk_rows next limit (queue ++ new) (list_to_set new ∪ seen)
  | _, _ => []
  end.

(** [min(depth)] of a key. *)
Fixpoint min_depth (key : bytes) (l : list (bytes * Z)) : option Z :=
  match l with
  | [] => None
  | r :: l =>
      if bool_decide (r.1 = key)
      then Some (match min_depth key l with Some d => Z.min r.2 d | None => r.2 end)
      else min_depth key l
  end.

(** [ORDER BY min(depth),key]. *)
Definition near_le (x y : bytes * Z) : Prop :=
  (x.2 <? y.2) || ((x.2 =? y.2) && bytes_leb x.1 y.1) = true.
#[export] Instance near_le_dec : RelDecision near_le.
Proof. intros x y. unfold near_le. apply _. Defined.

(** [SELECT key,min(depth) ... WHERE key<>? GROUP BY key ORDER BY ...]. *)
Definition nearest (start : bytes) (l : list (bytes * Z)) : list (bytes * Z) :=
  merge_sort near_le
    (omap (λ k, d ← min_depth k l; if bool_decide (k = start) then None else Some (k, d))
      (elements (list_to_set l.*1 : gset bytes))).

(** A node of a live file or of an entity. *)
Definition live_node (p : Package) (o : Ontology) (key : bytes) : bool :=
  match nodes o !! key with
  | None => false
  | Some n =>
      match node_object n with
      | None => true
      | Some k => match find_object p k with Some (_, row) => negb (object_deleted row) | None => false end
      end
  end.

(** The statements of the predicate that lead from a resource, in the order the
    query plan [plan] reads them. *)
Definition step_rows (plan : list (bytes * bytes) → list (bytes * bytes)) (p : Package) (o : Ontology)
    (predicate : bytes) (direction : OntologyDirection) (depth : Z) (deleted : bool) (r : bytes * Z) :
    list (bytes * Z) :=
  let edges := plan (omap (λ s, if bool_decide (st_predicate s.2 = predicate) && (st_kind s.2 =? 0)
                                then object ← st_object s.2; Some (st_subject s.2, object) else None)
                          (statements o)) in
  omap (λ e, let '(source, target) := match direction with Outgoing => e | Incoming => (e.2, e.1) end in
             if bool_decide (source = r.1) && (r.2 <? depth)
                && (if deleted then bool_decide (is_Some (nodes o !! target)) else live_node p o target)
             then Some (target, r.2 + 1) else None) edges.

(** ** Pages of files *)

Record OntologyCursor := {
  cursor_revision : Z;
  cursor_fileSequence : Z;
  afterIndexKey : Z;
  fingerprint : bytes
}.

Definition initial_cursor : OntologyCursor :=
  {| cursor_revision := 0; cursor_fileSequence := 0; afterIndexKey := 0; fingerprint := [] |}.

#[export] Instance OntologyCursor_eq_dec : EqDecision OntologyCursor.
Proof. solve_decision. Defined.

Record OntologyPage := {
  page_revision : Z;
  page_fileSequence : Z;
  page_files : list ObjectIndexEntry;
  page_next : option OntologyCursor
}.

(** [SELECT coalesce(max(sequence),0) FROM object_journal]. *)
Definition file_sequence (p : Package) : Z := foldr (λ j m, Z.max j.1 m) 0 (object_journal p).

(** The classes a query selects. *)
Definition selected_class {D : Doubles} (o : Ontology) (q : OntologyQuery) : gset bytes :=
  if includeSubclasses q
  then reach ((λ e, (e.2, e.1)) <$> elements (parents o)) {[query_class q]}
  else {[query_class q]}.

(** [i.object_key IN(SELECT n.object_key FROM ... JOIN ontology_nodes n ON n.key=...)]. *)
Definition node_of (o : Ontology) (object key : bytes) : bool :=
  match nodes o !! key ≫= node_object with Some k => bool_decide (k = object) | None => false end.

Definition in_class {D : Doubles} (o : Ontology) (q : OntologyQuery) (object : bytes) : bool :=
  bool_decide (query_class q = []) ||
  let selected := selected_class o q in
  existsb (λ t, bool_decide (t.2 ∈ selected) && node_of o object t.1) (elements (types o)).

(** A condition with the text of its value. *)
Definition meets (o : Ontology) (predicate : bytes) (value : option (Z * bytes)) (object : bytes) : bool :=
  existsb (λ s, bool_decide (st_predicate s.2 = predicate)
                && match value with
                   | Some (code, text) => (st_kind s.2 =? code) && bool_decide (st_value s.2 = text)
                   | None => true
                   end
                && node_of o object (st_subject s.2)) (statements o).

Record OntologyStatement {D : Doubles} := {
  statement_sequence : Z;
  statement_subject : OntologyResource;
  statement_property : bytes;
  statement_value : OntologyValue
}.

Record OntologyEvent := {
  ontology_sequence : Z;
  ontology_event : EventRow;
  ontology_session : bytes;
  ontology_at : Z
}.

Section queries.
Context {D : Doubles} {Hs : Type} {hashing : StreamHash Hs} (json_parse : bytes → option json).

Definition property (o : Ontology) (key : bytes) : result string (option OntologyProperty) :=
  _ ← text key 1024 true; getProperty json_parse o key.

Definition entity (o : Ontology) (key : bytes) : result string (option OntologyEntity) :=
  _ ← text key 1024 true;
  k ← nodeKey (Entity key);
  match nodes o !! k with
  | None => Ok None
  | Some n =>
      j ← parse json_parse (node_document n);
      label ← at_key j (lit "label") ≫= get_string;
      description ← at_key j (lit "description") ≫= get_string;
      Ok (Some {| entity_key := key; entity_label := label; entity_description := description |})
  end.

Definition statements_page (o : Ontology) (subject : OntologyResource) (after limit : Z) :
    result string (list OntologyStatement) :=
  key ← nodeKey subject;
  _ ← check (negb (after <? 0)) "invalid ontology statement cursor";
  _ ← pageLimit limit;
  fold_res (λ acc s,
    v ← decodeValue json_parse (i32 (st_kind s.2)) (st_value s.2);
    Ok (acc ++ [{| statement_sequence := s.1; statement_subject := subject;
                   statement_property := st_predicate s.2; statement_value := v |}])) []
    (page (λ s, bool_decide (st_subject s = key)) after limit (statements o)).

Definition condition_text (c : OntologyCondition) : result string (bytes * option (Z * bytes)) :=
  match equals c with
  | None => Ok (condition_property c, None)
  | Some v =>
      j ← valueJson v; d ← dump j; Ok (condition_property c, Some (kind_code (kind v), d))
  end.

Definition signature (container : bytes) (q : OntologyQuery) : result string bytes :=
  j ← queryJson q;
  d ← dump j;
  hash_run (H:=Hs) [to_string (len container); lit ":"; container; d].

Definition selects (o : Ontology) (q : OntologyQuery) (values : list (bytes * option (Z * bytes)))
    (x : ObjectIndexEntry) : bool :=
  (includeDeleted q || negb (entry_deleted x)) && in_class o q (entry_key x)
  && forallb (λ c, meets o c.1 c.2 (entry_key x)) values.

(** Taking one row more than asked for shows whether there are more. *)
Definition files (p : Package) (o : Ontology) (container : bytes) (q : OntologyQuery)
    (cursor : OntologyCursor) (limit : Z) : result string OntologyPage :=
  _ ← pageLimit limit;
  _ ← queryValid json_parse p o q;
  let sequence := file_sequence p in
  sign ← signature container q;
  _ ← check (negb ((afterIndexKey cursor <? 0) || (cursor_fileSequence cursor <? 0)))
        "invalid ontology cursor";
  _ ← check (bool_decide (cursor = initial_cursor) ||
             ((cursor_revision cursor =? u64 (revision o)) && (cursor_fileSequence cursor =? sequence)
              && bool_decide (fingerprint cursor = sign))) "stale or mismatched ontology cursor";
  values ← fold_res (λ acc c, v ← condition_text c; Ok (acc ++ [v])) [] (conditions q);
  let found := read_entry ∘ snd <$>
    page (selects o q values) (afterIndexKey cursor) (limit + 1) (current_index p) in
  let shown := take (Z.to_nat limit) found in
  Ok {| page_revision := u64 (revision o); page_fileSequence := sequence; page_files := shown;
        page_next := if limit <? len found then
          x ← last shown;
          Some {| cursor_revision := u64 (revision o); cursor_fileSequence := sequence;
                  afterIndexKey := entry_indexKey x; fingerprint := sign |}
        else None |}.

(** A read with the looks at the stop token that begin and end it. *)
Definition watched {A} (stop : nat → bool) (body : result string A) : result string A :=
  _ ← check (negb (stop 0%nat)) cancelled;
  a ← body;
  _ ← check (negb (stop 1%nat)) cancelled;
  Ok a.

Definition queryFiles (p : Package) (o : Ontology) (container : bytes) (q : OntologyQuery)
    (cursor : OntologyCursor) (limit : Z) (stop : nat → bool) : result string OntologyPage :=
  watched stop (files p o container q cursor limit).

Definition listDirectory (p : Package) (o : Ontology) (container path : bytes)
    (cursor : OntologyCursor) (limit : Z) (stop : nat → bool) : result string OntologyPage :=
  _ ← directoryPath path;
  watched stop (
    document ← of_option "ontology directory not found" (directories o !! path);
    q ← saved_query json_parse document;
    files p o container q cursor limit).

Definition directories_page (o : Ontology) (prefix after : bytes) (limit : Z) :
    result string (list (bytes * bytes * OntologyQuery)) :=
  _ ← text prefix 4096 false;
  _ ← text after 4096 false;
  _ ← pageLimit limit;
  fold_res (λ acc d,
    j ← parse json_parse d.2;
    label ← at_key j (lit "label") ≫= get_string;
    query ← at_key j (lit "query") ≫= decodeQuery json_parse;
    Ok (acc ++ [(d.1, label, query)])) []
    (text_page (λ path, bytes_leb prefix path && starts_with prefix path) after limit (directories o)).

Definition traverse (plan : list (bytes * bytes) → list (bytes * bytes)) (p : Package) (o : Ontology)
    (start : OntologyResource) (predicate : bytes) (direction : OntologyDirection) (depth limit : Z)
    (deleted : bool) (stop : nat → bool) : result string OntologyWalk :=
  key ← nodeKey start;
  _ ← text predicate 1024 true;
  _ ← pageLimit limit;
  _ ← check ((0 <? depth) && (depth <=? 32)) "invalid ontology traversal bounds";
  watched stop (
    _ ← resourceExists p o start (negb deleted);
    d ← getProperty json_parse o predicate;
    _ ← check (match d with Some d => bool_decide (property_kind d = KResource) | None => false end)
          "ontology traversal requires a resource property";
    let found := walk_rows (step_rows plan p o predicate direction depth deleted)
                   (Z.to_nat (maximumTraversalRows + 1)) [(key, 0)] {[(key, 0)]} in
    let near := take (Z.to_nat (limit + 1)) (nearest key found) in
    shown ← fold_res (λ acc r, x ← resourceKey r.1; Ok (acc ++ [(x, r.2)])) [] near;
    Ok {| walk_nodes := take (Z.to_nat limit) shown;
          truncated := (negb (bool_decide (near = [])) && (maximumTraversalRows <? len found))
                       || (limit <? len near) |}).

(** The events are added while they fit in 8 MiB. *)
Fixpoint fitting (size : Z) (l : list OntologyEvent) : list OntologyEvent :=
  match l with
  | [] => []
  | x :: l =>
      let next := size + (len (event_before (ontology_event x)) + len (event_after (ontology_event x))) in
      if 8 * 1024 * 1024 <? next then [] else x :: fitting next l
  end.

Definition event_row (o : Ontology) (r : Z * EventRow) : option OntologyEvent :=
  '(session, at_) ← commits o !! event_revision r.2;
  Some {| ontology_sequence := r.1; ontology_event := r.2; ontology_session := session;
          ontology_at := at_ |}.

Definition ontology_journal (o : Ontology) (after limit : Z) (session : bytes) :
    result string (list OntologyEvent) :=
  _ ← check (negb (after <? 0)) "invalid ontology journal cursor";
  _ ← pageLimit limit;
  _ ← text session 1024 false;
  Ok (fitting 0 (take (Z.to_nat limit)
    (filter (λ x, after < ontology_sequence x ∧ (session = [] ∨ ontology_session x = session))
      (omap (event_row o) (journal o))))).

(** [extractFile] opens the package read-only and extracts through the store. *)
Definition extractFile `{SqliteJson} (e : Env) (st : Store) (object : bytes) (version : Z)
    (d : Destination) : result string (bytes * bytes) :=
  extract (H:=Hs) e object version d
    {| db := db st; container := container st; schema := schema st; readOnly := true |}.
End queries.
