(* ===== verification/OntologyReading.v ===== *)
(** Reading the semantic filesystem page after page: which files a query selects,
    and that the pages of files and of events are exact. *)
From stdpp Require Import relations.
From S2P Require Import Prelude Text Json JsonObject Table Closure Sha256 ObjectData ObjectPackage.
From S2P Require Import ObjectStore ObjectInvariant ObjectSteps ObjectReach ObjectSpec ObjectQueries OntologyData OntologyCodec OntologyStore.
From S2P Require Import OntologyLaws OntologySteps OntologyJournal OntologyReach OntologyQueries.
Local Open Scope Z_scope.

Section reading.
Context `{DoublesLaws} {Hash : Type} {hashing : StreamHash Hash} {hashing_laws : StreamHashLaws Hash} {sqlite : SqliteJson}.
Context (json_parse : bytes → option json).
Context (parse_dump : ∀ j d, json_ok j = true → dump j = Ok d → json_parse d = Some j).

(** ** What a query selects *)

Definition selected (o : Ontology) (q : OntologyQuery) (x : ObjectIndexEntry) : Prop :=
  let r := node_key (File (entry_key x)) in
  (entry_deleted x = true → includeDeleted q = true) ∧
  (query_class q = [] ∨ ∃ t, (r, t) ∈ types o ∧
     if includeSubclasses q then rtc (parent o) t (query_class q) else t = query_class q) ∧
  ∀ c, c ∈ conditions q → ∃ n s, (n, s) ∈ statements o ∧ st_subject s = r ∧
    st_predicate s = condition_property c ∧
    ∀ v, equals c = Some v → decodeValue json_parse (st_kind s) (st_value s) = Ok (canonical_value v).

Lemma node_of_spec o k key : tables_wf o → is_Some (nodes o !! key) →
  node_of o k key = true ↔ key = node_key (File k).
Proof.
  intros Hwf [n En]. destruct (wf_resources _ Hwf _ _ En) as (r & -> & Hr).
  unfold node_of. rewrite En. cbn [mbind option_bind]. rewrite Hr. destruct r as [f|f].
  - rewrite bool_decide_eq_true. split; [by intros ->|]. intros E. apply (inj node_key) in E. congruence.
  - split; [done|]. intros E. apply (inj node_key) in E. done.
Qed.

Lemma edge_swap {A} (l : list (A * A)) x y : edge ((λ e, (e.2, e.1)) <$> l) x y ↔ edge l y x.
Proof.
  unfold edge. rewrite list_elem_of_fmap. split.
  - by intros ([a b] & [= -> ->] & Hin).
  - intros Hin. by exists (y, x).
Qed.

Lemma rtc_swap {A} (R R' : relation A) x y : (∀ a b, R a b → R' b a) → rtc R x y → rtc R' y x.
Proof. intros HR. induction 1 as [|x y z Hxy _ IH]; [done|]. eapply rtc_r; [exact IH|by apply HR]. Qed.

Lemma selected_class_spec o q t : t ∈ selected_class o q ↔
  if includeSubclasses q then rtc (parent o) t (query_class q) else t = query_class q.
Proof.
  unfold selected_class. destruct (includeSubclasses q); [|by rewrite elem_of_singleton].
  rewrite elem_of_reach. split.
  - intros (x & ->%elem_of_singleton & Hr). eapply rtc_swap; [|exact Hr]. intros a b Hab.
    by apply parent_edges, edge_swap.
  - intros Hr. exists (query_class q). split; [by apply elem_of_singleton|].
    eapply rtc_swap; [|exact Hr]. intros a b Hab. by apply edge_swap, parent_edges.
Qed.

Lemma in_class_spec o q k : tables_wf o → in_class o q k = true ↔
  query_class q = [] ∨ ∃ t, (node_key (File k), t) ∈ types o ∧
     if includeSubclasses q then rtc (parent o) t (query_class q) else t = query_class q.
Proof.
  intros Hwf. unfold in_class. rewrite orb_true_iff, bool_decide_eq_true, existsb_exists.
  apply or_iff_compat_l. split.
  - intros ([r t] & Hin & [Ht Hn]%andb_true_iff). apply list_elem_of_In, elem_of_elements in Hin. simpl in *.
    apply bool_decide_eq_true, selected_class_spec in Ht.
    apply node_of_spec in Hn; [|done|by apply (wf_types _ Hwf r t)]. subst r. by exists t.
  - intros (t & Hin & Ht). exists (node_key (File k), t). split; [by apply list_elem_of_In, elem_of_elements|].
    apply andb_true_iff. split; [by apply bool_decide_eq_true, selected_class_spec|].
    by apply node_of_spec; [|apply (wf_types _ Hwf _ t)|].
Qed.

(** The text that a condition compares decides the value. *)
Lemma value_matches s v j d : row_wf s → value_fits v → valueJson v = Ok j → dump j = Ok d →
  st_kind s = kind_code (kind v) ∧ st_value s = d ↔
    decodeValue json_parse (st_kind s) (st_value s) = Ok (canonical_value v).
Proof.
  intros (v0 & j0 & Hv0 & Hj0 & Hd0 & Hk0 & _) Hv Hj Hd.
  pose proof (decode_again json_parse parse_dump v j d Hv Hj Hd) as Hdec.
  pose proof (decode_again json_parse parse_dump v0 j0 _ Hv0 Hj0 Hd0) as Hdec0.
  split; [by intros [-> ->]|]. rewrite Hk0, Hdec0. intros [= E].
  pose proof (f_equal kind E) as Ek. rewrite !canonical_kind in Ek. split; [by rewrite Ek|].
  pose proof (canonical_json v j Hj) as Hc. pose proof (canonical_json v0 j0 Hj0) as Hc0.
  rewrite E in Hc0. congruence.
Qed.

Lemma condition_text_ok c x : condition_text c = Ok x → x.1 = condition_property c ∧
  match equals c with
  | None => x.2 = None
  | Some v => ∃ j d, valueJson v = Ok j ∧ dump j = Ok d ∧ x.2 = Some (kind_code (kind v), d)
  end.
Proof.
  unfold condition_text. destruct (equals c) as [v|]; intros E; [|by injection E as <-].
  apply bind_ok in E as (j & Hj & E). apply bind_ok in E as (d & Hd & E). apply ok_inj in E. subst x.
  split; [done|]. by exists j, d.
Qed.

Lemma meets_spec o c x k : tables_wf o → (∀ v, equals c = Some v → value_fits v) → condition_text c = Ok x →
  meets o x.1 x.2 k = true ↔ ∃ n s, (n, s) ∈ statements o ∧ st_subject s = node_key (File k) ∧
    st_predicate s = condition_property c ∧
    ∀ v, equals c = Some v → decodeValue json_parse (st_kind s) (st_value s) = Ok (canonical_value v).
Proof.
  intros Hwf Hf [-> Hx]%condition_text_ok. unfold meets. rewrite existsb_exists.
  pose proof (wf_rows _ Hwf) as Hrows. unfold rows_wf in Hrows. rewrite Forall_forall in Hrows.
  assert (∀ n s, (n, s) ∈ statements o →
    (match x.2 with Some (code, text) => (st_kind s =? code) && bool_decide (st_value s = text) | None => true end = true ↔
     ∀ v, equals c = Some v → decodeValue json_parse (st_kind s) (st_value s) = Ok (canonical_value v))) as Hv.
  { intros n s Hin. destruct (equals c) as [v|]; [|by rewrite Hx].
    destruct Hx as (j & d & Hj & Hd & ->). rewrite andb_true_iff, Z.eqb_eq, bool_decide_eq_true.
    rewrite (value_matches s v j d (Hrows _ Hin) (Hf v eq_refl) Hj Hd).
    split; [by intros ? ? [= <-]|]. intros Hall. by apply Hall. }
  split.
  - intros ([n s] & Hin & [[Hp Hm]%andb_true_iff Hn]%andb_true_iff). apply list_elem_of_In in Hin. simpl in *.
    exists n, s. split; [done|]. split; [|split; [by apply bool_decide_eq_true in Hp|by apply (Hv n)]].
    apply node_of_spec in Hn; [done|done|]. by apply (wf_nodes _ Hwf (n, s)); [|left].
  - intros (n & s & Hin & Hs & Hp & Hd). exists (n, s). split; [by apply list_elem_of_In|].
    apply andb_true_iff. split; [apply andb_true_iff; split; [by apply bool_decide_eq_true|by apply (Hv n)]|].
    apply node_of_spec; [done| |done]. by apply (wf_nodes _ Hwf (n, s)); [|left].
Qed.

Lemma texts_fold cs values : fold_res (λ acc c, v ← condition_text c; Ok (acc ++ [v])) [] cs = Ok values →
  Forall2 (λ c v, condition_text c = Ok v) cs values.
Proof.
  assert (∀ acc, fold_res (λ acc c, v ← condition_text c; Ok (acc ++ [v])) acc cs = Ok values →
    ∃ vs, values = acc ++ vs ∧ Forall2 (λ c v, condition_text c = Ok v) cs vs) as Hgen.
  { induction cs as [|c cs IH]; simpl; intros acc E.
    - injection E as <-. exists []. by rewrite app_nil_r.
    - apply bind_ok in E as (acc' & Hc & E). apply bind_ok in Hc as (v & Hv & Hc). apply ok_inj in Hc. subst acc'.
      destruct (IH _ E) as (vs & -> & Hvs). exists (v :: vs). rewrite <-app_assoc. split; [done|by constructor]. }
  intros E. by destruct (Hgen [] E) as (vs & -> & ?).
Qed.

Lemma selects_spec o q values x : tables_wf o → query_fits q →
  fold_res (λ acc c, v ← condition_text c; Ok (acc ++ [v])) [] (conditions q) = Ok values →
  OntologyQueries.selects o q values x = true ↔ selected o q x.
Proof.
  intros Hwf Hf Ht%texts_fold. unfold OntologyQueries.selects, selected.
  rewrite !andb_true_iff, in_class_spec by done.
  assert (forallb (λ c, meets o c.1 c.2 (entry_key x)) values = true ↔
    ∀ c, c ∈ conditions q → ∃ n s, (n, s) ∈ statements o ∧ st_subject s = node_key (File (entry_key x)) ∧
    st_predicate s = condition_property c ∧
    ∀ v, equals c = Some v → decodeValue json_parse (st_kind s) (st_value s) = Ok (canonical_value v)) as ->.
  { unfold query_fits in Hf. induction Ht as [|c v cs vs Hcv Ht IH].
    - split; [|done]. intros _ c ?%not_elem_of_nil. done.
    - apply Forall_cons in Hf as [Hc Hf]. cbn [forallb]. rewrite andb_true_iff, (meets_spec o c v) by done.
      rewrite (IH Hf). split.
      + intros [Hh Hr] c' [->|Hin]%elem_of_cons; [done|by apply Hr].
      + intros Hall. split; [apply Hall; by left|]. intros c' Hin. apply Hall. by right. }
  assert (includeDeleted q || negb (entry_deleted x) = true ↔ (entry_deleted x = true → includeDeleted q = true)) as ->.
  { destruct (includeDeleted q), (entry_deleted x); simpl; intuition congruence. }
  tauto.
Qed.

(** ** Pages of files *)

(** The loop a caller writes: the next page is read from the cursor that came with
    the last one, until a page comes without. *)
Fixpoint files_all (p : Package) (o : Ontology) (container : bytes) (q : OntologyQuery) (limit : Z)
    (fuel : nat) (cursor : OntologyCursor) : result string (list ObjectIndexEntry) :=
  match fuel with
  | O => Err "more pages"
  | S fuel =>
      shown ← files (Hs:=Hash) json_parse p o container q cursor limit;
      match page_next shown with
      | None => Ok (page_files shown)
      | Some c => rest ← files_all p o container q limit fuel c; Ok (page_files shown ++ rest)
      end
  end.

Lemma file_sequence_nonneg p : 0 <= file_sequence p.
Proof. unfold file_sequence. induction (object_journal p); simpl; lia. Qed.

Lemma index_keys cont p i x : wf (H:=Hash) cont p → (i, x) ∈ current_index p → 0 < i ∧ entry_indexKey x = i.
Proof.
  intros Hw Hin. destruct (wf_index_row _ _ Hw _ _ Hin) as (obj & row & Ho & _ & ->).
  by apply (wf_object_bound _ _ Hw) in Ho as [? _].
Qed.

(** A cursor that a page of this state gave, or the first one. *)
Definition cursor_ok (p : Package) (o : Ontology) (sign : bytes) (c : OntologyCursor) : Prop :=
  c = initial_cursor ∨ cursor_revision c = u64 (revision o) ∧ cursor_fileSequence c = file_sequence p ∧
    fingerprint c = sign ∧ 0 <= afterIndexKey c.

Lemma files_unfold p o container q c0 limit shown0 : files (Hs:=Hash) json_parse p o container q c0 limit = Ok shown0 →
  ∃ sign values, 0 < limit ∧ signature (Hs:=Hash) container q = Ok sign ∧
    fold_res (λ acc c, v ← condition_text c; Ok (acc ++ [v])) [] (conditions q) = Ok values ∧
    ∀ c, cursor_ok p o sign c → files (Hs:=Hash) json_parse p o container q c limit =
      let found := read_entry ∘ snd <$>
        page (OntologyQueries.selects o q values) (afterIndexKey c) (limit + 1) (current_index p) in
      Ok {| page_revision := u64 (revision o); page_fileSequence := file_sequence p;
            page_files := take (Z.to_nat limit) found;
            page_next := if limit <? len found then
              x ← last (take (Z.to_nat limit) found);
              Some {| cursor_revision := u64 (revision o); cursor_fileSequence := file_sequence p;
                      afterIndexKey := entry_indexKey x; fingerprint := sign |}
            else None |}.
Proof.
  unfold files. intros E. apply bind_ok in E as ([] & Hl & E). apply bind_ok in E as ([] & Hq & E). cbv zeta in E.
  apply bind_ok in E as (sign & Hsign & E). apply bind_ok in E as ([] & _ & E). apply bind_ok in E as ([] & _ & E).
  apply bind_ok in E as (values & Hvs & _). exists sign, values. split_and!; [|done|done|].
  - unfold pageLimit in Hl. apply check_ok, andb_true_iff in Hl as [Hl _]. by apply Z.ltb_lt.
  - intros c Hc. rewrite Hl, Hq. cbn [mbind result_bind]. cbv zeta. rewrite Hsign. cbn [mbind result_bind].
    pose proof (file_sequence_nonneg p) as Hn. rewrite Hvs.
    assert (negb ((afterIndexKey c <? 0) || (cursor_fileSequence c <? 0)) = true) as ->.
    { destruct Hc as [->|(_ & -> & _ & Ha)]; [done|]. apply negb_true_iff, orb_false_iff.
      split; by apply Z.ltb_ge. }
    assert (bool_decide (c = initial_cursor) || ((cursor_revision c =? u64 (revision o)) &&
      (cursor_fileSequence c =? file_sequence p) && bool_decide (fingerprint c = sign)) = true) as ->; [|done].
    { destruct Hc as [->|(-> & -> & -> & _)]; [by rewrite bool_decide_true|].
      by rewrite !Z.eqb_refl, (bool_decide_true (sign = sign)), orb_true_r by done. }
Qed.

Lemma files_all_pages p o container q limit sign values fuel c cont : wf (H:=Hash) cont p → 0 < limit →
  (∀ c, cursor_ok p o sign c → files (Hs:=Hash) json_parse p o container q c limit =
      let found := read_entry ∘ snd <$>
        page (OntologyQueries.selects o q values) (afterIndexKey c) (limit + 1) (current_index p) in
      Ok {| page_revision := u64 (revision o); page_fileSequence := file_sequence p;
            page_files := take (Z.to_nat limit) found;
            page_next := if limit <? len found then
              x ← last (take (Z.to_nat limit) found);
              Some {| cursor_revision := u64 (revision o); cursor_fileSequence := file_sequence p;
                      afterIndexKey := entry_indexKey x; fingerprint := sign |}
            else None |}) →
  cursor_ok p o sign c →
  (length (filter (λ r, (afterIndexKey c < r.1)%Z ∧ OntologyQueries.selects o q values r.2) (current_index p)) < fuel)%nat →
  files_all p o container q limit fuel c = Ok (read_entry ∘ snd <$>
    filter (λ r, afterIndexKey c < r.1 ∧ OntologyQueries.selects o q values r.2) (current_index p)).
Proof.
  intros Hw Hl Hpage. revert c. induction fuel as [|fuel IH]; intros c Hc Hf; [lia|].
  cbn [files_all]. rewrite (Hpage c Hc). cbn [mbind result_bind page_next page_files]. cbv zeta.
  set (F := filter _ (current_index p)) in *. unfold page. change (filter _ (current_index p)) with F.
  rewrite length_fmap, length_take, <-fmap_take, take_take.
  replace (Z.to_nat limit `min` Z.to_nat (limit + 1))%nat with (Z.to_nat limit) by lia.
  destruct (Z.ltb_spec limit (Z.of_nat (Z.to_nat (limit + 1) `min` length F))) as [Hmore|Hless].
  2: { rewrite take_ge; [done|lia]. }
  rewrite fmap_last. destruct (last (take (Z.to_nat limit) F)) as [[i x]|] eqn:El.
  2: { apply last_None in El. destruct F; [simpl in *; lia|]. by destruct (Z.to_nat limit) eqn:?; [lia|]. }
  cbn [fmap option_fmap option_map mbind option_bind].
  pose proof (page_rest (OntologyQueries.selects o q values) _ _ _ _ (wf_index _ _ Hw) El) as Hrest. fold F in Hrest.
  cbn [fst] in Hrest.
  assert ((i, x) ∈ current_index p) as Hin.
  { apply last_Some_elem_of, elem_of_take in El as (j & El & _). apply list_elem_of_lookup_2 in El.
    by apply list_elem_of_filter in El as [_ ?]. }
  destruct (index_keys cont p i x Hw Hin) as [Hi Hk].
  rewrite IH; cbn [afterIndexKey compose snd read_entry entry_indexKey].
  - cbn [mbind result_bind]. rewrite Hk, Hrest, <-fmap_app. by rewrite take_drop.
  - right. cbn. split_and!; [done..|lia].
  - rewrite Hk, Hrest, length_drop. lia.
Qed.

(** ** Pages of events *)

Fixpoint events_all (o : Ontology) (limit : Z) (session : bytes) (fuel : nat) (after : Z) :
    result string (list OntologyEvent) :=
  match fuel with
  | O => Err "more events"
  | S fuel =>
      es ← ontology_journal o after limit session;
      match last es with
      | None => Ok []
      | Some e => rest ← events_all o limit session fuel (ontology_sequence e); Ok (es ++ rest)
      end
  end.

Lemma fitting_prefix size l : ∃ k, fitting size l = take k l.
Proof.
  revert size. induction l as [|x l IH]; intros size; [by exists 0%nat|]. cbn [fitting].
  destruct (_ <? _); [by exists 0%nat|]. destruct (IH (size + (len (event_before (ontology_event x)) +
    len (event_after (ontology_event x))))) as [k ->]. by exists (S k).
Qed.

(** A page that has something to show shows something. *)
Lemma fitting_some x l : len (event_before (ontology_event x)) + len (event_after (ontology_event x)) <=
  maximumBatchJournalBytes → ∃ k, fitting 0 (x :: l) = take (S k) (x :: l).
Proof.
  intros Hx. cbn [fitting]. unfold maximumBatchJournalBytes in Hx.
  destruct (Z.ltb_spec (8 * 1024 * 1024)
    (0 + (len (event_before (ontology_event x)) + len (event_after (ontology_event x))))); [lia|].
  destruct (fitting_prefix (0 + (len (event_before (ontology_event x)) +
    len (event_after (ontology_event x)))) l) as [k ->]. by exists k.
Qed.

Definition event_key (e : OntologyEvent) : Z * OntologyEvent := (ontology_sequence e, e).

Lemma filter_keyed (P : Z * OntologyEvent → Prop) `{∀ x, Decision (P x)} (l : list OntologyEvent) :
  filter P (event_key <$> l) = event_key <$> filter (λ e, P (event_key e)) l.
Proof.
  induction l as [|e l IH]; [done|]. rewrite fmap_cons, !filter_cons.
  cbv beta. destruct (decide (P (event_key e))); [|done]. rewrite fmap_cons. by f_equal.
Qed.

Definition session_matches (session : bytes) (e : OntologyEvent) : bool :=
  bool_decide (session = []) || bool_decide (ontology_session e = session).

Definition later (session : bytes) (after : Z) (l : list OntologyEvent) : list OntologyEvent :=
  filter (λ e, after < ontology_sequence e ∧ session_matches session e) l.

Lemma later_filter session after l :
  filter (λ x, after < ontology_sequence x ∧ (session = [] ∨ ontology_session x = session)) l =
  later session after l.
Proof.
  apply list_filter_iff. intros e. unfold session_matches. apply and_iff_compat_l. by rewrite orb_True, !bool_decide_spec.
Qed.

Lemma later_rest session after n l e : ordered (event_key <$> l) → last (take n (later session after l)) = Some e →
  later session (ontology_sequence e) l = drop n (later session after l).
Proof.
  intros Ho El. pose proof (page_rest (session_matches session) after n (event_key <$> l) (event_key e) Ho) as Hr.
  rewrite !filter_keyed in Hr. fold (later session after l) in Hr.
  assert (event_key <$> later session (ontology_sequence e) l = event_key <$> drop n (later session after l)) as E.
  { rewrite fmap_drop. apply Hr. rewrite <-fmap_take, fmap_last. unfold later in El. cbn. rewrite El. done. }
  apply (f_equal (fmap snd)) in E. rewrite <-!list_fmap_compose in E.
  by rewrite !list_fmap_id in E.
Qed.

Definition events_of (o : Ontology) : list OntologyEvent := omap (event_row o) (journal o).

Lemma event_row_spec o r e : event_row o r = Some e ↔
  r = (ontology_sequence e, ontology_event e) ∧
  commits o !! event_revision (ontology_event e) = Some (ontology_session e, ontology_at e).
Proof.
  unfold event_row. destruct r as [n ev]. simpl. split.
  - destruct (commits o !! event_revision ev) as [[s t]|] eqn:E; [|done]. intros [= <-]. done.
  - intros [[= -> ->] ->]. cbn. by destruct e.
Qed.

Lemma elem_of_events o e : e ∈ events_of o ↔ (ontology_sequence e, ontology_event e) ∈ journal o ∧
  commits o !! event_revision (ontology_event e) = Some (ontology_session e, ontology_at e).
Proof.
  unfold events_of. rewrite list_elem_of_omap. split.
  - intros (r & Hin & [-> Hc]%event_row_spec). done.
  - intros [Hin Hc]. eexists. split; [exact Hin|]. by apply event_row_spec.
Qed.

(** Every event of a consistent state is shown. *)
Lemma events_all_shown p o : consistent json_parse p o →
  (λ e, (ontology_sequence e, ontology_event e)) <$> events_of o = journal o.
Proof.
  intros Hok. pose proof (ok_events _ _ _ Hok) as Hc. unfold events_of. induction Hc as [|[n ev] t [[s a] E] _ IH]; [done|].
  assert (event_row o (n, ev) = Some {| ontology_sequence := n; ontology_event := ev; ontology_session := s; ontology_at := a |})
    as Hr by by apply event_row_spec. cbn [omap list_omap]. rewrite Hr. rewrite fmap_cons. by f_equal.
Qed.

Lemma events_ordered p o : consistent json_parse p o → ordered (event_key <$> events_of o).
Proof.
  intros Hok. destruct (wf_journal _ (ok_tables _ _ _ Hok)) as (Ho & _ & _). unfold ordered in *.
  rewrite <-(events_all_shown p o Hok) in Ho.
  rewrite <-list_fmap_compose in Ho. by rewrite <-list_fmap_compose.
Qed.

Lemma events_small p o e : consistent json_parse p o → e ∈ events_of o → 0 < ontology_sequence e ∧
  len (event_before (ontology_event e)) + len (event_after (ontology_event e)) <= maximumBatchJournalBytes.
Proof.
  intros Hok [Hin _]%elem_of_events. destruct (wf_journal _ (ok_tables _ _ _ Hok)) as (_ & _ & Hall).
  rewrite Forall_forall in Hall. destruct (Hall _ Hin) as [[? _] ?]. done.
Qed.

Lemma events_all_pages p o limit session fuel after : consistent json_parse p o → 0 < limit <= 1024 →
  text session 1024 false = Ok tt → 0 <= after →
  (length (later session after (events_of o)) < fuel)%nat →
  events_all o limit session fuel after = Ok (later session after (events_of o)).
Proof.
  intros Hok Hl Ht. revert after. induction fuel as [|fuel IH]; intros after Ha Hf; [lia|].
  cbn [events_all]. unfold ontology_journal, pageLimit. rewrite Ht.
  rewrite (proj2 (Z.ltb_ge after 0)), (proj2 (Z.ltb_lt 0 limit)), (proj2 (Z.leb_le limit 1024)) by lia.
  cbn [check negb andb mbind result_bind]. fold (events_of o). rewrite later_filter.
  set (L := later session after (events_of o)) in *. destruct L as [|x L'] eqn:EL.
  { by rewrite take_nil. }
  assert (∃ k, (0 < k)%nat ∧ fitting 0 (take (Z.to_nat limit) (x :: L')) = take k (x :: L')) as (k & Hk & ->).
  { destruct (Z.to_nat limit) as [|m] eqn:Em; [lia|]. cbn [take].
    assert (x ∈ events_of o) as Hx.
    { assert (x ∈ L) as Hx by (rewrite EL; by left). unfold L, later in Hx. by apply list_elem_of_filter in Hx as [_ ?]. }
    destruct (fitting_some x (take m L')) as [k ->]; [by apply (events_small p o)|].
    exists (S k `min` S m)%nat. split; [lia|]. change (x :: take m L') with (take (S m) (x :: L')). by rewrite take_take. }
  rewrite <-EL in Hf |- *. destruct (last (take k L)) as [e|] eqn:El.
  2: { apply last_None in El. rewrite EL in El. by destruct k; [lia|]. }
  pose proof (later_rest session after k (events_of o) e (events_ordered p o Hok) El) as Hrest. fold L in Hrest.
  assert (e ∈ events_of o) as He.
  { apply last_Some_elem_of, elem_of_take in El as (i & El & _). apply list_elem_of_lookup_2 in El.
    unfold L, later in El. by apply list_elem_of_filter in El as [_ ?]. }
  rewrite IH.
  - cbn [mbind result_bind]. rewrite Hrest. by rewrite take_drop.
  - by apply Z.lt_le_incl, (events_small p o).
  - rewrite Hrest, length_drop. assert (0 < length L)%nat by (rewrite EL; simpl; lia). lia.
Qed.
End reading.
