(* ===== verification/OntologyTraversal.v ===== *)
(** The bounded breadth-first walk over resource statements visits exactly the
    resources within the depth, nearest first. *)
From stdpp Require Import relations sorting.
From S2P Require Import Prelude Text Json JsonObject Table Closure Sha256 ObjectData ObjectPackage.
From S2P Require Import ObjectStore OntologyData OntologyCodec OntologyStore OntologyLaws OntologySteps OntologyQueries.
Local Open Scope Z_scope.

Abbreviation row := (bytes * Z)%type.

(** ** The recursion *)

Lemma elem_of_fresh seen l x : x ∈ fresh_rows seen l ↔ x ∈ l ∧ x ∉ seen.
Proof.
  revert seen. induction l as [|y l IH]; intros seen; simpl; [set_solver|].
  destruct (decide (y ∈ seen)) as [Hy|Hy]; [rewrite IH; set_solver|].
  rewrite elem_of_cons, IH. destruct (decide (x = y)) as [->|]; set_solver.
Qed.

Lemma fresh_nodup seen l : NoDup (fresh_rows seen l).
Proof.
  revert seen. induction l as [|y l IH]; intros seen; simpl; [constructor|].
  destruct (decide (y ∈ seen)); [apply IH|]. constructor; [|apply IH]. rewrite elem_of_fresh. set_solver.
Qed.

Section walk.
Context (next : row → list row).

Lemma walk_prefix n m queue seen : (n <= m)%nat →
  walk_rows next n queue seen = take n (walk_rows next m queue seen).
Proof.
  revert m queue seen. induction n as [|n IH]; intros m queue seen Hm; [done|].
  destruct m as [|m]; [lia|]. destruct queue as [|r queue]; [done|]. cbn [walk_rows take]. f_equal. apply IH. lia.
Qed.

Lemma walk_Forall (P : row → Prop) n queue seen : (∀ r r', P r → r' ∈ next r → P r') → Forall P queue →
  Forall P (walk_rows next n queue seen).
Proof.
  intros HP. revert queue seen. induction n as [|n IH]; intros queue seen Hq; [constructor|].
  destruct Hq as [|r queue Hr Hq]; [constructor|]. cbn [walk_rows]. constructor; [done|]. apply IH.
  apply Forall_app. split; [done|]. apply Forall_forall. intros x [Hx _]%elem_of_fresh. by apply (HP r).
Qed.

Lemma walk_nodup n queue seen : NoDup queue → Forall (.∈ seen) queue →
  NoDup (walk_rows next n queue seen) ∧ Forall (λ x, x ∈ queue ∨ x ∉ seen) (walk_rows next n queue seen).
Proof.
  revert queue seen. induction n as [|n IH]; intros queue seen Hnd Hs; [split; constructor|].
  destruct queue as [|r queue]; [split; constructor|]. cbn [walk_rows]. set (new := fresh_rows seen (next r)).
  apply NoDup_cons in Hnd as [Hr Hnd]. apply Forall_cons in Hs as [Hrs Hs].
  rewrite Forall_forall in Hs.
  destruct (IH (queue ++ new) (list_to_set new ∪ seen)) as [H1 H2].
  - apply NoDup_app. split_and!; [done| |apply fresh_nodup]. intros x Hx [_ Hn]%elem_of_fresh. by apply Hn, Hs.
  - apply Forall_forall. intros x [Hx|Hx]%elem_of_app; [apply elem_of_union; right; by apply Hs|].
    apply elem_of_union. left. by apply elem_of_list_to_set.
  - rewrite Forall_forall in H2. split.
    + constructor; [|done]. intros Hin. destruct (H2 _ Hin) as [[Hq|Hn]%elem_of_app|Hn]; [done| |].
      * by apply elem_of_fresh in Hn as [_ ?].
      * apply Hn, elem_of_union. by right.
    + constructor; [left; by left|]. apply Forall_forall. intros x Hx.
      destruct (H2 _ Hx) as [[Hq|Hn]%elem_of_app|Hn]; [left; by right|right; by apply elem_of_fresh in Hn as [_ ?]|].
      right. intros Hx'. apply Hn, elem_of_union. by right.
Qed.

(** A walk that stops before its limit has seen everything it leads to. *)
Lemma walk_closed n queue seen : (length (walk_rows next n queue seen) < n)%nat →
  (∀ x, x ∈ queue → x ∈ walk_rows next n queue seen) ∧
  ∀ r r', r ∈ walk_rows next n queue seen → r' ∈ next r → r' ∈ seen ∨ r' ∈ walk_rows next n queue seen.
Proof.
  revert queue seen. induction n as [|n IH]; intros queue seen Hlen; [simpl in Hlen; lia|].
  destruct queue as [|r queue]; [split; [done|by intros ? ? ?%not_elem_of_nil]|].
  cbn [walk_rows] in *. set (new := fresh_rows seen (next r)) in *.
  destruct (IH (queue ++ new) (list_to_set new ∪ seen)) as [H1 H2]; [simpl in Hlen; lia|]. split.
  - intros x [->|Hx]%elem_of_cons; [by left|]. right. apply H1, elem_of_app. by left.
  - assert (∀ x, x ∈ new → x ∈ r :: walk_rows next n (queue ++ new) (list_to_set new ∪ seen)) as Hnew.
    { intros x Hx. right. apply H1, elem_of_app. by right. }
    intros x y [->|Hx]%elem_of_cons Hy.
    + destruct (decide (y ∈ seen)); [by left|]. right. apply Hnew, elem_of_fresh. done.
    + destruct (H2 x y Hx Hy) as [[Hn|Hs]%elem_of_union|Hw]; [right|by left|right; by right].
      apply Hnew. by apply elem_of_list_to_set in Hn.
Qed.

Definition shallow (x y : row) : Prop := x.2 <= y.2.

(** Breadth first: the depths do not decrease. *)
Lemma walk_sorted n queue seen d : (∀ r r', r' ∈ next r → r'.2 = r.2 + 1) →
  StronglySorted shallow queue → Forall (λ x, d <= x.2 <= d + 1) queue →
  StronglySorted shallow (walk_rows next n queue seen) ∧ Forall (λ x, d <= x.2) (walk_rows next n queue seen).
Proof.
  intros Hnext. revert queue seen d. induction n as [|n IH]; intros queue seen d Hs Hd; [split; constructor|].
  destruct queue as [|r queue]; [split; constructor|]. cbn [walk_rows].
  apply StronglySorted_inv in Hs as [Hs Hr]. apply Forall_cons in Hd as [Hdr Hd].
  rewrite Forall_forall in Hr, Hd.
  destruct (IH (queue ++ fresh_rows seen (next r)) (list_to_set (fresh_rows seen (next r)) ∪ seen) r.2) as [H1 H2].
  - apply StronglySorted_app. split_and!; [|done|].
    + intros x y Hx [Hy _]%elem_of_fresh. apply Hnext in Hy. specialize (Hd _ Hx). unfold shallow. lia.
    + assert (∀ l, Forall (λ y, y.2 = r.2 + 1) l → StronglySorted shallow l) as Hflat.
      { induction 1 as [|y l Hy Hl IHl]; constructor; [done|]. eapply Forall_impl; [exact Hl|].
        unfold shallow. simpl. lia. }
      apply Hflat, Forall_forall. intros y [Hy _]%elem_of_fresh. by apply Hnext.
  - apply Forall_forall. intros x [Hx|[Hx _]%elem_of_fresh]%elem_of_app.
    + specialize (Hr _ Hx). specialize (Hd _ Hx). unfold shallow in Hr. lia.
    + apply Hnext in Hx. lia.
  - split; [constructor; [done|exact H2]|]. constructor; [lia|]. eapply Forall_impl; [exact H2|]. simpl. lia.
Qed.
End walk.

(** ** The nearest rows of each key *)

Lemma min_depth_spec k l : match min_depth k l with
  | Some d => (k, d) ∈ l ∧ ∀ d', (k, d') ∈ l → d <= d'
  | None => ∀ d', (k, d') ∉ l
  end.
Proof.
  induction l as [|[x e] l IH]; simpl; [by intros d' ?%not_elem_of_nil|].
  case_bool_decide as Hx; simpl in *.
  - subst x. destruct (min_depth k l) as [d|].
    + destruct IH as [Hin Hmin]. split.
      * destruct (Z.min_spec e d) as [[_ ->]|[_ ->]]; [by left|by right].
      * intros d' [[= ->]|Hd']%elem_of_cons; [lia|]. specialize (Hmin _ Hd'). lia.
    + split; [by left|]. intros d' [[= ->]|Hd']%elem_of_cons; [done|]. by apply IH in Hd'.
  - destruct (min_depth k l) as [d|].
    + destruct IH as [Hin Hmin]. split; [by right|]. intros d' [[= -> _]|Hd']%elem_of_cons; [done|by apply Hmin].
    + intros d' [[= -> _]|Hd']%elem_of_cons; [done|by apply IH in Hd'].
Qed.

#[export] Instance near_total : Total near_le.
Proof.
  intros [k d] [k' d']. unfold near_le. simpl. destruct (Z.ltb_spec d d'), (Z.ltb_spec d' d); simpl; try lia; auto.
  assert (d = d') as -> by lia. rewrite Z.eqb_refl. simpl.
  apply (total (λ a b, bytes_leb a b = true) k k').
Qed.

Lemma near_le_spec x y : near_le x y ↔ x.2 < y.2 ∨ x.2 = y.2 ∧ bytes_leb x.1 y.1 = true.
Proof. unfold near_le. by rewrite orb_true_iff, andb_true_iff, Z.ltb_lt, Z.eqb_eq. Qed.

#[export] Instance near_trans : Transitive near_le.
Proof.
  intros x y z. rewrite !near_le_spec. intros [|[E1 H1]] [|[E2 H2]]; try (left; lia).
  right. split; [lia|]. by apply (bytes_leb_trans _ y.1).
Qed.

Lemma elem_of_nearest start l k d : (k, d) ∈ nearest start l ↔ k ≠ start ∧ min_depth k l = Some d.
Proof.
  unfold nearest. rewrite merge_sort_Permutation, list_elem_of_omap. split.
  - intros (k' & _ & E). destruct (min_depth k' l) as [d'|] eqn:Ed; [|done]. simpl in E.
    case_bool_decide; [done|]. by injection E as -> ->.
  - intros [Hne Ed]. exists k. split.
    + apply elem_of_elements, elem_of_list_to_set, list_elem_of_fmap. exists (k, d). split; [done|].
      pose proof (min_depth_spec k l) as Hm. rewrite Ed in Hm. apply Hm.
    + rewrite Ed. simpl. by rewrite bool_decide_false.
Qed.

Lemma nearest_sorted start l : StronglySorted near_le (nearest start l).
Proof. apply (StronglySorted_merge_sort near_le). Qed.

Lemma nearest_nodup start l : NoDup (nearest start l).*1.
Proof.
  unfold nearest. rewrite merge_sort_Permutation.
  pose proof (NoDup_elements (list_to_set l.*1 : gset bytes)) as Hnd. induction Hnd as [|k ks Hk _ IH]; [constructor|].
  cbn [omap list_omap]. destruct (d ← min_depth k l; _) as [[k' d]|] eqn:E; [|done].
  assert (k' = k) as -> by (destruct (min_depth k l); [|done]; simpl in E; case_bool_decide; [done|]; congruence).
  rewrite fmap_cons. constructor; [|done]. simpl. intros ([k1 d1] & Ek & Hin)%list_elem_of_fmap. simpl in Ek. subst k1.
  apply list_elem_of_omap in Hin as (k2 & Hin & E2). destruct (min_depth k2 l); [|done]. simpl in E2.
  case_bool_decide; [done|]. injection E2 as <- <-. done.
Qed.

(** ** The walk over statements *)
Section traversal.
Context `{D : Doubles} (json_parse : bytes → option json).
Context (plan : list (bytes * bytes) → list (bytes * bytes)) (plan_rows : ∀ l, plan l ≡ₚ l).
Context (p : Package) (o : Ontology) (predicate : bytes) (direction : OntologyDirection).
Context (depth : Z) (deleted : bool).

(** The subject and the object of a statement that leads from [x] to [y]. *)
Definition oriented (x y : bytes) : bytes * bytes :=
  match direction with Outgoing => (x, y) | Incoming => (y, x) end.

(** A node that the walk may show: when deleted files are left out, not a deleted file. *)
Definition shown_node (y : bytes) : Prop := deleted = false → ∀ k, y = node_key (File k) →
  ∃ i obj, find_object p k = Some (i, obj) ∧ object_deleted obj = false.

Definition link (x y : bytes) : Prop := shown_node y ∧ ∃ n s, (n, s) ∈ statements o ∧
  st_predicate s = predicate ∧ st_subject s = (oriented x y).1 ∧ st_object s = Some (oriented x y).2.

Context (o_wf : tables_wf o).

Abbreviation next := (step_rows plan p o predicate direction depth deleted).

Lemma visible_spec key : is_Some (nodes o !! key) →
  (if deleted then bool_decide (is_Some (nodes o !! key)) else live_node p o key) = true ↔ shown_node key.
Proof.
  intros Hkey. unfold shown_node. destruct deleted; [by rewrite bool_decide_true|]. destruct Hkey as [n En].
  destruct (wf_resources _ o_wf _ _ En) as (r & -> & Hr). unfold live_node. rewrite En, Hr. destruct r as [f|f].
  - split.
    + intros E _ k Ek. apply (inj node_key) in Ek as [= ->]. destruct (find_object p k) as [[i obj]|]; [|done].
      exists i, obj. split; [done|]. by apply negb_true_iff.
    + intros Hall. by destruct (Hall eq_refl f eq_refl) as (i & obj & -> & ->).
  - split; [|done]. intros _ _ k Ek. by apply (inj node_key) in Ek.
Qed.

Abbreviation edges := (plan (omap (λ s, if bool_decide (st_predicate s.2 = predicate) && (st_kind s.2 =? 0)
  then object ← st_object s.2; Some (st_subject s.2, object) else None) (statements o))).

Lemma elem_of_edges e : e ∈ edges ↔ ∃ n s, (n, s) ∈ statements o ∧ st_predicate s = predicate ∧
  st_subject s = e.1 ∧ st_object s = Some e.2.
Proof.
  rewrite (plan_rows _), list_elem_of_omap. split.
  - intros ([n s] & Hin & E). simpl in E. destruct (bool_decide _) eqn:Ep; [|done]. apply bool_decide_eq_true in Ep.
    destruct (_ =? _); [|done]. simpl in E. destruct (st_object s) eqn:Eo; [|done]. injection E as <-.
    by exists n, s.
  - intros (n & s & Hin & Hp & Hsub & Ho). exists (n, s). split; [done|]. simpl. rewrite bool_decide_true by done.
    pose proof (wf_rows _ o_wf) as Hrows. unfold rows_wf in Hrows. rewrite Forall_forall in Hrows.
    destruct (Hrows _ Hin) as (v & j & _ & _ & _ & Hk & Hv). simpl in *. rewrite Hk.
    destruct v; try congruence. simpl. rewrite Ho, Hsub. by destruct e.
Qed.

Lemma edge_nodes x y : oriented x y ∈ edges → is_Some (nodes o !! y).
Proof.
  intros (n & s & Hin & _ & Hsub & Ho)%elem_of_edges. apply (wf_nodes _ o_wf (n, s)); [done|].
  unfold oriented in *. destruct direction; auto.
Qed.

Lemma elem_of_step r y d : (y, d) ∈ next r ↔ d = r.2 + 1 ∧ r.2 < depth ∧ link r.1 y.
Proof.
  unfold step_rows. rewrite list_elem_of_omap. split.
  - intros (e & He & E).
    destruct (match direction with Outgoing => e | Incoming => (e.2, e.1) end) as [x z] eqn:Ee.
    assert (e = oriented x z) as ->.
    { unfold oriented. destruct direction, e; simpl in Ee; congruence. }
    pose proof (edge_nodes _ _ He) as Hz. destruct (bool_decide (x = r.1) && _ && _) eqn:Eb; [|done].
    injection E as <- <-. apply andb_true_iff in Eb as [[Ex%bool_decide_eq_true Ed%Z.ltb_lt]%andb_true_iff Ev].
    apply visible_spec in Ev; [|done]. subst x. apply elem_of_edges in He. by split_and!.
  - intros (-> & Hd & Hv & Hin). assert (oriented r.1 y ∈ edges) as He by by apply elem_of_edges.
    exists (oriented r.1 y). split; [done|]. pose proof (edge_nodes _ _ He) as Hy.
    assert (match direction with Outgoing => oriented r.1 y | Incoming => ((oriented r.1 y).2, (oriented r.1 y).1) end
      = (r.1, y)) as -> by (unfold oriented; by destruct direction).
    rewrite bool_decide_true by done. rewrite (proj2 (Z.ltb_lt _ _) Hd). cbn [andb].
    by rewrite (proj2 (visible_spec y Hy) Hv).
Qed.

(** ** Rows and paths *)
Context (start : bytes) (depth_ok : 0 <= depth).

Abbreviation walk n := (walk_rows next n [(start, 0)] {[(start, 0)]}).

(** Each row is a path of its length. *)
Definition path_row (r : row) : Prop := 0 <= r.2 <= depth ∧ nsteps link (Z.to_nat r.2) start r.1.

Lemma walk_paths n : Forall path_row (walk n).
Proof.
  apply walk_Forall.
  - intros r [y d] [[H1 H2] Hp] (-> & Hd & Hl)%elem_of_step. split; simpl; [lia|].
    replace (Z.to_nat (r.2 + 1)) with (S (Z.to_nat r.2)) by lia. by eapply nsteps_r.
  - repeat constructor; simpl; lia.
Qed.

Lemma walk_distinct n : NoDup (walk n).
Proof. apply walk_nodup; [apply NoDup_singleton|repeat constructor; by apply elem_of_singleton]. Qed.

Lemma walk_order n : StronglySorted shallow (walk n).
Proof.
  apply (walk_sorted next n _ _ 0); [|by repeat constructor|by repeat constructor].
  by intros r [y d] (-> & _)%elem_of_step.
Qed.

(** The rows there can be. *)
Definition universe : list row :=
  k ← start :: ((λ s, st_subject s.2) <$> statements o) ++ omap (λ s, st_object s.2) (statements o);
  (k,.) <$> seqZ 0 (depth + 1).

Lemma path_end n x : nsteps link n start x →
  x ∈ start :: ((λ s, st_subject s.2) <$> statements o) ++ omap (λ s, st_object s.2) (statements o).
Proof.
  destruct n as [|n]; intros Hn; [inversion Hn; by left|].
  apply nsteps_inv_r in Hn as (y & _ & _ & i & s & Hin & _ & Hs & Ho).
  right. apply elem_of_app. unfold oriented in *. destruct direction; simpl in *.
  - right. apply list_elem_of_omap. by exists (i, s).
  - left. apply list_elem_of_fmap. by exists (i, s).
Qed.

Lemma walk_bounded n : (length (walk n) <= length universe)%nat.
Proof.
  apply submseteq_length, NoDup_submseteq; [apply walk_distinct|]. intros [x d] Hin.
  pose proof (proj1 (Forall_forall _ _) (walk_paths n) _ Hin) as [Hd Hp]. simpl in *.
  unfold universe. apply list_elem_of_bind. exists x. split; [|by apply (path_end (Z.to_nat d))].
  apply list_elem_of_fmap. exists d. split; [done|]. apply elem_of_seqZ. lia.
Qed.

(** A walk that was not cut off has every path. *)
Lemma walk_complete n r : (length (walk n) < n)%nat → r ∈ walk n ↔ path_row r.
Proof.
  intros Hn. split; [apply Forall_forall, walk_paths|]. destruct r as [x d]. intros [Hd Hp]. simpl in *.
  destruct (walk_closed next n _ _ Hn) as [Hq Hc].
  assert (∀ m y, nsteps link m start y → Z.of_nat m <= depth → (y, Z.of_nat m) ∈ walk n) as Hall.
  { induction m as [|m IH]; intros y Hy Hm.
    - inversion Hy; subst. apply Hq. by left.
    - apply nsteps_inv_r in Hy as (z & Hz & Hzy). destruct (Hc (z, Z.of_nat m) (y, Z.of_nat (S m))) as [Hs|]; [| |by apply elem_of_singleton in Hs|done].
      + apply IH; [done|lia].
      + apply elem_of_step. simpl. split_and!; [lia|lia|done]. }
  rewrite <-(Z2Nat.id d) by lia. apply Hall; [done|lia].
Qed.

(** The least number of steps to a resource. *)
Definition distance (x : bytes) (d : Z) : Prop :=
  path_row (x, d) ∧ ∀ n, nsteps link n start x → d <= Z.of_nat n.

(** However early the walk is cut off, it has the shallowest rows. *)
Lemma walk_shallow n r r' : path_row r → r' ∈ walk n → r ∈ walk n ∨ r'.2 <= r.2.
Proof.
  intros Hp Hr'. set (m := S (n + length universe)).
  assert (r ∈ walk m) as Hr.
  { apply walk_complete; [|done]. pose proof (walk_bounded m). lia. }
  rewrite (walk_prefix next n m) in Hr' |- * by lia. pose proof (walk_order m) as Hs.
  rewrite <-(take_drop n (walk m)) in Hr, Hs. apply StronglySorted_app in Hs as (Hs & _ & _).
  apply elem_of_app in Hr as [|Hr]; [by left|right]. by apply (Hs r' r).
Qed.

Lemma walk_distance n x d : min_depth x (walk n) = Some d → distance x d.
Proof.
  intros E. pose proof (min_depth_spec x (walk n)) as Hm. rewrite E in Hm. destruct Hm as [Hin Hmin].
  pose proof (proj1 (Forall_forall _ _) (walk_paths n) _ Hin) as Hp. split; [done|]. intros m Hm.
  destruct (Z.leb_spec d (Z.of_nat m)) as [|Hlt]; [done|]. destruct Hp as [Hd _]. simpl in Hd.
  destruct (walk_shallow n (x, Z.of_nat m) (x, d)) as [Hw|Hw]; [|done| |simpl in Hw; lia].
  - split; simpl; [lia|by rewrite Nat2Z.id].
  - specialize (Hmin _ Hw). lia.
Qed.

Lemma near_distance n x d : (x, d) ∈ nearest start (walk n) → x ≠ start ∧ 0 < d ∧ distance x d.
Proof.
  intros [Hne Hm%walk_distance]%elem_of_nearest. split_and!; [done| |done].
  destruct Hm as [[Hd Hp] _]. simpl in *. destruct (decide (d = 0)) as [->|]; [|lia]. by inversion Hp.
Qed.

(** The rows of the start alone are few. *)
Lemma walk_elsewhere n : depth + 1 < len (walk n) → nearest start (walk n) ≠ [].
Proof.
  intros Hlen Hnil. assert (walk n ⊆+ (start,.) <$> seqZ 0 (depth + 1)) as Hsub.
  { apply NoDup_submseteq; [apply walk_distinct|]. intros [x d] Hin.
    pose proof (proj1 (Forall_forall _ _) (walk_paths n) _ Hin) as [Hd _]. simpl in Hd.
    apply list_elem_of_fmap. exists d. split; [|apply elem_of_seqZ; lia]. f_equal.
    destruct (decide (x = start)) as [|Hne]; [done|]. exfalso.
    pose proof (min_depth_spec x (walk n)) as Hm. destruct (min_depth x (walk n)) as [e|] eqn:Em; [|by apply (Hm d)].
    apply (not_elem_of_nil (x, e)). rewrite <-Hnil. by apply elem_of_nearest. }
  apply submseteq_length in Hsub. rewrite length_fmap, length_seqZ in Hsub. lia.
Qed.

(** What a walk of [n] rows shows [limit] of: everything else is as far away at least,
    and then the walk or the list of rows was cut off. *)
Lemma walk_shows n limit x m : depth + 1 < Z.of_nat n → (0 < limit)%nat → x ≠ start → path_row (x, m) →
  let near := take (S limit) (nearest start (walk n)) in
  (∃ e, (x, e) ∈ take limit near) ∨
  (near ≠ [] ∧ (n <= length (walk n))%nat ∨ (limit < length near)%nat) ∧
  ∀ y e, (y, e) ∈ take limit near → e <= m.
Proof.
  intros Hn Hlimit Hne Hp. cbv zeta. rewrite take_take, Nat.min_l by lia.
  destruct (min_depth x (walk n)) as [e|] eqn:Em.
  - pose proof (walk_distance _ _ _ Em) as [_ Hmin]. destruct Hp as [Hd Hp]. simpl in Hd, Hp.
    specialize (Hmin _ Hp). rewrite Z2Nat.id in Hmin by lia.
    assert ((x, e) ∈ nearest start (walk n)) as Hx by by apply elem_of_nearest.
    pose proof (nearest_sorted start (walk n)) as Hs. rewrite <-(take_drop limit (nearest _ _)) in Hx, Hs.
    apply elem_of_app in Hx as [Hx|Hx]; [left; by exists e|right].
    apply StronglySorted_app in Hs as (Hs & _ & _). split.
    + right. rewrite length_take. assert (0 < length (drop limit (nearest start (walk n))))%nat as Hl.
      { destruct (drop limit (nearest start (walk n))); [by apply not_elem_of_nil in Hx|simpl; lia]. }
      rewrite length_drop in Hl. lia.
    + intros y e' Hy. specialize (Hs _ _ Hy Hx). apply near_le_spec in Hs. simpl in Hs. lia.
  - assert ((x, m) ∉ walk n) as Hx.
    { pose proof (min_depth_spec x (walk n)) as Hm. by rewrite Em in Hm. }
    right. assert (n <= length (walk n))%nat as Hfull.
    { destruct (Nat.le_gt_cases n (length (walk n))) as [|Hlt]; [done|]. by apply (walk_complete n _ Hlt) in Hp. }
    split; [left; split; [|done]|].
    + destruct (nearest start (walk n)) eqn:E; [|done]. exfalso. revert E. apply walk_elsewhere. lia.
    + intros y e Hy. apply elem_of_take in Hy as (i & Hy & _). apply list_elem_of_lookup_2, elem_of_nearest in Hy as [_ Hy].
      pose proof (min_depth_spec y (walk n)) as Hm. rewrite Hy in Hm. destruct Hm as [Hin _].
      by destruct (walk_shallow n _ _ Hp Hin).
Qed.

Lemma linked_resource n x : x ≠ start → nsteps link n start x → ∃ r, x = node_key r.
Proof.
  intros Hne Hn. destruct n as [|n]; [by inversion Hn|]. apply nsteps_inv_r in Hn as (y & _ & Hl).
  destruct Hl as [_ Hl]. assert (is_Some (nodes o !! x)) as [nd Hx] by (apply (edge_nodes y), elem_of_edges; done).
  destruct (wf_resources _ o_wf _ _ Hx) as (r & -> & _). by exists r.
Qed.

Lemma shown_fold l : (∀ r, r ∈ l → ∃ x, r.1 = node_key x) → ∃ xs,
  fold_res (λ acc r, x ← resourceKey r.1; Ok (acc ++ [(x, r.2)])) [] l = Ok xs ∧
  l = (λ y : OntologyResource * Z, (node_key y.1, y.2)) <$> xs.
Proof.
  assert (∀ acc, (∀ r, r ∈ l → ∃ x, r.1 = node_key x) → ∃ xs,
    fold_res (λ acc r, x ← resourceKey r.1; Ok (acc ++ [(x, r.2)])) acc l = Ok (acc ++ xs) ∧
    l = (λ y : OntologyResource * Z, (node_key y.1, y.2)) <$> xs) as Hgen; [|apply (Hgen [])].
  induction l as [|[k d] l IH]; intros acc Hall; [exists []; by rewrite app_nil_r|].
  destruct (Hall (k, d) ltac:(by left)) as [x Hx]. simpl in Hx. subst k. cbn [fold_res fst snd].
  rewrite resource_node_key. cbn [mbind result_bind].
  destruct (IH (acc ++ [(x, d)])) as (xs & -> & ->); [intros r Hr; apply Hall; by right|].
  exists ((x, d) :: xs). by rewrite <-app_assoc.
Qed.
End traversal.

(** Nearest first, as resources. *)
Lemma near_resources (l : list (OntologyResource * Z)) :
  StronglySorted near_le ((λ y : OntologyResource * Z, (node_key y.1, y.2)) <$> l) →
  StronglySorted (λ a b, a.2 <= b.2) l.
Proof.
  induction l as [|a l IH]; [constructor|]. rewrite fmap_cons. intros [Hs Ha]%StronglySorted_inv.
  constructor; [by apply IH|]. rewrite Forall_fmap in Ha. eapply Forall_impl; [exact Ha|].
  intros b Hb%near_le_spec. simpl in Hb. lia.
Qed.

Lemma take_sorted {A} (R : relation A) n l : StronglySorted R l → StronglySorted R (take n l).
Proof. intros Hs. rewrite <-(take_drop n l) in Hs. by apply StronglySorted_app in Hs as (_ & ? & _). Qed.
