(* ===== verification/OntologyProperties.v ===== *)
(** What the semantic filesystem guarantees: the rules that every reachable state
    obeys, batches as compare-and-swap transactions, the completeness of the
    incremental validation, and the round trips of stored documents. *)
From stdpp Require Import relations.
From S2P Require Import Prelude Text Json JsonObject Table Closure Sha256 ObjectData ObjectPackage.
From S2P Require Import ObjectStore ObjectInvariant ObjectSteps ObjectReach ObjectSpec ObjectProperties ObjectQueries OntologyData OntologyCodec OntologyStore.
From S2P Require Import OntologyLaws OntologySteps OntologyJournal OntologyReach OntologyQueries OntologyReading OntologyTraversal.
Local Open Scope Z_scope.

Section properties.
Context `{DoublesLaws} {Hash : Type} {hashing : StreamHash Hash} {hashing_laws : StreamHashLaws Hash} {sqlite : SqliteJson}.
Context (json_parse : bytes → option json).
Context (parse_dump : ∀ j d, json_ok j = true → dump j = Ok d → json_parse d = Some j).

(** A resource is of a class when one of its classes inherits from it; everything is
    of the class without a name. *)
Definition instance_of (o : Ontology) (resource class : bytes) : Prop :=
  class = [] ∨ ∃ t, (resource, t) ∈ types o ∧ rtc (parent o) t class.

Lemma instance_spec o r c : hasType o r c = true → instance_of o r c.
Proof. apply hasType_spec. Qed.

Lemma single_member {A} (P : A → Prop) `{∀ x, Decision (P x)} (l : list A) x y :
  len (filter P l) <= 1 → x ∈ l → y ∈ l → P x → P y → x = y.
Proof.
  intros Hl Hx Hy Px Py. assert (x ∈ filter P l ∧ y ∈ filter P l) as [Hx' Hy'] by (by split; apply list_elem_of_filter).
  destruct (filter P l) as [|a [|b m]]; [by apply not_elem_of_nil in Hx'| |simpl in Hl; lia].
  apply list_elem_of_singleton in Hx' as ->. by apply list_elem_of_singleton in Hy' as ->.
Qed.

(** A batch of another revision is refused. *)
Lemma apply_conflict p ro e stop cs expected session o : expected ≠ u64 (revision o) →
  ∃ m, apply json_parse p ro e stop cs expected session o = (Err m, o).
Proof.
  intros Hne. unfold apply. destruct (_ ← check (negb (stop 0%nat)) _; _) as [[v o']|m] eqn:E; [exfalso|by eexists].
  do 4 (apply bind_ok in E as ([] & _ & E)). unfold apply_body in E.
  apply bind_ok in E as ([] & _ & E). cbv zeta in E. apply bind_ok in E as ([] & Hc & _).
  apply check_ok, negb_true_iff, orb_false_iff in Hc as [Hc _]. apply negb_false_iff, Z.eqb_eq in Hc. done.
Qed.

(** C6 Whatever file operations and semantic batches interleave, no class is its
    own ancestor; every statement has a defined property of its kind, a subject in
    the property's domain and an object in its range; a single-valued property has
    one statement per subject and an acyclic one has no cycle; and every saved
    directory holds a query whose class and properties exist. *)
Theorem ontology_integrity st o : system_reachable json_parse st o →
  (∀ c, ¬ tc (parent o) c c) ∧
  (∀ n s, (n, s) ∈ statements o → ∃ d,
     getProperty json_parse o (st_predicate s) = Ok (Some d) ∧
     st_kind s = kind_code (property_kind d) ∧
     instance_of o (st_subject s) (domainClass d) ∧
     (∀ k, st_object s = Some k → instance_of o k (rangeClass d)) ∧
     (singleValue d = true → ∀ n' s', (n', s') ∈ statements o → st_subject s' = st_subject s →
        st_predicate s' = st_predicate s → n' = n ∧ s' = s) ∧
     (acyclic d = true → ∀ x, ¬ tc (related o (st_predicate s)) x x)) ∧
  (∀ path document, directories o !! path = Some document → ∃ q,
     saved_query json_parse document = Ok q ∧ queryValid json_parse (db st) o q = Ok tt).
Proof.
  intros [_ Hok]%(system_invariant json_parse parse_dump). pose proof (ok_tables _ _ _ Hok) as Hwf.
  split_and!; [apply (wf_hierarchy _ Hwf)| |].
  - intros n s Hin. destruct (ok_sound _ _ _ Hok _ Hin) as (d & Hd & (Hk & Hdom & Hran & Hsing) & Hac).
    simpl in *. exists d. split_and!; [done|done|by apply instance_spec|..].
    + intros k Hk'. by apply instance_spec, Hran.
    + intros Hone n' s' Hin' Esub Epre. specialize (Hsing Hone). unfold count in Hsing.
      apply (single_member (λ x : Z * StatementRow, st_subject x.2 = st_subject s ∧ st_predicate x.2 = st_predicate s)
        (statements o) (n', s') (n, s)) in Hsing as [= -> ->]; done.
    + intros Ha x. by apply (sound_acyclic json_parse o (st_predicate s) d x (ok_sound _ _ _ Hok) Hd).
  - intros path document Hp. destruct (ok_directories _ _ _ Hok _ _ Hp) as (q & Hq & Hj & Hc & Hall).
    exists q. split; [done|]. apply queryValid_spec. split_and!; [done|done|].
    intros c Hin. by destruct (Hall c Hin) as [_ [?%not_elem_of_empty|]].
Qed.

(** C8 A batch is a compare-and-swap on the semantic revision: it commits only on
    the revision its caller read, within a session that is still active, on a writable
    package; it appends one event per effect, all of the next revision, records the
    revision with its session, and moves the revision forward by one exactly when
    something changed; after that no batch that read the old revision commits.  A
    batch that fails changes nothing. *)
Theorem apply_is_compare_and_swap st o readOnly e stop cs expected session r o' :
  system_reachable json_parse st o → Forall change_fits cs →
  apply json_parse (db st) readOnly e stop cs expected session o = (r, o') →
  match r with
  | Err _ => o' = o
  | Ok v =>
      readOnly = false ∧ expected = revision o ∧ expected < INT64_MAX ∧
      (∃ s, sessions (db st) !! session = Some s ∧ endedAtNs s = 0) ∧
      ∃ rows, journal o' = journal o ++ rows ∧
        Forall (λ row, event_revision row.2 = expected + 1 ∧ event_before row.2 ≠ event_after row.2) rows ∧
        (rows = [] → v = expected ∧ ∃ n, o' = set_statements (statements o) n o) ∧
        (rows ≠ [] → v = expected + 1 ∧ revision o' = v ∧ commits o' = <[v := (session, clock e 0)]> (commits o) ∧
           commits o !! v = None ∧
           ∀ st2 readOnly2 e2 stop2 cs2 session2, ∃ m,
             apply json_parse (db st2) readOnly2 e2 stop2 cs2 expected session2 o' = (Err m, o'))
  end.
Proof.
  intros [_ Hok]%(system_invariant json_parse parse_dump) Hf E.
  destruct (apply_consistent json_parse parse_dump _ _ _ _ _ _ _ _ _ _ Hok Hf E) as [Hok' Hr].
  destruct r as [v|m]; [|done]. destruct Hr as (Hro & _ & rows & [[Hexp Hmax] Hsess Hj Hev Heff]).
  split_and!; [done..|]. exists rows. split_and!; [done|done|..].
  - intros ->. by destruct Heff as [(_ & -> & Hq)|[Hn _]].
  - intros Hne. destruct Heff as [[-> _]|(_ & -> & Hrev & Hc)]; [done|]. split_and!; [done..| |].
    + destruct (commits o !! (expected + 1)) as [x|] eqn:Ec; [|done].
      pose proof (ok_commits _ _ _ Hok _ (ex_intro _ _ Ec)). lia.
    + intros. apply apply_conflict. rewrite Hrev. pose proof (ok_revision _ _ _ Hok).
      rewrite u64_small; unfold INT64_MAX, UINT64_MAX in *; lia.
Qed.

(** C7 Validating only the statements that a batch touched accepts exactly what
    validating every statement accepts. *)
Theorem incremental_validation_is_complete st o stop next cs b :
  system_reachable json_parse st o → Forall change_fits cs →
  changes_loop json_parse (db st) stop 2 next cs (start_batch o) = Ok b →
  validateStatements json_parse (hierarchyChanged b) b = Ok tt ↔ validateStatements json_parse true b = Ok tt.
Proof.
  intros [_ Hok]%(system_invariant json_parse parse_dump) Hf E.
  pose proof (inv_loop json_parse parse_dump _ o stop 2 _ cs _ _ Hf (consistent_start json_parse _ o Hok) E) as Hinv.
  pose proof (inv_tables _ _ _ _ Hinv) as Hwf. split.
  - intros Hv. apply (validateStatements_spec json_parse parse_dump); [apply Hwf|]. intros row Hin _.
    by apply (incremental json_parse parse_dump o b (wf_rows _ Hwf) (ordered_nodup _ (wf_ordered _ Hwf))
      (ok_sound _ _ _ Hok) (inv_tracks _ _ _ _ Hinv) Hv).
  - rewrite !(validateStatements_spec json_parse parse_dump) by apply Hwf. intros Hall row Hin _.
    apply Hall; [done|by left].
Qed.

(** C39 What the tables store is read back: a value (negative zero as zero), a
    property definition and a saved query. *)
Theorem stored_documents_come_back :
  (∀ v j d, value_fits v → valueJson v = Ok j → dump j = Ok d →
     decodeValue json_parse (kind_code (kind v)) d = Ok (canonical_value v)) ∧
  (∀ p j d, propertyJson p = Ok j → dump j = Ok d → decodeProperty json_parse d = Ok p) ∧
  (∀ label q j d, query_fits q → queryJson q = Ok j → dump (directory_value label j) = Ok d →
     saved_query json_parse d = Ok (canonical_query q)).
Proof.
  split_and!.
  - intros v j d. apply (decode_again json_parse parse_dump).
  - intros p j d. apply (property_again json_parse parse_dump).
  - intros label q j d. apply (saved_again json_parse parse_dump).
Qed.

(** C28 Paging through the files of a query with any legal page size, from the first
    page and following the cursors, ends and gives every file that the query selects
    exactly once, in index order: live unless deleted files are asked for, of the
    class (or a subclass) and with a statement that meets each condition. *)
Theorem files_are_exact st o container q limit fuel first : system_reachable json_parse st o → query_fits q →
  files (Hs:=Hash) json_parse (db st) o container q initial_cursor limit = Ok first →
  (length (current_index (db st)) < fuel)%nat →
  ∃ xs, files_all (Hash:=Hash) json_parse (db st) o container q limit fuel initial_cursor = Ok xs ∧
    StronglySorted Z.lt (entry_indexKey <$> xs) ∧
    ∀ x, x ∈ xs ↔ ∃ y, (entry_indexKey y, y) ∈ current_index (db st) ∧ x = read_entry y ∧ selected json_parse o q y.
Proof.
  intros [Hr Hok]%(system_invariant json_parse parse_dump) Hf Hfirst Hfuel.
  destruct (reachable_good json_parse st Hr) as [[Hw _] _]. pose proof (ok_tables _ _ _ Hok) as Hwf.
  destruct (files_unfold json_parse _ _ _ _ _ _ _ Hfirst) as (sign & values & Hl & _ & Hvs & Hpage).
  assert (∀ x, OntologyQueries.selects o q values x = true ↔ selected json_parse o q x) as Hsel
    by by intros x; apply (selects_spec json_parse parse_dump).
  pose proof (files_all_pages json_parse _ _ _ _ _ _ _ fuel initial_cursor _ Hw Hl Hpage (or_introl eq_refl)) as Hall.
  eexists. split_and!; [apply Hall|..].
  - eapply Nat.le_lt_trans; [apply length_filter|done].
  - clear Hall. set (F := filter _ _). assert (ordered F) as Ho by (apply ordered_filter, (wf_index _ _ Hw)).
    assert (∀ r, r ∈ F → r ∈ current_index (db st)) as Hsub by (by intros r [_ ?]%list_elem_of_filter).
    assert (entry_indexKey <$> (read_entry ∘ snd <$> F) = F.*1) as ->; [|done].
    rewrite <-list_fmap_compose. apply list_fmap_ext. intros i [k x] Hx. cbn.
    by apply list_elem_of_lookup_2, Hsub, (index_keys _ _ _ _ Hw) in Hx as [_ ->].
  - intros x. rewrite list_elem_of_fmap. split.
    + intros ([i y] & -> & [[_ Hs] Hin]%list_elem_of_filter). pose proof (index_keys _ _ _ _ Hw Hin) as [_ <-].
      exists y. split_and!; [done..|]. by apply Hsel, Is_true_true.
    + intros (y & Hin & -> & Hs). exists (entry_indexKey y, y). split; [done|].
      apply list_elem_of_filter. split; [|done]. destruct (index_keys _ _ _ _ Hw Hin) as [Hpos _].
      split; [done|]. by apply Is_true_true, Hsel.
Qed.

(** C40 A cursor is good for the state and the query of its page only.  Of a query that
    has a first page, a later page is given exactly if the cursor is no negative one,
    the semantic revision and the sequence of file revisions have not moved since, and
    its fingerprint is the hash of this container and query; it then carries the same
    revision and sequence.  Otherwise it is
    refused, with the error that says which. *)
Theorem stale_cursors_are_refused st o container q cursor limit first : cursor ≠ initial_cursor →
  files (Hs:=Hash) json_parse (db st) o container q initial_cursor limit = Ok first →
  let fits := cursor_revision cursor = u64 (revision o) ∧ cursor_fileSequence cursor = file_sequence (db st) ∧
    signature (Hs:=Hash) container q = Ok (fingerprint cursor) in
  let negative := afterIndexKey cursor < 0 ∨ cursor_fileSequence cursor < 0 in
  match files (Hs:=Hash) json_parse (db st) o container q cursor limit with
  | Ok p => ¬ negative ∧ fits ∧ page_revision p = page_revision first ∧ page_fileSequence p = page_fileSequence first
  | Err m => (negative ∧ m = "invalid ontology cursor"%string) ∨
      (¬ negative ∧ ¬ fits ∧ m = "stale or mismatched ontology cursor"%string)
  end.
Proof.
  intros Hc E fits negative. unfold files in E |- *.
  apply bind_ok in E as ([] & -> & E). apply bind_ok in E as ([] & -> & E). cbn [mbind result_bind]. cbv zeta in *.
  apply bind_ok in E as (sign & Hs & E). apply bind_ok in E as ([] & _ & E). apply bind_ok in E as ([] & _ & E).
  apply bind_ok in E as (values & Hv & E). apply ok_inj in E. subst first. rewrite Hs. cbn [mbind result_bind].
  destruct ((afterIndexKey cursor <? 0) || (cursor_fileSequence cursor <? 0)) eqn:En; cbn [negb check mbind result_bind].
  { left. split; [|done]. apply orb_true_iff in En as [?%Z.ltb_lt|?%Z.ltb_lt]; [by left|by right]. }
  assert (¬ negative) as Hneg.
  { apply orb_false_iff in En as [?%Z.ltb_ge ?%Z.ltb_ge]. unfold negative. lia. }
  rewrite (bool_decide_false _ Hc). cbn [orb].
  destruct ((cursor_revision cursor =? u64 (revision o)) && (cursor_fileSequence cursor =? file_sequence (db st))
    && bool_decide (fingerprint cursor = sign)) eqn:Ef; cbn [check mbind result_bind].
  - apply andb_true_iff in Ef as [[Hr%Z.eqb_eq Hf%Z.eqb_eq]%andb_true_iff Hp%bool_decide_eq_true].
    rewrite Hv. cbn [mbind result_bind page_revision page_fileSequence page_files]. split_and!; try done.
    unfold fits. by rewrite Hr, Hf, Hp.
  - right. split_and!; [done| |done]. intros (Hr & Hf & Hp). rewrite Hs in Hp. injection Hp as Hp. subst sign.
    by rewrite Hr, Hf, !Z.eqb_refl, bool_decide_true in Ef.
Qed.

(** C29 Reading the semantic journal page by page always makes progress: whatever
    the byte limit of a page cuts off, every page before the end holds an event, so
    the reader reaches every event of the session (or of all), once and in order. *)
Theorem journal_reader_reaches_every_event st o limit session fuel : system_reachable json_parse st o →
  0 < limit <= 1024 → text session 1024 false = Ok tt → (length (journal o) < fuel)%nat →
  ∃ es, events_all o limit session fuel 0 = Ok es ∧ StronglySorted Z.lt (ontology_sequence <$> es) ∧
    (session = [] → (λ e, (ontology_sequence e, ontology_event e)) <$> es = journal o) ∧
    ∀ e, e ∈ es ↔ (ontology_sequence e, ontology_event e) ∈ journal o ∧
      commits o !! event_revision (ontology_event e) = Some (ontology_session e, ontology_at e) ∧
      (session = [] ∨ ontology_session e = session).
Proof.
  intros [_ Hok]%(system_invariant json_parse parse_dump) Hl Ht Hf.
  pose proof (events_all_shown json_parse _ _ Hok) as Hshown.
  assert (length (events_of o) = length (journal o)) as Hlen by (by rewrite <-Hshown, length_fmap).
  eexists. split; [apply (events_all_pages json_parse (db st)); [done..|]|].
  { unfold later. eapply Nat.le_lt_trans; [apply length_filter|lia]. }
  pose proof (events_ordered json_parse _ _ Hok) as Ho. unfold later.
  assert (∀ e, e ∈ events_of o → 0 < ontology_sequence e) as Hpos by (by intros e He; destruct (events_small json_parse (db st) o e Hok He)).
  split_and!.
  - assert (ordered (filter (λ r : Z * OntologyEvent, 0 < r.1 ∧ session_matches session r.2) (event_key <$> events_of o)))
      as Hof by by apply ordered_filter.
    rewrite filter_keyed in Hof. unfold ordered in Hof. by rewrite <-list_fmap_compose in Hof.
  - intros ->. rewrite <-Hshown. f_equal. apply filter_everything, Forall_forall. intros e He. split; [by apply Hpos|done].
  - intros e. rewrite list_elem_of_filter, elem_of_events. unfold session_matches.
    rewrite orb_True, !bool_decide_spec. split; [tauto|]. intros (Hin & Hc & Hs). split_and!; [|done..].
    by apply Hpos, elem_of_events.
Qed.

(** A traversal shows what its recursive query found, nearest first. *)
Lemma traverse_run st o plan start predicate direction depth limit deleted key d stop :
  system_reachable json_parse st o → (∀ l, plan l ≡ₚ l) → nodeKey start = Ok key →
  text predicate 1024 true = Ok tt → 0 < limit <= 1024 → 0 < depth <= 32 → (∀ n, stop n = false) →
  resourceExists (db st) o start (negb deleted) = Ok tt →
  getProperty json_parse o predicate = Ok (Some d) → property_kind d = KResource →
  let found := walk_rows (step_rows plan (db st) o predicate direction depth deleted)
    (Z.to_nat (maximumTraversalRows + 1)) [(node_key start, 0)] {[(node_key start, 0)]} in
  let near := take (Z.to_nat (limit + 1)) (nearest (node_key start) found) in
  (∀ r, r ∈ near → r.1 ≠ node_key start ∧ 0 < r.2 ∧
     distance (db st) o predicate direction depth deleted (node_key start) r.1 r.2) ∧
  ∃ xs, near = (λ y : OntologyResource * Z, (node_key y.1, y.2)) <$> xs ∧
    traverse json_parse plan (db st) o start predicate direction depth limit deleted stop =
      Ok {| walk_nodes := take (Z.to_nat limit) xs;
            truncated := (negb (bool_decide (near = [])) && (maximumTraversalRows <? len found)) || (limit <? len near) |}.
Proof.
  intros [_ Hok]%(system_invariant json_parse parse_dump) Hplan Hkey Hpre Hlimit Hdepth Hstop Hex Hd Hk found near.
  pose proof (ok_tables _ _ _ Hok) as Hwf. pose proof (nodeKey_ok _ _ Hkey) as ->.
  assert (∀ r, r ∈ near → r.1 ≠ node_key start ∧ 0 < r.2 ∧
    distance (db st) o predicate direction depth deleted (node_key start) r.1 r.2) as Hnear.
  { intros [x n] (i & Hi & _)%elem_of_take. apply list_elem_of_lookup_2 in Hi.
    by apply (near_distance plan Hplan _ _ _ _ _ _ Hwf) in Hi; [|lia]. }
  split; [exact Hnear|]. destruct (shown_fold near) as (xs & Hxs & Enear).
  { intros r Hr. destruct (Hnear r Hr) as (Hne & _ & [[_ Hp] _]).
    by apply (linked_resource plan Hplan _ _ _ _ _ Hwf _ _ _ Hne Hp). }
  exists xs. split; [exact Enear|]. unfold traverse. rewrite Hkey, Hpre. unfold pageLimit.
  rewrite (proj2 (Z.ltb_lt 0 limit)), (proj2 (Z.leb_le limit 1024)), (proj2 (Z.ltb_lt 0 depth)),
    (proj2 (Z.leb_le depth 32)) by lia. cbn [check negb andb mbind result_bind]. unfold watched. rewrite !Hstop.
  rewrite Hex, Hd. cbn [check negb mbind result_bind]. rewrite Hk. rewrite (bool_decide_true (KResource = KResource) eq_refl).
  cbn [check negb mbind result_bind]. cbv zeta. fold found near. rewrite Hxs. cbn [mbind result_bind]. reflexivity.
Qed.

(** C23 A traversal gives each resource with its exact distance, nearest first and
    once, within its depth and its limit; what it leaves out is at least as far away
    as all it shows, and then it says that it was cut off. *)
Theorem traversal_is_exact st o plan start predicate direction depth limit deleted key d stop :
  system_reachable json_parse st o → (∀ l, plan l ≡ₚ l) → nodeKey start = Ok key →
  text predicate 1024 true = Ok tt → 0 < limit <= 1024 → 0 < depth <= 32 → (∀ n, stop n = false) →
  resourceExists (db st) o start (negb deleted) = Ok tt →
  getProperty json_parse o predicate = Ok (Some d) → property_kind d = KResource →
  let links := link (db st) o predicate direction deleted in
  ∃ w, traverse json_parse plan (db st) o start predicate direction depth limit deleted stop = Ok w ∧
    NoDup (walk_nodes w).*1 ∧ StronglySorted (λ a b, a.2 <= b.2) (walk_nodes w) ∧ len (walk_nodes w) <= limit ∧
    (∀ x n, (x, n) ∈ walk_nodes w → x ≠ start ∧ 0 < n <= depth ∧
       nsteps links (Z.to_nat n) (node_key start) (node_key x) ∧
       ∀ m, nsteps links m (node_key start) (node_key x) → n <= Z.of_nat m) ∧
    (∀ x m, x ≠ start → nsteps links m (node_key start) (node_key x) → Z.of_nat m <= depth →
       (∃ n, (x, n) ∈ walk_nodes w) ∨ truncated w = true ∧ ∀ y n, (y, n) ∈ walk_nodes w → n <= Z.of_nat m).
Proof.
  intros Hr Hplan Hkey Hpre Hlimit Hdepth Hstop Hex Hd Hk links.
  destruct (traverse_run st o plan start predicate direction depth limit deleted key d stop Hr Hplan Hkey Hpre Hlimit
    Hdepth Hstop Hex Hd Hk) as (Hnear & xs & Enear & Erun).
  pose proof (ok_tables _ _ _ (proj2 (system_invariant json_parse parse_dump _ _ Hr))) as Hwf.
  set (found := walk_rows _ _ _ _) in *. set (near := take (Z.to_nat (limit + 1)) _) in *.
  eexists. split; [exact Erun|].
  cbn [walk_nodes truncated]. set (conv := λ y : OntologyResource * Z, (node_key y.1, y.2)) in *.
  assert (∀ x n, (x, n) ∈ take (Z.to_nat limit) xs ↔ (node_key x, n) ∈ take (Z.to_nat limit) near) as Hin.
  { intros x n. rewrite Enear, <-fmap_take. split.
    - intros Hx. apply list_elem_of_fmap. by exists (x, n).
    - intros ([x' n'] & E & Hx)%list_elem_of_fmap. unfold conv in E. injection E as E1 E2. apply (inj node_key) in E1.
      cbn [fst] in E1. by subst x' n'. }
  assert (Z.to_nat (limit + 1) = S (Z.to_nat limit)) as Elimit by lia.
  split_and!.
  - apply (NoDup_fmap_1 node_key). rewrite <-list_fmap_compose.
    assert (node_key ∘ fst <$> take (Z.to_nat limit) xs = (take (Z.to_nat limit) near).*1) as ->.
    { rewrite Enear, <-fmap_take, <-list_fmap_compose. done. }
    unfold near. rewrite take_take, fmap_take. eapply sublist_NoDup; [apply nearest_nodup|apply sublist_take].
  - apply near_resources. change (λ y : OntologyResource * Z, (node_key y.1, y.2)) with conv.
    rewrite fmap_take, <-Enear. do 2 apply take_sorted. apply nearest_sorted.
  - rewrite length_take. lia.
  - intros x n Hx%Hin. apply elem_of_take in Hx as (i & Hx & _). apply list_elem_of_lookup_2, Hnear in Hx.
    destruct Hx as (Hne & Hpos & [[Hb Hp] Hmin]). cbn [fst snd] in Hne, Hpos, Hb, Hp, Hmin. split_and!; [by intros ->|done|lia|done|done].
  - intros x m Hne Hm Hmd.
    destruct (walk_shows plan Hplan (db st) o predicate direction depth deleted Hwf (node_key start) ltac:(lia)
      (Z.to_nat (maximumTraversalRows + 1)) (Z.to_nat limit) (node_key x) (Z.of_nat m)) as [[n Hn]|[Hcut Hfar]].
    + unfold maximumTraversalRows. lia.
    + lia.
    + by intros E%(inj node_key).
    + split; cbn [fst snd]; [lia|]. by rewrite Nat2Z.id.
    + left. exists n. apply Hin. by rewrite <-Elimit in Hn.
    + right. rewrite <-Elimit in Hcut, Hfar. fold found near in Hcut, Hfar. split.
      * destruct Hcut as [[Hnil Hfull]|Hmore]; apply orb_true_iff; [left|right].
        -- rewrite bool_decide_false by done. apply Z.ltb_lt. unfold maximumTraversalRows in *. lia.
        -- apply Z.ltb_lt. lia.
      * intros y n Hy. by apply (Hfar (node_key y)), Hin.
Qed.
End properties.
