(* ===== verification/OntologyExamples.v ===== *)
(** A concrete package with a small semantic filesystem, reached by a run of the
    code with the real hash and the JSON parser of the development; the theorems
    about the semantic filesystem are applied to it. *)
From stdpp Require Import relations.
From S2P Require Import Prelude Text Json JsonObject JsonParser Table Closure Sha256 ObjectData ObjectPackage.
From S2P Require Import ObjectStore ObjectInvariant ObjectSteps ObjectSpec ObjectProperties MetadataCodec OntologyData OntologyCodec OntologyStore.
From S2P Require Import OntologyLaws OntologySteps OntologyJournal OntologyReach OntologyQueries OntologyReading OntologyTraversal.
From S2P Require Import OntologyProperties.
Local Open Scope Z_scope.

(** ** The outside *)

#[local] Instance plain_json : SqliteJson :=
  {| json_tree := λ _, None; json_value := λ _, None; json_minify := λ _, [] |}.

(** Two floating-point numbers are enough here. *)
Inductive small_double := Nought | Half.
#[local] Instance small_double_eq_dec : EqDecision small_double.
Proof. solve_decision. Defined.

#[local] Instance small_doubles : Doubles :=
  {| double := small_double; zero := Nought; finite := λ _, true;
     is_zero := λ d, match d with Nought => true | Half => false end;
     double_text := λ d, match d with Nought => lit "0.0" | Half => lit "0.5" end;
     text_double := λ t, if bool_decide (t = lit "0.5") then Half else Nought;
     double_int := λ _, 0 |}.
#[local] Instance small_doubles_laws : DoublesLaws.
Proof. split; try done; by intros []. Qed.

Definition seaside_env (n : Z) : Env :=
  {| random := λ m, [Zbyte n; Zbyte (Z.of_nat m)]; clock := λ m, 1000 * n + Z.of_nat m; commit_error := None |}.

Definition bob : ObjectAuthor :=
  {| origin := lit "https://id.example"; subject := lit "bob"; displayName := lit "Bob"; profile := no_document |}.

Definition free_options : ObjectWriteOptions :=
  {| opt_authorship := None; opt_sourceStamp := []; cancellation := λ _, false |}.

Definition quiet_file (s : bytes) : SourceFile :=
  {| direct := Ok (lit "/src"); regular := true; file_size := len s; last_write := 7; opens := true; content := s;
     bad := false; direct_after := Ok (lit "/src"); file_size_after := len s; last_write_after := 7 |}.

Definition work : bytes := uniqueKey (seaside_env 1) 0 "session-".
Definition picture : bytes := uniqueKey (seaside_env 2) 0 "object-".

Definition box : Store := {| db := fresh_package (lit "box"); container := lit "box"; schema := 5; readOnly := false |}.
Definition box1 : Store := (run (H:=ObjectHash.t) json_parse (BeginSession (seaside_env 1) bob (lit "mac") [] empty_context) box).2.
Definition box2 : Store := (run (H:=ObjectHash.t) json_parse
  (ImportFile (seaside_env 2) (quiet_file (lit "waves")) (lit "a/sea.txt") work free_options) box1).2.

(** ** Two batches *)

Definition place (k : string) (up : list bytes) : OntologyClass :=
  {| class_key := lit k; class_label := lit k; class_description := []; class_parents := up |}.
Definition shows : OntologyProperty :=
  {| property_key := lit "shows"; property_label := []; property_kind := KResource; domainClass := [];
     rangeClass := lit "place"; singleValue := false; acyclic := true |}.
Definition stars : OntologyProperty :=
  {| property_key := lit "stars"; property_label := []; property_kind := KReal; domainClass := lit "photo";
     rangeClass := []; singleValue := true; acyclic := false |}.
Definition north_sea : OntologyEntity :=
  {| entity_key := lit "north sea"; entity_label := []; entity_description := [] |}.
Definition photos_of_the_sea : OntologyQuery :=
  {| query_class := lit "picture"; includeSubclasses := true; includeDeleted := false;
     conditions := [{| condition_property := lit "shows"; equals := Some (VResource (Entity (lit "north sea"))) |};
                    {| condition_property := lit "stars"; equals := None |}] |}.

Definition changes1 : list OntologyChange :=
  [ChangeClass (place "picture" []); ChangeClass (place "photo" [lit "picture"]); ChangeClass (place "place" []);
   ChangeProperty shows; ChangeProperty stars; ChangeEntity north_sea;
   ChangeType (Entity (lit "north sea")) (lit "place") true].
Definition changes2 : list OntologyChange :=
  [ChangeType (File picture) (lit "photo") true;
   ChangeAssertion (File picture) (lit "shows") (VResource (Entity (lit "north sea"))) true;
   ChangeAssertion (File picture) (lit "stars") (VReal Half) true;
   ChangeDirectory (lit "sea/photos") (lit "Sea") photos_of_the_sea].

Definition run_apply (n : Z) (cs : list OntologyChange) (expected : Z) (o : Ontology) : result string Z * Ontology :=
  apply json_parse (db box2) false (seaside_env n) (λ _, false) cs expected work o.
Definition sea1 : Ontology := (run_apply 3 changes1 0 empty_ontology).2.
Definition sea2 : Ontology := (run_apply 4 changes2 1 sea1).2.

Example batches_commit : (run_apply 3 changes1 0 empty_ontology).1 = Ok 1 ∧ (run_apply 4 changes2 1 sea1).1 = Ok 2.
Proof. vm_compute. done. Qed.

Abbreviation seaside_step := (system_step (Hs:=ObjectHash.t) json_parse).
Abbreviation seaside_reachable := (system_reachable (Hs:=ObjectHash.t) json_parse).

Lemma file_step op st o : batch_read op → seaside_step (st, o) ((run (H:=ObjectHash.t) json_parse op st).2, o).
Proof.
  intros Hb. apply step_files. apply (step_run _ op _ _ (run (H:=ObjectHash.t) json_parse op st).1); [exact Hb|].
  apply surjective_pairing.
Qed.

Lemma batch_step n cs expected o : Forall change_fits cs →
  seaside_step (box2, o) (box2, (run_apply n cs expected o).2).
Proof. intros Hf. by eapply step_semantics; [|apply surjective_pairing]. Qed.

Lemma changes_fit : Forall change_fits changes1 ∧ Forall change_fits changes2.
Proof.
  split; [by repeat constructor|]. repeat (apply Forall_cons; split; [done|]).
  apply Forall_singleton. repeat constructor; by intros v [= <-] || by intros v.
Qed.

Lemma sea1_reachable : seaside_reachable box2 sea1.
Proof.
  exists (lit "box"), 1000, box. split; [by vm_compute|].
  eapply rtc_l; [apply (file_step (BeginSession (seaside_env 1) bob (lit "mac") [] empty_context)); done|].
  eapply rtc_l; [apply (file_step (ImportFile (seaside_env 2) (quiet_file (lit "waves")) (lit "a/sea.txt") work free_options)); done|].
  apply rtc_once, batch_step, changes_fit.
Qed.

Lemma sea2_reachable : seaside_reachable box2 sea2.
Proof.
  destruct sea1_reachable as (c & pages & st0 & E & Hs). exists c, pages, st0. split; [done|].
  eapply rtc_r; [exact Hs|]. apply batch_step, changes_fit.
Qed.

(** ** The theorems on this run *)

Lemma ontology_integrity_witness : ∃ document q, directories sea2 !! lit "sea/photos" = Some document ∧
  saved_query json_parse document = Ok q ∧ queryValid json_parse (db box2) sea2 q = Ok tt.
Proof.
  destruct (ontology_integrity (Hash:=ObjectHash.t) json_parse json_parse_dump box2 sea2) as (_ & _ & Hd).
  - exact sea2_reachable.
  - assert (is_Some (directories sea2 !! lit "sea/photos")) as [document Hdoc] by (vm_compute; by eexists).
    destruct (Hd _ _ Hdoc) as (q & Hq). exact (ex_intro _ document (ex_intro _ q (conj Hdoc Hq))).
Defined.

Lemma apply_is_compare_and_swap_witness : ∃ rows, journal sea2 = journal sea1 ++ rows.
Proof.
  destruct (apply_is_compare_and_swap (Hash:=ObjectHash.t) json_parse json_parse_dump box2 sea1 false
    (seaside_env 4) (λ _, false) changes2 1 work (Ok 2) sea2) as (_ & _ & _ & _ & rows & Hj & _).
  - exact sea1_reachable.
  - exact (proj2 changes_fit).
  - rewrite <-(proj2 batches_commit). apply surjective_pairing.
  - by exists rows.
Defined.

Definition batch_of (n : Z) (cs : list OntologyChange) (o : Ontology) : Batch :=
  match changes_loop json_parse (db box2) (λ _, false) 2 n cs (start_batch o) with
  | Ok b => b | Err _ => start_batch o end.

Lemma batch_eq : changes_loop json_parse (db box2) (λ _, false) 2 2 changes2 (start_batch sea1) = Ok (batch_of 2 changes2 sea1).
Proof.
  unfold batch_of. destruct (changes_loop _ _ _ _ _ _ _) as [b|m] eqn:E; [done|].
  assert (match changes_loop json_parse (db box2) (λ _, false) 2 2 changes2 (start_batch sea1) with
    Ok _ => true | Err _ => false end = true) as Hok by by vm_compute.
  by rewrite E in Hok.
Qed.

Lemma incremental_validation_is_complete_witness :
  validateStatements json_parse (hierarchyChanged (batch_of 2 changes2 sea1)) (batch_of 2 changes2 sea1) = Ok tt ↔
  validateStatements json_parse true (batch_of 2 changes2 sea1) = Ok tt.
Proof.
  apply (incremental_validation_is_complete (Hash:=ObjectHash.t) json_parse json_parse_dump box2 sea1 (λ _, false) 2
    changes2 (batch_of 2 changes2 sea1)).
  - exact sea1_reachable.
  - exact (proj2 changes_fit).
  - exact batch_eq.
Defined.

Lemma stored_documents_come_back_witness :
  decodeValue json_parse 3 (lit "0.5") = Ok (VReal Half).
Proof.
  destruct (stored_documents_come_back (H:=small_doubles) json_parse json_parse_dump) as [Hv _].
  apply (Hv (@VReal small_doubles Half) (JReal (lit "0.5")) (lit "0.5")); [done|by vm_compute|by vm_compute].
Defined.

Definition sea_page : OntologyPage :=
  match files (Hs:=ObjectHash.t) json_parse (db box2) sea2 (lit "box") photos_of_the_sea initial_cursor 1 with
  | Ok x => x
  | Err _ => {| page_revision := 0; page_fileSequence := 0; page_files := []; page_next := None |}
  end.

Lemma page_shows_picture : (entry_key <$> page_files sea_page) = [picture].
Proof. vm_compute. reflexivity. Qed.

Lemma sea_page_eq : files (Hs:=ObjectHash.t) json_parse (db box2) sea2 (lit "box") photos_of_the_sea initial_cursor 1 = Ok sea_page.
Proof.
  pose proof page_shows_picture as Hp. unfold sea_page in *. by destruct (files _ _ _ _ _ _ _).
Qed.

Lemma sea_query_fits : query_fits photos_of_the_sea.
Proof. repeat constructor; by intros v [= <-] || by intros v. Qed.

Lemma files_are_exact_witness : ∃ xs,
  files_all (Hash:=ObjectHash.t) json_parse (db box2) sea2 (lit "box") photos_of_the_sea 1 2 initial_cursor = Ok xs.
Proof.
  destruct (files_are_exact (Hash:=ObjectHash.t) json_parse json_parse_dump box2 sea2 (lit "box") photos_of_the_sea 1 2
    sea_page) as (xs & Hxs & _).
  - exact sea2_reachable.
  - exact sea_query_fits.
  - exact sea_page_eq.
  - vm_compute. lia.
  - by exists xs.
Defined.

Lemma stale_cursors_are_refused_witness :
  files (Hs:=ObjectHash.t) json_parse (db box2) sea2 (lit "box") photos_of_the_sea
    {| cursor_revision := 1; cursor_fileSequence := 1; afterIndexKey := 1; fingerprint := [] |} 1
    = Err "stale or mismatched ontology cursor".
Proof.
  pose proof (stale_cursors_are_refused (Hash:=ObjectHash.t) json_parse box2 sea2 (lit "box") photos_of_the_sea
    {| cursor_revision := 1; cursor_fileSequence := 1; afterIndexKey := 1; fingerprint := [] |} 1 sea_page
    ltac:(done) sea_page_eq) as H. cbv zeta in H.
  destruct (files _ _ _ _ _ _ _) as [p|m].
  - exfalso. destruct H as (_ & (Hr & _) & _). vm_compute in Hr. discriminate Hr.
  - destruct H as [[[Hn|Hn] _]|(_ & _ & ->)]; [exfalso; cbn in Hn; lia..|reflexivity].
Defined.

Lemma journal_reader_reaches_every_event_witness : ∃ es, events_all sea2 2 [] 12 0 = Ok es.
Proof.
  destruct (journal_reader_reaches_every_event (Hash:=ObjectHash.t) json_parse json_parse_dump box2 sea2 2 [] 12)
    as (es & Hes & _).
  - exact sea2_reachable.
  - lia.
  - by vm_compute.
  - vm_compute. lia.
  - by exists es.
Defined.

Lemma traversal_is_exact_witness : ∃ w,
  traverse json_parse (λ l, l) (db box2) sea2 (File picture) (lit "shows") Outgoing 3 10 false (λ _, false) = Ok w.
Proof.
  destruct (traversal_is_exact (Hash:=ObjectHash.t) json_parse json_parse_dump box2 sea2 (λ l, l) (File picture)
    (lit "shows") Outgoing 3 10 false (node_key (File picture)) shows (λ _, false)) as (w & Hw & _).
  - exact sea2_reachable.
  - done.
  - by vm_compute.
  - by vm_compute.
  - lia.
  - lia.
  - done.
  - by vm_compute.
  - by vm_compute.
  - done.
  - by exists w.
Defined.
