(* ===== verification/ObjectExamples.v ===== *)
(** A concrete package: one work session, a file that is imported, revised,
    moved and erased, and a RAW original with an annotation.  The theorems about
    the object store are applied to it, so that their hypotheses are seen to
    hold of a run of the code with the real hash. *)
From S2P Require Import Prelude Json MetadataCodec Sha256 Table ObjectData ObjectPackage.
From S2P Require Import ObjectStore ObjectInvariant ObjectSteps ObjectPublish ObjectReach.
From S2P Require Import ObjectValidate ObjectSpec ObjectProperties ObjectKeys ObjectQueries.
Local Open Scope Z_scope.

(** ** The outside *)

(** No JSON document is used, so SQLite's parser is never reached. *)
#[local] Instance no_json : SqliteJson :=
  {| json_tree := λ _, None; json_value := λ _, None; json_minify := λ _, [] |}.

Definition example_env (n : Z) : Env :=
  {| random := λ m, [Zbyte n; Zbyte (Z.of_nat m)]; clock := λ m, 1000 * n + Z.of_nat m;
     commit_error := None |}.

Definition alice : ObjectAuthor :=
  {| origin := lit "https://id.example"; subject := lit "alice"; displayName := lit "Alice";
     profile := no_document |}.

Definition never : ObjectWriteOptions :=
  {| opt_authorship := None; opt_sourceStamp := []; cancellation := λ _, false |}.

(** A regular file that does not change while it is read. *)
Definition steady (s : bytes) : SourceFile :=
  {| direct := Ok (lit "/src"); regular := true; file_size := len s; last_write := 7;
     opens := true; content := s; bad := false; direct_after := Ok (lit "/src");
     file_size_after := len s; last_write_after := 7 |}.

Definition photo : RawMetadata :=
  {| originalName := lit "a.raw"; mediaType := lit "image/x-raw";
     annotations := {| title := lit "A"; description := []; keywords := []; rating := 3;
                       color := Red; fields := []; collections := [] |} |}.

Definition better : FileMetadata :=
  {| title := lit "B"; description := lit "dawn"; keywords := [lit "sky"]; rating := 5;
     color := Blue; fields := []; collections := [] |}.

(** A parser that knows one document. *)
Definition example_parse (s : bytes) : option json :=
  match encodeRawMetadata photo with
  | Ok d => if bool_decide (s = d)
            then Some (raw_value photo (metadata_value (annotations photo))) else None
  | Err _ => None
  end.

Definition ready_target : Destination :=
  {| target := Ok (lit "/out"); occupied := false; lease := Ok tt; staged := true;
     writes := λ _, true; flushed := true; synchronized := true; closed := true; link := Ok tt |}.

(** ** The run *)

Definition session_name : bytes := uniqueKey (example_env 1) 0 "session-".
Definition object_name : bytes := uniqueKey (example_env 2) 0 "object-".
Definition raw_name : bytes := uniqueKey (example_env 3) 0 "object-".

Definition begin_operation : Operation :=
  BeginSession (example_env 1) alice (lit "mac") [] empty_context.
Definition import_operation : Operation :=
  ImportFile (example_env 2) (steady (lit "hello")) (lit "a/b.txt") session_name never.
Definition wrap_operation : Operation :=
  WrapRaw (example_env 3)
    (Ok {| captured_file := steady (lit "pixels"); captured_stamp := lit "{}" |})
    (lit "raw/a.raw") photo session_name never.
Definition revise_operation : Operation :=
  ReviseFile (example_env 4) object_name (steady (lit "hello, world")) 1 session_name never.
Definition move_operation : Operation :=
  Move (example_env 5) object_name (lit "c.txt") 2 session_name never.
Definition annotate_operation : Operation :=
  ReviseMetadata (example_env 6) raw_name better 1 session_name.
Definition erase_operation : Operation := Erase (example_env 7) object_name 3 session_name.

Definition example_run (op : Operation) (st : Store) : Store :=
  (run (H:=ObjectHash.t) example_parse op st).2.

Definition empty_store : Store :=
  {| db := fresh_package (lit "box"); container := lit "box"; schema := 5; readOnly := false |}.
Definition store1 : Store := example_run begin_operation empty_store.
Definition store2 : Store := example_run import_operation store1.
Definition store3 : Store := example_run wrap_operation store2.
Definition store4 : Store := example_run revise_operation store3.
Definition store5 : Store := example_run move_operation store4.
Definition store6 : Store := example_run annotate_operation store5.
Definition store7 : Store := example_run erase_operation store6.

Abbreviation example_step := (step (H:=ObjectHash.t) example_parse).
Abbreviation example_reachable := (reachable (H:=ObjectHash.t) example_parse).

Lemma example_run_step op st : batch_read op → example_step st (example_run op st).
Proof.
  intros Hb. apply (step_run _ op _ _ (run (H:=ObjectHash.t) example_parse op st).1); [exact Hb|].
  apply surjective_pairing.
Qed.

Lemma example_steps :
  example_step empty_store store1 ∧ example_step store1 store2 ∧ example_step store2 store3 ∧
  example_step store3 store4 ∧ example_step store4 store5 ∧ example_step store5 store6 ∧
  example_step store6 store7.
Proof. split_and!; by apply example_run_step. Qed.

Lemma store1_reachable : example_reachable store1.
Proof.
  exists (lit "box"), 1000, empty_store. split; [by vm_compute|].
  apply rtc_once, example_run_step. done.
Qed.

Lemma reachable_later st st' : example_reachable st → example_step st st' → example_reachable st'.
Proof.
  intros (c & pages & st0 & E & Hs) Hstep. exists c, pages, st0. split; [done|].
  by eapply rtc_r.
Qed.

Lemma examples_reachable : example_reachable store2 ∧ example_reachable store3 ∧
  example_reachable store4 ∧ example_reachable store5 ∧ example_reachable store6 ∧
  example_reachable store7.
Proof.
  destruct example_steps as (_ & H2 & H3 & H4 & H5 & H6 & H7).
  pose proof (reachable_later _ _ store1_reachable H2) as R2.
  pose proof (reachable_later _ _ R2 H3) as R3. pose proof (reachable_later _ _ R3 H4) as R4.
  pose proof (reachable_later _ _ R4 H5) as R5. pose proof (reachable_later _ _ R5 H6) as R6.
  pose proof (reachable_later _ _ R6 H7) as R7.
  exact (conj R2 (conj R3 (conj R4 (conj R5 (conj R6 R7))))).
Qed.

Lemma later_steps : rtc example_step store2 store7 ∧ rtc example_step store3 store7 ∧
  rtc example_step store4 store7 ∧ rtc example_step store5 store7.
Proof.
  destruct example_steps as (_ & H2 & H3 & H4 & H5 & H6 & H7).
  pose proof (rtc_once _ _ H7) as S6. pose proof (rtc_l _ _ _ _ H6 S6) as S5.
  pose proof (rtc_l _ _ _ _ H5 S5) as S4. pose proof (rtc_l _ _ _ _ H4 S4) as S3.
  exact (conj (rtc_l _ _ _ _ H3 S3) (conj S3 (conj S4 S5))).
Qed.

(** Every operation of the run succeeds, and failing ones are rejected. *)
Example run_succeeds :
  forallb (λ x, match (run (H:=ObjectHash.t) example_parse x.1 x.2).1 with
                | None => true | Some _ => false end)
    [(begin_operation, empty_store); (import_operation, store1); (wrap_operation, store2);
     (revise_operation, store3); (move_operation, store4); (annotate_operation, store5);
     (erase_operation, store6)] = true.
Proof. vm_compute. reflexivity. Qed.

(** ** The theorems on this run *)

Definition blank : ObjectRecord :=
  record [] 0 0 {| revision_path := []; revision_sha256 := []; revision_size := 0;
    author_origin := []; author_subject := []; author_name := []; revision_session := [];
    at_ns := 0; revision_operation := []; revision_deleted := false; parent_key := [];
    validation_key := []; metadata_format := []; metadata_payload := []; source_stamp := [];
    record_format := 0 |}
    {| session_key := []; session_author := alice; device := []; session_description := [];
       startedAtNs := 0; endedAtNs := 0 |}.

(** The record that was read, or the record that was written. *)
Definition found (x : result string (option ObjectRecord)) : ObjectRecord :=
  match x with Ok (Some r) => r | _ => blank end.
Definition written (x : result string ObjectRecord * Store) : ObjectRecord :=
  match x.1 with Ok r => r | Err _ => blank end.

Definition imported := importFile (H:=ObjectHash.t) (example_env 2) (steady (lit "hello"))
  (lit "a/b.txt") session_name never store1.
Definition wrapped := wrapRaw (H:=ObjectHash.t) (example_env 3)
  (Ok {| captured_file := steady (lit "pixels"); captured_stamp := lit "{}" |})
  (lit "raw/a.raw") photo session_name never store2.
Definition moved := move (H:=ObjectHash.t) (example_env 5) object_name (lit "c.txt") 2
  session_name never store4.

(** The two halves of an outcome: evaluation decides whether it succeeded, and the
    store it leaves is kept unevaluated. *)
Lemma written_eq (x : result string ObjectRecord * Store) :
  match x.1 with Ok _ => true | Err _ => false end = true → x = (Ok (written x), x.2).
Proof. destruct x as [[|] ?]; done. Qed.

Lemma rejected_eq op st m :
  (run (H:=ObjectHash.t) example_parse op st).1 = Some m →
  run (H:=ObjectHash.t) example_parse op st = (Some m, example_run op st).
Proof. intros E. rewrite <- E. apply surjective_pairing. Qed.

Lemma run_import e f p k o st :
  example_run (ImportFile e f p k o) st = (importFile (H:=ObjectHash.t) e f p k o st).2.
Proof. reflexivity. Qed.
Lemma run_wrap e f p m k o st :
  example_run (WrapRaw e f p m k o) st = (wrapRaw (H:=ObjectHash.t) e f p m k o st).2.
Proof. reflexivity. Qed.
Lemma run_move e k p v s o st :
  example_run (Move e k p v s o) st = (move (H:=ObjectHash.t) e k p v s o st).2.
Proof. reflexivity. Qed.

Lemma store2_eq : store2 = imported.2.
Proof. unfold store2, import_operation, imported. apply run_import. Qed.
Lemma store3_eq : store3 = wrapped.2.
Proof. unfold store3, wrap_operation, wrapped. apply run_wrap. Qed.
Lemma store5_eq : store5 = moved.2.
Proof. unfold store5, move_operation, moved. apply run_move. Qed.

Lemma imported_eq : imported = (Ok (written imported), store2).
Proof. rewrite store2_eq. apply written_eq. vm_compute. reflexivity. Qed.
Lemma wrapped_eq : wrapped = (Ok (written wrapped), store3).
Proof. rewrite store3_eq. apply written_eq. vm_compute. reflexivity. Qed.
Lemma moved_eq : moved = (Ok (written moved), store5).
Proof. rewrite store5_eq. apply written_eq. vm_compute. reflexivity. Qed.

Lemma target_accepts : accepting ready_target (lit "/out").
Proof. by repeat split. Qed.

Lemma store_refines_specification_witness : ∃ A, rtc spec_step ∅ A ∧ models (db store7) A.
Proof.
  destruct (store_refines_specification (H:=ObjectHash.t) example_parse store7)
    as (A & HA & HM & _).
  - exact (proj2 (proj2 (proj2 (proj2 (proj2 examples_reachable))))).
  - exists A. exact (conj HA HM).
Defined.

Lemma reachable_store_validates_witness :
  ∃ r, get store7 raw_name 2 = Ok (Some r) ∧
    validate (H:=ObjectHash.t) store7 raw_name 2 true = Ok true.
Proof.
  exists (found (get store7 raw_name 2)). split; [vm_compute; reflexivity|].
  apply (reachable_store_validates (H:=ObjectHash.t) example_parse store7 raw_name 2
    (found (get store7 raw_name 2)) true).
  - exact (proj2 (proj2 (proj2 (proj2 (proj2 examples_reachable))))).
  - unfold UINT64_MAX. lia.
  - vm_compute. reflexivity.
Defined.

Lemma history_is_immutable_witness :
  get store7 object_name 1 = Ok (Some (found (get store2 object_name 1))).
Proof.
  apply (history_is_immutable (H:=ObjectHash.t) example_parse store2 store7 object_name 1
    (found (get store2 object_name 1))).
  - exact (proj1 examples_reachable).
  - exact (proj1 later_steps).
  - unfold UINT64_MAX. lia.
  - vm_compute. reflexivity.
Defined.

Lemma stored_bytes_come_back_witness :
  extract (H:=ObjectHash.t) (example_env 9) (key (written imported)) (version (written imported))
    ready_target store7 = Ok (lit "/out", lit "hello").
Proof.
  apply (stored_bytes_come_back (H:=ObjectHash.t) example_parse store1 store2 store7
    (example_env 2) (example_env 9) [] (steady (lit "hello")) (lit "a/b.txt") 0 session_name never
    (written imported)).
  - exact store1_reachable.
  - left. exact imported_eq.
  - exact (proj1 later_steps).
  - exact target_accepts.
  - reflexivity.
Defined.

Lemma no_lost_update_witness : version (written moved) = 2 + 1.
Proof.
  apply (no_lost_update (H:=ObjectHash.t) example_parse store4 store5 object_name 2
    (written moved)).
  - exact (proj1 (proj2 (proj2 examples_reachable))).
  - exact (by_move _ _ _ _ _ _ _ _ _ _ moved_eq).
Defined.

Lemma lookupPath_exact_witness :
  lookupPath (lit "c.txt") store5 = Ok (Some (found (lookup object_name store5))).
Proof.
  apply (proj2 (lookupPath_exact (H:=ObjectHash.t) example_parse store5 (lit "c.txt")
    (proj1 (proj2 (proj2 (proj2 examples_reachable)))) eq_refl) object_name).
  - vm_compute. reflexivity.
  - vm_compute. reflexivity.
  - vm_compute. reflexivity.
Defined.

Lemma raw_original_is_immutable_witness :
  extract (H:=ObjectHash.t) (example_env 9) raw_name 2 ready_target store7
    = Ok (lit "/out", lit "pixels").
Proof.
  destruct (raw_original_is_immutable (H:=ObjectHash.t) example_parse store2 store3 store7
    (example_env 3) (Ok {| captured_file := steady (lit "pixels"); captured_stamp := lit "{}" |})
    (lit "raw/a.raw") photo session_name never (written wrapped) 2 (found (get store7 raw_name 2)))
    as (captured & E & Hx).
  - exact (proj1 examples_reachable).
  - exact wrapped_eq.
  - exact (proj1 (proj2 later_steps)).
  - unfold UINT64_MAX. lia.
  - vm_compute. reflexivity.
  - vm_compute. reflexivity.
  - injection E as <-. exact (Hx (example_env 9) ready_target (lit "/out") target_accepts eq_refl).
Defined.

Definition alice_session : ObjectSession :=
  {| session_key := session_name; session_author := alice; device := lit "mac";
     session_description := []; startedAtNs := 1000; endedAtNs := 0 |}.

Lemma validation_key_is_evidence_witness :
  evidence (written imported) alice_session (lit "box") [] [] =
    evidence (written imported) alice_session (lit "box") [] [] ∨
  (frame (key_values (written imported) alice_session (lit "box") [] []) ≠
     frame (key_values (written imported) alice_session (lit "box") [] []) ∧
   hash_digest (H:=ObjectHash.t) (frame (key_values (written imported) alice_session (lit "box") [] [])) =
     hash_digest (H:=ObjectHash.t) (frame (key_values (written imported) alice_session (lit "box") [] []))).
Proof.
  apply (validation_key_is_evidence (H:=ObjectHash.t) (written imported) alice_session (lit "box") [] []
    (written imported) alice_session (lit "box") [] [] (validationKey (written imported))).
  - vm_compute. reflexivity.
  - vm_compute. reflexivity.
  - vm_compute. reflexivity.
  - vm_compute. reflexivity.
Defined.

Lemma scan_visits_every_object_once_witness :
  ∃ rs, scan_all 3 0 1 true store7 = Ok rs ∧ NoDup (key <$> rs).
Proof.
  destruct (scan_visits_every_object_once (H:=ObjectHash.t) example_parse store7 3 1 true)
    as (rs & E & Hn & _).
  - exact (proj2 (proj2 (proj2 (proj2 (proj2 examples_reachable))))).
  - lia.
  - vm_compute. reflexivity.
  - exists rs. exact (conj E Hn).
Defined.

Lemma history_is_complete_witness :
  ∃ rs, history_all object_name 5 0 2 store7 = Ok rs ∧ ∀ v, v ∈ version <$> rs ↔ 1 <= v <= 4.
Proof.
  destruct (history_is_complete (H:=ObjectHash.t) example_parse store7 5 2 object_name
    (found (lookup object_name store7))) as (rs & E & _ & Hv & _).
  - exact (proj2 (proj2 (proj2 (proj2 (proj2 examples_reachable))))).
  - lia.
  - vm_compute. reflexivity.
  - vm_compute. reflexivity.
  - exists rs. exact (conj E Hv).
Defined.

Lemma index_is_the_projection_of_scan_witness :
  index 0 10 true store7 =
    match scan 0 10 true store7 with Ok rs => Ok (index_of <$> rs) | Err m => Err m end.
Proof.
  apply (index_is_the_projection_of_scan (H:=ObjectHash.t) example_parse store7 0 10 true).
  exact (proj2 (proj2 (proj2 (proj2 (proj2 examples_reachable))))).
Defined.

Lemma journal_is_complete_witness :
  ∃ es, journal_all object_name [] 10 0 2 store7 = Ok es ∧
    StronglySorted Z.lt (journal_sequence <$> es).
Proof.
  destruct (journal_is_complete (H:=ObjectHash.t) example_parse store7 10 2 object_name [])
    as (es & E & Hs & _).
  - exact (proj2 (proj2 (proj2 (proj2 (proj2 examples_reachable))))).
  - lia.
  - vm_compute. reflexivity.
  - reflexivity.
  - vm_compute. reflexivity.
  - exists es. exact (conj E Hs).
Defined.

Definition entries (x : result string (list ObjectJournalEntry)) : list ObjectJournalEntry :=
  match x with Ok es => es | Err _ => [] end.

Lemma journal_is_append_only_witness :
  entries (journal_all [] [] 10 0 2 store3) `prefix_of` entries (journal_all [] [] 10 0 3 store7).
Proof.
  apply (journal_is_append_only (H:=ObjectHash.t) example_parse store3 store7 10 10 2 3 [] []).
  - exact (proj1 (proj2 examples_reachable)).
  - exact (proj1 (proj2 later_steps)).
  - lia.
  - lia.
  - vm_compute. reflexivity.
  - vm_compute. reflexivity.
  - vm_compute. reflexivity.
  - vm_compute. reflexivity.
Defined.

Definition changes (x : result string (list ObjectChange)) : list ObjectChange :=
  match x with Ok cs => cs | Err _ => [] end.

Lemma diff_is_reversible_witness :
  ∃ before after, chunks store7 object_name 2 = Ok after ∧
    patch after_side (changes (diff (example_env 9) object_name 2 store7)) before = after.
Proof.
  destruct (diff_is_reversible (H:=ObjectHash.t) example_parse store7 (example_env 9) object_name 2
    (changes (diff (example_env 9) object_name 2 store7)))
    as (before & after & _ & Ha & Hp & _).
  - exact (proj2 (proj2 (proj2 (proj2 (proj2 examples_reachable))))).
  - lia.
  - vm_compute. reflexivity.
  - exists before, after. exact (conj Ha Hp).
Defined.
