(* ===== verification/PackagerExamples.v ===== *)
(** A concrete tree of two files that is inventoried, packaged in one batch and
    audited, with the real hash: the theorems about the pipeline apply to it. *)
From stdpp Require Import relations list.
From S2P Require Import Prelude Json Sha256 Table ObjectData ObjectPackage ObjectStore.
From S2P Require Import ObjectSpec ObjectProperties ObjectExamples.
From S2P Require Import ObjectSource WorkerPool ObjectBatchRead ObjectInventory Proc ObjectPackager.
From S2P Require Import ObjectAudit AuditLaws PackagerProperties.
Local Open Scope Z_scope.

#[local] Instance no_json : SqliteJson :=
  {| json_tree := λ _, None; json_value := λ _, None; json_minify := λ _, [] |}.

(** ** The outside *)

(** Two files below [/home/docs]. *)
Definition file_bytes (source : list bytes) : bytes :=
  if bool_decide (last source = Some (lit "a.txt")) then lit "hello" else lit "hello, world".

Definition look_at (p data : bytes) : Inspection :=
  {| seen_path := Ok p; parent_opens := Ok tt;
     metadata := Some {| st_regular := true; st_size := len data; st_dev := 1; st_ino := len data; m_sec := 5; m_nsec := 6;
                         c_sec := 7; c_nsec := 8 |} |}.

Definition source_name (source : list bytes) : bytes := join (lit "/") source.

Definition look_source (source : list bytes) : Inspection := look_at (source_name source) (file_bytes source).

Definition capture_of (source : list bytes) : Capture :=
  {| capture_stop := λ _, false; source_path := Ok (source_name source); staging_path := Ok (lit "/pkg/staging");
     staging_is_directory := true; source_opens := Ok tt; opened := metadata (look_source source); capture_lease := Ok tt;
     created := λ _, Ok true; prepared_directory := Ok tt; output_opens := true; reads := [ReadBytes (file_bytes source)];
     writes := []; prepared_file := Ok tt; reopened := metadata (look_source source); inspected := look_source source |}.

(** The staging directory has room for 4 GiB. *)
Definition look_snapshot (s : Snapshot) : Inspection :=
  let look := look_at (lit "/pkg/staging/1/payload") (payload_file s) in
  {| seen_path := seen_path look; parent_opens := parent_opens look;
     metadata := if len (payload_file s) <? 2 ^ 32 then metadata look else None |}.

Definition quiet_world : Outside :=
  {| stops := λ _, false; looks := λ _, look_source; captures := λ _, capture_of; spaces := λ _, 2 ^ 40;
     authors := λ _ _, Ok None; told := λ _ _ _, Ok tt; envs := λ n, example_env (100 + Z.of_nat n); polls := λ _ _, false;
     snapshot_files := λ _ s, steady (payload_file s);
     snapshot_reads := λ _ s, {| input_stop := λ _, false; seen := look_snapshot s; stream_opens := true;
                                 stream := payload_file s; seen_again := look_snapshot s |};
     published := λ _ s, look_snapshot s |}.

Definition audit_world : AuditOutside :=
  {| world := quiet_world;
     streams := λ _ s, {| audit_opens := true; audit_bytes := payload_file s; audit_bad := false; audit_stop := λ _, false |};
     audited := λ _ _ _, Ok tt |}.

Definition ready_staging : Staging :=
  {| directory_direct := true; staging_exists := Ok false; staging_created := Ok tt; staging_direct := true;
     staging_private := Ok tt; staging_lease := Ok tt |}.

(** ** The tree *)

Definition example_tree : MappedTree :=
  {| mapping := {| prefix := lit "docs"; root := [lit "home"; lit "docs"]; excludedTopLevel := [lit "cache"] |};
     root_available := true; root_failure := None;
     contents :=
       [Node (lit "sub") (Ok DirectoryKind) [Node (lit "b.txt") (Ok RegularFile) [] None] None;
        Node (lit "cache") (Ok DirectoryKind) [Node (lit "c.txt") (Ok RegularFile) [] None] None;
        Node (lit ".iisacc-temporary.lock") (Ok RegularFile) [] None;
        Node (lit "a.txt") (Ok RegularFile) [] None];
     root_ends := None |}.

Definition example_inventory_result : result string ObjectInventory :=
  inventory_in_order (H:=ObjectHash.t) [example_tree] (λ _, false) false look_source.

Definition example_inventory : ObjectInventory :=
  match example_inventory_result with
  | Ok inv => inv
  | Err _ => {| inventory_entries := []; inventory_issues := []; totalBytes := 0 |}
  end.

Example inventory_paths : logicalPath <$> inventory_entries example_inventory = [lit "docs/a.txt"; lit "docs/sub/b.txt"].
Proof. by vm_compute. Qed.

Definition package_result : result string ObjectPackagingReport * Store :=
  package (H:=ObjectHash.t) quiet_world ready_staging [lit "pkg"] example_inventory session_name false 256 store1.

Example package_imports : match package_result with
  | (Ok rep, _) => (report_imported rep, report_revised rep, report_skipped rep, length (report_issues rep)) = (2, 0, 0, 0%nat)
  | _ => False
  end.
Proof. by vm_compute. Qed.

(** Packaged again, everything is skipped; a single-file run gives the same report. *)
Example package_again : match package (H:=ObjectHash.t) quiet_world ready_staging [lit "pkg"] example_inventory session_name
                              false 1 package_result.2 with
  | (Ok rep, _) => (report_imported rep, report_skipped rep, length (report_issues rep)) = (0, 2, 0%nat)
  | _ => False
  end.
Proof. by vm_compute. Qed.

(** ** The theorems at this run *)

Lemma example_paths_distinct : NoDup (logicalPath <$> inventory_entries example_inventory).
Proof. apply (bool_decide_eq_true_1 (NoDup (logicalPath <$> inventory_entries example_inventory))). by vm_compute. Qed.

Definition packaged_store : Store := package_result.2.

Lemma packaged_reachable : reachable (H:=ObjectHash.t) example_parse packaged_store.
Proof.
  eapply reachable_steps; [exact store1_reachable|].
  apply (package_steps (H:=ObjectHash.t) example_parse quiet_world ready_staging [lit "pkg"] example_inventory session_name
    false 256 store1 package_result.1); [exact store1_reachable|apply surjective_pairing].
Qed.

Lemma snapshots_are_read_back : snapshots_read_back (H:=ObjectHash.t) audit_world.
Proof.
  split; [done|done|]. intros n s i E. cbn [world audit_world snapshot_reads quiet_world seen] in E.
  unfold inspect, look_snapshot in E. cbn [seen_path parent_opens metadata look_at mbind result_bind] in E.
  destruct (Z.ltb_spec (len (payload_file s)) (2 ^ 32)); [|done]. cbn [of_option mbind result_bind] in E.
  unfold statIdentity in E. apply bind_ok in E as ([] & _ & E). apply bind_ok in E as (h & _ & [= <-]).
  cbn [identity_size st_size]. apply u64_small. unfold UINT64_MAX. lia.
Qed.

Lemma package_is_complete_witness :
  rtc (step (H:=ObjectHash.t) example_parse) store1 packaged_store ∧
  ∃ o, lookupPath (lit "docs/a.txt") packaged_store = Ok (Some o).
Proof.
  destruct (package_is_complete (H:=ObjectHash.t) example_parse quiet_world ready_staging [lit "pkg"] example_inventory
    session_name false 256 store1 package_result.1 package_result.2) as (Hs & _ & Hdone).
  - exact store1_reachable.
  - exact example_paths_distinct.
  - exact (surjective_pairing package_result).
  - split; [exact Hs|]. destruct package_result.1 as [rep|m] eqn:E; [|exfalso; revert E; vm_compute; discriminate].
    destruct (Hdone rep eq_refl) as (_ & Hst & _).
    + change (match Ok (E:=string) rep with Ok x => report_issues x | Err _ => [] end = []). rewrite <-E. vm_compute. reflexivity.
    + change (match Ok (E:=string) rep with Ok x => report_cancelled x | Err _ => true end = false). rewrite <-E. vm_compute. reflexivity.
    + destruct (inventory_entries example_inventory) as [|e l] eqn:Ee; [exfalso; revert Ee; vm_compute; discriminate|].
      destruct (Hst e) as (o & Ho & _); [left|]. exists o. replace (lit "docs/a.txt") with (logicalPath e); [exact Ho|].
      change (match e :: l with x :: _ => logicalPath x | [] => [] end = lit "docs/a.txt"). rewrite <-Ee. vm_compute. reflexivity.
Defined.

Lemma look_source_errors source : inspect (H:=ObjectHash.t) (look_source source) ≠ Err EmptyString.
Proof.
  unfold inspect, look_source, look_at. cbn [seen_path parent_opens metadata mbind result_bind of_option]. unfold statIdentity.
  destruct (check _ _) as [[]|m] eqn:Ec; cbn [mbind result_bind].
  - rewrite hash_run_spec. intros E. destruct (_ <=? _) in E; cbn [mbind result_bind] in E; [discriminate E|]. injection E as E. vm_compute in E. discriminate E.
  - unfold check in Ec. destruct (_ && _); [done|]. by injection Ec as <-.
Qed.

Lemma inventory_is_exact_witness :
  StronglySorted entry_le (inventory_entries example_inventory) ∧ totalBytes example_inventory <= UINT64_MAX.
Proof.
  destruct (inventory_is_exact (H:=ObjectHash.t) [example_tree] (λ _, false) false 0 4 look_source example_inventory)
    as (Hs & _ & Ht & _).
  - apply inventory_alone. vm_compute. reflexivity.
  - vm_compute. reflexivity.
  - exact look_source_errors.
  - exact (conj Hs Ht).
Defined.

Definition audit_report_of : result string ObjectAuditReport :=
  audit (H:=ObjectHash.t) audit_world ready_staging example_inventory packaged_store.

Lemma audit_is_sound_witness :
  ∃ rep, audit_report_of = Ok rep ∧ verified rep = 2 ∧
    ∀ e, e ∈ inventory_entries example_inventory → mirrored (H:=ObjectHash.t) audit_world packaged_store e.
Proof.
  destruct (audit_is_sound (H:=ObjectHash.t) example_parse audit_world ready_staging example_inventory packaged_store)
    as (rep & E & Hclean).
  - exact packaged_reachable.
  - exact snapshots_are_read_back.
  - reflexivity.
  - reflexivity.
  - reflexivity.
  - exact example_paths_distinct.
  - destruct Hclean as (Hv & Hm & _).
    + change (match Ok (E:=string) rep with Ok x => audit_issues x | Err _ => [] end = []). rewrite <-E. vm_compute. reflexivity.
    + change (match Ok (E:=string) rep with Ok x => audit_cancelled x | Err _ => true end = false). rewrite <-E. vm_compute. reflexivity.
    + exists rep. split; [exact E|]. split; [rewrite Hv; vm_compute; reflexivity|exact Hm].
Defined.
